(* ===== verification/_CoqProject ===== *)
-Q . S2P
Prelude.v
BytesOrder.v
StdSet.v
Archive.v
Path.v
DirTree.v
Host.v
Packet.v
Ssh.v
TcpMessager.v
Channel.v
MasterLoop.v
UserFs.v
Group.v
Handshake.v
Totality.v
SlaveLoop.v
Buffers.v
Consistency.v
Streams.v
Receivers.v
System.v
SystemInv.v
Convergence.v
Delivery.v
Races.v
Fuse.v
Objects.v
Lifetime.v
Startup.v
Shutdown.v
Threads.v
ConcurrentReads.v
Listing.v
HostRace.v
Ownership.v
InitDirTree.v
OptionParser.v
Main.v
EndToEnd.v
HostIds.v
