(* ===== verification/Prelude.v ===== *)
(** * Group-Share Filesystem: a verification development

    Group-Share Filesystem (src/src) mounts the working directories of several
    hosts as one read-only file system.  One host is the master; the others
    (stand-by nodes, "slaves") connect to it over TCP and send it the tree of
    their files.  The master gives each an id, merges its tree into the
    group's, and sends the merged tree and the table of hosts to everyone.
    FUSE callbacks answer from the tree; the contents of a file are read from
    the disk or, for a file of another host, over SFTP.

    ** The parts of the program and the files that model them

    - [Prelude] (this file): byte strings, machine integers, and [outcome], the
      result of a C++ function: a value, an exception, a failed assertion or
      undefined behaviour.  It also holds the tactics [inv_bind], [run] and
      [by_decide] and the hint database [gsfs].
    - [BytesOrder]: bytes_order.h, the twelve functions that put integers into
      byte strings and read them back.
    - [StdSet]: [std::set] ordered by a string key, as the list of its elements.
    - [Archive], [Path]: what the program uses of Boost.Serialization and of
      boost::filesystem::path, as classes of operations ([TextArchive],
      [BoostPath]) and of their documented laws ([TextArchiveOk],
      [BoostPathOk]), each with a concrete instance.
    - [DirTree]: dir_tree.h and dir_tree.cc; module [TreeNode] is
      [DirTree::TreeNode], a tree is an [option] of its root.
    - [Host]: host.h; modules [Host] and [Hosts].
    - [Packet]: class Packet of tcp_messager.h, and in module [Protocol] the
      three messages with the parsers of the two [TCPManager::read].
    - [Ssh]: libssh_wrapper.h/.cc and ssh_manager.h; libssh is the class [LibSSH].
    - [TcpMessager]: tcp_messager.h/.cc.  Modules [Master] and [Slave] are the
      two messagers.  Their state includes the asynchronous operations that are
      under way and the handlers that wait for the network thread.  What a
      messager needs of its owner is the classes [MasterOwner], [MasterReader]
      and [SlaveOwner].
    - [Channel]: a stream of framed packets between two nodes: what was written,
      what is on the wire, what the reader has taken ([channel]).
    - [MasterLoop]: the event loop of a master as a step relation [step]
      (an operation completes as Boost.Asio documents, or the thread runs a
      ready handler), with the executable schedules [play].  Its invariant [Inv]
      is proved for every owner that satisfies the interface [MasterOwnerOk].
    - [UserFs]: user_fs.h/.cc and tcp_manager.h/.cc.  [Node.t] is the state of
      one process; [newConnection], [master_disconnect], [slaveRecognized],
      [updateInfo] and [slave_disconnect] are the members of the same names;
      [initTCPNetwork] is in two parts, up to the start of the network thread and from
      there on.  The instances [node_owner], [node_reader], [node_slave]
      make it the owner of its messagers.
    - [Group], [Handshake]: the theorems on a running master and on the protocol.
    - [Totality]: when a handler of the master cannot fail.
    - [SlaveLoop]: the event loop of a slave as a step relation [slave_step] with
      its invariant [SInv], its interface [SlaveOwnerOk], and when a handler of a
      slave cannot fail.
    - [Buffers]: what a step does to the memory of operations that are under way.
    - [Consistency]: what is on its way to a slave, when posted writes are handled
      in the order they were posted.
    - [Streams], [Receivers]: what a step of the master puts on each connection, as
      messages and what a slave learns from them ([learn], [moved]); where a reader
      stands between two frames ([slave_at], [master_at]).  The classes [Vouching]
      and, in SystemInv, [Speaking] are properties of the messages of either side
      that are followed along the streams; HostIds chooses them.
    - [System]: a master and any number of slaves with the byte streams between
      them as one transition system [sys_step]: handlers of either side in any
      order, operations that complete with pieces of the streams, connections that
      are accepted, break and fail, main threads of slaves that post their join; with
      the executable schedules [sys_play].  [SystemInv] is its invariant, [Convergence]
      and [Delivery] its theorems.
    - [Races]: schedules the program does not guard against.
    - [Fuse]: fuse_interface.h/.cc and [UserFS::read].
    - [Objects]: the directory tree again, as objects with identities: which
      operation of dir_tree.cc begins and ends the lifetime of which node, and what
      a pointer returned by [find] still points to.
    - [Lifetime]: the callbacks split into lookup and use, with any run of the
      network thread in between ([history], [slave_history]).
    - [Startup]: what handlers of a master may change before its main thread has
      registered the master's own host.
    - [Shutdown]: the end of the program; [EventLoop] is the interface of an event
      loop that both messagers implement.
    - [Threads]: functions that other threads may interrupt, as sequences of atomic
      actions on a shared state ([thread]), schedules ([race]), threads on
      separate parts of the state ([zoom], [follows], [race_separate]), and containers
      that are used without a lock: an operation begins and ends ([reading],
      [changing]), and one that changes the container during another operation is a
      data race, which is undefined.
    - [ConcurrentReads]: [UserFS::read] and SSHSession as threads, because FUSE calls
      them from several and they take no lock.
    - [Listing]: the loop of [readdir] over the root as a thread beside the network
      thread, which inserts and erases elements one by one.
    - [HostRace]: [UserFS::read], and the master's main thread, as threads beside the
      network thread, which changes the host table: a vector with its capacity and
      references into its storage.
    - [Ownership]: [DirTree] as what it is, a pointer that the destructor deletes and
      that copies share, and the callbacks that construct and destroy one.
    - [InitDirTree]: [UserFS::initDirTree]; boost::filesystem is [FileSystem].
    - [OptionParser]: option_parser.h/.cc; boost::program_options is
      [ProgramOptions].
    - [Main]: gsfs.cc, up to the start of the network thread ([main]) and step by step
      from there on ([main_next]).
    - [EndToEnd]: nodes started by [main], connected and mounted: Main, System,
      Delivery and Fuse together, with the step of the master's main thread
      ([group_step]).
    - [HostIds]: the same group while it is not at rest: what the ids and the files
      that a node has at any time stand for.

    ** What the theorems show

    - Data.  The codecs and their ranges (BytesOrder); the tree keeps its
      invariant under every operation, [find] is lookup by names, and merge and
      removal do to lookups what they should (DirTree); trees, host tables and
      messages survive serialisation and framing (DirTree, Host, Packet).
    - The master.  From any command line that starts a master, and if no client is
      admitted before its main thread has registered its own host (Main), for every
      sequence of network events and handlers the host table, ids and tree stay in
      order (Group); every open connection has one read and at most
      one write under way and sends its queue in order (Group), and each step is
      a join or a leave of an abstract group (Handshake): a refinement of a
      finite map of names to files.  A handler returns normally on all but
      three kinds of input (Totality).  The memory of a read or write under way is
      left alone until it completes, unless the connection is closed (Buffers).
    - A slave.  One connect or read and at most one write are under way, a
      completed write is that of the front of the queue, and a handler returns
      normally on all but two kinds of input (SlaveLoop).
    - The protocol.  The handshake leaves master, new slave and every other node
      with the same files and hosts; closing a connection removes that host's
      files; a slave's main thread waits exactly until it is recognised or
      refused; a slave that is cut off keeps its own files (Handshake).  The
      packets on their way to a slave end with the current state of the group, so
      a slave that has read them agrees with the master (Consistency).
    - The connected group.  From the start of a master that has registered its own
      host, and its slaves, for every interleaving and every way the network cuts the streams: no handler of any
      node fails, but for one race ([Convergence.connected_group_safe]); what is
      under way to a slave takes it to the master's files, hosts and the id the
      master recorded ([Convergence.slave_converges]); delivery ends
      ([Delivery.delivery_terminates]) and where it has ended the group agrees
      ([Delivery.delivery_ends_in_agreement]).
    - The group as a whole.  In a group whose nodes [main] started, with the master's
      main thread as one of the threads, and in every run in which nobody is admitted
      before it has registered the master's own host ([EndToEnd.nobody_early], which the
      program does not enforce; [Main.early_clients_shift_table] says what happens
      otherwise): once nothing is left to deliver, a recognised slave lists, reports and opens the same files as
      the master, and either reads a file of another host from the host that owns it
      ([EndToEnd.group_serves_same_files]).  At any other time a node may be behind
      the master, but the host entry it has for the id of a file is the one the master
      has for it, then and for ever after ([HostIds.no_read_misdirected]), and the
      file is one that a node with that working directory had at that path when it
      was started ([HostIds.every_file_has_its_machine], where slaves announce
      themselves before they take over an update).
    - The file system.  The scan of the working directory mirrors the disk
      (InitDirTree); listing, attributes and lookup agree; reads return the
      requested bytes, locally, and remotely except where a new session cannot connect,
      which is undefined; and the errors are as intended (Fuse, Ssh).
    - Callbacks and the network thread.  A callback that is overtaken by the
      network thread goes on as if it had not been, unless the node it found was
      removed, and the theorems of Lifetime say exactly when that is: on a master
      when the owner of the file left, on a slave after every update.  A listing of
      the root races with joins, and is undefined when the element it is at is removed
      (Listing); a read races with every change of the host table (HostRace).
    - Several callbacks at once.  Reads through the existing sessions of two hosts end
      as if each were alone; a first read races with every other read, and two reads
      through one session can take each other's bytes (ConcurrentReads).
    - Memory.  Every root of a tree that is received is deleted once, and nothing else
      is, when the compiler constructs trees in place (Ownership).
    - The end.  The network thread that the destructor of TCPManager joins ends
      after a bounded number of handlers ([Shutdown.shutdown_ends]).
    - Limits.  Where the program does not do what it means to, a theorem says
      exactly what it does: conflicts that are never found (DirTree, Handshake),
      a codec that loses a byte (BytesOrder), uninitialised pointers (Ssh, Fuse),
      a start that is not synchronised (Main), races (Races, ConcurrentReads), nodes freed while in use (Lifetime, Listing),
      host entries that move while they are read (HostRace), trees that share a root
      (Ownership), packets freed while they are written (Buffers), and failures that
      go unnoticed (Main, Fuse, InitDirTree).

    ** Bounds and fuel

    Integers are [Z] with the conversions of the source written out ([u64],
    [s32], ...).  [DirTree.hasConflict_loop] has fuel for one round per element
    of the two sets, which is proved to be enough.
    [InitDirTree.traverseDirectory] has one unit of fuel per nested call, the
    depth of the stack; running out is [StackOverflow], and as many units as the
    directory has levels are proved to be enough.  The invariant of the host
    table is stated for fewer than 2^64 hosts, where ids do not wrap; the
    messages of the handshake for lengths below 2^48, where the 64-bit codec is
    exact; the connected group asks the same of every tree and host table
    ([Streams.fits], [System.sys_fits]), and that a message fits a vector.
    [Delivery.work] bounds delivery: it counts packets posted, queued and half
    sent, bytes on the wire, operations under way and handlers to run, each with
    the weight of what it can still cause.  [Listing.listing] has one unit of fuel
    per element; as many as the set has elements are proved to be enough for a listing
    that is alone, and the theorem on races holds for every fuel.

    ** What is not modelled

    Blocks under the lock [_access] are atomic, and so is one handler of the
    event loop and one use of a pointer by a callback; the main thread's own steps
    and the FUSE callbacks are interleaved explicitly where they matter (Races,
    [SlaveLoop.slave_post], [System], [EndToEnd.group_step], Lifetime, Listing,
    ConcurrentReads, HostRace).  Containers that several threads use without a lock are
    the session table, the host table and the children of the root; operations on them
    that overlap are data races in ConcurrentReads, HostRace and Listing.  The other
    files do not look for data races: in System, EndToEnd and HostIds the registration
    of the master's host is one step, and in Lifetime a callback's use of a node is one.
    In System the handlers that a node posts to itself run in the order they were posted,
    as Boost.Asio runs them on one thread; in Shutdown all handlers run in the order
    in which they became ready.  An exception that leaves a handler ends the process
    (the network thread catches none), so what destructors do meanwhile is not
    modelled; nor is what is printed.  The address of a host is
    what the network reports of the connection, so HostIds does not say that it is the
    address of the machine whose files come with it.
    Boost, libssh, FUSE, the file system and the command line splitter are
    parameters: theorems hold for every behaviour of them, or for those with the
    documented laws that are named as hypotheses.  Every function of src/src is
    modelled; the remaining lines are declarations, include lines and comments.
    The scripts under test/ only start processes.  *)

From Stdlib Require Export Ascii String ZArith Lia.
From stdpp Require Export base list strings gmap numbers relations.

#[global] Open Scope Z_scope.

(** ** Byte strings

    [std::string], [std::vector<char>] and every buffer of the program are
    sequences of 8-bit characters. *)

Notation bytes := (list ascii) (only parsing).

(** A literal of the source as a byte string. *)
Definition str (s : string) : bytes := String.list_ascii_of_string s.

(** [(uint8_t) z]: the low eight bits of an integer, as a character. *)
Definition u8 (z : Z) : ascii := ascii_of_N (Z.to_N (z mod 256)).

(** A character read through a [uint8_t*]. *)
Definition of_u8 (c : ascii) : Z := Z.of_N (N_of_ascii c).

(** The NUL character. *)
Definition nul : ascii := u8 0.

Arguments str : simpl never.
Arguments u8 : simpl never.
Arguments of_u8 : simpl never.

(** Length as the [size_t] the program computes with. *)
Definition len {A} (l : list A) : Z := Z.of_nat (List.length l).

(** Conversions to the unsigned and signed integer types of the program. *)
Definition wrap (w z : Z) : Z := z mod 2 ^ w.

Definition u16 (z : Z) : Z := wrap 16 z.

Definition u32 (z : Z) : Z := wrap 32 z.

Definition u64 (z : Z) : Z := wrap 64 z.

Definition swrap (w z : Z) : Z := (z + 2 ^ (w - 1)) mod 2 ^ w - 2 ^ (w - 1).

Definition s32 (z : Z) : Z := swrap 32 z.

Definition s64 (z : Z) : Z := swrap 64 z.

(** ** Outcomes of a C++ function

    A call returns, throws, hits a failing [assert], or has undefined
    behaviour; nothing of the state survives the last three, because the
    callers under src/ either end the process or let it be ended. *)

Inductive fault :=
  | OutOfBounds     (** an access outside the object it starts from *)
  | NullDeref       (** a member of a null pointer *)
  | Indeterminate   (** use of a pointer that was never initialised *)
  | EmptyFront      (** [front()] of an empty container *)
  | Dangling        (** use of an object whose lifetime has ended *)
  | DataRace        (** a write by one thread during an access by another *)
  | StackOverflow.  (** more nested calls than the stack holds *)

Inductive outcome (A : Type) :=
  | Ret (a : A)
  | Exn (what : bytes)
  | AssertFailed
  | Undef (f : fault).

Arguments Ret {_} _.
Arguments Exn {_} _.
Arguments AssertFailed {_}.
Arguments Undef {_} _.

#[global] Instance outcome_ret : MRet outcome := λ A a, Ret a.
#[global] Instance outcome_bind : MBind outcome := λ A B f m,
  match m with
  | Ret a => f a
  | Exn w => Exn w
  | AssertFailed => AssertFailed
  | Undef e => Undef e
  end.
#[global] Instance outcome_fmap : FMap outcome := λ A B f m,
  match m with
  | Ret a => Ret (f a)
  | Exn w => Exn w
  | AssertFailed => AssertFailed
  | Undef e => Undef e
  end.

(** Dereference of a pointer that may be null. *)
Definition deref {A} (p : option A) : outcome A :=
  match p with Some a => Ret a | None => Undef NullDeref end.

(** [v[i]] and [*(p + i)]: undefined outside the object. *)
Definition at_ {A} (l : list A) (i : nat) : outcome A :=
  match l !! i with Some a => Ret a | None => Undef OutOfBounds end.

(** [p + n] for a pointer to the rest [l] of an object. *)
Definition advance {A} (n : Z) (l : list A) : outcome (list A) :=
  if (0 <=? n) && (n <=? len l) then Ret (drop (Z.to_nat n) l)
  else Undef OutOfBounds.

(** [std::string(p, n)] for a pointer to the rest [l] of an object. *)
Definition sub_string {A} (l : list A) (n : Z) : outcome (list A) :=
  if (0 <=? n) && (n <=? len l) then Ret (take (Z.to_nat n) l)
  else Undef OutOfBounds.

(** ** Laws of the monad and inversion of its computations *)

Lemma bind_Ret {A B} (f : A → outcome B) (a : A) : (Ret a ≫= f) = f a.
Proof. done. Qed.

Lemma bind_Ret_inv {A B} (f : A → outcome B) (m : outcome A) b :
  m ≫= f = Ret b → ∃ a, m = Ret a ∧ f a = Ret b.
Proof. destruct m; naive_solver. Qed.

Lemma bind_assoc {A B C} (m : outcome A) (f : A → outcome B) (g : B → outcome C) :
  (m ≫= f) ≫= g = m ≫= (λ a, f a ≫= g).
Proof. by destruct m. Qed.

Lemma deref_Ret {A} (p : option A) a : deref p = Ret a ↔ p = Some a.
Proof. destruct p; naive_solver. Qed.

Lemma at_Ret {A} (l : list A) i a : at_ l i = Ret a ↔ l !! i = Some a.
Proof. unfold at_. destruct (l !! i); naive_solver. Qed.

(** Splits every [Ret] hypothesis of the shape [m ≫= f = Ret b]. *)
Ltac inv_bind :=
  repeat match goal with
  | H : mbind _ _ = Ret _ |- _ =>
      let a := fresh "a" in let Ha := fresh "H" a in
      apply bind_Ret_inv in H as (a & Ha & H)
  | H : (let '(_, _) := ?x in _) = Ret _ |- _ => is_var x; destruct x
  | H : deref _ = Ret _ |- _ => apply deref_Ret in H
  | H : Ret _ = Ret _ |- _ => injection H as H
  | H : Undef _ = Ret _ |- _ => discriminate H
  | H : Exn _ = Ret _ |- _ => discriminate H
  | H : AssertFailed = Ret _ |- _ => discriminate H
  end.

(** One step of a computation whose first action has returned. *)
Ltac run := cbn [deref]; cbv beta iota; rewrite ?bind_Ret; cbv beta iota.

(** Evaluates a decidable closed proposition. *)
Ltac by_decide := refine (bool_decide_unpack _ _); vm_compute; exact I.

(** ** Integers of the machine *)

Lemma len_nonneg {A} (l : list A) : 0 <= len l.
Proof. unfold len. lia. Qed.

Lemma len_nil {A} : len (@nil A) = 0.
Proof. done. Qed.

Lemma len_cons {A} (a : A) l : len (a :: l) = len l + 1.
Proof. unfold len. simpl. lia. Qed.

Lemma len_app {A} (l k : list A) : len (l ++ k) = len l + len k.
Proof. unfold len. rewrite length_app. lia. Qed.

Lemma len_to_nat {A} (l : list A) : Z.to_nat (len l) = List.length l.
Proof. unfold len. lia. Qed.

Lemma wrap_bound w z : 0 <= w → 0 <= wrap w z < 2 ^ w.
Proof. intros. unfold wrap. apply Z.mod_pos_bound. lia. Qed.

Lemma wrap_small w z : 0 <= z < 2 ^ w → wrap w z = z.
Proof. intros. unfold wrap. by apply Z.mod_small. Qed.

Lemma swrap_bound w z : 0 < w → - 2 ^ (w - 1) <= swrap w z < 2 ^ (w - 1).
Proof.
  intros Hw. unfold swrap.
  assert (2 ^ w = 2 * 2 ^ (w - 1)) as E.
  { rewrite <- Z.pow_succ_r by lia. f_equal. lia. }
  assert (0 < 2 ^ (w - 1)) by (apply Z.pow_pos_nonneg; lia).
  pose proof (Z.mod_pos_bound (z + 2 ^ (w - 1)) (2 ^ w)). lia.
Qed.

Lemma swrap_small w z :
  0 < w → - 2 ^ (w - 1) <= z < 2 ^ (w - 1) → swrap w z = z.
Proof.
  intros Hw Hz. unfold swrap.
  assert (2 ^ w = 2 * 2 ^ (w - 1)) as E.
  { rewrite <- Z.pow_succ_r by lia. f_equal. lia. }
  rewrite Z.mod_small; lia.
Qed.

Lemma of_u8_bound c : 0 <= of_u8 c < 256.
Proof.
  unfold of_u8. pose proof (N_ascii_bounded c). lia.
Qed.

Lemma of_u8_u8 z : of_u8 (u8 z) = z mod 256.
Proof.
  unfold of_u8, u8. pose proof (Z.mod_pos_bound z 256).
  rewrite N_ascii_embedding; lia.
Qed.

Lemma u8_of_u8 c : u8 (of_u8 c) = c.
Proof.
  unfold u8. pose proof (of_u8_bound c). rewrite Z.mod_small by lia.
  unfold of_u8. rewrite N2Z.id. apply ascii_N_embedding.
Qed.

(** ** Reading from a buffer *)

Lemma advance_app {A} (l k : list A) : advance (len l) (l ++ k) = Ret k.
Proof.
  unfold advance. rewrite len_app, len_to_nat, drop_app_length.
  pose proof (len_nonneg l). pose proof (len_nonneg k).
  destruct (Z.leb_spec 0 (len l)), (Z.leb_spec (len l) (len l + len k)); simpl; done || lia.
Qed.

Lemma sub_string_app {A} (l k : list A) : sub_string (l ++ k) (len l) = Ret l.
Proof.
  unfold sub_string. rewrite len_app, len_to_nat, take_app_length.
  pose proof (len_nonneg l). pose proof (len_nonneg k).
  destruct (Z.leb_spec 0 (len l)), (Z.leb_spec (len l) (len l + len k)); simpl; done || lia.
Qed.

(** ** Lists *)

Lemma Forall_filter {A} (P Q : A → Prop) `{∀ a, Decision (Q a)} l :
  Forall P l → Forall P (filter Q l).
Proof.
  rewrite !Forall_forall. intros Hl a Ha. apply Hl, (list_elem_of_filter Q l a), Ha.
Qed.

Create HintDb gsfs.
#[export] Hint Resolve len_nonneg of_u8_bound : gsfs.
#[export] Hint Rewrite @len_nil @len_cons @len_app @bind_Ret : gsfs.
