(* ===== verification/BytesOrder.v ===== *)
(** * bytes_order.h: integers between host order and wire order

    The six encoders and six decoders of src/src/bytes_order.h.  An encoder
    with a destination pointer writes into a byte buffer ([dst]); a decoder
    reads through a [uint8_t*], whose object is the byte list [from].  The
    integers are [Z] in the range of their C++ type; the shifts of
    [uint8_t] operands happen at type [int], as C++ promotes them. *)

From S2P Require Import Prelude.

(** ** The code *)

(** [network[i] = c] *)
Definition store (buf : bytes) (i : nat) (c : ascii) : outcome bytes :=
  if decide (i < length buf)%nat then Ret (<[i := c]> buf) else Undef OutOfBounds.

(** The byte [host >> k & 0xff] stored into a [char] or [uint8_t]. *)
Definition byte_at (host k : Z) : ascii := u8 (Z.land (Z.shiftr host k) 255).

Definition host_to_network_16_to (dst : bytes) (from : Z) : outcome bytes :=
  network ← store dst 0 (byte_at from 0);
  store network 1 (byte_at from 8).

Definition host_to_network_16 (host : Z) : bytes :=
  [byte_at host 0; byte_at host 8].

Definition network_to_host_16_to (from : bytes) : outcome Z :=
  n0 ← at_ from 0; n1 ← at_ from 1;
  Ret (u16 (Z.lor (of_u8 n0) (Z.shiftl (of_u8 n1) 8))).

Definition network_to_host_16 (from : bytes) : outcome Z :=
  host ← network_to_host_16_to from; Ret host.

Definition host_to_network_32_to (dst : bytes) (from : Z) : outcome bytes :=
  network ← store dst 0 (byte_at from 0);
  network ← store network 1 (byte_at from 8);
  network ← store network 2 (byte_at from 16);
  store network 3 (byte_at from 24).

Definition host_to_network_32 (host : Z) : bytes :=
  [byte_at host 0; byte_at host 8; byte_at host 16; byte_at host 24].

(** [network[i] << k] has type [int]; the result is converted to [uint32_t]. *)
Definition network_to_host_32_to (from : bytes) : outcome Z :=
  n0 ← at_ from 0; n1 ← at_ from 1; n2 ← at_ from 2; n3 ← at_ from 3;
  Ret (u32 (Z.lor (Z.lor (Z.lor
    (s32 (Z.shiftl (of_u8 n0) 0)) (s32 (Z.shiftl (of_u8 n1) 8)))
    (s32 (Z.shiftl (of_u8 n2) 16))) (s32 (Z.shiftl (of_u8 n3) 24)))).

Definition network_to_host_32 (from : bytes) : outcome Z :=
  host ← network_to_host_32_to from; Ret host.

Definition host_to_network_64_to (dst : bytes) (from : Z) : outcome bytes :=
  network ← store dst 0 (byte_at from 0);
  network ← store network 1 (byte_at from 8);
  network ← store network 2 (byte_at from 16);
  network ← store network 3 (byte_at from 24);
  network ← store network 4 (byte_at from 32);
  network ← store network 5 (byte_at from 40);
  network ← store network 6 (byte_at from 48);
  store network 7 (byte_at from 56).

Definition host_to_network_64 (host : Z) : bytes :=
  [byte_at host 0; byte_at host 8; byte_at host 16; byte_at host 24;
   byte_at host 32; byte_at host 40; byte_at host 48; byte_at host 56].

(** The last operand is [network[6]], as in the source: the eighth byte is
    never read. *)
Definition network_to_host_64_to (from : bytes) : outcome Z :=
  n0 ← at_ from 0; n1 ← at_ from 1; n2 ← at_ from 2; n3 ← at_ from 3;
  n4 ← at_ from 4; n5 ← at_ from 5; n6 ← at_ from 6; n6' ← at_ from 6;
  Ret (Z.lor (Z.lor (Z.lor (Z.lor (Z.lor (Z.lor (Z.lor
    (u64 (Z.shiftl (of_u8 n0) 0)) (u64 (Z.shiftl (of_u8 n1) 8)))
    (u64 (Z.shiftl (of_u8 n2) 16))) (u64 (Z.shiftl (of_u8 n3) 24)))
    (u64 (Z.shiftl (of_u8 n4) 32))) (u64 (Z.shiftl (of_u8 n5) 40)))
    (u64 (Z.shiftl (of_u8 n6) 48))) (u64 (Z.shiftl (of_u8 n6') 56))).

Definition network_to_host_64 (from : bytes) : outcome Z :=
  host ← network_to_host_64_to from; Ret host.

(** ** The reference: little-endian positional notation *)

Fixpoint le_split (n : nat) (z : Z) : bytes :=
  match n with
  | O => []
  | S n => u8 z :: le_split n (z / 256)
  end.

Fixpoint le_combine (l : bytes) : Z :=
  match l with
  | [] => 0
  | c :: l => of_u8 c + 256 * le_combine l
  end.

Lemma length_le_split n z : length (le_split n z) = n.
Proof. revert z. induction n; simpl; auto. Qed.

Lemma le_combine_bound l : 0 <= le_combine l < 256 ^ len l.
Proof.
  induction l as [|c l IH]; [done|].
  pose proof (len_nonneg l). rewrite len_cons, Z.pow_add_r by lia.
  simpl le_combine. pose proof (of_u8_bound c). lia.
Qed.

Lemma le_combine_split n z : le_combine (le_split n z) = z mod 256 ^ Z.of_nat n.
Proof.
  revert z. induction n as [|n IH]; intros z; [by rewrite Z.mod_1_r|].
  simpl le_combine. rewrite IH, of_u8_u8, Nat2Z.inj_succ, Z.pow_succ_r by lia.
  rewrite (Z.rem_mul_r z 256); lia.
Qed.

Lemma le_split_combine l : le_split (length l) (le_combine l) = l.
Proof.
  induction l as [|c l IH]; [done|]. simpl.
  pose proof (of_u8_bound c).
  f_equal.
  - rewrite <- (u8_of_u8 c) at 2. unfold u8. f_equal. f_equal.
    rewrite (Z.mul_comm 256), Z_mod_plus_full. done.
  - rewrite (Z.mul_comm 256), Z.div_add, Z.div_small by lia. apply IH.
Qed.

(** ** Bits and bytes *)

Lemma u8_mod z : u8 (z mod 256) = u8 z.
Proof. unfold u8. by rewrite Z.mod_mod. Qed.

Lemma byte_at_div host k : 0 <= k → byte_at host k = u8 (host / 2 ^ k).
Proof.
  intros Hk. unfold byte_at. change 255 with (Z.ones 8).
  rewrite Z.land_ones, Z.shiftr_div_pow2 by lia. apply u8_mod.
Qed.

Lemma lor_shiftl_add a b k :
  0 <= k → 0 <= a < 2 ^ k → Z.lor a (Z.shiftl b k) = a + b * 2 ^ k.
Proof.
  intros Hk Ha. rewrite <- Z.add_lor_land. rewrite <- Z.shiftl_mul_pow2 by lia.
  assert (Z.land a (Z.shiftl b k) = 0) as ->; [|lia].
  apply Z.bits_inj'. intros i Hi. rewrite Z.land_spec, Z.bits_0.
  destruct (Z.lt_ge_cases i k) as [?|?].
  - rewrite Z.shiftl_spec_low by lia. apply andb_false_r.
  - rewrite <- (Z.mod_small a (2 ^ k)), Z.mod_pow2_bits_high by lia. done.
Qed.

(** Every encoder is the reference encoder at its width. *)
Lemma host_to_network_16_le h : host_to_network_16 h = le_split 2 h.
Proof.
  unfold host_to_network_16. rewrite !byte_at_div by lia. simpl.
  by rewrite Z.div_1_r.
Qed.

Lemma host_to_network_32_le h : host_to_network_32 h = le_split 4 h.
Proof.
  unfold host_to_network_32. rewrite !byte_at_div by lia. simpl.
  rewrite !Z.div_div by lia. by rewrite Z.div_1_r.
Qed.

Lemma host_to_network_64_le h : host_to_network_64 h = le_split 8 h.
Proof.
  unfold host_to_network_64. rewrite !byte_at_div by lia. simpl.
  rewrite !Z.div_div by lia. by rewrite Z.div_1_r.
Qed.

Lemma length_host_to_network_64 h : length (host_to_network_64 h) = 8%nat.
Proof. done. Qed.

Lemma len_host_to_network_64 h : len (host_to_network_64 h) = 8.
Proof. done. Qed.

(** ** The decoders on explicit bytes *)

Lemma u64_shiftl_byte c k : 0 <= k <= 56 → u64 (Z.shiftl (of_u8 c) k) = Z.shiftl (of_u8 c) k.
Proof.
  intros Hk. apply wrap_small. rewrite Z.shiftl_mul_pow2 by lia.
  pose proof (of_u8_bound c). assert (0 < 2 ^ k <= 2 ^ 56).
  { split; [apply Z.pow_pos_nonneg; lia|apply Z.pow_le_mono_r; lia]. }
  change (2 ^ 64) with (256 * 2 ^ 56). nia.
Qed.

(** Turns a chain of [|] over bytes shifted to disjoint positions into a sum. *)
Ltac lor_bytes :=
  repeat match goal with
  | c : ascii |- _ =>
      lazymatch goal with
      | _ : 0 <= of_u8 c < 256 |- _ => fail
      | _ => pose proof (of_u8_bound c)
      end
  end;
  rewrite ?Z.shiftl_0_r;
  repeat match goal with
  | |- context [Z.lor ?a (Z.shiftl ?b ?k)] =>
      lazymatch a with
      | context [Z.lor _ _] => fail
      | _ => rewrite (lor_shiftl_add a b k) by lia
      end
  end.

Lemma network_to_host_64_bytes n0 n1 n2 n3 n4 n5 n6 rest :
  network_to_host_64 (n0 :: n1 :: n2 :: n3 :: n4 :: n5 :: n6 :: rest) =
  Ret (le_combine [n0; n1; n2; n3; n4; n5; n6; n6]).
Proof.
  unfold network_to_host_64, network_to_host_64_to. simpl.
  rewrite !u64_shiftl_byte by lia. f_equal. lor_bytes. lia.
Qed.

(** A decoder reads seven bytes of its eight, and nothing after them. *)
Lemma network_to_host_64_Ret l :
  (7 <= length l)%nat → ∃ z, network_to_host_64 l = Ret z ∧ 0 <= z < 2 ^ 64.
Proof.
  intros Hl. do 7 (destruct l as [|? l]; [simpl in Hl; lia|]).
  rewrite network_to_host_64_bytes. eexists. split; [done|].
  apply (le_combine_bound [_; _; _; _; _; _; _; _]).
Qed.

Lemma network_to_host_64_short l :
  (length l < 7)%nat → network_to_host_64 l = Undef OutOfBounds.
Proof.
  intros Hl. do 7 (destruct l as [|? l]; [done|]). simpl in Hl. lia.
Qed.

Lemma le_split_8 h :
  le_split 8 h = [u8 h; u8 (h / 256); u8 (h / 256 / 256); u8 (h / 256 / 256 / 256);
    u8 (h / 256 / 256 / 256 / 256); u8 (h / 256 / 256 / 256 / 256 / 256);
    u8 (h / 256 / 256 / 256 / 256 / 256 / 256);
    u8 (h / 256 / 256 / 256 / 256 / 256 / 256 / 256)].
Proof. done. Qed.

(** What a decoded 64-bit integer is: its top byte is a second copy of the
    byte below it. *)
Lemma network_to_host_64_encoded h rest :
  network_to_host_64 (host_to_network_64 h ++ rest) =
  Ret (h mod 2 ^ 56 + 2 ^ 56 * ((h / 2 ^ 48) mod 256)).
Proof.
  rewrite host_to_network_64_le, le_split_8. simpl.
  rewrite network_to_host_64_bytes. f_equal.
  pose proof (le_combine_split 7 h) as E. simpl in E. simpl.
  rewrite !of_u8_u8 in *. rewrite !Z.div_div in * by lia.
  change (256 ^ Z.of_nat 7) with (2 ^ 56) in E.
  change (2 ^ 48) with (256 * 256 * 256 * 256 * 256 * 256). lia.
Qed.

(** Host lengths and ids below 2^48 survive the wire. *)
Lemma network_to_host_64_small h rest :
  0 <= h < 2 ^ 48 → network_to_host_64 (host_to_network_64 h ++ rest) = Ret h.
Proof.
  intros Hh. rewrite network_to_host_64_encoded.
  rewrite (Z.div_small h (2 ^ 48)), Z.mod_small, Z.mod_0_l by lia. f_equal. lia.
Qed.

(** [int] operands: the conversion to [uint32_t] forgets the sign. *)
Lemma wrap_lor w a b : 0 <= w → wrap w (Z.lor a b) = Z.lor (wrap w a) (wrap w b).
Proof. intros. unfold wrap. rewrite <- !Z.land_ones by lia. apply Z.land_lor_distr_l. Qed.

Lemma wrap_swrap w z : 0 < w → wrap w (swrap w z) = wrap w z.
Proof.
  intros. unfold wrap, swrap.
  rewrite Zminus_mod_idemp_l. f_equal. lia.
Qed.

Lemma network_to_host_16_bytes n0 n1 rest :
  network_to_host_16 (n0 :: n1 :: rest) = Ret (le_combine [n0; n1]).
Proof.
  unfold network_to_host_16, network_to_host_16_to. simpl. f_equal.
  lor_bytes. unfold u16. rewrite wrap_small; lia.
Qed.

Lemma network_to_host_32_bytes n0 n1 n2 n3 rest :
  network_to_host_32 (n0 :: n1 :: n2 :: n3 :: rest) = Ret (le_combine [n0; n1; n2; n3]).
Proof.
  unfold network_to_host_32, network_to_host_32_to. simpl. f_equal.
  unfold u32, s32. rewrite !wrap_lor, !wrap_swrap, <- !wrap_lor by lia.
  lor_bytes. rewrite wrap_small; lia.
Qed.

(** The encoders that write through a pointer leave the string encoders'
    bytes at the start of the destination. *)
Lemma host_to_network_64_to_spec dst h :
  (8 <= length dst)%nat → host_to_network_64_to dst h = Ret (host_to_network_64 h ++ drop 8 dst).
Proof.
  intros Hl. do 8 (destruct dst as [|? dst]; [simpl in Hl; lia|]).
  unfold host_to_network_64_to, store. simpl.
  repeat (rewrite decide_True by (simpl; lia); simpl). done.
Qed.

(** The pointer step over an encoded integer. *)
Lemma advance_64 h rest : advance 8 (host_to_network_64 h ++ rest) = Ret rest.
Proof. exact (advance_app (host_to_network_64 h) rest). Qed.

Lemma sub_string_64 h rest :
  sub_string (host_to_network_64 h ++ rest) 8 = Ret (host_to_network_64 h).
Proof. exact (sub_string_app (host_to_network_64 h) rest). Qed.

Arguments host_to_network_64 : simpl never.
Arguments network_to_host_64 : simpl never.

#[export] Hint Rewrite len_host_to_network_64 : gsfs.

(** ** Properties *)

(** The 16- and 32-bit codecs round-trip on their whole range, at the start
    of any buffer (the 32-bit decoder's shifts into the sign bit of [int]
    included), and the pointer encoder of each width writes the same bytes as
    the string encoder, touching nothing after them. *)
Theorem narrow_codecs_roundtrip h rest :
  (0 <= h < 2 ^ 16 → network_to_host_16 (host_to_network_16 h ++ rest) = Ret h) ∧
  (0 <= h < 2 ^ 32 → network_to_host_32 (host_to_network_32 h ++ rest) = Ret h) ∧
  ((2 <= length rest)%nat →
    host_to_network_16_to rest h = Ret (host_to_network_16 h ++ drop 2 rest)) ∧
  ((4 <= length rest)%nat →
    host_to_network_32_to rest h = Ret (host_to_network_32 h ++ drop 4 rest)).
Proof.
  split_and!; intros Hh.
  - rewrite host_to_network_16_le. simpl. rewrite network_to_host_16_bytes.
    f_equal. trans (le_combine (le_split 2 h)); [done|].
    rewrite le_combine_split. by apply Z.mod_small.
  - rewrite host_to_network_32_le. simpl. rewrite network_to_host_32_bytes.
    f_equal. trans (le_combine (le_split 4 h)); [done|].
    rewrite le_combine_split. by apply Z.mod_small.
  - do 2 (destruct rest as [|? rest]; [simpl in Hh; lia|]). done.
  - do 4 (destruct rest as [|? rest]; [simpl in Hh; lia|]). done.
Qed.

Lemma narrow_codecs_roundtrip_witness :
  network_to_host_16 (host_to_network_16 65535 ++ str "tail") = Ret 65535 ∧
  network_to_host_32 (host_to_network_32 4294967295 ++ str "tail") = Ret 4294967295 ∧
  host_to_network_16_to (str "tail") 258 = Ret (host_to_network_16 258 ++ str "il") ∧
  host_to_network_32_to (str "tail") 258 = Ret (host_to_network_32 258).
Proof.
  pose proof (narrow_codecs_roundtrip 65535 (str "tail")) as (H1 & _).
  pose proof (narrow_codecs_roundtrip 4294967295 (str "tail")) as (_ & H2 & _).
  pose proof (narrow_codecs_roundtrip 258 (str "tail")) as (_ & _ & H3 & H4).
  split_and!; [apply H1; lia|apply H2; lia|apply H3; simpl; lia|apply H4; simpl; lia].
Defined.

(** C33: the 64-bit decoder inverts the 64-bit encoder exactly on the integers
    whose two top bytes are equal; in particular every integer below 2^48 is
    recovered, whatever follows it in the buffer, and the maximal signed
    integer 2^63 - 1 is not. *)
Theorem network_to_host_64_roundtrip_iff h rest :
  0 <= h < 2 ^ 64 →
  network_to_host_64 (host_to_network_64 h ++ rest) = Ret h ↔
  (h / 2 ^ 48) mod 256 = h / 2 ^ 56.
Proof.
  intros Hh. rewrite network_to_host_64_encoded. split.
  - intros E. injection E as E. pose proof (Z.div_mod h (2 ^ 56)). lia.
  - intros ->. f_equal. pose proof (Z.div_mod h (2 ^ 56)). lia.
Qed.

Lemma network_to_host_64_roundtrip_iff_witness :
  network_to_host_64 (host_to_network_64 (2 ^ 48 - 1) ++ []) = Ret (2 ^ 48 - 1) ∧
  network_to_host_64 (host_to_network_64 (2 ^ 63 - 1) ++ []) ≠ Ret (2 ^ 63 - 1).
Proof.
  split.
  - apply (network_to_host_64_roundtrip_iff (2 ^ 48 - 1) []); [lia|reflexivity].
  - intros H. apply (network_to_host_64_roundtrip_iff (2 ^ 63 - 1) []) in H; [|lia].
    vm_compute in H. discriminate.
Defined.
