(* ===== verification/StdSet.v ===== *)
(** * std::set ordered by a string key

    [DirTree::TreeNode] is ordered by [name < node.name] and its children are
    a [std::set<TreeNode>].  A [std::set] is the list of its elements in
    iteration order; [set_insert], [set_find] and erasure are the operations
    the program uses, with the contract of the C++ standard: elements are
    unique up to equivalence, an insertion of an equivalent element changes
    nothing.  The invariant [set_wf] is that the list is strictly increasing,
    which makes equality of sets extensional ([set_ext]). *)

From S2P Require Import Prelude.
From Stdlib Require Import Sorted.

(** [std::string::operator<]: lexicographic on unsigned characters. *)
Fixpoint string_lt (a b : bytes) : bool :=
  match a, b with
  | _, [] => false
  | [], _ :: _ => true
  | x :: a, y :: b =>
      (of_u8 x <? of_u8 y) || ((of_u8 x =? of_u8 y) && string_lt a b)
  end.

Lemma of_u8_inj x y : of_u8 x = of_u8 y → x = y.
Proof. intros E. rewrite <- (u8_of_u8 x), E. apply u8_of_u8. Qed.

Lemma string_lt_irrefl a : string_lt a a = false.
Proof. induction a as [|x a IH]; [done|]. simpl. rewrite IH, Z.ltb_irrefl. by destruct (_ =? _). Qed.

Lemma string_lt_trans a b c :
  string_lt a b = true → string_lt b c = true → string_lt a c = true.
Proof.
  revert b c. induction a as [|x a IH]; intros [|y b] [|z c]; try done.
  simpl. rewrite !orb_true_iff, !andb_true_iff, !Z.ltb_lt, !Z.eqb_eq.
  intros [?|[??]] [?|[??]]; [left; lia..|]. right. split; [lia|]. eauto.
Qed.

Lemma string_lt_total a b : string_lt a b = false → string_lt b a = false → a = b.
Proof.
  revert b. induction a as [|x a IH]; intros [|y b]; try done.
  simpl. rewrite !orb_false_iff, !andb_false_iff, !Z.ltb_ge, !Z.eqb_neq.
  intros [? Hab] [? Hba]. assert (of_u8 x = of_u8 y) as E by lia.
  apply of_u8_inj in E as ->. f_equal. apply IH; [destruct Hab|destruct Hba]; done.
Qed.

Lemma string_lt_asym a b : string_lt a b = true → string_lt b a = false.
Proof.
  intros H. destruct (string_lt b a) eqn:E; [|done].
  pose proof (string_lt_trans _ _ _ H E) as C. by rewrite string_lt_irrefl in C.
Qed.

Section StdSet.
Context {A : Type} (key : A → bytes).

(** [s.insert(x)] *)
Fixpoint set_insert (x : A) (s : list A) : list A :=
  match s with
  | [] => [x]
  | a :: s' =>
      if string_lt (key x) (key a) then x :: s
      else if string_lt (key a) (key x) then a :: set_insert x s'
      else s
  end.

(** [s.find(k)], with [None] for [s.end()] *)
Fixpoint set_find (k : bytes) (s : list A) : option A :=
  match s with
  | [] => None
  | a :: s' =>
      if string_lt (key a) k then set_find k s'
      else if string_lt k (key a) then None
      else Some a
  end.

(** [for (x: l) s.insert(x)] *)
Definition set_insert_all (l s : list A) : list A :=
  foldl (λ s x, set_insert x s) s l.

Definition set_wf (s : list A) : Prop :=
  StronglySorted (λ a b, string_lt (key a) (key b) = true) s.

Lemma set_wf_nil : set_wf [].
Proof. constructor. Qed.

Lemma set_wf_cons a s :
  set_wf (a :: s) ↔ Forall (λ b, string_lt (key a) (key b) = true) s ∧ set_wf s.
Proof.
  split; [intros H; inversion H; naive_solver|intros [??]; by constructor].
Qed.

Lemma set_wf_filter (P : A → Prop) `{∀ a, Decision (P a)} s :
  set_wf s → set_wf (filter P s).
Proof.
  induction s as [|a s IH]; [done|]. rewrite set_wf_cons. intros [Ha Hs].
  rewrite filter_cons. case_decide; [|by apply IH].
  apply set_wf_cons. split; [|by apply IH].
  rewrite Forall_forall in *. intros b Hb.
  apply Ha, (list_elem_of_filter P s b), Hb.
Qed.

(** Membership is decided by the key alone. *)
Lemma set_find_Some s k a :
  set_wf s → set_find k s = Some a ↔ a ∈ s ∧ key a = k.
Proof.
  induction s as [|b s IH]; simpl; intros Hs.
  { split; [done|]. intros [H _]. by apply not_elem_of_nil in H. }
  apply set_wf_cons in Hs as [Hb Hs]. rewrite Forall_forall in Hb.
  rewrite elem_of_cons.
  destruct (string_lt (key b) k) eqn:E1.
  { rewrite IH by done. split; [naive_solver|]. intros [[->|?] <-]; [|done].
    by rewrite string_lt_irrefl in E1. }
  destruct (string_lt k (key b)) eqn:E2.
  { split; [done|]. intros [[->|Ha] <-].
    - by rewrite string_lt_irrefl in E2.
    - apply Hb, string_lt_asym in Ha. congruence. }
  pose proof (string_lt_total _ _ E1 E2) as <-. split; [naive_solver|].
  intros [[->|Ha] Hk]; [done|]. apply Hb in Ha. rewrite Hk, string_lt_irrefl in Ha. done.
Qed.

Lemma set_find_None s k :
  set_wf s → set_find k s = None ↔ ∀ a, a ∈ s → key a ≠ k.
Proof.
  intros Hs. split.
  - intros Hn a Ha Hk. assert (set_find k s = Some a) by (by apply set_find_Some).
    congruence.
  - intros Hn. destruct (set_find k s) as [a|] eqn:E; [|done].
    apply set_find_Some in E as [Ha Hk]; [|done]. by destruct (Hn a).
Qed.

Lemma set_find_cons a s k :
  set_wf (a :: s) →
  set_find k (a :: s) = if decide (key a = k) then Some a else set_find k s.
Proof.
  intros Hs. simpl. destruct (string_lt (key a) k) eqn:E1.
  { rewrite decide_False; [done|]. intros <-. by rewrite string_lt_irrefl in E1. }
  destruct (string_lt k (key a)) eqn:E2.
  - rewrite decide_False; [|intros <-; by rewrite string_lt_irrefl in E2].
    apply set_wf_cons in Hs as [Ha Hs]. symmetry. apply set_find_None; [done|].
    intros b Hb <-. rewrite Forall_forall in Ha.
    apply Ha, string_lt_asym in Hb. congruence.
  - by rewrite decide_True by (by apply string_lt_total).
Qed.

Lemma set_find_key s k a : set_wf s → set_find k s = Some a → key a = k.
Proof. intros Hs H. by apply set_find_Some in H as [_ ?]. Qed.

Lemma elem_of_set_insert s x a :
  set_wf s →
  a ∈ set_insert x s ↔ a ∈ s ∨ (a = x ∧ set_find (key x) s = None).
Proof.
  induction s as [|b s IH]; intros Hs.
  { simpl. rewrite elem_of_cons, elem_of_nil. naive_solver. }
  apply set_wf_cons in Hs as [Hb Hs]. simpl.
  destruct (string_lt (key x) (key b)) eqn:E1.
  { rewrite (string_lt_asym _ _ E1), !elem_of_cons. naive_solver. }
  destruct (string_lt (key b) (key x)) eqn:E2.
  - rewrite !elem_of_cons, IH by done. naive_solver.
  - split; [auto|]. naive_solver.
Qed.

Lemma set_insert_wf x s : set_wf s → set_wf (set_insert x s).
Proof.
  induction s as [|b s IH]; simpl; intros Hs.
  { apply set_wf_cons. split; [constructor|constructor]. }
  pose proof Hs as Hs'. apply set_wf_cons in Hs as [Hb Hs].
  destruct (string_lt (key x) (key b)) eqn:E1.
  { apply set_wf_cons. split; [|done]. constructor; [done|].
    eapply Forall_impl; [exact Hb|]. intros c Hc. by eapply string_lt_trans. }
  destruct (string_lt (key b) (key x)) eqn:E2; [|done].
  apply set_wf_cons. split; [|by apply IH].
  rewrite Forall_forall in *. intros c Hc.
  apply elem_of_set_insert in Hc as [Hc|[-> _]]; auto.
Qed.

(** Insertion keeps the element already there. *)
Lemma set_find_insert s x k :
  set_wf s →
  set_find k (set_insert x s) =
  match set_find k s with
  | Some a => Some a
  | None => if decide (key x = k) then Some x else None
  end.
Proof.
  intros Hs. pose proof (set_insert_wf x s Hs) as Hi.
  destruct (set_find k s) as [a|] eqn:E.
  - apply set_find_Some in E as [Ha Hk]; [|done].
    apply set_find_Some; [done|]. split; [|done]. apply elem_of_set_insert; auto.
  - case_decide as Hk.
    + apply set_find_Some; [done|]. split; [|done].
      apply elem_of_set_insert; [done|]. right. by rewrite Hk.
    + apply set_find_None; [done|]. intros a Ha.
      apply elem_of_set_insert in Ha as [Ha|[-> _]]; [|done|done].
      by apply (proj1 (set_find_None s k Hs)).
Qed.

Lemma set_find_filter (P : A → Prop) `{∀ a, Decision (P a)} s k :
  set_wf s →
  set_find k (filter P s) =
  match set_find k s with Some a => if decide (P a) then Some a else None | None => None end.
Proof.
  intros Hs. pose proof (set_wf_filter P s Hs) as Hf.
  destruct (set_find k s) as [a|] eqn:E.
  - apply set_find_Some in E as [Ha Hk]; [|done]. case_decide.
    + apply set_find_Some; [done|]. split; [|done]. by apply list_elem_of_filter.
    + apply set_find_None; [done|]. intros b Hb Hbk.
      apply list_elem_of_filter in Hb as [HP Hb].
      assert (Some a = Some b); [|naive_solver].
      trans (set_find k s); [symmetry|]; by apply set_find_Some.
  - apply set_find_None; [done|]. intros b Hb.
    apply list_elem_of_filter in Hb as [_ Hb]. by apply (proj1 (set_find_None s k Hs)).
Qed.

Lemma set_insert_all_wf l s : set_wf s → set_wf (set_insert_all l s).
Proof.
  unfold set_insert_all. revert s. induction l as [|x l IH]; intros s Hs; [done|].
  simpl. by apply IH, set_insert_wf.
Qed.

(** The union an insertion loop computes is biased to the set it starts from. *)
Lemma set_find_insert_all l s k :
  set_wf l → set_wf s →
  set_find k (set_insert_all l s) =
  match set_find k s with Some a => Some a | None => set_find k l end.
Proof.
  unfold set_insert_all. revert s. induction l as [|x l IH]; intros s Hl Hs.
  { simpl. by destruct (set_find k s). }
  pose proof Hl as Hl'. apply set_wf_cons in Hl as [Hx Hl]. simpl foldl.
  rewrite IH, set_find_insert by eauto using set_insert_wf.
  destruct (set_find k s) as [a|]; [done|].
  destruct (set_find k (x :: l)) as [b|] eqn:E.
  - apply set_find_Some in E as [[->|Hb]%elem_of_cons Hk]; [|..|done].
    + by rewrite decide_True.
    + rewrite decide_False.
      * apply set_find_Some; auto.
      * intros Hxk. rewrite Forall_forall in Hx. apply Hx in Hb.
        by rewrite Hxk, Hk, string_lt_irrefl in Hb.
  - rewrite set_find_None in E by done. rewrite decide_False.
    + apply set_find_None; [done|]. intros b Hb. apply E, elem_of_cons. auto.
    + apply E, elem_of_cons. auto.
Qed.

Lemma set_ext s1 s2 :
  set_wf s1 → set_wf s2 → (∀ k, set_find k s1 = set_find k s2) → s1 = s2.
Proof.
  intros H1 H2 E.
  assert (∀ a, a ∈ s1 ↔ a ∈ s2) as M.
  { intros a. split; intros Ha.
    - apply (set_find_Some s2 (key a)); [done|]. rewrite <- E. by apply set_find_Some.
    - apply (set_find_Some s1 (key a)); [done|]. rewrite E. by apply set_find_Some. }
  clear E. revert s2 H2 M. induction s1 as [|a s1 IH]; intros [|b s2] H2 M.
  - done.
  - destruct (not_elem_of_nil b). apply M, elem_of_cons. auto.
  - destruct (not_elem_of_nil a). apply M, elem_of_cons. auto.
  - apply set_wf_cons in H1 as [Ha H1]. apply set_wf_cons in H2 as [Hb H2].
    rewrite Forall_forall in Ha, Hb.
    assert (a = b) as ->.
    { assert (a ∈ b :: s2) as [->|Ha2]%elem_of_cons by (apply M, elem_of_cons; auto); [done|].
      assert (b ∈ a :: s1) as [->|Hb1]%elem_of_cons by (apply M, elem_of_cons; auto); [done|].
      apply Hb in Ha2. apply Ha, string_lt_asym in Hb1. congruence. }
    f_equal. apply IH; [done..|]. intros c. specialize (M c).
    rewrite !elem_of_cons in M. split; intros Hc.
    + destruct (proj1 M) as [->|]; [auto| |done]. apply Ha in Hc.
      by rewrite string_lt_irrefl in Hc.
    + destruct (proj2 M) as [->|]; [auto| |done]. apply Hb in Hc.
      by rewrite string_lt_irrefl in Hc.
Qed.

(** Rebuilding a set by inserting its own elements, as an archive does. *)
Lemma set_insert_all_nil s : set_wf s → set_insert_all s [] = s.
Proof.
  intros Hs. apply set_ext; [apply set_insert_all_wf, set_wf_nil|done|].
  intros k. by rewrite set_find_insert_all by eauto using set_wf_nil.
Qed.
End StdSet.

(** A map over the elements that keeps the keys keeps the set. *)
Lemma set_wf_map {A} (key : A → bytes) (f : A → A) s :
  (∀ a, key (f a) = key a) → set_wf key s → set_wf key (f <$> s).
Proof.
  intros Hf. induction s as [|a s IH]; [done|].
  rewrite fmap_cons, !set_wf_cons. intros [Ha Hs]. split; [|by apply IH].
  rewrite Forall_fmap. eapply Forall_impl; [exact Ha|].
  intros b Hb. simpl. by rewrite !Hf.
Qed.

Lemma set_find_map {A} (key : A → bytes) (f : A → A) s k :
  (∀ a, key (f a) = key a) → set_find key k (f <$> s) = f <$> set_find key k s.
Proof.
  intros Hf. induction s as [|a s IH]; [done|].
  rewrite fmap_cons. cbn [set_find]. rewrite Hf, IH.
  by repeat case_match.
Qed.

(** The element with the key of [y] is changed through an iterator to [y]. *)
Definition set_update {A} (key : A → bytes) (y : A) (s : list A) : list A :=
  (λ a, if decide (key a = key y) then y else a) <$> s.

Lemma set_update_key {A} (key : A → bytes) (y a : A) :
  key (if decide (key a = key y) then y else a) = key a.
Proof. by case_decide. Qed.

Lemma set_update_wf {A} (key : A → bytes) y s : set_wf key s → set_wf key (set_update key y s).
Proof. apply set_wf_map, set_update_key. Qed.

Lemma set_update_Forall {A} (key : A → bytes) (P : A → Prop) y s :
  P y → Forall P s → Forall P (set_update key y s).
Proof.
  intros Hy Hs. unfold set_update. rewrite Forall_fmap. eapply Forall_impl; [exact Hs|].
  intros a Ha. simpl. by case_decide.
Qed.

(** Insert, then change what was inserted: insert the changed element. *)
Lemma set_update_insert {A} (key : A → bytes) x y s :
  set_wf key s → key y = key x → set_find key (key x) s = None →
  set_update key y (set_insert key x s) = set_insert key y s.
Proof.
  intros W E F. apply (set_ext key); [by apply set_update_wf, set_insert_wf|by apply set_insert_wf|].
  intros k. unfold set_update. rewrite set_find_map by apply set_update_key.
  rewrite !set_find_insert by done. destruct (set_find key k s) as [a|] eqn:Ea; simpl.
  - apply set_find_Some in Ea as [Ha <-]; [|done]. rewrite decide_False; [done|].
    intros C. rewrite set_find_None in F by done. apply (F a Ha). congruence.
  - rewrite E. case_decide; simpl; [|done]. by rewrite decide_True.
Qed.

#[export] Hint Resolve set_wf_nil set_insert_wf set_insert_all_wf set_wf_filter : gsfs.
