(* ===== verification/Archive.v ===== *)
(** * Boost.Serialization archives

    [DirTree], [Hosts] and [Hosts::Host] are turned into text by
    [boost::archive::text_oarchive] and back by [text_iarchive], which are not
    part of the repository.  What the repository writes is the [serialize]
    member of each class: the list of the members handed to the archive, in
    order.  A [datum] is the object an archive sees through those members, and
    the pair of archives is a parameter of the development, the class
    [TextArchive]; what the program relies on, that reading an archive back
    restores the saved object, is the class [TextArchiveOk]. *)

From S2P Require Import Prelude.
From stdpp Require Import countable.

(** What [ar & x] hands to an archive. *)
Inductive datum :=
  | DInt (z : Z)                       (** an integer or an enumerator *)
  | DString (s : bytes)                (** a [std::string] *)
  | DObject (members : list datum)     (** a class, through its [serialize] *)
  | DSeq (items : list datum)          (** a [std::vector] or [std::set] *)
  | DPointer (target : option datum).  (** a raw pointer, [None] when null *)

Class TextArchive := {
  (** [{ text_oarchive oa(ofs); oa << x; return ofs.str(); }] *)
  text_oarchive : datum → bytes;
  (** [text_iarchive ia(ifs); ia >> x], [None] for an [archive_exception] *)
  text_iarchive : bytes → option datum
}.

Class TextArchiveOk `{TextArchive} : Prop :=
  text_archive_roundtrip d : text_iarchive (text_oarchive d) = Some d.

(** The exception an archive throws on input it cannot read. *)
Definition archive_exception : bytes := str "archive_exception".

(** [ia >> x], with the loader [f] of the class of [x]. *)
Definition ia_load `{TextArchive} {A} (f : datum → option A) (seq : bytes) : outcome A :=
  match text_iarchive seq ≫= f with
  | Some a => Ret a
  | None => Exn archive_exception
  end.

Lemma ia_load_saved `{TextArchiveOk} {A} (f : datum → option A) d a :
  f d = Some a → ia_load f (text_oarchive d) = Ret a.
Proof. intros E. unfold ia_load. rewrite text_archive_roundtrip. simpl. by rewrite E. Qed.

Section DatumInd.
Variable P : datum → Prop.
Hypothesis HInt : ∀ z, P (DInt z).
Hypothesis HString : ∀ s, P (DString s).
Hypothesis HObject : ∀ l, Forall P l → P (DObject l).
Hypothesis HSeq : ∀ l, Forall P l → P (DSeq l).
Hypothesis HNull : P (DPointer None).
Hypothesis HPointer : ∀ d, P d → P (DPointer (Some d)).

Fixpoint datum_ind' (d : datum) : P d :=
  let go := fix go l : Forall P l :=
    match l with
    | [] => Forall_nil_2 P
    | d :: l => Forall_cons_2 P d l (datum_ind' d) (go l)
    end in
  match d with
  | DInt z => HInt z
  | DString s => HString s
  | DObject l => HObject l (go l)
  | DSeq l => HSeq l (go l)
  | DPointer None => HNull
  | DPointer (Some d) => HPointer d (datum_ind' d)
  end.
End DatumInd.

(** ** A concrete archive

    Any injective code satisfies the interface; this one writes stdpp's
    binary code of a datum.  It is used to instantiate the parameter on
    concrete inputs. *)

Module ExampleArchive.
Fixpoint to_tree (d : datum) : gen_tree (Z + bytes) :=
  match d with
  | DInt z => GenLeaf (inl z)
  | DString s => GenLeaf (inr s)
  | DObject l => GenNode 0 (map to_tree l)
  | DSeq l => GenNode 1 (map to_tree l)
  | DPointer None => GenNode 2 []
  | DPointer (Some d) => GenNode 3 [to_tree d]
  end.

Fixpoint of_tree (t : gen_tree (Z + bytes)) : datum :=
  match t with
  | GenLeaf (inl z) => DInt z
  | GenLeaf (inr s) => DString s
  | GenNode 0 l => DObject (map of_tree l)
  | GenNode 1 l => DSeq (map of_tree l)
  | GenNode 2 _ => DPointer None
  | GenNode _ (t :: _) => DPointer (Some (of_tree t))
  | GenNode _ [] => DPointer None
  end.

Lemma of_to_tree d : of_tree (to_tree d) = d.
Proof.
  induction d as [| |l IH|l IH| |d IH] using datum_ind'; simpl; try congruence; f_equal.
  all: rewrite map_map; rewrite <- (map_id l) at 2; apply map_ext_Forall, IH.
Qed.

#[global] Instance datum_eq_dec : EqDecision datum.
Proof.
  refine (λ d e, cast_if (decide (to_tree d = to_tree e)));
    [by rewrite <- (of_to_tree d), <- (of_to_tree e), e0|congruence].
Defined.

#[global] Instance datum_countable : Countable datum :=
  inj_countable' to_tree of_tree of_to_tree.

Fixpoint bits (p : positive) : bytes :=
  match p with
  | xH => []
  | xO p => "0"%char :: bits p
  | xI p => "1"%char :: bits p
  end.

Fixpoint of_bits (s : bytes) : positive :=
  match s with
  | [] => xH
  | c :: s => if Ascii.eqb c "1" then xI (of_bits s) else xO (of_bits s)
  end.

Lemma of_bits_bits p : of_bits (bits p) = p.
Proof. induction p; simpl; congruence. Qed.

#[export] Instance archive : TextArchive := {|
  text_oarchive d := bits (encode d);
  text_iarchive s := decode (of_bits s)
|}.

#[export] Instance archive_ok : TextArchiveOk.
Proof. intros d. simpl. by rewrite of_bits_bits, decode_encode. Qed.
End ExampleArchive.
