(* ===== verification/Path.v ===== *)
(** * boost::filesystem::path

    The program walks a path with the iterators of [boost::filesystem::path]
    ([DirTree::find]) and joins paths with [operator/=] ([UserFS::read]).
    Boost is not part of the repository: the two operations are the class
    [BoostPath], and the documented behaviour the program relies on, for
    POSIX paths, is the class [BoostPathOk]. *)

From S2P Require Import Prelude.

Definition slash : ascii := "/"%char.

Class BoostPath := {
  (** [path p(s); for (ite = p.begin(); ite != p.end(); ++ite) ite->string()] *)
  path_iter : bytes → list bytes;
  (** [path p = a; p /= b; p.string()] *)
  path_append : bytes → bytes → bytes
}.

(** A file name: not empty, without separator. *)
Definition file_name (s : bytes) : Prop := s ≠ [] ∧ slash ∉ s.

#[global] Instance file_name_dec s : Decision (file_name s).
Proof. unfold file_name. apply _. Defined.

(** The absolute path of a chain of names: ["/"] for the empty chain. *)
Definition join_names (names : list bytes) : bytes := concat (map (cons slash) names).

Definition abs_path (names : list bytes) : bytes :=
  match names with [] => [slash] | _ => join_names names end.

Class BoostPathOk `{BoostPath} : Prop := {
  (** An absolute path iterates as its root directory, then its names. *)
  path_iter_abs names :
    Forall file_name names → path_iter (abs_path names) = [slash] :: names;
  (** No separator is added after one that is there. *)
  path_append_dir d f :
    last d = Some slash → head f ≠ Some slash → path_append d f = d ++ f
}.

(** ** A concrete instance *)

Module ExamplePath.
(** The names of a path without its leading separators. *)
Fixpoint split (acc : bytes) (s : bytes) : list bytes :=
  match s with
  | [] => match acc with [] => [] | _ => [reverse acc] end
  | c :: s =>
      if decide (c = slash) then
        match acc with [] => split [] s | _ => reverse acc :: split [] s end
      else split (c :: acc) s
  end.

Definition iter (s : bytes) : list bytes :=
  match s with
  | c :: s' => if decide (c = slash) then [slash] :: split [] s' else split [] s
  | [] => []
  end.

Definition append (d f : bytes) : bytes :=
  match f with
  | [] => d
  | c :: _ =>
      if decide (c = slash) then d ++ f
      else match last d with
           | None => f
           | Some e => if decide (e = slash) then d ++ f else d ++ slash :: f
           end
  end.

Lemma split_name acc n s :
  slash ∉ n → split acc (n ++ s) = split (reverse n ++ acc) s.
Proof.
  revert acc. induction n as [|c n IH]; intros acc Hn; [done|].
  apply not_elem_of_cons in Hn as [Hc Hn]. simpl.
  rewrite decide_False by done. rewrite IH by done.
  by rewrite reverse_cons, <- app_assoc.
Qed.

Lemma split_join names :
  Forall file_name names → split [] (join_names names) = names ∧
  ∀ acc, acc ≠ [] → split acc (join_names names) = reverse acc :: names.
Proof.
  induction 1 as [|n names [Hn Hs] Hnames [IH1 IH2]]; unfold join_names in *; simpl.
  { split; [done|]. by intros []. }
  assert (reverse n ++ [] ≠ []) as Hr.
  { rewrite app_nil_r. intros E. apply Hn. by rewrite <- (reverse_involutive n), E. }
  assert (split [] (n ++ concat (map (cons slash) names)) = n :: names) as E.
  { rewrite split_name by done. rewrite IH2 by done.
    by rewrite app_nil_r, reverse_involutive. }
  split; [done|]. intros [|c acc] Ha; [done|]. by rewrite E.
Qed.

#[export] Instance path : BoostPath := {| path_iter := iter; path_append := append |}.

#[export] Instance path_ok : BoostPathOk.
Proof.
  constructor.
  - intros names Hn. destruct names as [|n names]; [done|]. simpl.
    apply Forall_cons in Hn as [[Hn Hs] Hnames].
    destruct (split_join (n :: names)) as [E _]; [by constructor|].
    exact (f_equal (cons [slash]) E).
  - intros d f Hd Hf. simpl. unfold append. destruct f as [|c f]; [by rewrite app_nil_r|].
    simpl in Hf. rewrite decide_False by congruence. by rewrite Hd, decide_True.
Qed.
End ExamplePath.
