(* ===== verification/DirTree.v ===== *)
(** * dir_tree.h, dir_tree.cc: the tree of shared files

    [TreeNode.t] is [DirTree::TreeNode]; its [children] are a [std::set]
    ordered by [name] (StdSet).  A [DirTree] is the pointer [_root], [None]
    when null.  [boost::filesystem::path] iteration, which [find] uses, is the
    parameter [path_iter]. *)

From S2P Require Import Prelude StdSet Archive Path.

(** [enum FileType]; a value of its underlying type that no enumerator names
    can only come out of an archive. *)
Inductive FileType :=
  | REGULAR | DIRECTORY | CHRDEVICE | BLKDEVICE | FIFO | SYMLINK | SOCKET | UNKNOWN
  | Unnamed (z : Z).

#[global] Instance FileType_eq_dec : EqDecision FileType.
Proof. solve_decision. Defined.

(** The enumerator as the integer an archive stores, and back. *)
Definition FileType_to_Z (ty : FileType) : Z :=
  match ty with
  | REGULAR => 0 | DIRECTORY => 1 | CHRDEVICE => 2 | BLKDEVICE => 3
  | FIFO => 4 | SYMLINK => 5 | SOCKET => 6 | UNKNOWN => 7 | Unnamed z => z
  end.

Definition FileType_of_Z (z : Z) : FileType :=
  match z with
  | 0 => REGULAR | 1 => DIRECTORY | 2 => CHRDEVICE | 3 => BLKDEVICE
  | 4 => FIFO | 5 => SYMLINK | 6 => SOCKET | 7 => UNKNOWN | z => Unnamed z
  end.

Module TreeNode.

Inductive t := mk {
  type : FileType;
  size : Z;
  uid : Z;
  gid : Z;
  atime : Z;
  mtime : Z;
  ctime : Z;
  host_id : Z;
  num_links : Z;
  name : bytes;
  children : list t
}.

Definition set_host_id (h : Z) (n : t) : t :=
  mk (type n) (size n) (uid n) (gid n) (atime n) (mtime n) (ctime n) h (num_links n)
     (name n) (children n).

Definition set_children (cs : list t) (n : t) : t :=
  mk (type n) (size n) (uid n) (gid n) (atime n) (mtime n) (ctime n) (host_id n)
     (num_links n) (name n) cs.

(** [TreeNode() { }]: the scalar members keep whatever the storage held, here
    the node [g]; [name] and [children] are empty. *)
Definition create (g : t) : t :=
  mk (type g) (size g) (uid g) (gid g) (atime g) (mtime g) (ctime g) (host_id g)
     (num_links g) [] [].

(** Every node below [n], not [n] itself: a child's own [host_id] is assigned
    and the child's [setHostID] called, which does not look at it. *)
Fixpoint setHostID (h : Z) (n : t) : t :=
  match n with
  | mk ty sz u g a m c hid nl nm cs =>
      mk ty sz u g a m c hid nl nm (map (λ node, set_host_id h (setHostID h node)) cs)
  end.

(** [bool operator<(const TreeNode& node) const] *)
Definition lt (a b : t) : bool := string_lt (name a) (name b).

(** [children.insert(x)], [children.find(key)] *)
Definition insert : t → list t → list t := set_insert name.

Definition find_child : bytes → list t → option t := set_find name.

(** The members [serialize] hands to an archive, in its order. *)
Fixpoint serialize (n : t) : datum :=
  match n with
  | mk ty sz u g a m c hid nl nm cs =>
      DObject [DInt (FileType_to_Z ty); DInt sz; DInt u; DInt g; DInt a; DInt m; DInt c;
               DInt hid; DInt nl; DString nm; DSeq (map serialize cs)]
  end.

(** The same member list read back; loading a set inserts its elements. *)
Fixpoint load (d : datum) : option t :=
  match d with
  | DObject [DInt ty; DInt sz; DInt u; DInt g; DInt a; DInt m; DInt c;
             DInt hid; DInt nl; DString nm; DSeq cs] =>
      cs ← (fix go l :=
        match l with
        | [] => Some []
        | d :: l => n ← load d; r ← go l; Some (n :: r)
        end) cs;
      Some (mk (FileType_of_Z ty) sz u g a m c hid nl nm (set_insert_all name cs []))
  | _ => None
  end.

(** ** Induction and well-formedness *)

Section Induction.
Variable P : t → Prop.
Hypothesis H : ∀ n, Forall P (children n) → P n.

Fixpoint tree_ind (n : t) : P n :=
  match n with
  | mk ty sz u g a m c hid nl nm cs =>
      H (mk ty sz u g a m c hid nl nm cs)
        ((fix go l : Forall P l :=
           match l with
           | [] => Forall_nil_2 P
           | n :: l => Forall_cons_2 P n l (tree_ind n) (go l)
           end) cs)
  end.
End Induction.

(** The children of every node are a set, and its type is a value of the
    enumeration's underlying type in canonical form. *)
Inductive wf (n : t) : Prop :=
  wf_intro :
    FileType_of_Z (FileType_to_Z (type n)) = type n →
    set_wf name (children n) → Forall wf (children n) → wf n.

Lemma wf_children n : wf n → set_wf name (children n).
Proof. by destruct 1. Qed.

Lemma wf_child n c : wf n → c ∈ children n → wf c.
Proof. destruct 1 as [_ _ H]. rewrite Forall_forall in H. apply H. Qed.

(** Every node of the tree, the root included, in preorder. *)
Fixpoint nodes (n : t) : list t :=
  match n with
  | mk ty sz u g a m c hid nl nm cs =>
      mk ty sz u g a m c hid nl nm cs :: concat (map nodes cs)
  end.

(** The nodes strictly below a node. *)
Definition descendants (n : t) : list t := concat (map nodes (children n)).

Lemma nodes_descendants n : nodes n = n :: descendants n.
Proof. by destruct n. Qed.

Lemma children_setHostID h n :
  children (setHostID h n) = map (λ c, set_host_id h (setHostID h c)) (children n).
Proof. by destruct n. Qed.

Lemma name_setHostID h n : name (setHostID h n) = name n.
Proof. by destruct n. Qed.

Lemma host_id_setHostID h n : host_id (setHostID h n) = host_id n.
Proof. by destruct n. Qed.

Lemma wf_set_host_id h n : wf (set_host_id h n) ↔ wf n.
Proof. split; intros [??]; by constructor. Qed.

Lemma setHostID_wf h n : wf n → wf (setHostID h n).
Proof.
  induction n as [n IH] using tree_ind. intros [Hty Hs Hc]. constructor.
  - by destruct n.
  - rewrite children_setHostID. apply set_wf_map; [|done].
    intros a. by destruct a.
  - rewrite children_setHostID, Forall_fmap. rewrite Forall_forall in *.
    intros c Hin. simpl. apply wf_set_host_id. auto.
Qed.

Lemma wf_set_children n cs :
  wf n → set_wf name cs → Forall wf cs → wf (set_children cs n).
Proof. intros [??] ??. by constructor. Qed.

Lemma Forall_wf n : wf n → Forall wf (children n).
Proof. by destruct 1. Qed.

Lemma insert_all_Forall (P : t → Prop) l s :
  set_wf name s → Forall P l → Forall P s → Forall P (set_insert_all name l s).
Proof.
  intros Hs Hl. unfold set_insert_all. revert s Hs.
  induction Hl as [|x l Hx Hl IH]; intros s Hs HP; [done|]. simpl.
  apply IH; [by apply set_insert_wf|].
  rewrite Forall_forall in *. intros a Ha.
  apply elem_of_set_insert in Ha as [Ha|[-> _]]; auto.
Qed.

(** Everything below a node that was given an owner belongs to that owner. *)
Lemma setHostID_descendants h n :
  Forall (λ d, host_id d = h) (descendants (setHostID h n)).
Proof.
  induction n as [n IH] using tree_ind. unfold descendants.
  rewrite children_setHostID. rewrite Forall_forall in *. intros d Hd.
  apply list_elem_of_In, in_concat in Hd as (l & Hl & Hd).
  apply in_map_iff in Hl as (c' & <- & Hc').
  apply in_map_iff in Hc' as (c & <- & Hc).
  apply list_elem_of_In in Hd, Hc. rewrite nodes_descendants in Hd.
  apply elem_of_cons in Hd as [->|Hd]; [done|].
  specialize (IH c Hc). rewrite Forall_forall in IH. apply IH. by destruct c.
Qed.

Lemma Forall_descendants (P : t → Prop) n :
  Forall P (descendants n) ↔ Forall (λ c, Forall P (nodes c)) (children n).
Proof. unfold descendants. by rewrite Forall_concat, Forall_fmap. Qed.

(** ** Saving and loading *)

Fixpoint load_all (l : list datum) : option (list t) :=
  match l with
  | [] => Some []
  | d :: l => n ← load d; r ← load_all l; Some (n :: r)
  end.

Lemma load_object ty sz u g a m c hid nl nm cs :
  load (DObject [DInt ty; DInt sz; DInt u; DInt g; DInt a; DInt m; DInt c;
                 DInt hid; DInt nl; DString nm; DSeq cs]) =
  cs ← load_all cs;
  Some (mk (FileType_of_Z ty) sz u g a m c hid nl nm (set_insert_all name cs [])).
Proof. done. Qed.

Lemma load_serialize n : wf n → load (serialize n) = Some n.
Proof.
  induction n as [n IH] using tree_ind. intros [Hty Hs Hc].
  destruct n as [ty sz u g a m c hid nl nm cs]. simpl in Hty, Hs, Hc, IH.
  cbn [serialize]. rewrite load_object, Hty.
  assert (load_all (map serialize cs) = Some cs) as ->.
  { clear Hs. induction cs as [|x cs IHcs]; [done|].
    apply Forall_cons in IH as [Hx IH]. apply Forall_cons in Hc as [Wx Hc].
    simpl. rewrite Hx by done. simpl. by rewrite IHcs. }
  simpl. by rewrite set_insert_all_nil.
Qed.

(** An object loads only from the eleven members of [serialize]. *)
Lemma load_inv d n :
  load d = Some n → ∃ ty sz u g a m c hid nl nm ds cs,
    d = DObject [DInt ty; DInt sz; DInt u; DInt g; DInt a; DInt m; DInt c;
                 DInt hid; DInt nl; DString nm; DSeq ds] ∧
    load_all ds = Some cs ∧
    n = mk (FileType_of_Z ty) sz u g a m c hid nl nm (set_insert_all name cs []).
Proof.
  destruct d as [| |l| |]; try done. intros E. cbn [load] in E.
  do 9 (destruct l as [|[] l]; try done).
  destruct l as [|[] l]; try done. destruct l as [|[] []]; try done.
  fold load_all in E.
  match type of E with (?m ≫= _) = _ => destruct m as [cs|] eqn:Ecs; [|done] end.
  simpl in E. injection E as <-. naive_solver.
Qed.

Lemma FileType_of_Z_canonical z :
  FileType_of_Z (FileType_to_Z (FileType_of_Z z)) = FileType_of_Z z.
Proof. by destruct z as [|[[[]|[]|]|[[]|[]|]|]|]. Qed.

(** Whatever is loaded is well-formed, also from an archive nobody saved. *)
Lemma load_wf d n : load d = Some n → wf n.
Proof.
  revert n. cut ((∀ n, load d = Some n → wf n) ∧
    ∀ l, d = DSeq l → Forall (λ d, ∀ n, load d = Some n → wf n) l); [naive_solver|].
  induction d as [| |l IH|l IH| |d IH] using datum_ind'; try (split; done).
  - split; [|done]. intros n E.
    apply load_inv in E as (ty & sz & u & g & a & m & c & hid & nl & nm & ds & cs & [= ->] & Ecs & ->).
    assert (Forall (λ d, ∀ n, load d = Some n → wf n) ds) as Hds.
    { rewrite Forall_forall in IH. eapply (IH (DSeq ds)); [|done].
      do 10 (apply elem_of_cons; right). by apply elem_of_cons; left. }
    assert (Forall wf cs) as Hcs.
    { clear IH. revert cs Ecs. induction Hds as [|d ds Hd Hds IH]; intros cs Ecs; simpl in Ecs.
      { injection Ecs as <-. constructor. }
      destruct (load d) as [x|] eqn:Ex; [|done]. simpl in Ecs.
      destruct (load_all ds) as [r|] eqn:Er; [|done]. simpl in Ecs. injection Ecs as <-.
      constructor; auto. }
    constructor; simpl.
    + apply FileType_of_Z_canonical.
    + auto with gsfs.
    + by apply insert_all_Forall; auto with gsfs.
  - split; [done|]. intros l' [= <-]. eapply Forall_impl; [exact IH|]. naive_solver.
Qed.
End TreeNode.

(** ** class DirTree *)

(** The pointer [_root]. *)
Notation DirTree := (option TreeNode.t) (only parsing).

(** [DirTree(): _root(nullptr)] and [initialize()]; [g] is the content of the
    storage [new] returns. *)
Definition DirTree_create : DirTree := None.

Definition initialize (g : TreeNode.t) (tree : DirTree) : DirTree := Some (TreeNode.create g).

Definition root (tree : DirTree) : option TreeNode.t := tree.

(** The erasing loop of [removeOf], over the rest of the children. *)
Fixpoint removeOf_loop (h : Z) (cs : list TreeNode.t) : list TreeNode.t :=
  match cs with
  | [] => []
  | ite :: cs =>
      if TreeNode.host_id ite =? h then removeOf_loop h cs
      else ite :: removeOf_loop h cs
  end.

Definition removeOf (h : Z) (tree : DirTree) : outcome DirTree :=
  _root ← deref tree;
  Ret (Some (TreeNode.set_children (removeOf_loop h (TreeNode.children _root)) _root)).

Fixpoint removeNotOf_loop (h : Z) (cs : list TreeNode.t) : list TreeNode.t :=
  match cs with
  | [] => []
  | ite :: cs =>
      if negb (TreeNode.host_id ite =? h) then removeNotOf_loop h cs
      else ite :: removeNotOf_loop h cs
  end.

Definition removeNotOf (h : Z) (tree : DirTree) : outcome DirTree :=
  _root ← deref tree;
  Ret (Some (TreeNode.set_children (removeNotOf_loop h (TreeNode.children _root)) _root)).

(** Iterators of a set: positions in its iteration order. *)
Definition set_begin (s : list TreeNode.t) : nat := 0.

Definition set_end (s : list TreeNode.t) : nat := length s.

(** The [while] loop of [hasConflict]: [s1] and [s2] are the sets the iterators
    [first1, last1] and [first2, last2] run over; a step advances at least one
    of them, so [(last1 - first1) + (last2 - first2)] steps are enough. *)
Fixpoint hasConflict_loop (fuel : nat) (s1 s2 : list TreeNode.t)
    (first1 last1 first2 last2 : nat) (conflicts : list bytes) : outcome (list bytes) :=
  match fuel with
  | O => Ret conflicts
  | S fuel =>
      if negb (first1 =? last1)%nat && negb (first2 =? last2)%nat then
        n1 ← at_ s1 first1; n2 ← at_ s2 first2;
        if TreeNode.lt n1 n2 then
          hasConflict_loop fuel s1 s2 (S first1) last1 first2 last2 conflicts
        else if TreeNode.lt n2 n1 then
          hasConflict_loop fuel s1 s2 first1 last1 (S first2) last2 conflicts
        else
          hasConflict_loop fuel s1 s2 (S first1) last1 (S first2) last2
            (conflicts ++ [TreeNode.name n1])
      else Ret conflicts
  end.

(** The iterators as the source initialises them: [last1] is [begin()]. *)
Definition hasConflict (this tree : DirTree) : outcome (list bytes) :=
  r1 ← deref (root tree); r2 ← deref this;
  let s1 := TreeNode.children r1 in
  let s2 := TreeNode.children r2 in
  let first1 := set_begin s1 in
  let last1 := set_begin s1 in
  let first2 := set_begin s2 in
  let last2 := set_end s2 in
  hasConflict_loop (length s1 + length s2) s1 s2 first1 last1 first2 last2 [].

Definition merge (this tree : DirTree) : outcome DirTree :=
  r ← deref (root tree); _root ← deref this;
  Ret (Some (TreeNode.set_children
    (set_insert_all TreeNode.name (TreeNode.children r) (TreeNode.children _root)) _root)).

(** The loop of [find] over the elements of the path; [node] is null until the
    root directory has been met. *)
Fixpoint find_loop (_root node : option TreeNode.t) (es : list bytes)
    : outcome (option TreeNode.t) :=
  match es with
  | [] => Ret node
  | ite :: es =>
      if decide (ite = str "..") then AssertFailed
      else if decide (ite = str ".") then find_loop _root node es
      else if decide (ite = str "/" ∧ node = None) then find_loop _root _root es
      else match node with
           | None => find_loop _root node es
           | Some n =>
               match TreeNode.find_child ite (TreeNode.children n) with
               | None => Ret None
               | Some c => find_loop _root (Some c) es
               end
           end
  end.

Definition find `{BoostPath} (this : DirTree) (path : bytes) : outcome (option TreeNode.t) :=
  find_loop this None (path_iter path).

(** [DirTree::serialize] (the member hands [_root] to the archive) and
    [DirTree::deserialize] *)
Definition DirTree_members (tree : DirTree) : datum :=
  DObject [DPointer (TreeNode.serialize <$> tree)].

Definition DirTree_load (d : datum) : option DirTree :=
  match d with
  | DObject [DPointer None] => Some None
  | DObject [DPointer (Some d)] => Some <$> TreeNode.load d
  | _ => None
  end.

Definition DirTree_serialize `{TextArchive} (tree : DirTree) : bytes :=
  text_oarchive (DirTree_members tree).

Definition DirTree_deserialize `{TextArchive} (byte_sequence : bytes) : outcome DirTree :=
  ia_load DirTree_load byte_sequence.

(** ** The loops against reference definitions *)

Lemma removeOf_loop_filter h cs :
  removeOf_loop h cs = filter (λ n, TreeNode.host_id n ≠ h) cs.
Proof.
  induction cs as [|n cs IH]; [done|]. rewrite filter_cons. simpl. rewrite IH.
  destruct (Z.eqb_spec (TreeNode.host_id n) h); by repeat case_decide.
Qed.

Lemma removeNotOf_loop_filter h cs :
  removeNotOf_loop h cs = filter (λ n, TreeNode.host_id n = h) cs.
Proof.
  induction cs as [|n cs IH]; [done|]. rewrite filter_cons. simpl. rewrite IH.
  destruct (Z.eqb_spec (TreeNode.host_id n) h); by repeat case_decide.
Qed.

(** The elements of [s1] whose name is also in [s2], in order. *)
Definition common (s1 s2 : list TreeNode.t) : list TreeNode.t :=
  filter (λ n, is_Some (TreeNode.find_child (TreeNode.name n) s2)) s1.

Lemma common_nil_r s : common s [] = [].
Proof.
  unfold common. induction s as [|n s IH]; [done|].
  rewrite filter_cons, decide_False, IH; [done|]. by intros [].
Qed.

(** An element of [s2] below all of [s1] is in no intersection with it. *)
Lemma common_skip_r s1 b s2 :
  Forall (λ n, string_lt (TreeNode.name b) (TreeNode.name n) = true) s1 →
  common s1 (b :: s2) = common s1 s2.
Proof.
  unfold common. induction 1 as [|n s1 Hn _ IH]; [done|].
  assert (TreeNode.find_child (TreeNode.name n) (b :: s2) =
          TreeNode.find_child (TreeNode.name n) s2) as E.
  { unfold TreeNode.find_child. simpl. by rewrite Hn. }
  rewrite !filter_cons, IH. apply decide_ext. by rewrite E.
Qed.

Lemma common_skip_l a s1 b s2 :
  string_lt (TreeNode.name a) (TreeNode.name b) = true →
  common (a :: s1) (b :: s2) = common s1 (b :: s2).
Proof.
  intros H. unfold common. rewrite filter_cons, decide_False; [done|].
  unfold TreeNode.find_child. simpl. rewrite (string_lt_asym _ _ H), H. by intros [].
Qed.

Lemma common_both a s1 b s2 :
  set_wf TreeNode.name (a :: s1) → TreeNode.name a = TreeNode.name b →
  common (a :: s1) (b :: s2) = a :: common s1 s2.
Proof.
  intros [H _]%set_wf_cons E. rewrite E in H. rewrite <- (common_skip_r s1 b s2) by done.
  unfold common at 1. rewrite filter_cons, decide_True; [done|].
  unfold TreeNode.find_child. simpl. rewrite E, !string_lt_irrefl. eauto.
Qed.

Lemma set_wf_drop {A} (key : A → bytes) i s : set_wf key s → set_wf key (drop i s).
Proof.
  revert i. induction s as [|a s IH]; intros [|i] Hs; try done.
  simpl. apply IH. by apply set_wf_cons in Hs as [_ ?].
Qed.

Lemma lt_below a b s :
  set_wf TreeNode.name (a :: s) →
  string_lt (TreeNode.name b) (TreeNode.name a) = true →
  Forall (λ n, string_lt (TreeNode.name b) (TreeNode.name n) = true) (a :: s).
Proof.
  intros [H _]%set_wf_cons E. constructor; [done|].
  eapply Forall_impl; [exact H|]. simpl. intros n Hn. by eapply string_lt_trans.
Qed.

(** With [last1] at the end, the loop is the intersection. *)
Lemma hasConflict_loop_common fuel s1 s2 i j acc :
  set_wf TreeNode.name s1 → set_wf TreeNode.name s2 →
  (i <= length s1)%nat → (j <= length s2)%nat →
  ((length s1 - i) + (length s2 - j) <= fuel)%nat →
  hasConflict_loop fuel s1 s2 i (length s1) j (length s2) acc =
  Ret (acc ++ (TreeNode.name <$> common (drop i s1) (drop j s2))).
Proof.
  intros H1 H2. revert i j acc.
  induction fuel as [|fuel IH]; intros i j acc Hi Hj Hf; simpl.
  { rewrite (drop_ge s1) by lia. by rewrite app_nil_r. }
  destruct (Nat.eqb_spec i (length s1)) as [->|Hi']; simpl.
  { rewrite (drop_ge s1) by lia. by rewrite app_nil_r. }
  destruct (Nat.eqb_spec j (length s2)) as [->|Hj']; simpl.
  { rewrite (drop_ge s2), common_nil_r by lia. by rewrite app_nil_r. }
  destruct (lookup_lt_is_Some_2 s1 i) as [a Ha]; [lia|].
  destruct (lookup_lt_is_Some_2 s2 j) as [b Hb]; [lia|].
  unfold at_. rewrite Ha, Hb. simpl.
  pose proof (set_wf_drop _ i _ H1) as W1. pose proof (set_wf_drop _ j _ H2) as W2.
  rewrite (drop_S _ _ _ Ha), (drop_S _ _ _ Hb) in *.
  unfold TreeNode.lt.
  destruct (string_lt (TreeNode.name a) (TreeNode.name b)) eqn:E1.
  { rewrite IH, (drop_S _ _ _ Hb), common_skip_l by (done || lia). done. }
  destruct (string_lt (TreeNode.name b) (TreeNode.name a)) eqn:E2.
  { rewrite IH, (drop_S _ _ _ Ha), (common_skip_r _ b) by (done || lia || by apply lt_below).
    done. }
  rewrite IH by lia.
  rewrite common_both by (done || by apply string_lt_total).
  by rewrite fmap_cons, <- app_assoc.
Qed.

(** ** Invariant: every operation keeps a tree of sets *)

Definition tree_wf (tree : DirTree) : Prop :=
  match tree with None => True | Some r => TreeNode.wf r end.

Lemma removeOf_wf h tree tree' : tree_wf tree → removeOf h tree = Ret tree' → tree_wf tree'.
Proof.
  intros W E. unfold removeOf in E. inv_bind. subst. simpl in *.
  apply TreeNode.wf_set_children; [done|rewrite removeOf_loop_filter..].
  - apply set_wf_filter, TreeNode.wf_children, W.
  - apply Forall_filter, TreeNode.Forall_wf, W.
Qed.

Lemma removeNotOf_wf h tree tree' : tree_wf tree → removeNotOf h tree = Ret tree' → tree_wf tree'.
Proof.
  intros W E. unfold removeNotOf in E. inv_bind. subst. simpl in *.
  apply TreeNode.wf_set_children; [done|rewrite removeNotOf_loop_filter..].
  - apply set_wf_filter, TreeNode.wf_children, W.
  - apply Forall_filter, TreeNode.Forall_wf, W.
Qed.

Lemma merge_wf this tree this' :
  tree_wf this → tree_wf tree → merge this tree = Ret this' → tree_wf this'.
Proof.
  intros W1 W2 E. unfold merge, root in E. inv_bind. subst. simpl in *.
  apply TreeNode.wf_set_children; [done|..].
  - apply set_insert_all_wf, TreeNode.wf_children, W1.
  - apply TreeNode.insert_all_Forall; eauto using TreeNode.Forall_wf, TreeNode.wf_children.
Qed.

Lemma DirTree_deserialize_wf `{TextArchive} s tree :
  DirTree_deserialize s = Ret tree → tree_wf tree.
Proof.
  unfold DirTree_deserialize, ia_load, DirTree_load. intros E.
  repeat case_match; simplify_eq; try done.
  destruct (text_iarchive s) as [d|]; [simpl in *|done].
  destruct d as [| |[|[| | | |[d|]] []]| |]; simplify_eq/=; try done.
  destruct (TreeNode.load d) as [n|] eqn:E; simplify_eq/=. by eapply TreeNode.load_wf.
Qed.

(** ** Lookup by names: the reference for [find] *)

Fixpoint resolve (n : TreeNode.t) (names : list bytes) : option TreeNode.t :=
  match names with
  | [] => Some n
  | x :: xs => c ← TreeNode.find_child x (TreeNode.children n); resolve c xs
  end.

Lemma resolve_app n xs ys : resolve n (xs ++ ys) = d ← resolve n xs; resolve d ys.
Proof.
  revert n. induction xs as [|x xs IH]; intros n; [done|]. simpl.
  destruct (TreeNode.find_child x _); [apply IH|done].
Qed.

Lemma resolve_wf n names f : TreeNode.wf n → resolve n names = Some f → TreeNode.wf f.
Proof.
  revert n. induction names as [|x xs IH]; intros n W E; simplify_eq/=; [done|].
  destruct (TreeNode.find_child x _) as [c|] eqn:Ec; [|done].
  apply set_find_Some in Ec as [Hc _]; [|by apply TreeNode.wf_children].
  apply (IH c); [by eapply TreeNode.wf_child|done].
Qed.

(** A lookup finds a node of the tree, the root only by the empty chain. *)
Lemma resolve_nodes n names f :
  TreeNode.wf n → resolve n names = Some f →
  (names = [] ∧ f = n) ∨ f ∈ TreeNode.descendants n.
Proof.
  revert n. induction names as [|x xs IH]; intros n W E; simplify_eq/=; [by left|]. right.
  destruct (TreeNode.find_child x _) as [c|] eqn:Ec; [|done]. simpl in E.
  apply set_find_Some in Ec as [Hc _]; [|by apply TreeNode.wf_children].
  assert (f ∈ TreeNode.nodes c) as Hf.
  { rewrite TreeNode.nodes_descendants.
    destruct (IH c) as [[_ ->]|?]; [by eapply TreeNode.wf_child|done|by left|by right]. }
  unfold TreeNode.descendants. apply list_elem_of_In, in_concat.
  exists (TreeNode.nodes c). split; [by apply in_map, list_elem_of_In|by apply list_elem_of_In].
Qed.

Lemma find_loop_resolve r n names :
  Forall file_name names → str ".." ∉ names →
  find_loop r (Some n) names = Ret (resolve n (filter (λ x, x ≠ str ".") names)).
Proof.
  revert n. induction names as [|x names IH]; intros n Hn Hd; [done|].
  apply Forall_cons in Hn as [Hx Hn]. apply not_elem_of_cons in Hd as [Hdx Hd].
  simpl. rewrite filter_cons. rewrite (decide_False (P := x = str "..")) by done.
  destruct (decide (x = str ".")) as [->|Hdot].
  { rewrite decide_False by (intros C; by apply C). by apply IH. }
  rewrite decide_False by naive_solver. rewrite decide_True by done. simpl.
  destruct (TreeNode.find_child x _) as [c|]; simpl; [by apply IH|done].
Qed.

Lemma find_loop_null names :
  str ".." ∉ names → find_loop None None names = Ret None.
Proof.
  induction names as [|x names IH]; intros Hd; [done|].
  apply not_elem_of_cons in Hd as [Hdx Hd]. simpl.
  rewrite (decide_False (P := x = str "..")) by done.
  by repeat case_decide; apply IH.
Qed.

Lemma find_abs `{BoostPathOk} tree names :
  Forall file_name names → str ".." ∉ names →
  find tree (abs_path names) =
  Ret (r ← tree; resolve r (filter (λ x, x ≠ str ".") names)).
Proof.
  intros Hn Hd. unfold find. rewrite path_iter_abs by done. simpl.
  destruct tree as [r|]; [by apply find_loop_resolve|]. by apply find_loop_null.
Qed.

(** A name chain without ["."] and [".."]. *)
Definition plain_names (names : list bytes) : Prop :=
  Forall file_name names ∧ str "." ∉ names ∧ str ".." ∉ names.

#[global] Instance plain_names_dec names : Decision (plain_names names).
Proof. unfold plain_names. apply _. Defined.

Lemma filter_not_elem {A} `{EqDecision A} (x : A) (l : list A) : x ∉ l → filter (λ y, y ≠ x) l = l.
Proof.
  induction l as [|y l IH]; [done|]. intros [Hy Hl]%not_elem_of_cons.
  rewrite filter_cons, decide_True by done. by rewrite IH.
Qed.

Lemma find_loop_dotdot _root n pre post :
  plain_names pre → is_Some (resolve n pre) →
  find_loop _root (Some n) (pre ++ str ".." :: post) = AssertFailed.
Proof.
  intros (Hp & Hdot & Hdd). revert n.
  induction pre as [|x pre IH]; intros n Hr; [done|].
  apply Forall_cons in Hp as [Hx Hp]. apply not_elem_of_cons in Hdot as [Hdx Hdot].
  apply not_elem_of_cons in Hdd as [Hddx Hdd].
  simpl in Hr |- *. rewrite decide_False by done. rewrite decide_False by done.
  rewrite decide_False by naive_solver.
  destruct (TreeNode.find_child x _) as [c|]; simpl in Hr; [|by destruct Hr].
  by apply IH.
Qed.

Lemma find_plain `{BoostPathOk} tree names :
  plain_names names → find tree (abs_path names) = Ret (r ← tree; resolve r names).
Proof.
  intros (Hn & Hd & Hdd). rewrite find_abs by done. by rewrite filter_not_elem.
Qed.

(** ** Lookup after each operation *)

Lemma resolve_children n cs names :
  resolve (TreeNode.set_children cs n) names =
  match names with
  | [] => Some (TreeNode.set_children cs n)
  | x :: xs => c ← TreeNode.find_child x cs; resolve c xs
  end.
Proof. by destruct names. Qed.

Lemma find_child_removeOf h n x :
  TreeNode.wf n →
  TreeNode.find_child x (removeOf_loop h (TreeNode.children n)) =
  match TreeNode.find_child x (TreeNode.children n) with
  | Some c => if decide (TreeNode.host_id c ≠ h) then Some c else None
  | None => None
  end.
Proof.
  intros W. rewrite removeOf_loop_filter.
  by apply (set_find_filter TreeNode.name), TreeNode.wf_children.
Qed.

Lemma find_child_removeNotOf h n x :
  TreeNode.wf n →
  TreeNode.find_child x (removeNotOf_loop h (TreeNode.children n)) =
  match TreeNode.find_child x (TreeNode.children n) with
  | Some c => if decide (TreeNode.host_id c = h) then Some c else None
  | None => None
  end.
Proof.
  intros W. rewrite removeNotOf_loop_filter.
  by apply (set_find_filter TreeNode.name), TreeNode.wf_children.
Qed.

Lemma find_child_merge n m x :
  TreeNode.wf n → TreeNode.wf m →
  TreeNode.find_child x (set_insert_all TreeNode.name (TreeNode.children m) (TreeNode.children n)) =
  match TreeNode.find_child x (TreeNode.children n) with
  | Some c => Some c
  | None => TreeNode.find_child x (TreeNode.children m)
  end.
Proof.
  intros W1 W2. by apply (set_find_insert_all TreeNode.name); apply TreeNode.wf_children.
Qed.

(** ** Properties *)

(** The [while] loop of [hasConflict], run to the end of both child sets,
    returns exactly the names the two sets share, in order, within the fuel
    the model gives it. *)
Theorem hasConflict_loop_intersection s1 s2 :
  set_wf TreeNode.name s1 → set_wf TreeNode.name s2 →
  hasConflict_loop (length s1 + length s2) s1 s2
    (set_begin s1) (set_end s1) (set_begin s2) (set_end s2) [] =
  Ret (TreeNode.name <$> common s1 s2).
Proof.
  intros H1 H2. unfold set_begin, set_end.
  rewrite hasConflict_loop_common by (done || lia). done.
Qed.

(** as the source initialises the iterators ([last1 = begin()]),
    [hasConflict] reports no conflict for any two trees. *)
Theorem hasConflict_reports_nothing this tree :
  hasConflict (Some this) (Some tree) = Ret [].
Proof.
  unfold hasConflict. simpl. unfold set_begin.
  by destruct (length _ + length _)%nat.
Qed.

(** C29: on an absolute path without [".."], [find] is the lookup of its names
    one after the other from the root, with ["."] skipped: null exactly when
    some name is missing (or there is no root). *)
Theorem find_is_resolve `{BoostPathOk} tree names :
  Forall file_name names → str ".." ∉ names →
  find tree (abs_path names) =
  Ret (r ← tree; resolve r (filter (λ x, x ≠ str ".") names)).
Proof. apply find_abs. Qed.

(** [find] stops the process when [".."] is reached below nodes that exist. *)
Theorem find_dotdot_asserts `{BoostPathOk} r pre post :
  Forall file_name (pre ++ str ".." :: post) → plain_names pre →
  is_Some (resolve r pre) →
  find (Some r) (abs_path (pre ++ str ".." :: post)) = AssertFailed.
Proof.
  intros Hn Hp Hr. unfold find. rewrite path_iter_abs by done.
  by apply (find_loop_dotdot (Some r)).
Qed.

(** C28: what a lookup finds after [merge] and after the two removals: a merged
    tree prefers the receiver's child of a name, a removal hides exactly the
    children of the root that belong (do not belong) to the host, with
    everything below them. *)
Theorem lookup_after_update r s h x xs :
  TreeNode.wf r → TreeNode.wf s →
  (∃ r', merge (Some r) (Some s) = Ret (Some r') ∧
    resolve r' (x :: xs) =
      match TreeNode.find_child x (TreeNode.children r) with
      | Some _ => resolve r (x :: xs)
      | None => resolve s (x :: xs)
      end) ∧
  (∃ r', removeOf h (Some r) = Ret (Some r') ∧
    resolve r' (x :: xs) =
      c ← TreeNode.find_child x (TreeNode.children r);
      if decide (TreeNode.host_id c = h) then None else resolve c xs) ∧
  (∃ r', removeNotOf h (Some r) = Ret (Some r') ∧
    resolve r' (x :: xs) =
      c ← TreeNode.find_child x (TreeNode.children r);
      if decide (TreeNode.host_id c = h) then resolve c xs else None).
Proof.
  intros W1 W2. split_and!; eexists; (split; [done|]); rewrite resolve_children; cbv beta iota.
  - rewrite find_child_merge by done. simpl. by destruct (TreeNode.find_child x _).
  - rewrite find_child_removeOf by done. destruct (TreeNode.find_child x _); simpl; [|done].
    by repeat case_decide.
  - rewrite find_child_removeNotOf by done. destruct (TreeNode.find_child x _); simpl; [|done].
    by repeat case_decide.
Qed.

Lemma filter_insert_all_owned h cs ds :
  set_wf TreeNode.name cs → set_wf TreeNode.name ds →
  Forall (λ n, TreeNode.host_id n ≠ h) cs → Forall (λ n, TreeNode.host_id n = h) ds →
  filter (λ n, TreeNode.host_id n ≠ h) (set_insert_all TreeNode.name ds cs) = cs.
Proof.
  intros W1 W2 H1 H2. rewrite Forall_forall in H1, H2.
  apply (set_ext TreeNode.name); [auto with gsfs|done|]. intros k.
  rewrite (set_find_filter TreeNode.name) by auto with gsfs.
  rewrite (set_find_insert_all TreeNode.name) by done.
  destruct (set_find TreeNode.name k cs) as [c|] eqn:E.
  - apply set_find_Some in E as [Hc _]; [|done]. by rewrite decide_True by auto.
  - destruct (set_find TreeNode.name k ds) as [d|] eqn:Ed; [|done].
    apply set_find_Some in Ed as [Hd _]; [|done]. rewrite decide_False by (apply H2 in Hd; auto).
    done.
Qed.

Lemma children_setHostID_owned h s :
  Forall (λ n, TreeNode.host_id n = h) (TreeNode.children (TreeNode.setHostID h s)).
Proof. rewrite TreeNode.children_setHostID, Forall_fmap. by apply Forall_true. Qed.

(** A slave that joins and leaves leaves no trace in the tree: removing the
    host right after its (renumbered) tree was merged gives back the tree
    before the merge, when no node of the root carried that host id. *)
Theorem leave_undoes_join r s h :
  TreeNode.wf r → TreeNode.wf s →
  Forall (λ n, TreeNode.host_id n ≠ h) (TreeNode.children r) →
  (merge (Some r) (Some (TreeNode.setHostID h s)) ≫= removeOf h) = Ret (Some r).
Proof.
  intros W1 W2 Hr. unfold merge, removeOf. simpl. do 2 f_equal.
  rewrite removeOf_loop_filter, filter_insert_all_owned.
  - by destruct r.
  - by apply TreeNode.wf_children.
  - by apply TreeNode.wf_children, TreeNode.setHostID_wf.
  - done.
  - apply children_setHostID_owned.
Qed.

(** C26: a tree saved and loaded is the same tree, the null tree included. *)
Theorem DirTree_roundtrip `{TextArchiveOk} tree :
  tree_wf tree → DirTree_deserialize (DirTree_serialize tree) = Ret tree.
Proof.
  intros W. apply ia_load_saved. destruct tree as [r|]; [|done].
  simpl. by rewrite TreeNode.load_serialize.
Qed.

(** ** Concrete trees *)

Module ExampleTree.
Definition file (h sz : Z) (n : bytes) : TreeNode.t :=
  TreeNode.mk REGULAR sz 0 0 0 100 0 h 1 n [].

Definition dir (h : Z) (n : bytes) (cs : list TreeNode.t) : TreeNode.t :=
  TreeNode.mk DIRECTORY 0 0 0 0 100 0 h 2 n cs.

(** The working directories of the test script: the master's and the first
    stand-by node's, as [initDirTree] builds them. *)
Definition master : TreeNode.t :=
  dir 1 [] [dir 1 (str "master_dir") [file 1 22 (str "master_file3")];
            file 1 22 (str "master_file1"); file 1 22 (str "master_file2")].

Definition standby1 : TreeNode.t :=
  dir 0 [] [file 0 34 (str "standby1_file1")].

Lemma master_wf : TreeNode.wf master.
Proof. repeat constructor. Qed.

Lemma standby1_wf : TreeNode.wf standby1.
Proof. repeat constructor. Qed.
End ExampleTree.

Lemma hasConflict_loop_intersection_witness :
  hasConflict_loop 6 (TreeNode.children ExampleTree.master) (TreeNode.children ExampleTree.master)
    0 3 0 3 [] = Ret [str "master_dir"; str "master_file1"; str "master_file2"].
Proof.
  apply (hasConflict_loop_intersection (TreeNode.children ExampleTree.master)
    (TreeNode.children ExampleTree.master)); apply TreeNode.wf_children, ExampleTree.master_wf.
Defined.

Lemma find_is_resolve_witness :
  find (H := ExamplePath.path) (Some ExampleTree.master) (str "/master_dir/master_file3") =
  Ret (Some (ExampleTree.file 1 22 (str "master_file3"))).
Proof.
  apply (find_is_resolve (H0 := ExamplePath.path_ok) (Some ExampleTree.master) [str "master_dir"; str "master_file3"]);
    by_decide.
Defined.

Lemma find_dotdot_asserts_witness :
  find (H := ExamplePath.path) (Some ExampleTree.master) (str "/master_dir/../master_file1") =
  AssertFailed.
Proof.
  apply (find_dotdot_asserts (H0 := ExamplePath.path_ok) ExampleTree.master [str "master_dir"] [str "master_file1"]);
    by_decide.
Defined.

Lemma lookup_after_update_witness :
  ∃ r', removeOf 1 (Some ExampleTree.master) = Ret (Some r') ∧
    resolve r' [str "master_dir"; str "master_file3"] = None.
Proof.
  destruct (lookup_after_update ExampleTree.master ExampleTree.standby1 1
    (str "master_dir") [str "master_file3"] ExampleTree.master_wf ExampleTree.standby1_wf)
    as (_ & (r' & E & R) & _).
  exists r'. split; [exact E|]. rewrite R. reflexivity.
Defined.

Lemma leave_undoes_join_witness :
  (merge (Some ExampleTree.master) (Some (TreeNode.setHostID 2 ExampleTree.standby1))
     ≫= removeOf 2) = Ret (Some ExampleTree.master).
Proof.
  apply leave_undoes_join;
    [apply ExampleTree.master_wf|apply ExampleTree.standby1_wf|by_decide].
Defined.

Lemma DirTree_roundtrip_witness :
  DirTree_deserialize (H := ExampleArchive.archive)
    (DirTree_serialize (H := ExampleArchive.archive) (Some ExampleTree.master)) = Ret (Some ExampleTree.master).
Proof.
  apply (DirTree_roundtrip (H0 := ExampleArchive.archive_ok) (Some ExampleTree.master)).
  apply ExampleTree.master_wf.
Defined.
