(* ===== verification/Host.v ===== *)
(** * host.h: the nodes of the group

    [Hosts::Host] and the vector [Hosts::_hosts]; [operator[]] of a
    [std::vector] is not checked, so an index past the end is undefined. *)

From S2P Require Import Prelude Archive.

Module Host.

Record t := mk {
  id : Z;
  address : bytes;
  working_dir : bytes;
  tcp_port : Z;
  ssh_port : Z
}.

Definition set_id (i : Z) (h : t) : t :=
  mk i (address h) (working_dir h) (tcp_port h) (ssh_port h).

Definition set_address (a : bytes) (h : t) : t :=
  mk (id h) a (working_dir h) (tcp_port h) (ssh_port h).

(** The members of [Host::serialize], in its order, and back. *)
Definition members (h : t) : datum :=
  DObject [DInt (id h); DString (address h); DString (working_dir h);
           DInt (tcp_port h); DInt (ssh_port h)].

Definition load (d : datum) : option t :=
  match d with
  | DObject [DInt i; DString a; DString w; DInt tp; DInt sp] => Some (mk i a w tp sp)
  | _ => None
  end.

Definition serialize `{TextArchive} (h : t) : bytes := text_oarchive (members h).

Definition deserialize `{TextArchive} (byte_sequence : bytes) : outcome t :=
  ia_load load byte_sequence.

Lemma load_members h : load (members h) = Some h.
Proof. by destruct h. Qed.

Lemma deserialize_serialize `{TextArchiveOk} h : deserialize (serialize h) = Ret h.
Proof. apply ia_load_saved, load_members. Qed.
End Host.

Module Hosts.

(** [_hosts] *)
Notation t := (list Host.t) (only parsing).

Definition size (hs : t) : Z := len hs.

Definition push (h : Host.t) (hs : t) : t := hs ++ [h].

(** [operator[](n)] *)
Definition get (hs : t) (n : Z) : outcome Host.t := at_ hs (Z.to_nat n).

Definition members (hs : t) : datum := DObject [DSeq (map Host.members hs)].

Fixpoint load_all (l : list datum) : option t :=
  match l with
  | [] => Some []
  | d :: l => h ← Host.load d; r ← load_all l; Some (h :: r)
  end.

Definition load (d : datum) : option t :=
  match d with
  | DObject [DSeq l] => load_all l
  | _ => None
  end.

Definition serialize `{TextArchive} (hs : t) : bytes := text_oarchive (members hs).

Definition deserialize `{TextArchive} (byte_sequence : bytes) : outcome t :=
  ia_load load byte_sequence.

Lemma load_hosts hs : load (members hs) = Some hs.
Proof.
  simpl. induction hs as [|h hs IH]; [done|].
  cbn [map load_all]. rewrite Host.load_members. simpl. by rewrite IH.
Qed.

Lemma hosts_roundtrip `{TextArchiveOk} hs : deserialize (serialize hs) = Ret hs.
Proof. apply ia_load_saved, load_hosts. Qed.
End Hosts.
