(* ===== verification/Packet.v ===== *)
(** * tcp_messager.h, class Packet; the wire protocol of tcp_manager.cc

    A packet is framed on a connection as the eight bytes of its length
    followed by its data.  [Packet.t] has the two members of the class;
    [Protocol] is the message format of [TCPManager::read]: building a message
    is the concatenation the senders in user_fs.cc write out, parsing is the
    pointer walk of [read], undefined where the pointer leaves the packet. *)

From S2P Require Import Prelude BytesOrder.

Module Packet.

Record t := mk { _size : Z; _data : bytes }.

(** [Packet() { _size = 0; }] *)
Definition create : t := mk 0 [].

(** [sizeof(_size)] *)
Definition sizeLength : Z := 8.

Definition encodeData (d : bytes) (p : t) : t :=
  let _size := len d in
  let _data := host_to_network_64 _size in
  let _size := u64 (_size + sizeLength) in
  mk _size (_data ++ d).

Definition decodeSize (size : bytes) (p : t) : outcome t :=
  s ← network_to_host_64 size; Ret (mk s (_data p)).

(** [_data.assign(data, _size)] *)
Definition setData (d : bytes) (p : t) : outcome t :=
  d ← sub_string d (_size p); Ret (mk (_size p) d).

(** [_data.data()]: the characters and the terminating NUL are readable. *)
Definition data (p : t) : bytes := _data p ++ [nul].

Definition size (p : t) : Z := _size p.

(** The bytes [async_write] is given: [buffer(p.data(), p.size())]. *)
Definition wire (p : t) : outcome bytes := sub_string (data p) (size p).
End Packet.

Module Protocol.

(** [network_to_host_64(data); data += sizeof(uint64_t);] *)
Definition read_u64 (data : bytes) : outcome (Z * bytes) :=
  v ← network_to_host_64 data; data ← advance 8 data; Ret (v, data).

(** [std::string(data, n); data += n;] *)
Definition read_string (data : bytes) (n : Z) : outcome (bytes * bytes) :=
  s ← sub_string data n; data ← advance n data; Ret (s, data).

(** The two length-prefixed sequences every packet type ends with. *)
Definition read_seqs (data : bytes) : outcome (bytes * bytes) :=
  '(dir_tree_seq_len, data) ← read_u64 data;
  '(dir_tree_seq, data) ← read_string data dir_tree_seq_len;
  '(hosts_seq_len, data) ← read_u64 data;
  '(hosts_seq, data) ← read_string data hosts_seq_len;
  Ret (dir_tree_seq, hosts_seq).

(** What [TCPManager::read] does with a packet: the callback it calls on its
    owner, or nothing for a type it does not know. *)
Inductive event :=
  | NewConnection (dir_tree_seq host_seq : bytes)
  | SlaveRecognized (slave_id : Z) (dir_tree_seq hosts_seq : bytes)
  | UpdateInfo (dir_tree_seq hosts_seq : bytes)
  | Ignored.

(** [TCPManager::read(packet, handle)], on the master *)
Definition parse_master (data : bytes) : outcome event :=
  '(protocol_type, data) ← read_u64 data;
  if protocol_type =? 0 then
    '(dir_tree_seq, hosts_seq) ← read_seqs data;
    Ret (NewConnection dir_tree_seq hosts_seq)
  else Ret Ignored.

(** [TCPManager::read(packet)], on a slave *)
Definition parse_slave (data : bytes) : outcome event :=
  '(protocol_type, data) ← read_u64 data;
  if protocol_type =? 1 then
    '(slave_id, data) ← read_u64 data;
    '(dir_tree_seq, hosts_seq) ← read_seqs data;
    Ret (SlaveRecognized slave_id dir_tree_seq hosts_seq)
  else if protocol_type =? 2 then
    '(dir_tree_seq, hosts_seq) ← read_seqs data;
    Ret (UpdateInfo dir_tree_seq hosts_seq)
  else Ret Ignored.

(** The messages as the senders concatenate them: [initTCPNetwork],
    [newConnection] and [sendUpdate] of user_fs.cc. *)
Definition message_join (dir_tree_seq host_seq : bytes) : bytes :=
  let dir_tree_seq_len := host_to_network_64 (len dir_tree_seq) in
  let host_seq_len := host_to_network_64 (len host_seq) in
  let protocol_type := host_to_network_64 0 in
  protocol_type ++ dir_tree_seq_len ++ dir_tree_seq ++ host_seq_len ++ host_seq.

Definition message_recognition (slave_id : Z) (dir_tree_seq hosts_seq : bytes) : bytes :=
  let merged_dir_tree_seq_len := host_to_network_64 (len dir_tree_seq) in
  let merged_hosts_seq_len := host_to_network_64 (len hosts_seq) in
  let protocol_type := host_to_network_64 1 in
  let slave_id_seq := host_to_network_64 slave_id in
  protocol_type ++ slave_id_seq ++ merged_dir_tree_seq_len ++ dir_tree_seq ++
  merged_hosts_seq_len ++ hosts_seq.

Definition message_update (dir_tree_seq hosts_seq : bytes) : bytes :=
  let message := host_to_network_64 2 in
  let message := message ++ host_to_network_64 (len dir_tree_seq) in
  let message := message ++ dir_tree_seq in
  let message := message ++ host_to_network_64 (len hosts_seq) in
  message ++ hosts_seq.

(** ** Reading back what was written *)

(** The lengths and ids the 64-bit decoder recovers. *)
Definition wire_u64 (z : Z) : Prop := 0 <= z < 2 ^ 48.

#[global] Instance wire_u64_dec z : Decision (wire_u64 z).
Proof. unfold wire_u64. apply _. Defined.

Lemma read_u64_app z rest :
  wire_u64 z → read_u64 (host_to_network_64 z ++ rest) = Ret (z, rest).
Proof.
  intros Hz. unfold read_u64. rewrite network_to_host_64_small by done. run.
  by rewrite advance_64.
Qed.

Lemma read_string_app s rest : read_string (s ++ rest) (len s) = Ret (s, rest).
Proof. unfold read_string. rewrite sub_string_app. run. by rewrite advance_app. Qed.

Lemma read_seqs_app d h rest :
  wire_u64 (len d) → wire_u64 (len h) →
  read_seqs (host_to_network_64 (len d) ++ d ++ host_to_network_64 (len h) ++ h ++ rest) =
  Ret (d, h).
Proof.
  intros Hd Hh. unfold read_seqs.
  rewrite read_u64_app by done. run. rewrite read_string_app. run.
  rewrite read_u64_app by done. run. by rewrite read_string_app.
Qed.

Lemma parse_join d h rest :
  wire_u64 (len d) → wire_u64 (len h) →
  parse_master (message_join d h ++ rest) = Ret (NewConnection d h).
Proof.
  intros Hd Hh. unfold parse_master, message_join. rewrite <- !app_assoc.
  rewrite read_u64_app by by_decide. run. change (0 =? 0) with true. run.
  by rewrite read_seqs_app.
Qed.

Lemma parse_recognition i d h rest :
  wire_u64 i → wire_u64 (len d) → wire_u64 (len h) →
  parse_slave (message_recognition i d h ++ rest) = Ret (SlaveRecognized i d h).
Proof.
  intros Hi Hd Hh. unfold parse_slave, message_recognition. rewrite <- !app_assoc.
  rewrite read_u64_app by by_decide. run. change (1 =? 1) with true. run.
  rewrite read_u64_app by done. run. by rewrite read_seqs_app.
Qed.

Lemma parse_update d h rest :
  wire_u64 (len d) → wire_u64 (len h) →
  parse_slave (message_update d h ++ rest) = Ret (UpdateInfo d h).
Proof.
  intros Hd Hh. unfold parse_slave, message_update. rewrite <- !app_assoc.
  rewrite read_u64_app by by_decide. run.
  change (2 =? 1) with false. change (2 =? 2) with true. run. by rewrite read_seqs_app.
Qed.

(** ** Reading arbitrary bytes *)

Lemma advance_Ret {A} n (l l' : list A) :
  advance n l = Ret l' → ∃ k, l = k ++ l' ∧ len k = n.
Proof.
  unfold advance. intros E. repeat case_match; simplify_eq.
  exists (take (Z.to_nat n) l). rewrite take_drop. split; [done|].
  unfold len in *. rewrite length_take. lia.
Qed.

Lemma sub_string_Ret {A} n (l s : list A) :
  sub_string l n = Ret s → ∃ k, l = s ++ k ∧ len s = n.
Proof.
  unfold sub_string. intros E. repeat case_match; simplify_eq.
  exists (drop (Z.to_nat n) l). rewrite take_drop. split; [done|].
  unfold len in *. rewrite length_take. lia.
Qed.

Lemma read_u64_Ret data v rest :
  read_u64 data = Ret (v, rest) → ∃ k, data = k ++ rest ∧ len k = 8.
Proof.
  unfold read_u64. intros E. inv_bind. simplify_eq. by eapply advance_Ret.
Qed.

Lemma read_string_Ret data n s rest :
  read_string data n = Ret (s, rest) → data = s ++ rest ∧ len s = n.
Proof.
  unfold read_string. intros E. inv_bind. simplify_eq.
  apply sub_string_Ret in Ha as (k & -> & <-).
  rewrite advance_app in Ha0. by simplify_eq.
Qed.

Lemma read_seqs_Ret data d h :
  read_seqs data = Ret (d, h) →
  ∃ ld lh rest, data = ld ++ d ++ lh ++ h ++ rest ∧ len ld = 8 ∧ len lh = 8.
Proof.
  unfold read_seqs. intros E. inv_bind.
  simplify_eq.
  repeat match goal with
  | H : read_u64 _ = Ret _ |- _ => apply read_u64_Ret in H as (? & -> & ?)
  | H : read_string _ _ = Ret _ |- _ => apply read_string_Ret in H as (-> & ?)
  end.
  naive_solver.
Qed.

(** ** Properties *)

(** C27: every message a node sends is read back by the node it is addressed to:
    type 0 by the master, types 1 and 2 by a slave, with the sequences and the
    id that were put in, whatever bytes follow (in particular the terminating
    NUL of the packet's buffer), when the id and the lengths are below 2^48, where the
    64-bit codec is exact ([wire_u64]). *)
Theorem protocol_roundtrip i d h rest :
  wire_u64 i → wire_u64 (len d) → wire_u64 (len h) →
  parse_master (message_join d h ++ rest) = Ret (NewConnection d h) ∧
  parse_slave (message_recognition i d h ++ rest) = Ret (SlaveRecognized i d h) ∧
  parse_slave (message_update d h ++ rest) = Ret (UpdateInfo d h).
Proof. auto using parse_join, parse_recognition, parse_update. Qed.

Lemma protocol_roundtrip_witness :
  parse_slave (message_recognition 2 (str "tree") (str "hosts") ++ [nul]) =
  Ret (SlaveRecognized 2 (str "tree") (str "hosts")).
Proof.
  destruct (protocol_roundtrip 2 (str "tree") (str "hosts") [nul]) as (_ & E & _);
    [by_decide..|exact E].
Defined.

(** C35: a packet is only ever acted on when its length fields stay inside it: a
    parse that yields an event has cut its sequences out of the packet, after
    8-byte fields, and a packet of fewer than seven readable bytes, or one whose
    announced tree length exceeds it, is read out of bounds. *)
Theorem parse_master_inside data :
  (∀ d h, parse_master data = Ret (NewConnection d h) →
    ∃ t ld lh rest, data = t ++ ld ++ d ++ lh ++ h ++ rest ∧
      len t = 8 ∧ len ld = 8 ∧ len lh = 8) ∧
  (len data < 7 → parse_master data = Undef OutOfBounds) ∧
  (∀ n rest, data = host_to_network_64 0 ++ host_to_network_64 n ++ rest →
    wire_u64 n → len rest < n → parse_master data = Undef OutOfBounds).
Proof.
  split_and!.
  - intros d h E. unfold parse_master in E. inv_bind. case_match; [|done]. inv_bind.
    simplify_eq. apply read_seqs_Ret in Ha0 as (ld & lh & rest & -> & ? & ?).
    apply read_u64_Ret in Ha as (k & -> & ?). naive_solver.
  - intros Hl. unfold parse_master, read_u64.
    by rewrite network_to_host_64_short by (unfold len in Hl; lia).
  - intros n rest -> Hn Hl. unfold parse_master. rewrite read_u64_app by by_decide. run.
    change (0 =? 0) with true. run. unfold read_seqs. rewrite read_u64_app by done. run.
    unfold read_string, sub_string.
    destruct (Z.leb_spec n (len rest)); [lia|]. by rewrite andb_false_r.
Qed.

Lemma parse_master_inside_witness :
  parse_master (Packet.data Packet.create) = Undef OutOfBounds ∧
  parse_master (host_to_network_64 0 ++ host_to_network_64 100 ++ str "tree") = Undef OutOfBounds.
Proof.
  pose proof (parse_master_inside (Packet.data Packet.create)) as (_ & H1 & _).
  pose proof (parse_master_inside (host_to_network_64 0 ++ host_to_network_64 100 ++ str "tree"))
    as (_ & _ & H2).
  split; [apply H1; by_decide|apply (H2 100 (str "tree")); [reflexivity|by_decide|by_decide]].
Defined.
End Protocol.

(** ** Framing of one packet *)

Lemma wire_encodeData d p :
  len d + 8 < 2 ^ 64 →
  Packet.wire (Packet.encodeData d p) = Ret (host_to_network_64 (len d) ++ d).
Proof.
  intros Hd. unfold Packet.wire, Packet.data, Packet.size, Packet.encodeData, Packet.sizeLength.
  cbn [Packet._size Packet._data].
  pose proof (len_nonneg d). unfold u64. rewrite wrap_small by lia.
  replace (len d + 8) with (len (host_to_network_64 (len d) ++ d)).
  - apply sub_string_app.
  - rewrite len_app, len_host_to_network_64. lia.
Qed.

(** The number of bytes handed to a write is inside the packet, also when the
    length wraps around. *)
Lemma encodeData_size d p :
  0 <= Packet.size (Packet.encodeData d p) <= len (Packet._data (Packet.encodeData d p)).
Proof.
  unfold Packet.size, Packet.encodeData, Packet.sizeLength. cbn [Packet._size Packet._data].
  rewrite len_app, len_host_to_network_64. pose proof (len_nonneg d).
  split; [apply wrap_bound; lia|]. unfold u64, wrap.
  pose proof (Z.mod_le (len d + 8) (2 ^ 64)). lia.
Qed.

Lemma decodeSize_encoded (d : bytes) p :
  Protocol.wire_u64 (len d) →
  Packet.decodeSize (host_to_network_64 (len d)) p = Ret (Packet.mk (len d) (Packet._data p)).
Proof.
  intros Hd. unfold Packet.decodeSize.
  rewrite <- (app_nil_r (host_to_network_64 (len d))), network_to_host_64_small by done. done.
Qed.

Lemma setData_all (d : bytes) p :
  Packet._size p = len d → Packet.setData d p = Ret (Packet.mk (len d) d).
Proof.
  intros E. unfold Packet.setData. rewrite E.
  rewrite <- (app_nil_r d) at 1. rewrite sub_string_app. done.
Qed.
