(* ===== verification/Ssh.v ===== *)
(** * libssh_wrapper.h, libssh_wrapper.cc, ssh_manager.h: reading from a peer

    [SSHSession] keeps three library handles in raw pointers that its
    constructor does not initialise: a pointer is [Garbage], null or a handle,
    and using [Garbage] is undefined.  libssh is not part of the repository:
    its functions are the class [LibSSH] over an arbitrary world [W] they read
    and change, so every theorem holds for every behaviour of the library and
    of the network behind it. *)

From S2P Require Import Prelude.

Notation handle := nat (only parsing).

Class LibSSH (W : Type) := {
  ssh_new : W → option handle * W;
  ssh_options_set_host : handle → bytes → W → Z * W;
  ssh_options_set_port : handle → Z → W → Z * W;
  ssh_connect : handle → W → Z * W;
  ssh_userauth_publickey_auto : handle → W → Z * W;
  sftp_new : handle → W → option handle * W;
  sftp_init : handle → W → Z * W;
  sftp_open : handle → bytes → W → option handle * W;
  sftp_seek64 : handle → Z → W → Z * W;
  (** the return value and the bytes left in the caller's buffer *)
  sftp_read : handle → Z → W → (Z * bytes) * W;
  sftp_close : handle → W → W;
  sftp_free : handle → W → W;
  (** both accept a null session *)
  ssh_disconnect : option handle → W → W;
  ssh_free : option handle → W → W
}.

Inductive pointer :=
  | Garbage
  | Null
  | Handle (h : handle).

(** The value of a pointer in an expression. *)
Definition value (p : pointer) : outcome (option handle) :=
  match p with
  | Garbage => Undef Indeterminate
  | Null => Ret None
  | Handle h => Ret (Some h)
  end.

(** A pointer that is passed to a function that dereferences it. *)
Definition target (p : pointer) : outcome handle := v ← value p; deref v.

Definition of_option (o : option handle) : pointer :=
  match o with Some h => Handle h | None => Null end.

Module SSHSession.

Record t := mk {
  _address : bytes;
  _port : Z;
  _ssh_session : pointer;
  _sftp_session : pointer;
  _file_handle : pointer;
  _file_open : bytes
}.

(** [SSHSession(host, port)] *)
Definition create (host : bytes) (port : Z) : t := mk host port Garbage Garbage Garbage [].

Definition set_ssh_session (p : pointer) (s : t) : t :=
  mk (_address s) (_port s) p (_sftp_session s) (_file_handle s) (_file_open s).
Definition set_sftp_session (p : pointer) (s : t) : t :=
  mk (_address s) (_port s) (_ssh_session s) p (_file_handle s) (_file_open s).
Definition set_file_handle (p : pointer) (s : t) : t :=
  mk (_address s) (_port s) (_ssh_session s) (_sftp_session s) p (_file_open s).
Definition set_file_open (f : bytes) (s : t) : t :=
  mk (_address s) (_port s) (_ssh_session s) (_sftp_session s) (_file_handle s) f.

Section Operations.
Context {W : Type} `{LibSSH W}.

(** [if (p) f(p)] *)
Definition if_set (p : pointer) (f : handle → W → W) (w : W) : outcome W :=
  v ← value p; Ret (match v with Some h => f h w | None => w end).

Definition disconnect (s : t) (w : W) : outcome (t * W) :=
  let s := set_file_open [] s in
  w ← if_set (_file_handle s) sftp_close w;
  let s := set_file_handle Null s in
  w ← if_set (_sftp_session s) sftp_free w;
  let s := set_sftp_session Null s in
  v ← value (_ssh_session s);
  let w := ssh_disconnect v w in
  let w := ssh_free v w in
  Ret (set_ssh_session Null s, w).

(** [true] on error; each failure leaves what was created so far. *)
Definition do_connect (path : bytes) (s : t) (w : W) : outcome (bool * t * W) :=
  let '(h, w) := ssh_new w in
  let s := set_ssh_session (of_option h) s in
  match h with
  | None => Ret (true, s, w)
  | Some ssh =>
      let '(e1, w) := ssh_options_set_host ssh (_address s) w in
      if negb (e1 =? 0) then Ret (true, s, w) else
      let '(e2, w) := ssh_options_set_port ssh (_port s) w in
      if negb (e2 =? 0) then Ret (true, s, w) else
      let '(e, w) := ssh_connect ssh w in
      if negb (e =? 0) then Ret (true, s, w) else
      let '(e, w) := ssh_userauth_publickey_auto ssh w in
      if negb (e =? 0) then Ret (true, s, w) else
      let '(sf, w) := sftp_new ssh w in
      let s := set_sftp_session (of_option sf) s in
      match sf with
      | None => Ret (true, s, w)
      | Some sftp =>
          let '(e, w) := sftp_init sftp w in
          if negb (e =? 0) then Ret (true, s, w) else
          let '(f, w) := sftp_open sftp path w in
          let s := set_file_handle (of_option f) s in
          match f with
          | None => Ret (true, s, w)
          | Some _ => Ret (false, set_file_open path s, w)
          end
      end
  end.

Definition connect (path : bytes) (s : t) (w : W) : outcome (bool * t * W) :=
  '(failed, s, w) ← do_connect path s w;
  if (failed : bool) then
    '(s, w) ← disconnect s w; Ret (true, s, w)
  else Ret (false, s, w).

(** The result and what is left in [buff]. *)
Definition do_read (offset size : Z) (s : t) (w : W) : outcome (Z * bytes * W) :=
  f ← target (_file_handle s);
  let '(e, w) := sftp_seek64 f offset w in
  if negb (e =? 0) then Ret (-1, [], w) else
  let '((n, buff), w) := sftp_read f size w in
  Ret (n, buff, w).

(** The second half of [read]: reconnect, read once more. *)
Definition reconnect_read (path : bytes) (offset size : Z) (s : t) (w : W)
    : outcome (Z * bytes * t * W) :=
  '(failed, s, w) ← connect path s w;
  if (failed : bool) then Ret (-1, [], s, w) else
  '(bytes_read, buff, w) ← do_read offset size s w;
  if 0 <=? bytes_read then Ret (bytes_read, buff, s, w) else
  '(s, w) ← disconnect s w; Ret (bytes_read, buff, s, w).

Definition read (path : bytes) (offset size : Z) (s : t) (w : W)
    : outcome (Z * bytes * t * W) :=
  connected ← (if decide (_file_open s = path) then
                 v ← value (_sftp_session s); Ret (bool_decide (is_Some v))
               else Ret false);
  if (connected : bool) then
    '(bytes_read, buff, w) ← do_read offset size s w;
    if 0 <=? bytes_read then Ret (bytes_read, buff, s, w) else
    '(s, w) ← disconnect s w;
    reconnect_read path offset size s w
  else reconnect_read path offset size s w.

(** [~SSHSession()] *)
Definition destroy (s : t) (w : W) : outcome W :=
  '(_, w) ← disconnect s w; Ret w.
End Operations.
End SSHSession.

Module SSHManager.

(** [std::unordered_map<uint64_t, SSHSession*> _connections]; the sessions are
    owned by the map. *)
Notation t := (gmap Z SSHSession.t) (only parsing).

Definition findHost (id : Z) (m : t) : bool := bool_decide (is_Some (m !! id)).

(** [emplace] keeps an existing entry; the result is [true] on failure. *)
Definition insertHost (id : Z) (addr : bytes) (port : Z) (m : t) : bool * t :=
  let s := SSHSession.create addr port in
  match m !! id with
  | Some _ => (true, m)
  | None => (false, <[id := s]> m)
  end.

Definition removeHost (id : Z) (m : t) : bool * t :=
  (negb (findHost id m), delete id m).

Definition read {W} `{LibSSH W} (id : Z) (path : bytes) (offset size : Z) (m : t) (w : W)
    : outcome (Z * bytes * t * W) :=
  match m !! id with
  | None => Ret (-1, [], m, w)
  | Some s =>
      '(n, buff, s, w) ← SSHSession.read path offset size s w;
      Ret (n, buff, <[id := s]> m, w)
  end.

(** [~SSHManager()]: the sessions in the order of iteration. *)
Definition destroy {W} `{LibSSH W} (m : t) (w : W) : outcome W :=
  foldl (λ o p, w ← o; SSHSession.destroy p.2 w) (Ret w) (map_to_list m).
End SSHManager.

(** ** States of a session between two reads *)

Definition disconnected (s : SSHSession.t) : Prop :=
  SSHSession._ssh_session s = Null ∧ SSHSession._sftp_session s = Null ∧
  SSHSession._file_handle s = Null ∧ SSHSession._file_open s = [].

Definition is_handle (p : pointer) : Prop := ∃ h, p = Handle h.

Definition connected (path : bytes) (s : SSHSession.t) : Prop :=
  is_handle (SSHSession._ssh_session s) ∧ is_handle (SSHSession._sftp_session s) ∧
  is_handle (SSHSession._file_handle s) ∧ SSHSession._file_open s = path.

(** No pointer is garbage. *)
Definition initialised (s : SSHSession.t) : Prop :=
  SSHSession._ssh_session s ≠ Garbage ∧ SSHSession._sftp_session s ≠ Garbage ∧
  SSHSession._file_handle s ≠ Garbage.

Lemma connected_initialised path s : connected path s → initialised s.
Proof.
  intros ([? E1] & [? E2] & [? E3] & _). unfold initialised. by rewrite E1, E2, E3.
Qed.

Lemma disconnected_initialised s : disconnected s → initialised s.
Proof. intros (E1 & E2 & E3 & _). unfold initialised. by rewrite E1, E2, E3. Qed.

Section SessionLemmas.
Context {W : Type} `{LibSSH W}.

Lemma value_Ret p : p ≠ Garbage → ∃ v, value p = Ret v.
Proof. destruct p; [done|eexists; done..]. Qed.

Lemma if_set_Ret p f (w : W) : p ≠ Garbage → ∃ w', SSHSession.if_set p f w = Ret w'.
Proof. intros [v E]%value_Ret. unfold SSHSession.if_set. rewrite E. by eexists. Qed.

Lemma disconnect_Ret s (w : W) :
  initialised s → ∃ s' w', SSHSession.disconnect s w = Ret (s', w') ∧ disconnected s'.
Proof.
  intros (Hs & Hf & Hh). unfold SSHSession.disconnect. simpl.
  destruct (if_set_Ret (SSHSession._file_handle s) sftp_close w) as [w1 ->]; [done|]. simpl.
  destruct (if_set_Ret (SSHSession._sftp_session s) sftp_free w1) as [w2 ->]; [done|]. simpl.
  destruct (value_Ret (SSHSession._ssh_session s)) as [v ->]; [done|].
  by do 2 eexists.
Qed.

(** [do_connect] always returns; it never leaves garbage where there was none,
    and on success all three handles are set. *)
Lemma do_connect_Ret path s (w : W) :
  ∃ b s' w', SSHSession.do_connect path s w = Ret (b, s', w') ∧
    (initialised s → initialised s') ∧ (b = false → connected path s').
Proof.
  unfold SSHSession.do_connect, initialised, connected, is_handle.
  repeat (case_match; simpl); do 3 eexists; (split; [reflexivity|]); simpl; naive_solver.
Qed.

Lemma connect_Ret path s (w : W) :
  initialised s →
  ∃ b s' w', SSHSession.connect path s w = Ret (b, s', w') ∧
    (if (b : bool) then disconnected s' else connected path s').
Proof.
  intros Hs. unfold SSHSession.connect.
  destruct (do_connect_Ret path s w) as (b & s' & w' & -> & Hi & Hc). run.
  destruct b; [|naive_solver].
  destruct (disconnect_Ret s' w') as (s'' & w'' & -> & ?); naive_solver.
Qed.

Lemma do_read_Ret path offset size s (w : W) :
  connected path s → ∃ n buff w', SSHSession.do_read offset size s w = Ret (n, buff, w').
Proof.
  intros (_ & _ & [f Ef] & _). unfold SSHSession.do_read. rewrite Ef. simpl.
  repeat case_match; naive_solver.
Qed.

(** What [read] promises about the session it leaves behind. *)
Definition read_post (path : bytes) (n : Z) (s : SSHSession.t) : Prop :=
  (0 <= n ∧ connected path s) ∨ (n < 0 ∧ disconnected s).

(** A call of [connect] that returns with everything set or everything cleared. *)
Definition settles (path : bytes) (s : SSHSession.t) (w : W) : Prop :=
  ∃ b s' w', SSHSession.connect path s w = Ret (b, s', w') ∧
    (if (b : bool) then disconnected s' else connected path s').

Lemma reconnect_read_Ret path offset size s (w : W) :
  settles path s w →
  ∃ n buff s' w', SSHSession.reconnect_read path offset size s w = Ret (n, buff, s', w') ∧
    read_post path n s'.
Proof.
  unfold SSHSession.reconnect_read, read_post. intros (b & s1 & w1 & -> & Hb). run.
  destruct b; [do 4 eexists; split; [done|right; split; [lia|done]]|].
  destruct (do_read_Ret path offset size s1 w1) as (n & buff & w2 & ->); [done|]. run.
  destruct (Z.leb_spec 0 n); [do 4 eexists; split; [done|auto]|].
  destruct (disconnect_Ret s1 w2) as (s2 & w3 & -> & ?); [by eapply connected_initialised|].
  run. do 4 eexists. split; [done|auto].
Qed.

Lemma read_Ret path offset size s (w : W) :
  disconnected s ∨ (∃ p, connected p s) →
  ∃ n buff s' w', SSHSession.read path offset size s w = Ret (n, buff, s', w') ∧
    read_post path n s'.
Proof.
  intros Hs.
  assert (initialised s) as Hi.
  { destruct Hs as [?|[p ?]]; [by apply disconnected_initialised|by eapply connected_initialised]. }
  unfold SSHSession.read.
  destruct (decide (SSHSession._file_open s = path)) as [Ep|]; run; [|by apply reconnect_read_Ret, connect_Ret].
  destruct Hs as [(_ & E & _)|[p (H1 & [sf E] & H3 & _)]]; rewrite E; simpl.
  { by apply reconnect_read_Ret, connect_Ret. }
  assert (connected path s) as Hc by (unfold connected, is_handle; naive_solver).
  destruct (do_read_Ret path offset size s w) as (n & buff & w1 & ->); [done|]. run.
  destruct (Z.leb_spec 0 n); [do 4 eexists; split; [done|by left]|].
  destruct (disconnect_Ret s w1) as (s1 & w2 & -> & ?); [done|]. run.
  by apply reconnect_read_Ret, connect_Ret, disconnected_initialised.
Qed.

(** The attempt to connect fails before a file handle is stored, where there was
    none. *)
Definition lost (path : bytes) (s : SSHSession.t) (w : W) : Prop :=
  ∃ s' w', SSHSession.do_connect path s w = Ret (true, s', w') ∧
    SSHSession._file_handle s' = Garbage.

(** The first read of a session, when the attempt gets that far. *)
Lemma fresh_read_Ret addr port path offset size (w : W) :
  path ≠ [] → ¬ lost path (SSHSession.create addr port) w →
  ∃ n buff s' w', SSHSession.read path offset size (SSHSession.create addr port) w =
      Ret (n, buff, s', w') ∧ read_post path n s'.
Proof.
  intros Hp Hl. unfold SSHSession.read. rewrite decide_False by (simpl; congruence). run.
  apply reconnect_read_Ret. unfold settles, SSHSession.connect.
  destruct (do_connect_Ret path (SSHSession.create addr port) w) as (b & s' & w' & E & _ & Hc).
  rewrite E. run. destruct b; [|naive_solver].
  assert (initialised s') as Hi.
  { assert (SSHSession._file_handle s' ≠ Garbage) as Hf by (intros C; apply Hl; by exists s', w').
    revert E Hf. unfold SSHSession.do_connect, initialised.
    repeat (case_match; simpl); intros; simplify_eq/=; done. }
  destruct (disconnect_Ret s' w') as (s2 & w2 & -> & ?); naive_solver.
Qed.

(** The first read of a session whose connection attempt stores no file handle. *)
Lemma fresh_read_undefined addr port path offset size (w : W) s' w' :
  path ≠ [] →
  SSHSession.do_connect path (SSHSession.create addr port) w = Ret (true, s', w') →
  SSHSession._file_handle s' = Garbage →
  SSHSession.read path offset size (SSHSession.create addr port) w = Undef Indeterminate.
Proof.
  intros Hp E Hg. unfold SSHSession.read.
  rewrite decide_False by (simpl; congruence). run.
  unfold SSHSession.reconnect_read, SSHSession.connect. rewrite E. simpl.
  unfold SSHSession.disconnect. simpl. by rewrite Hg.
Qed.
End SessionLemmas.

(** ** Properties *)

(** Once a session has its three pointers set or cleared, a read never
    touches an indeterminate pointer and always returns: with the file of that
    path open on success, with every handle released and cleared on error,
    whatever libssh answers. *)
Theorem session_read_total {W} `{LibSSH W} path offset size s (w : W) :
  disconnected s ∨ (∃ p, connected p s) →
  ∃ n buff s' w', SSHSession.read path offset size s w = Ret (n, buff, s', w') ∧
    ((0 <= n ∧ connected path s') ∨ (n < 0 ∧ disconnected s')).
Proof. apply read_Ret. Qed.

(** a session as the constructor leaves it holds indeterminate pointers: its
    destructor is undefined, and so is the first [read] whenever the connection
    attempt fails before [sftp_open] has stored a file handle. *)
Theorem fresh_session_undefined {W} `{LibSSH W} addr port path offset size (w : W) :
  SSHSession.destroy (SSHSession.create addr port) w = Undef Indeterminate ∧
  (∀ s' w', path ≠ [] →
    SSHSession.do_connect path (SSHSession.create addr port) w = Ret (true, s', w') →
    SSHSession._file_handle s' = Garbage →
    SSHSession.read path offset size (SSHSession.create addr port) w = Undef Indeterminate).
Proof.
  split; [done|]. intros s' w'. apply fresh_read_undefined.
Qed.

(** the cache of sessions by host id: [findHost] finds exactly the hosts
    inserted and not removed, [insertHost] reports and ignores a second
    insertion, and neither touches another host's session. *)
Theorem manager_map_laws id id' addr port (m : gmap Z SSHSession.t) :
  (SSHManager.findHost id m = false →
    SSHManager.insertHost id addr port m = (false, <[id := SSHSession.create addr port]> m)) ∧
  (SSHManager.findHost id m = true → SSHManager.insertHost id addr port m = (true, m)) ∧
  SSHManager.findHost id (SSHManager.insertHost id addr port m).2 = true ∧
  SSHManager.findHost id (SSHManager.removeHost id m).2 = false ∧
  (id ≠ id' →
    (SSHManager.insertHost id addr port m).2 !! id' = m !! id' ∧
    (SSHManager.removeHost id m).2 !! id' = m !! id').
Proof.
  unfold SSHManager.findHost, SSHManager.insertHost, SSHManager.removeHost.
  destruct (m !! id) eqn:E; simpl; rewrite ?E, ?lookup_delete_eq, ?lookup_insert_eq; simpl;
    split_and!; try done; intros; by rewrite ?lookup_insert_ne, ?lookup_delete_ne.
Qed.

(** ** A concrete library

    Handles are numbered; [live] are the ones not released yet.  [up] says
    whether a connection can be made, [content] is every remote file. *)

Module ExampleSSH.
Record world := mk { up : bool; content : bytes; next : nat; live : list nat; pos : Z }.

Definition alloc (w : world) : option nat * world :=
  (Some (next w), mk (up w) (content w) (S (next w)) (next w :: live w) (pos w)).

Definition release (h : nat) (w : world) : world :=
  mk (up w) (content w) (next w) (filter (λ x, x ≠ h) (live w)) (pos w).

Definition chunk (size : Z) (w : world) : bytes :=
  take (Z.to_nat size) (drop (Z.to_nat (pos w)) (content w)).

#[global] Instance lib : LibSSH world := {|
  ssh_new := alloc;
  ssh_options_set_host _ _ w := (0, w);
  ssh_options_set_port _ _ w := (0, w);
  ssh_connect _ w := (if up w then 0 else -1, w);
  ssh_userauth_publickey_auto _ w := (0, w);
  sftp_new _ := alloc;
  sftp_init _ w := (0, w);
  sftp_open _ _ := alloc;
  sftp_seek64 _ off w := (0, mk (up w) (content w) (next w) (live w) off);
  sftp_read _ size w := ((len (chunk size w), chunk size w), w);
  sftp_close := release;
  sftp_free := release;
  ssh_disconnect _ w := w;
  ssh_free o w := match o with Some h => release h w | None => w end
|}.

Definition online : world := mk true (str "This is master file3.") 0 [] 0.
Definition offline : world := mk false [] 0 [] 0.
Definition peer : SSHSession.t := SSHSession.create (str "10.0.0.2") 22.
Definition idle : SSHSession.t := SSHSession.mk (str "10.0.0.2") 22 Null Null Null [].
End ExampleSSH.

Lemma session_read_total_witness :
  ∃ n buff s' w',
    SSHSession.read (str "/w/f") 8 6 ExampleSSH.idle ExampleSSH.online = Ret (n, buff, s', w') ∧
    ((0 <= n ∧ connected (str "/w/f") s') ∨ (n < 0 ∧ disconnected s')).
Proof. apply session_read_total. left. done. Defined.

Lemma fresh_session_undefined_witness :
  SSHSession.read (str "/w/f") 0 10 ExampleSSH.peer ExampleSSH.offline = Undef Indeterminate.
Proof.
  eapply (fresh_session_undefined (str "10.0.0.2") 22 (str "/w/f") 0 10 ExampleSSH.offline);
    [done|reflexivity|reflexivity].
Defined.

Lemma manager_map_laws_witness :
  SSHManager.insertHost 2 (str "a") 22 ∅ = (false, {[2 := SSHSession.create (str "a") 22]}).
Proof. apply (manager_map_laws 2 3 (str "a") 22 ∅). reflexivity. Defined.

(** reading a second file through the same session opens a new connection
    without closing the first: on a library that counts its handles, three are
    live after one file and six after two. *)
Theorem switching_file_leaks_handles :
  ∃ b1 s1 w1 b2 s2 w2,
    SSHSession.read (str "/w/a") 0 4 ExampleSSH.peer ExampleSSH.online = Ret (4, b1, s1, w1) ∧
    length (ExampleSSH.live w1) = 3%nat ∧
    SSHSession.read (str "/w/b") 0 4 s1 w1 = Ret (4, b2, s2, w2) ∧
    length (ExampleSSH.live w2) = 6%nat.
Proof. do 6 eexists. by vm_compute. Qed.
