(* ===== verification/TcpMessager.v ===== *)
(** * tcp_messager.h, tcp_messager.cc: connections, queues and the event loop

    A messager runs one [io_service] on one thread.  The state records, next
    to the members of the class, the asynchronous operations that are under
    way ([pending]) and the handlers that wait for the thread ([ready]): a
    [post] adds to [ready], an [async_*] call adds to [pending], and the
    network completes a pending operation by moving its handler, with a result
    the documentation of Boost.Asio allows, to [ready].  The thread runs the
    ready handlers in any order; nothing here depends on it being first-in
    first-out.

    The messagers call back into their owner ([TCPManager], and through it
    [UserFS]): the classes [MasterOwner] and [MasterReader] are those
    callbacks, over the state [N] of the whole node, and [MasterOwnerOk] is
    what the messager relies on. *)

From stdpp Require Import pretty.
From S2P Require Import Prelude BytesOrder Packet.

(** [std::vector<char>::resize] throws above a size that depends on the
    machine. *)
Class Memory := vector_max : Z.

Definition vec_resize `{Memory} (n : Z) (v : bytes) : outcome bytes :=
  if n <=? vector_max
  then Ret (take (Z.to_nat n) v ++ replicate (Z.to_nat n - length v) nul)
  else Exn (str "vector::_M_default_append").

(** [_resolver.resolve({ addr, service }, ec)]: the error code and the
    endpoints, as the name service answers. *)
Class Resolver := {
  endpoint : Type;
  resolve : bytes → bytes → bool * list endpoint
}.

(** [std::to_string(port)] *)
Definition to_string (port : Z) : bytes := str (pretty port).

(** [async_read] has left [data] at the start of the buffer. *)
Definition fill (data buf : bytes) : bytes := data ++ drop (length data) buf.

(** [queue.front()] *)
Definition front {A} (q : list A) : outcome A :=
  match q with [] => Undef EmptyFront | a :: _ => Ret a end.

(** [queue.size()] as a [bool] *)
Definition nonempty {A} (q : list A) : bool := match q with [] => false | _ => true end.

Module Master.

(** A connection is named by its position in the order of acceptance; elements
    are never erased from the list, so a name stays valid like the iterator. *)
Notation handle := nat (only parsing).

(** The tuple of [Connection].  [remote i] is what the socket answers when the
    owner asks it for the address of the peer in order to admit it as host [i]:
    a socket is asked anew each time, and answers with the address of a default
    endpoint when [remote_endpoint] fails.  Ids are given once, so the answers
    can be fixed when the connection is accepted; nothing is assumed of them. *)
Record Connection := mkConnection {
  socket_open : bool;
  remote : Z → bytes;
  buffer : bytes;
  packet : Packet.t;
  queue : list Packet.t;
  slave_id : Z
}.

Definition set_buffer (b : bytes) (c : Connection) : Connection :=
  mkConnection (socket_open c) (remote c) b (packet c) (queue c) (slave_id c).
Definition set_packet (p : Packet.t) (c : Connection) : Connection :=
  mkConnection (socket_open c) (remote c) (buffer c) p (queue c) (slave_id c).
Definition set_queue (q : list Packet.t) (c : Connection) : Connection :=
  mkConnection (socket_open c) (remote c) (buffer c) (packet c) q (slave_id c).
Definition set_slave_id (i : Z) (c : Connection) : Connection :=
  mkConnection (socket_open c) (remote c) (buffer c) (packet c) (queue c) i.
Definition close_socket (c : Connection) : Connection :=
  mkConnection false (remote c) (buffer c) (packet c) (queue c) (slave_id c).

(** Operations under way; a write knows the number of bytes it was given. *)
Inductive op :=
  | OpAccept
  | OpReadHeader (h : handle)
  | OpReadBody (h : handle)
  | OpWrite (h : handle) (n : Z).

(** Handlers with the arguments they will be called with; [ec] is [true] for
    an error, the data of a read are the bytes it transferred. *)
Inductive task :=
  | TWrite (p : Packet.t)
  | TWriteTo (p : Packet.t) (h : handle)
  | TStop
  | TAccepted (ec : bool) (remote : Z → bytes)
  | THeader (h : handle) (ec : bool) (data : bytes)
  | TBody (h : handle) (ec : bool) (data : bytes)
  | TWritten (h : handle) (ec : bool) (length : Z).

Record t := mk {
  _connections : list Connection;   (** oldest first *)
  pending : list op;
  ready : list task;
  stopped : bool
}.

Definition create : t := mk [] [] [] false.

Definition set_ready (r : list task) (m : t) : t :=
  mk (_connections m) (pending m) r (stopped m).
Definition post (k : task) (m : t) : t := set_ready (ready m ++ [k]) m.
Definition start_op (o : op) (m : t) : t :=
  mk (_connections m) (pending m ++ [o]) (ready m) (stopped m).
Definition alter_conn (f : Connection → Connection) (h : handle) (m : t) : t :=
  mk (alter f h (_connections m)) (pending m) (ready m) (stopped m).

(** [*iter] *)
Definition conn (h : handle) (m : t) : outcome Connection := at_ (_connections m) h.

(** ** The members of TCPMasterMessager that stay inside the messager *)

(** [true] on error: the address must resolve to exactly one endpoint. *)
Definition init `{Resolver} (addr : bytes) (port : Z) : bool :=
  let '(ec, _endpoint_iterator) := resolve addr (to_string port) in
  match _endpoint_iterator with
  | [] => true
  | _ :: _ :: _ => true
  | [_] => ec
  end.

Definition stop (m : t) : t := post TStop m.

Definition write (p : Packet.t) (m : t) : t := post (TWrite p) m.

Definition writeTo (p : Packet.t) (h : handle) (m : t) : t := post (TWriteTo p h) m.

Definition do_write (h : handle) (m : t) : outcome t :=
  c ← conn h m;
  p ← front (queue c);
  _ ← Packet.wire p;
  Ret (start_op (OpWrite h (Packet.size p)) m).

(** [queue.push(pointer); if (!write_in_progress) do_write(iter);] *)
Definition enqueue (p : Packet.t) (h : handle) (m : t) : outcome t :=
  c ← conn h m;
  let write_in_progress := nonempty (queue c) in
  let m := alter_conn (λ c, set_queue (queue c ++ [p]) c) h m in
  if negb write_in_progress then do_write h m else Ret m.

(** The body of the [for] loop in the handler that [write] posts. *)
Definition write_one (p : Packet.t) (h : handle) (m : t) : outcome t :=
  c ← conn h m;
  if negb (socket_open c) then Ret m else enqueue p h m.

Fixpoint write_loop (p : Packet.t) (hs : list handle) (m : t) : outcome t :=
  match hs with
  | [] => Ret m
  | h :: hs => m ← write_one p h m; write_loop p hs m
  end.

(** From [_connections.begin()], the newest connection, to the oldest. *)
Definition iterators (m : t) : list handle := reverse (seq 0 (length (_connections m))).

Definition on_write (p : Packet.t) (m : t) : outcome t := write_loop p (iterators m) m.

(** The handler that [writeTo] posts: the socket is not looked at. *)
Definition on_writeTo (p : Packet.t) (h : handle) (m : t) : outcome t := enqueue p h m.

Definition on_stop (m : t) : t := mk (_connections m) (pending m) (ready m) true.

Definition do_accept (m : t) : t := start_op OpAccept m.

(** [start()], before [_io_service.run()]; the error codes of the acceptor's
    [open], [set_option], [bind] and [listen] are the arguments. *)
Definition start (e_open e_option e_bind e_listen : bool) (m : t) : t :=
  let ec := e_open in
  let ec := if negb ec then e_option else ec in
  let ec := if negb ec then e_bind else ec in
  let ec := if negb ec then e_listen else ec in
  if ec then m else do_accept m.

Section Operations.
Context `{Memory}.

Definition do_read_header (h : handle) (m : t) : outcome t :=
  c ← conn h m;
  b ← vec_resize Packet.sizeLength (buffer c);
  Ret (start_op (OpReadHeader h) (alter_conn (set_buffer b) h m)).

Definition do_read_body (h : handle) (m : t) : outcome t :=
  c ← conn h m;
  b ← vec_resize (Packet.size (packet c)) (buffer c);
  Ret (start_op (OpReadBody h) (alter_conn (set_buffer b) h m)).

Definition do_new_connection (h : handle) (m : t) : outcome t := do_read_header h m.

(** [_connections.push_front(make_tuple(move(_socket), ..., 0))] *)
Definition push_connection (remote : Z → bytes) (m : t) : handle * t :=
  (length (_connections m),
   mk (_connections m ++ [mkConnection true remote [] Packet.create [] 0])
      (pending m) (ready m) (stopped m)).

Definition on_accept (ec : bool) (remote : Z → bytes) (m : t) : outcome t :=
  m ← (if negb ec then
         let '(h, m) := push_connection remote m in do_new_connection h m
       else Ret m);
  Ret (do_accept m).
End Operations.
End Master.

(** ** Callbacks into the owner *)

Class MasterOwner (N : Type) := {
  get_master : N → option Master.t;
  put_master : Master.t → N → N;
  (** [_owner->disconnect(iter)] *)
  owner_disconnect : nat → N → outcome N
}.

Class MasterReader (N : Type) :=
  (** [_owner->read(packet, iter)] *)
  owner_read : Packet.t → nat → N → outcome N.

Section Callbacks.
Context {N : Type} `{MasterOwner N}.

(** A member function of the messager, called on the node. *)
Definition on_master (f : Master.t → outcome Master.t) (n : N) : outcome N :=
  m ← deref (get_master n); m ← f m; Ret (put_master m n).

(** [close(connect_iter)] *)
Definition close (h : nat) (n : N) : outcome N :=
  m ← deref (get_master n);
  c ← Master.conn h m;
  if Master.socket_open c then
    let m := Master.alter_conn (λ c, Master.set_queue [] (Master.close_socket c)) h m in
    owner_disconnect h (put_master m n)
  else Ret n.

Context `{!MasterReader N} `{Memory}.

Definition on_header (h : nat) (ec : bool) (data : bytes) (n : N) : outcome N :=
  if negb ec && (len data =? Packet.sizeLength) then
    on_master (λ m,
      c ← Master.conn h m;
      let b := fill data (Master.buffer c) in
      p ← Packet.decodeSize b (Master.packet c);
      Master.do_read_body h
        (Master.alter_conn (λ c, Master.set_packet p (Master.set_buffer b c)) h m)) n
  else close h n.

(** The body is compared with the size the header announced. *)
Definition on_body (h : nat) (ec : bool) (data : bytes) (n : N) : outcome N :=
  m ← deref (get_master n);
  c ← Master.conn h m;
  if negb ec && (len data =? Packet.size (Master.packet c)) then
    let b := fill data (Master.buffer c) in
    p ← Packet.setData b (Master.packet c);
    let m := Master.alter_conn (λ c, Master.set_packet p (Master.set_buffer b c)) h m in
    n ← owner_read p h (put_master m n);
    on_master (Master.do_read_header h) n
  else close h n.

(** [front()] is evaluated only when there is no error. *)
Definition on_written (h : nat) (ec : bool) (length : Z) (n : N) : outcome N :=
  m ← deref (get_master n);
  c ← Master.conn h m;
  ok ← (if negb ec then p ← front (Master.queue c); Ret (length =? Packet.size p)
        else Ret false);
  if (ok : bool) then
    let q := tail (Master.queue c) in
    let m := Master.alter_conn (Master.set_queue q) h m in
    m ← (if nonempty q then Master.do_write h m else Ret m);
    Ret (put_master m n)
  else close h n.

(** One handler, run by the thread. *)
Definition run_task (k : Master.task) (n : N) : outcome N :=
  match k with
  | Master.TWrite p => on_master (Master.on_write p) n
  | Master.TWriteTo p h => on_master (Master.on_writeTo p h) n
  | Master.TStop => on_master (λ m, Ret (Master.on_stop m)) n
  | Master.TAccepted ec remote => on_master (Master.on_accept ec remote) n
  | Master.THeader h ec data => on_header h ec data n
  | Master.TBody h ec data => on_body h ec data n
  | Master.TWritten h ec length => on_written h ec length n
  end.
End Callbacks.

(** ** class TCPSlaveMessager *)

Module Slave.

Inductive op := OpConnect | OpReadHeader | OpReadBody | OpWrite (n : Z).

Inductive task :=
  | TWrite (p : Packet.t)
  | TStop
  | TConnected (ec : bool)
  | THeader (ec : bool) (data : bytes)
  | TBody (ec : bool) (data : bytes)
  | TWritten (ec : bool) (length : Z).

Record t := mk {
  socket_open : bool;
  _packet : Packet.t;
  _buffer : bytes;
  _write_packets : list Packet.t;
  pending : list op;
  ready : list task;
  stopped : bool
}.

(** [true] on error *)
Definition init `{Resolver} (addr : bytes) (port : Z) : bool :=
  let '(ec, _endpoint_iterator) := resolve addr (to_string port) in ec.

(** [async_connect] opens the socket; until then it is closed. *)
Definition create : t := mk false Packet.create [] [] [] [] false.

Definition set_open (b : bool) (m : t) : t :=
  mk b (_packet m) (_buffer m) (_write_packets m) (pending m) (ready m) (stopped m).
Definition set_packet (p : Packet.t) (m : t) : t :=
  mk (socket_open m) p (_buffer m) (_write_packets m) (pending m) (ready m) (stopped m).
Definition set_buffer (b : bytes) (m : t) : t :=
  mk (socket_open m) (_packet m) b (_write_packets m) (pending m) (ready m) (stopped m).
Definition set_queue (q : list Packet.t) (m : t) : t :=
  mk (socket_open m) (_packet m) (_buffer m) q (pending m) (ready m) (stopped m).
Definition post (k : task) (m : t) : t :=
  mk (socket_open m) (_packet m) (_buffer m) (_write_packets m) (pending m) (ready m ++ [k])
     (stopped m).
Definition start_op (o : op) (m : t) : t :=
  mk (socket_open m) (_packet m) (_buffer m) (_write_packets m) (pending m ++ [o]) (ready m)
     (stopped m).

Definition stop (m : t) : t := post TStop m.

Definition write (p : Packet.t) (m : t) : t := post (TWrite p) m.

Definition do_connect (m : t) : t := start_op OpConnect (set_open true m).

(** [start()]: connect, then run the event loop. *)
Definition start (m : t) : t := do_connect m.

Definition do_write (m : t) : outcome t :=
  p ← front (_write_packets m);
  _ ← Packet.wire p;
  Ret (start_op (OpWrite (Packet.size p)) m).

(** The handler that [write] posts. *)
Definition on_write (p : Packet.t) (m : t) : outcome t :=
  let write_in_progress := nonempty (_write_packets m) in
  let m := set_queue (_write_packets m ++ [p]) m in
  if negb write_in_progress then do_write m else Ret m.

Definition on_stop (m : t) : t :=
  mk (socket_open m) (_packet m) (_buffer m) (_write_packets m) (pending m) (ready m) true.

Definition do_read_header `{Memory} (m : t) : outcome t :=
  b ← vec_resize Packet.sizeLength (_buffer m);
  Ret (start_op OpReadHeader (set_buffer b m)).

Definition do_read_body `{Memory} (m : t) : outcome t :=
  b ← vec_resize (Packet.size (_packet m)) (_buffer m);
  Ret (start_op OpReadBody (set_buffer b m)).
End Slave.

Class SlaveOwner (N : Type) := {
  get_slave : N → option Slave.t;
  put_slave : Slave.t → N → N;
  (** [_owner->disconnect()] and [_owner->read(packet)] *)
  slave_owner_disconnect : N → outcome N;
  slave_owner_read : Packet.t → N → outcome N
}.

Section SlaveCallbacks.
Context {N : Type} `{SlaveOwner N} `{Memory}.

Definition on_slave (f : Slave.t → outcome Slave.t) (n : N) : outcome N :=
  m ← deref (get_slave n); m ← f m; Ret (put_slave m n).

(** [_socket.close(); disconnect();] *)
Definition slave_drop (n : N) : outcome N :=
  n ← on_slave (λ m, Ret (Slave.set_open false m)) n;
  slave_owner_disconnect n.

(** The handler of [do_connect]; the socket stays open on failure. *)
Definition slave_on_connect (ec : bool) (n : N) : outcome N :=
  if negb ec then on_slave Slave.do_read_header n else slave_owner_disconnect n.

Definition slave_on_header (ec : bool) (data : bytes) (n : N) : outcome N :=
  if negb ec && (len data =? Packet.sizeLength) then
    on_slave (λ m,
      let b := fill data (Slave._buffer m) in
      p ← Packet.decodeSize b (Slave._packet m);
      Slave.do_read_body (Slave.set_packet p (Slave.set_buffer b m))) n
  else slave_drop n.

Definition slave_on_body (ec : bool) (data : bytes) (n : N) : outcome N :=
  m ← deref (get_slave n);
  if negb ec && (len data =? Packet.size (Slave._packet m)) then
    let b := fill data (Slave._buffer m) in
    p ← Packet.setData b (Slave._packet m);
    n ← slave_owner_read p (put_slave (Slave.set_packet p (Slave.set_buffer b m)) n);
    on_slave Slave.do_read_header n
  else slave_drop n.

Definition slave_on_written (ec : bool) (length : Z) (n : N) : outcome N :=
  m ← deref (get_slave n);
  ok ← (if negb ec then p ← front (Slave._write_packets m); Ret (length =? Packet.size p)
        else Ret false);
  if (ok : bool) then
    let q := tail (Slave._write_packets m) in
    let m := Slave.set_queue q m in
    m ← (if nonempty q then Slave.do_write m else Ret m);
    Ret (put_slave m n)
  else slave_drop n.

Definition slave_run_task (k : Slave.task) (n : N) : outcome N :=
  match k with
  | Slave.TWrite p => on_slave (Slave.on_write p) n
  | Slave.TStop => on_slave (λ m, Ret (Slave.on_stop m)) n
  | Slave.TConnected ec => slave_on_connect ec n
  | Slave.THeader ec data => slave_on_header ec data n
  | Slave.TBody ec data => slave_on_body ec data n
  | Slave.TWritten ec length => slave_on_written ec length n
  end.
End SlaveCallbacks.
