(* ===== verification/Channel.v ===== *)
(** * A byte stream between two nodes

    A connection carries frames: the eight bytes of a length and a message.
    One side takes packets from its queue and gives their bytes to the network
    in pieces of any size; the other reads eight bytes, then as many as they
    announce.  [channel] relates the two: what the reader has taken, what is on
    the wire and what the writer has not given yet are the frames of the
    messages that are still to be handled.  It holds for both directions and
    for both messagers. *)

From S2P Require Import Prelude BytesOrder Packet TcpMessager.

(** A packet as [TCPManager::write] builds it, and the message in it. *)
Definition sent (message : bytes) : Packet.t := Packet.encodeData message Packet.create.

Definition body (p : Packet.t) : bytes := drop 8 (Packet._data p).

Lemma body_sent msg : body (sent msg) = msg.
Proof. done. Qed.

(** A packet that was built from a message in [P]. *)
Definition packet_of (P : bytes → Prop) (p : Packet.t) : Prop := p = sent (body p) ∧ P (body p).

(** ** Frames *)

Definition frame (msg : bytes) : bytes := host_to_network_64 (len msg) ++ msg.

Fixpoint frames (msgs : list bytes) : bytes :=
  match msgs with [] => [] | msg :: msgs => frame msg ++ frames msgs end.

Lemma frames_app a b : frames (a ++ b) = frames a ++ frames b.
Proof. induction a as [|m a IH]; [done|]. simpl. by rewrite IH, <- app_assoc. Qed.

Lemma length_frame msg : length (frame msg) = (8 + length msg)%nat.
Proof. unfold frame. by rewrite length_app, length_host_to_network_64. Qed.

(** Eight bytes at the front of frames are the header of the first. *)
Lemma frames_header d x msgs :
  length d = 8%nat → d ++ x = frames msgs →
  ∃ msg rest, msgs = msg :: rest ∧ d = host_to_network_64 (len msg) ∧ x = msg ++ frames rest.
Proof.
  intros Hd E. destruct msgs as [|msg rest].
  - by destruct d.
  - exists msg, rest. change (d ++ x = frame msg ++ frames rest) in E.
    unfold frame in E. rewrite <- app_assoc in E.
    apply app_inj_1 in E as [-> ->]; [done|]. by rewrite length_host_to_network_64.
Qed.

(** Then come exactly as many bytes as it says. *)
Lemma frames_body (n : Z) d x msgs :
  Protocol.wire_u64 n → len d = n → Forall (λ m, Protocol.wire_u64 (len m)) msgs →
  host_to_network_64 n ++ d ++ x = frames msgs →
  ∃ rest, msgs = d :: rest ∧ x = frames rest.
Proof.
  intros Hn Hd F E. apply frames_header in E as (msg & rest & -> & Eh & E); [|done].
  apply Forall_cons in F as [Hm _]. assert (n = len msg) as ->.
  { pose proof (network_to_host_64_small n [] Hn) as E1.
    rewrite Eh, network_to_host_64_small in E1 by done. by injection E1. }
  exists rest. apply app_inj_1 in E as [-> ->]; [done|]. unfold len in Hd. lia.
Qed.

(** The bytes of a packet are a frame. *)
Lemma sent_wire msg :
  Protocol.wire_u64 (len msg) →
  Packet.wire (sent msg) = Ret (frame msg) ∧ Packet.size (sent msg) = len (frame msg).
Proof.
  unfold Protocol.wire_u64. intros Hw. split; [apply wire_encodeData; lia|].
  unfold frame. rewrite len_app, len_host_to_network_64.
  change (u64 (len msg + 8) = 8 + len msg). unfold u64. rewrite wrap_small by lia. lia.
Qed.

(** ** The reader *)

(** Where a reader is: it waits for a header, has one, waits for a body of the
    size in its packet, has one. *)
Inductive rstate :=
  | RHeader
  | RGotHeader (d : bytes)
  | RBody (size : Z)
  | RGotBody (size : Z) (d : bytes).

(** The bytes of the current frame it has taken from the stream. *)
Definition taken (r : rstate) : bytes :=
  match r with
  | RHeader => []
  | RGotHeader d => d
  | RBody size => host_to_network_64 size
  | RGotBody size d => host_to_network_64 size ++ d
  end.

Definition rvalid (r : rstate) : Prop :=
  match r with
  | RHeader => True
  | RGotHeader d => len d = Packet.sizeLength
  | RBody size => Protocol.wire_u64 size
  | RGotBody size d => Protocol.wire_u64 size ∧ len d = size
  end.

(** ** Both ends

    [wire] is what the network holds, [given] the number of bytes of the
    writer's first packet it has been given, [out] the packets the writer has
    not finished, [None] when it has closed its end. *)

Section Channel.
Context (P : bytes → Prop) (P_wire : ∀ msg, P msg → Protocol.wire_u64 (len msg)).

Definition channel (r : rstate) (wire : bytes) (given : nat) (out : option (list Packet.t))
    (msgs : list bytes) : Prop :=
  rvalid r ∧ Forall P msgs ∧ ∃ rest, taken r ++ wire ++ rest = frames msgs ∧
    ∀ ps, out = Some ps →
      Forall (packet_of P) ps ∧ (given <= length (frames (body <$> take 1 ps)))%nat ∧
      rest = drop given (frames (body <$> ps)).

Lemma channel_empty : channel RHeader [] 0 (Some []) [].
Proof.
  split; [done|]. split; [constructor|]. exists []. split; [done|]. by intros ps [= <-].
Qed.

(** Nothing is left to handle when nothing is under way. *)
Lemma channel_drained r wire given ps msgs :
  channel r wire given (Some ps) msgs → taken r = [] → wire = [] → ps = [] → msgs = [].
Proof.
  intros (_ & _ & rest & E & O) Ht -> ->. destruct (O [] eq_refl) as (_ & _ & ->).
  rewrite Ht in E. simpl in E. rewrite drop_nil in E. destruct msgs as [|msg msgs]; [done|].
  discriminate E.
Qed.

(** The writer closes; it queues more. *)
Lemma channel_close r wire given given' out msgs :
  channel r wire given out msgs → channel r wire given' None msgs.
Proof. intros (V & F & rest & E & _). split; [done|]. split; [done|]. by exists rest. Qed.

Lemma first_frame (ps : list Packet.t) :
  (length (frames (body <$> take 1 ps)) <= length (frames (body <$> ps)))%nat.
Proof.
  destruct ps as [|p ps]; [done|].
  change (frames (body <$> take 1 (p :: ps))) with (frame (body p) ++ []).
  rewrite fmap_cons. cbn [frames]. rewrite !length_app. change (length []) with 0%nat. lia.
Qed.

Lemma channel_grow r wire given ps ps' msgs :
  channel r wire given (Some ps) msgs → Forall (packet_of P) ps' →
  channel r wire given (Some (ps ++ ps')) (msgs ++ (body <$> ps')).
Proof.
  intros (V & F & rest & E & O) G. destruct (O ps eq_refl) as (Fp & Hg & ->).
  pose proof (first_frame ps).
  split; [done|]. split.
  - apply Forall_app. split; [done|]. apply Forall_fmap.
    eapply Forall_impl; [exact G|]. by intros p [].
  - eexists. split; [|intros ? [= <-]; split; [by apply Forall_app|split; [|reflexivity]]].
    + rewrite frames_app, <- E, fmap_app, frames_app, drop_app_le by lia. by rewrite !app_assoc.
    + destruct ps; [|done]. simpl in Hg. lia.
Qed.

(** The network takes a piece of the packet that is being written. *)
Lemma channel_transmit r wire given p ps msgs chunk rest :
  channel r wire given (Some (p :: ps)) msgs →
  drop given (frame (body p)) = chunk ++ rest → (given <= length (frame (body p)))%nat →
  channel r (wire ++ chunk) (given + length chunk) (Some (p :: ps)) msgs.
Proof.
  intros (V & F & r0 & E & O) Hd Hg. destruct (O _ eq_refl) as (Fp & Hg' & ->).
  assert (length chunk <= length (frame (body p)) - given)%nat as Hl.
  { rewrite <- length_drop, Hd, length_app. lia. }
  split; [done|]. split; [done|]. eexists.
  split; [|intros ? [= <-]; split; [done|split; [|reflexivity]]].
  - rewrite <- E, <- app_assoc. f_equal. f_equal. rewrite <- drop_drop.
    rewrite !fmap_cons. cbn [frames].
    rewrite (drop_app_le (frame (body p)) _ given) by done. rewrite Hd, <- app_assoc.
    by rewrite drop_app_length.
  - cbn [take]. rewrite fmap_cons. cbn [frames]. rewrite length_app. lia.
Qed.

(** The write completes when all of it has been given. *)
Lemma channel_written r wire p ps msgs :
  channel r wire (length (frame (body p))) (Some (p :: ps)) msgs →
  channel r wire 0 (Some ps) msgs.
Proof.
  intros (V & F & r0 & E & O). destruct (O _ eq_refl) as (Fp & Hg & ->).
  split; [done|]. split; [done|]. eexists. split; [exact E|]. intros ? [= <-].
  apply Forall_cons in Fp as [_ Fp]. split; [done|]. split; [lia|].
  rewrite fmap_cons. cbn [frames]. by rewrite drop_app_length, drop_0.
Qed.

(** *** The reader's four transitions *)

Lemma channel_receive_header d wire given out msgs :
  len d = Packet.sizeLength → channel RHeader (d ++ wire) given out msgs →
  channel (RGotHeader d) wire given out msgs.
Proof.
  intros Hd (V & F & r0 & E & O). split; [done|]. split; [done|]. exists r0. split; [|done].
  rewrite <- E. simpl. by rewrite <- app_assoc.
Qed.

Lemma channel_header d wire given out msgs :
  channel (RGotHeader d) wire given out msgs →
  ∃ msg rest, msgs = msg :: rest ∧ P msg ∧ d = host_to_network_64 (len msg) ∧
    channel (RBody (len msg)) wire given out msgs.
Proof.
  intros (V & F & r0 & E & O). simpl in V.
  pose proof E as E'. cbn [taken] in E'. apply frames_header in E' as (msg & rest & -> & -> & _);
    [|unfold len, Packet.sizeLength in V; lia].
  apply Forall_cons in F as [Hm F]. exists msg, rest. split; [done|]. split; [done|].
  split; [done|]. split; [by apply P_wire|]. split; [by constructor|]. by exists r0.
Qed.

Lemma channel_receive_body size d wire given out msgs :
  len d = size → channel (RBody size) (d ++ wire) given out msgs →
  channel (RGotBody size d) wire given out msgs.
Proof.
  intros Hd (V & F & r0 & E & O). split; [done|]. split; [done|]. exists r0. split; [|done].
  rewrite <- E. simpl. by rewrite <- !app_assoc.
Qed.

Lemma channel_body size d wire given out msgs :
  channel (RGotBody size d) wire given out msgs →
  ∃ rest, msgs = d :: rest ∧ P d ∧ channel RHeader wire given out rest.
Proof.
  intros ([V1 V2] & F & r0 & E & O). pose proof E as E'. cbn [taken] in E'.
  rewrite <- app_assoc in E'. apply frames_body in E' as (rest & -> & E'); [|done|done|].
  2:{ eapply Forall_impl; [exact F|]. exact P_wire. }
  apply Forall_cons in F as [Hd F]. exists rest. split; [done|]. split; [done|].
  split; [done|]. split; [done|]. by exists r0.
Qed.
End Channel.
