(* ===== verification/MasterLoop.v ===== *)
(** * The event loop of the master: steps and invariant

    [step] is one step of a master node: the network completes an operation,
    or the thread runs a ready handler.  The invariant [Inv] is proved for
    every owner that keeps to [MasterOwnerOk]: a connection whose socket is
    open has exactly one read under way, and exactly one write when its sending
    queue is not empty, none when it is. *)

From S2P Require Import Prelude BytesOrder Packet TcpMessager.
Import Master.

(** ** Counting *)

Fixpoint count {A} (f : A → bool) (l : list A) : nat :=
  match l with
  | [] => 0
  | a :: l => (if f a then 1 else 0) + count f l
  end.

Lemma count_app {A} (f : A → bool) l k : count f (l ++ k) = (count f l + count f k)%nat.
Proof. induction l as [|a l IH]; simpl; lia. Qed.

Lemma count_delete {A} (f : A → bool) l i a :
  l !! i = Some a → count f l = ((if f a then 1 else 0) + count f (delete i l))%nat.
Proof.
  revert i. induction l as [|b l IH]; intros [|i] E; simplify_eq/=; [done|].
  rewrite (IH _ E). lia.
Qed.

Lemma count_0 {A} (f : A → bool) l : Forall (λ a, f a = false) l → count f l = 0%nat.
Proof. induction 1 as [|a l Ha _ IH]; simpl; [done|]. by rewrite Ha. Qed.

(** Operations and handlers of one connection. *)
Definition is_read_op (h : nat) (o : op) : bool :=
  match o with OpReadHeader h' | OpReadBody h' => (h' =? h)%nat | _ => false end.

Definition is_read_task (h : nat) (k : task) : bool :=
  match k with THeader h' _ _ | TBody h' _ _ => (h' =? h)%nat | _ => false end.

Definition is_write_op (h : nat) (o : op) : bool :=
  match o with OpWrite h' _ => (h' =? h)%nat | _ => false end.

Definition is_write_task (h : nat) (k : task) : bool :=
  match k with TWritten h' _ _ => (h' =? h)%nat | _ => false end.

Definition is_accept_op (o : op) : bool := match o with OpAccept => true | _ => false end.

Definition is_accept_task (k : task) : bool := match k with TAccepted _ _ => true | _ => false end.

Definition reads (h : nat) (m : Master.t) : nat :=
  (count (is_read_op h) (pending m) + count (is_read_task h) (ready m))%nat.

Definition writes (h : nat) (m : Master.t) : nat :=
  (count (is_write_op h) (pending m) + count (is_write_task h) (ready m))%nat.

Definition accepts (m : Master.t) : nat :=
  (count is_accept_op (pending m) + count is_accept_task (ready m))%nat.

(** ** The network *)

(** Results Boost.Asio documents for an operation: a read or write reports
    success only when everything was transferred on an open socket (a read of
    no bytes always succeeds), and no more bytes than asked for. *)
Definition completes (m : Master.t) (o : op) (k : task) : Prop :=
  match o, k with
  | OpAccept, TAccepted _ _ => True
  | OpReadHeader h, THeader h' ec data =>
      h' = h ∧
      match _connections m !! h with
      | None => False
      | Some c => len data <= Packet.sizeLength ∧
          (ec = false → len data = Packet.sizeLength ∧ socket_open c = true)
      end
  | OpReadBody h, TBody h' ec data =>
      h' = h ∧
      match _connections m !! h with
      | None => False
      | Some c => len data <= Packet.size (packet c) ∧
          (ec = false → len data = Packet.size (packet c) ∧
            (socket_open c = true ∨ Packet.size (packet c) = 0))
      end
  | OpWrite h n, TWritten h' ec length =>
      h' = h ∧
      match _connections m !! h with
      | None => False
      | Some c => length <= n ∧ (ec = false → length = n ∧ socket_open c = true)
      end
  | _, _ => False
  end.

#[export] Instance completes_dec m o k : Decision (completes m o k).
Proof.
  destruct o, k; simpl; try apply _; destruct (_connections m !! _); apply _.
Defined.

Section Loop.
Context {N : Type} `{MasterOwner N} `{!MasterReader N} `{Memory}.

Inductive step (n : N) : outcome N → Prop :=
  | step_complete m i o k :
      get_master n = Some m →
      pending m !! i = Some o → completes m o k →
      step n (Ret (put_master
        (mk (_connections m) (delete i (pending m)) (ready m ++ [k]) (stopped m)) n))
  | step_run m i k :
      get_master n = Some m → stopped m = false →
      ready m !! i = Some k →
      step n (run_task k (put_master (set_ready (delete i (ready m)) m) n)).

(** A schedule: which operation completes how, which handler runs. *)
Inductive action := Complete (i : nat) (k : task) | Run (i : nat).

(** The step a schedule asks for, when it is one. *)
Definition act (a : action) (n : N) : option (outcome N) :=
  m ← get_master n;
  match a with
  | Complete i k =>
      o ← pending m !! i;
      if decide (completes m o k) then
        Some (Ret (put_master
          (mk (_connections m) (delete i (pending m)) (ready m ++ [k]) (stopped m)) n))
      else None
  | Run i =>
      k ← ready m !! i;
      if stopped m then None
      else Some (run_task k (put_master (set_ready (delete i (ready m)) m) n))
  end.

Fixpoint play (s : list action) (n : N) : option (outcome N) :=
  match s with
  | [] => Some (Ret n)
  | a :: s =>
      r ← act a n;
      match r with Ret n' => play s n' | bad => match s with [] => Some bad | _ => None end end
  end.

Lemma act_step a n r : act a n = Some r → step n r.
Proof.
  unfold act. destruct (get_master n) as [m|] eqn:G; [|done]. simpl. destruct a as [i k|i].
  - destruct (pending m !! i) as [o|] eqn:Ho; [|done]. simpl.
    case_decide; [|done]. intros [= <-]. by eapply step_complete.
  - destruct (ready m !! i) as [k|] eqn:Hk; [|done]. simpl.
    destruct (stopped m) eqn:S; [done|]. intros [= <-]. by eapply step_run.
Qed.

(** A finite run without failures. *)
Inductive steps : N → N → Prop :=
  | steps_refl n : steps n n
  | steps_more n n' n'' : steps n n' → step n' (Ret n'') → steps n n''.

Lemma steps_trans n1 n2 n3 : steps n1 n2 → steps n2 n3 → steps n1 n3.
Proof.
  intros H1 H2. induction H2 as [|a b c _ IH S]; [done|]. eapply steps_more; [by apply IH|exact S].
Qed.

Lemma play_steps s n n' : play s n = Some (Ret n') → steps n n'.
Proof.
  revert n. induction s as [|a s IH]; intros n E; simpl in E; [simplify_eq; constructor|].
  destruct (act a n) as [r|] eqn:Ea; [|done]. simpl in E. apply act_step in Ea.
  destruct r as [n1| | |]; try by destruct s.
  eapply steps_trans; [|by apply IH]. econstructor; [constructor|done].
Qed.
End Loop.

(** ** What the owner may do to the messager *)

Definition packet_ok (p : Packet.t) : Prop := 0 <= Packet.size p <= len (Packet._data p).

(** Such a packet can be handed to [async_write]. *)
Lemma wire_Ret p : packet_ok p → ∃ w, Packet.wire p = Ret w.
Proof.
  intros [P1 P2]. unfold Packet.wire, sub_string, Packet.data. rewrite len_app.
  pose proof (len_nonneg [nul]).
  destruct (Z.leb_spec 0 (Packet.size p)); [|lia].
  destruct (Z.leb_spec (Packet.size p) (len (Packet._data p) + len [nul])); [|lia].
  by eexists.
Qed.

(** Tasks an owner posts, for [n] connections. *)
Definition posted (n : nat) (k : task) : Prop :=
  match k with
  | TWrite p => packet_ok p
  | TWriteTo p h => packet_ok p ∧ (h < n)%nat
  | _ => False
  end.

(** Change its slave id, or close it. *)
Definition conn_evolves (c c' : Connection) : Prop :=
  remote c' = remote c ∧ buffer c' = buffer c ∧ packet c' = packet c ∧
  ((socket_open c' = socket_open c ∧ queue c' = queue c) ∨
   (socket_open c' = false ∧ queue c' = [])).

Record evolves (m m' : Master.t) : Prop := {
  evolves_conns : Forall2 conn_evolves (_connections m) (_connections m');
  evolves_pending : pending m' = pending m;
  evolves_ready : ∃ posts, ready m' = ready m ++ posts ∧
    Forall (posted (length (_connections m))) posts
}.

Class MasterOwnerOk (N : Type) `{MasterOwner N} `{!MasterReader N} : Prop := {
  get_put_master m n : get_master (put_master m n) = Some m;
  owner_disconnect_evolves h n n' m :
    get_master n = Some m → owner_disconnect h n = Ret n' →
    ∃ m', get_master n' = Some m' ∧ evolves m m';
  owner_read_evolves p h n n' m :
    get_master n = Some m → (h < length (_connections m))%nat → owner_read p h n = Ret n' →
    ∃ m', get_master n' = Some m' ∧ evolves m m'
}.

#[export] Instance conn_evolves_preorder : PreOrder conn_evolves.
Proof.
  split.
  - intros c. unfold conn_evolves. naive_solver.
  - intros c1 c2 c3. unfold conn_evolves. intuition congruence.
Qed.

#[export] Instance evolves_preorder : PreOrder evolves.
Proof.
  split.
  - intros m. split; [|done|exists []; by rewrite app_nil_r].
    reflexivity.
  - intros m1 m2 m3 [C1 P1 (l1 & R1 & F1)] [C2 P2 (l2 & R2 & F2)]. split.
    + by trans (_connections m2).
    + congruence.
    + exists (l1 ++ l2). rewrite R2, R1, app_assoc. split; [done|].
      apply Forall_app. split; [done|]. by rewrite (Forall2_length _ _ _ C1).
Qed.

Lemma evolves_alter f h m :
  (∀ c, conn_evolves c (f c)) → evolves m (alter_conn f h m).
Proof.
  intros Hf. split; [|done|exists []; by rewrite app_nil_r]. simpl.
  apply Forall2_same_length_lookup. split; [by rewrite length_alter|].
  intros h' c c' E E'. rewrite list_lookup_alter in E'.
  destruct (decide (h = h')) as [<-|]; [rewrite E in E'|]; simplify_eq/=; [done|reflexivity].
Qed.

Lemma evolves_post k m : posted (length (_connections m)) k → evolves m (post k m).
Proof. intros Hk. split; [reflexivity|done|]. exists [k]. split; [done|by constructor]. Qed.

Lemma conn_evolves_close c : conn_evolves c (set_queue [] (close_socket c)).
Proof. unfold conn_evolves. naive_solver. Qed.

Lemma conn_evolves_slave_id i c : conn_evolves c (set_slave_id i c).
Proof. unfold conn_evolves. naive_solver. Qed.

#[export] Hint Resolve evolves_alter evolves_post conn_evolves_close conn_evolves_slave_id : gsfs.

(** ** The invariant

    A handler that is running has been taken out of [ready]; it holds a token
    for the read ([rt]), the write ([wt]) or the accept ([at]) it completed. *)

Definition op_valid (n : nat) (o : op) : Prop :=
  match o with
  | OpAccept => True
  | OpReadHeader h | OpReadBody h | OpWrite h _ => (h < n)%nat
  end.

Definition task_valid (n : nat) (k : task) : Prop :=
  match k with
  | TWrite p => packet_ok p
  | TWriteTo p h => packet_ok p ∧ (h < n)%nat
  | TStop | TAccepted _ _ => True
  | THeader h _ _ | TBody h _ _ | TWritten h _ _ => (h < n)%nat
  end.

Definition token (o : option nat) (h : nat) : nat := if decide (o = Some h) then 1 else 0.

Record Inv_with (rt wt : option nat) (at_n : nat) (m : Master.t) : Prop := {
  inv_pending : Forall (op_valid (length (_connections m))) (pending m);
  inv_ready : Forall (task_valid (length (_connections m))) (ready m);
  inv_reads h c : _connections m !! h = Some c →
    (reads h m + token rt h <= 1)%nat ∧
    (socket_open c = true → (reads h m + token rt h = 1)%nat);
  inv_writes h c : _connections m !! h = Some c → socket_open c = true →
    (writes h m + token wt h = if nonempty (queue c) then 1 else 0)%nat;
  inv_queue h c : _connections m !! h = Some c → Forall packet_ok (queue c);
  inv_op_size h c n p : _connections m !! h = Some c → socket_open c = true →
    OpWrite h n ∈ pending m → head (queue c) = Some p → n = Packet.size p;
  inv_task_size h c l p : _connections m !! h = Some c → socket_open c = true →
    TWritten h false l ∈ ready m → head (queue c) = Some p → l = Packet.size p;
  inv_accepts : (accepts m + at_n <= 1)%nat
}.

Definition Inv : Master.t → Prop := Inv_with None None 0.

Lemma token_None h : token None h = 0%nat.
Proof. done. Qed.

Lemma token_Some h h' : token (Some h) h' = if decide (h = h') then 1%nat else 0%nat.
Proof. unfold token. by repeat case_decide; simplify_eq. Qed.

Lemma Inv_create : Inv Master.create.
Proof.
  split; simpl; [constructor|constructor|intros *; by rewrite lookup_nil..|].
  vm_compute. lia.
Qed.

Lemma posted_valid n k : posted n k → task_valid n k.
Proof. by destruct k. Qed.

(** The owner's changes keep the invariant. *)
Lemma Inv_evolves rt wt a m m' : evolves m m' → Inv_with rt wt a m → Inv_with rt wt a m'.
Proof.
  intros [C P (posts & R & F)] I.
  pose proof (Forall2_length _ _ _ C) as L.
  assert (∀ h c', _connections m' !! h = Some c' →
    ∃ c, _connections m !! h = Some c ∧ conn_evolves c c') as B.
  { intros h c' E. by eapply Forall2_lookup_r. }
  assert (∀ f : task → bool, (∀ k, posted (length (_connections m)) k → f k = false) →
    count f (ready m') = count f (ready m)) as K.
  { intros f Hf. rewrite R, count_app, (count_0 f posts); [lia|].
    eapply Forall_impl; [exact F|]. naive_solver. }
  assert (∀ h, reads h m' = reads h m) as Er.
  { intros h. unfold reads. rewrite P, K; [done|]. by intros []. }
  assert (∀ h, writes h m' = writes h m) as Ew.
  { intros h. unfold writes. rewrite P, K; [done|]. by intros []. }
  split.
  - rewrite P, <- L. apply I.
  - rewrite R, <- L. apply Forall_app. split; [apply I|].
    eapply Forall_impl; [exact F|]. apply posted_valid.
  - intros h c' E. destruct (B h c' E) as (c & E' & Hc). rewrite Er.
    destruct (inv_reads _ _ _ _ I h c E') as [H1 H2]. split; [done|].
    destruct Hc as (_ & _ & _ & [[-> _]|[-> _]]); [done|by intros].
  - intros h c' E O. destruct (B h c' E) as (c & E' & Hc). rewrite Ew.
    destruct Hc as (_ & _ & _ & [[O' ->]|[O' _]]); [|congruence].
    apply (inv_writes _ _ _ _ I h c E'). congruence.
  - intros h c' E. destruct (B h c' E) as (c & E' & Hc).
    destruct Hc as (_ & _ & _ & [[_ ->]|[_ ->]]); [by eapply I|constructor].
  - intros h c' n p E O Hin Hp. destruct (B h c' E) as (c & E' & Hc).
    destruct Hc as (_ & _ & _ & [[O' Q]|[O' Q]]); [|congruence].
    rewrite P in Hin. eapply (inv_op_size _ _ _ _ I h c); congruence.
  - intros h c' l p E O Hin Hp. destruct (B h c' E) as (c & E' & Hc).
    destruct Hc as (_ & _ & _ & [[O' Q]|[O' Q]]); [|congruence].
    rewrite R in Hin. apply elem_of_app in Hin as [Hin|Hin].
    + eapply (inv_task_size _ _ _ _ I h c); congruence.
    + rewrite Forall_forall in F. by apply F in Hin.
  - unfold accepts. rewrite P, K; [apply I|]. by intros [].
Qed.

(** A connection whose socket is closed needs no tokens. *)
Lemma Inv_drop_tokens rt wt a m h c :
  _connections m !! h = Some c → socket_open c = false →
  (∀ h', rt = Some h' → h' = h) → (∀ h', wt = Some h' → h' = h) →
  Inv_with rt wt a m → Inv_with None None a m.
Proof.
  intros E O Hr Hw I. split; try apply I.
  - intros h' c' E'. destruct (inv_reads _ _ _ _ I h' c' E') as [H1 H2].
    rewrite token_None. split; [lia|]. intros O'.
    assert (token rt h' = 0%nat) as T; [|specialize (H2 O'); lia].
    unfold token. case_decide as D; [|done]. apply Hr in D as ->. congruence.
  - intros h' c' E' O'. pose proof (inv_writes _ _ _ _ I h' c' E' O') as W.
    rewrite token_None. assert (token wt h' = 0%nat) as T; [|lia].
    unfold token. case_decide as D; [|done]. apply Hw in D as ->. congruence.
Qed.

(** ** Building blocks of the handlers *)

Lemma count_elem {A} (f : A → bool) l a : a ∈ l → f a = true → (1 <= count f l)%nat.
Proof.
  intros Ha E. induction l as [|b l IH]; [by apply elem_of_nil in Ha|].
  apply elem_of_cons in Ha as [<-|Ha]; simpl; [rewrite E; lia|]. specialize (IH Ha). lia.
Qed.

Lemma writes_op h n m : OpWrite h n ∈ pending m → (1 <= writes h m)%nat.
Proof.
  intros Hin. unfold writes. pose proof (count_elem (is_write_op h) _ _ Hin (Nat.eqb_refl h)). lia.
Qed.

Lemma writes_task h ec l m : TWritten h ec l ∈ ready m → (1 <= writes h m)%nat.
Proof.
  intros Hin. unfold writes. pose proof (count_elem (is_write_task h) _ _ Hin (Nat.eqb_refl h)). lia.
Qed.

Lemma lookup_alter_inv {A} (f : A → A) h (l : list A) h' c' :
  alter f h l !! h' = Some c' →
  ∃ c, l !! h' = Some c ∧ c' = if decide (h = h') then f c else c.
Proof.
  rewrite list_lookup_alter. destruct (decide (h = h')) as [<-|]; [|naive_solver].
  destruct (l !! h) as [c|]; simpl; naive_solver.
Qed.

(** Changes to the receive buffer and packet are invisible. *)
Lemma Inv_alter rt wt a m h f :
  (∀ c, socket_open (f c) = socket_open c ∧ queue (f c) = queue c) →
  Inv_with rt wt a m → Inv_with rt wt a (alter_conn f h m).
Proof.
  intros Hf I. split; simpl; rewrite ?length_alter; try apply I.
  all: intros h' c' *; intros (c & E & ->)%lookup_alter_inv.
  all: destruct (Hf c) as [Ho Hq].
  all: assert (socket_open (if decide (h = h') then f c else c) = socket_open c) as Eo
    by (by case_decide).
  all: assert (queue (if decide (h = h') then f c else c) = queue c) as Eq by (by case_decide).
  all: rewrite ?Eo, ?Eq.
  all: first [by apply (inv_reads _ _ _ _ I)|by apply (inv_writes _ _ _ _ I)
    |by apply (inv_queue _ _ _ _ I h')|by apply (inv_op_size _ _ _ _ I h')
    |by apply (inv_task_size _ _ _ _ I h')].
Qed.

(** Starting the next read hands the token back. *)
Lemma Inv_start_read wt a m h o :
  o = OpReadHeader h ∨ o = OpReadBody h →
  (h < length (_connections m))%nat →
  Inv_with (Some h) wt a m → Inv_with None wt a (start_op o m).
Proof.
  intros Ho Hh I.
  assert (∀ h', reads h' (start_op o m) = (reads h' m + token (Some h) h')%nat) as Er.
  { intros h'. unfold reads. simpl. rewrite count_app, token_Some.
    destruct Ho as [-> | ->]; simpl; case_decide; destruct (Nat.eqb_spec h h'); lia. }
  assert (∀ h', writes h' (start_op o m) = writes h' m) as Ew.
  { intros h'. unfold writes. simpl. rewrite count_app. destruct Ho as [-> | ->]; simpl; lia. }
  assert (accepts (start_op o m) = accepts m) as Ea.
  { unfold accepts. simpl. rewrite count_app. destruct Ho as [-> | ->]; simpl; lia. }
  split; try apply I.
  - simpl. apply Forall_app. split; [apply I|]. constructor; [|constructor].
    by destruct Ho as [-> | ->].
  - intros h' c E. rewrite Er, token_None. rewrite Nat.add_0_r. by apply I.
  - intros h' c E O. rewrite Ew. by apply I.
  - intros h' c n p E O Hin Hp. simpl in Hin. apply elem_of_app in Hin as [Hin|Hin].
    + by eapply (inv_op_size _ _ _ _ I h' c).
    + apply list_elem_of_singleton in Hin. destruct Ho as [-> | ->]; done.
  - rewrite Ea. apply I.
Qed.

(** A change of one sending queue, with at most one write started for it. *)
Lemma Inv_queue_update rt wt wt' a m h c q ops :
  _connections m !! h = Some c →
  (∀ h', h' ≠ h → token wt' h' = token wt h') →
  Forall packet_ok q →
  (ops = [] ∨ ∃ p, head q = Some p ∧ ops = [OpWrite h (Packet.size p)]) →
  (socket_open c = true →
    (length ops + writes h m + token wt' h = if nonempty q then 1 else 0)%nat ∧
    (head q = head (queue c) ∨ writes h m = 0%nat)) →
  Inv_with rt wt a m →
  Inv_with rt wt' a
    (mk (alter (set_queue q) h (_connections m)) (pending m ++ ops) (ready m) (stopped m)).
Proof.
  intros E Ht Hq Hops Hw I.
  set (m' := mk _ _ _ _).
  assert (∀ o, o ∈ ops → ∃ p, head q = Some p ∧ o = OpWrite h (Packet.size p)) as Hnew.
  { intros o Ho. destruct Hops as [-> |(p & Hp & ->)]; [by apply elem_of_nil in Ho|].
    apply list_elem_of_singleton in Ho. eauto. }
  assert (∀ h', reads h' m' = reads h' m) as Er.
  { intros h'. unfold reads. simpl. rewrite count_app.
    destruct Hops as [-> |(p & _ & ->)]; simpl; lia. }
  assert (∀ h', writes h' m' = (writes h' m + if decide (h = h') then length ops else 0)%nat) as Ew.
  { intros h'. unfold writes. simpl. rewrite count_app.
    destruct Hops as [-> |(p & _ & ->)]; simpl; case_decide;
      destruct (Nat.eqb_spec h h'); simpl; lia. }
  split; simpl; rewrite ?length_alter; try apply I.
  - apply Forall_app. split; [apply I|].
    destruct Hops as [-> |(p & _ & ->)]; repeat constructor. by eapply lookup_lt_Some.
  - intros h' c'. intros (c1 & E1 & ->)%lookup_alter_inv. rewrite Er.
    assert (socket_open (if decide (h = h') then set_queue q c1 else c1) = socket_open c1) as ->
      by (by case_decide).
    by apply I.
  - intros h' c'. intros (c1 & E1 & ->)%lookup_alter_inv. rewrite Ew.
    destruct (decide (h = h')) as [<-|Hne]; simpl; intros O.
    + simplify_eq. destruct (Hw O) as [Hw1 _]. lia.
    + rewrite Ht by done. pose proof (inv_writes _ _ _ _ I h' c1 E1 O). lia.
  - intros h' c'. intros (c1 & E1 & ->)%lookup_alter_inv.
    case_decide; [done|]. by eapply I.
  - intros h' c' n p. intros (c1 & E1 & ->)%lookup_alter_inv O Hin Hp.
    apply elem_of_app in Hin.
    destruct (decide (h = h')) as [<-|Hne]; simpl in *.
    + simplify_eq. destruct Hin as [Hin|(p' & Hp' & [= ->])%Hnew]; [|congruence].
      destruct (Hw O) as [_ [Hh|Hz]]; [eapply (inv_op_size _ _ _ _ I h c); congruence|].
      apply writes_op in Hin. lia.
    + destruct Hin as [Hin|(p' & _ & [= ->])%Hnew]; [|done].
      by eapply (inv_op_size _ _ _ _ I h' c1).
  - intros h' c' l p. intros (c1 & E1 & ->)%lookup_alter_inv O Hin Hp.
    destruct (decide (h = h')) as [<-|Hne]; simpl in *.
    + simplify_eq. destruct (Hw O) as [_ [Hh|Hz]].
      * eapply (inv_task_size _ _ _ _ I h c); congruence.
      * apply writes_task in Hin. lia.
    + by eapply (inv_task_size _ _ _ _ I h' c1).
  - unfold accepts. simpl. rewrite count_app.
    pose proof (inv_accepts _ _ _ _ I) as A. unfold accepts in A.
    destruct Hops as [-> |(p & _ & ->)]; simpl; lia.
Qed.

Lemma do_write_Ret h m m' :
  do_write h m = Ret m' →
  ∃ c p, _connections m !! h = Some c ∧ head (queue c) = Some p ∧
    m' = start_op (OpWrite h (Packet.size p)) m.
Proof.
  unfold do_write, conn. intros E. inv_bind. subst. apply at_Ret in Ha.
  destruct (queue a) as [|p q] eqn:Q; [done|]. simpl in *. simplify_eq.
  exists a, a0. by rewrite Q.
Qed.

Lemma Inv_enqueue rt na p h m m' :
  packet_ok p → Inv_with rt None na m → enqueue p h m = Ret m' →
  Inv_with rt None na m' ∧ length (_connections m') = length (_connections m).
Proof.
  intros Hp I E. unfold enqueue, conn in E. inv_bind. apply at_Ret in Ha.
  assert (alter_conn (λ c, set_queue (queue c ++ [p]) c) h m =
    mk (alter (set_queue (queue a ++ [p])) h (_connections m)) (pending m ++ []) (ready m)
       (stopped m)) as Em.
  { unfold alter_conn. f_equal; [|by rewrite app_nil_r].
    apply list_alter_ext; [|done]. intros c Hc. by simplify_eq. }
  assert (Forall packet_ok (queue a ++ [p])) as Hq.
  { apply Forall_app. split; [by eapply I|by constructor]. }
  destruct (queue a) as [|p0 q0] eqn:Q; simpl in E.
  - rewrite Em in E. apply do_write_Ret in E as (c & p' & Ec & Hp' & ->).
    simpl in Ec. apply lookup_alter_inv in Ec as (c0 & E0 & ->).
    rewrite decide_True in Hp' by done. simpl in Hp'. simplify_eq.
    simpl. rewrite length_alter. split; [|done].
    unfold start_op. simpl. rewrite app_nil_r.
    eapply (Inv_queue_update rt None None na m h); [done|done|done| | |done].
    + right. by exists p'.
    + intros O. pose proof (inv_writes _ _ _ _ I h _ Ha O) as W.
      rewrite Q in W. simpl in *. rewrite token_None in *. split; [lia|right; lia].
  - inv_bind. subst m'. rewrite Em. simpl. rewrite length_alter. split; [|done].
    eapply (Inv_queue_update rt None None na m h); [done|done|done|by left| |done].
    intros O. pose proof (inv_writes _ _ _ _ I h _ Ha O) as W.
    rewrite Q in W. simpl in *. rewrite Q. simpl. split; [lia|by left].
Qed.

Lemma Inv_write_loop rt na p hs m m' :
  packet_ok p → Inv_with rt None na m → write_loop p hs m = Ret m' → Inv_with rt None na m'.
Proof.
  intros Hp. revert m. induction hs as [|h hs IH]; intros m I E; simpl in E.
  { by inv_bind; subst. }
  inv_bind. apply (IH a); [|done]. unfold write_one in Ha. inv_bind.
  destruct (socket_open a0); simpl in Ha; inv_bind; subst; [|done].
  by eapply Inv_enqueue.
Qed.

(** Closing a connection releases its tokens. *)
Lemma Inv_close_conn rt wt a m h :
  (∀ h', rt = Some h' → h' = h) → (∀ h', wt = Some h' → h' = h) →
  (h < length (_connections m))%nat → Inv_with rt wt a m →
  Inv_with None None a (alter_conn (λ c, set_queue [] (close_socket c)) h m).
Proof.
  intros Hr Hw Hh I. destruct (lookup_lt_is_Some_2 _ _ Hh) as [c0 Hc0].
  eapply (Inv_drop_tokens rt wt a _ h (set_queue [] (close_socket c0))); [|done|done|done|].
  { simpl. by rewrite list_lookup_alter_eq, Hc0. }
  eapply Inv_evolves; [|exact I]. auto with gsfs.
Qed.

Lemma Inv_remove_task rt wt m i k :
  ready m !! i = Some k → Inv m →
  (rt = match k with THeader h _ _ | TBody h _ _ => Some h | _ => None end) →
  (wt = match k with TWritten h _ _ => Some h | _ => None end) →
  Inv_with rt wt (if is_accept_task k then 1 else 0) (set_ready (delete i (ready m)) m).
Proof.
  intros E I -> ->.
  assert (∀ f, count f (ready m) = ((if f k then 1 else 0) + count f (delete i (ready m)))%nat)
    as K by (intros f; by apply count_delete).
  assert (∀ h h', (if (h' =? h)%nat then 1 else 0)%nat = token (Some h') h) as T.
  { intros h h'. rewrite token_Some. destruct (Nat.eqb_spec h' h); by case_decide. }
  set (m' := set_ready _ m).
  assert (∀ h, (reads h m' + token match k with THeader h _ _ | TBody h _ _ => Some h | _ => None end h
    = reads h m)%nat) as Er.
  { intros h. unfold reads. simpl. rewrite (K (is_read_task h)).
    destruct k; simpl; rewrite ?token_None, ?T; lia. }
  assert (∀ h, (writes h m' + token match k with TWritten h _ _ => Some h | _ => None end h
    = writes h m)%nat) as Ew.
  { intros h. unfold writes. simpl. rewrite (K (is_write_task h)).
    destruct k; simpl; rewrite ?token_None, ?T; lia. }
  split; simpl; try apply I.
  - apply Forall_delete, I.
  - intros h c Hc. rewrite Er, <- (Nat.add_0_r (reads h m)). by apply (inv_reads _ _ _ _ I).
  - intros h c Hc O. rewrite Ew, <- (Nat.add_0_r (writes h m)). by apply (inv_writes _ _ _ _ I).
  - intros h c l p Hc O Hin. eapply (inv_task_size _ _ _ _ I h c); [done..|].
    by eapply list_elem_of_delete_inv.
  - pose proof (inv_accepts _ _ _ _ I) as A. unfold accepts in *. simpl.
    rewrite (K is_accept_task) in A. lia.
Qed.

(** Completion of an operation by the network. *)
Lemma Inv_complete m i o k :
  pending m !! i = Some o → completes m o k → Inv m →
  Inv (mk (_connections m) (delete i (pending m)) (ready m ++ [k]) (stopped m)).
Proof.
  intros E Hk I. set (m' := mk _ _ _ _).
  assert (∀ f, count f (pending m) = ((if f o then 1 else 0) + count f (delete i (pending m)))%nat)
    as K by (intros f; by apply count_delete).
  assert (∀ h, is_read_op h o = is_read_task h k ∧ is_write_op h o = is_write_task h k ∧
    is_accept_op o = is_accept_task k) as S.
  { intros h. destruct o, k; simpl in Hk; try done; destruct Hk as [-> _]; done. }
  assert (∀ h, reads h m' = reads h m ∧ writes h m' = writes h m ∧ accepts m' = accepts m) as C.
  { intros h. destruct (S h) as (S1 & S2 & S3). unfold reads, writes, accepts. simpl.
    rewrite !count_app, (K (is_read_op h)), (K (is_write_op h)), (K is_accept_op).
    simpl. rewrite S1, S2, S3. lia. }
  assert (op_valid (length (_connections m)) o) as V.
  { eapply Forall_lookup_1; [apply I|exact E]. }
  split; simpl; try apply I.
  - apply Forall_delete, I.
  - apply Forall_app. split; [apply I|]. constructor; [|constructor].
    destruct o, k; simpl in *; try done; by destruct Hk as [-> _].
  - intros h c Hc. destruct (C h) as (-> & _ & _). by apply (inv_reads _ _ _ _ I).
  - intros h c Hc O. destruct (C h) as (_ & -> & _). by apply (inv_writes _ _ _ _ I).
  - intros h c n p Hc O Hin. eapply (inv_op_size _ _ _ _ I h c); [done..|].
    by eapply list_elem_of_delete_inv.
  - intros h c l p Hc O Hin Hp. apply elem_of_app in Hin as [Hin|Hin].
    { by eapply (inv_task_size _ _ _ _ I h c). }
    apply list_elem_of_singleton in Hin as <-.
    destruct o as [| | |h' n]; simpl in Hk; try done.
    destruct Hk as [-> Hk]. rewrite Hc in Hk. destruct Hk as [_ Hl]. destruct (Hl eq_refl) as [-> _].
    eapply (inv_op_size _ _ _ _ I h' c); [done..| |done].
    by eapply list_elem_of_lookup_2.
  - destruct (C 0%nat) as (_ & _ & ->). apply I.
Qed.

Section Preservation.
Context {N : Type} `{MasterOwner N} `{!MasterReader N} `{Memory} `{!MasterOwnerOk N}.

(** The node's messager satisfies [P] after every call that returns. *)
Definition post_inv (P : Master.t → Prop) (r : outcome N) : Prop :=
  ∀ n', r = Ret n' → ∃ m', get_master n' = Some m' ∧ P m'.

Lemma post_inv_on_master (P : Master.t → Prop) f n m :
  get_master n = Some m → (∀ m', f m = Ret m' → P m') → post_inv P (on_master f n).
Proof.
  intros G Hf n' E. unfold on_master in E. rewrite G in E. simpl in E.
  inv_bind. subst. eexists. split; [apply get_put_master|]. auto.
Qed.

Lemma close_Inv rt wt a h n m :
  get_master n = Some m →
  (∀ h', rt = Some h' → h' = h) → (∀ h', wt = Some h' → h' = h) →
  Inv_with rt wt a m → post_inv (Inv_with None None a) (close h n).
Proof.
  intros G Hr Hw I n' E. unfold close in E. rewrite G in E. simpl in E. inv_bind.
  unfold conn in Ha0. apply at_Ret in Ha0.
  destruct (socket_open a0) eqn:O.
  - eapply owner_disconnect_evolves in E as (m' & G' & Ev); [|apply get_put_master].
    exists m'. split; [done|]. eapply Inv_evolves; [exact Ev|].
    eapply Inv_close_conn; [exact Hr|exact Hw|by eapply lookup_lt_Some|done].
  - inv_bind. subst. exists m. split; [done|].
    by eapply (Inv_drop_tokens rt wt a m h a0).
Qed.

Lemma do_read_Inv wt a h m m' :
  do_read_header h m = Ret m' ∨ do_read_body h m = Ret m' →
  Inv_with (Some h) wt a m → Inv_with None wt a m'.
Proof.
  intros E I.
  assert (∃ b o, (o = OpReadHeader h ∨ o = OpReadBody h) ∧ (h < length (_connections m))%nat ∧
    m' = start_op o (alter_conn (set_buffer b) h m)) as (b & o & Ho & Hh & ->).
  { destruct E as [E|E]; unfold do_read_header, do_read_body, conn in E; inv_bind; subst;
      apply at_Ret, lookup_lt_Some in Ha0; eauto 10. }
  apply (Inv_start_read wt a _ h o); [done|by simpl; rewrite length_alter|].
  by apply Inv_alter.
Qed.

Lemma on_header_Inv h ec data n m :
  get_master n = Some m → Inv_with (Some h) None 0 m → post_inv Inv (on_header h ec data n).
Proof.
  intros G I. unfold on_header. case_match; [|by eapply close_Inv; [..|exact I]; naive_solver].
  apply (post_inv_on_master _ _ _ m); [done|]. intros m' E. inv_bind.
  eapply (do_read_Inv None 0 h); [right; exact E|]. by apply Inv_alter.
Qed.

Lemma on_body_Inv h ec data n m :
  get_master n = Some m → Inv_with (Some h) None 0 m → post_inv Inv (on_body h ec data n).
Proof.
  intros G I. unfold on_body. rewrite G. simpl. intros n' E. inv_bind.
  unfold conn in Ha. apply at_Ret in Ha.
  case_match; [|by eapply close_Inv; [exact G|..|exact I|exact E]; naive_solver].
  inv_bind.
  eapply owner_read_evolves in Ha1 as (m1 & G1 & Ev);
    [|apply get_put_master|simpl; rewrite length_alter; by eapply lookup_lt_Some].
  eapply (post_inv_on_master Inv); [exact G1| |exact E]. intros m' E'.
  eapply (do_read_Inv None 0 h); [left; exact E'|].
  eapply Inv_evolves; [exact Ev|]. by apply Inv_alter.
Qed.

Lemma on_written_Inv h ec l n m :
  get_master n = Some m → Inv_with None (Some h) 0 m → post_inv Inv (on_written h ec l n).
Proof.
  intros G I. unfold on_written. rewrite G. simpl. intros n' E. inv_bind.
  unfold conn in Ha. apply at_Ret in Ha. destruct a0.
  2: { eapply close_Inv; [exact G|..|exact I|exact E]; naive_solver. }
  inv_bind. subst n'. eexists. split; [apply get_put_master|].
  assert (∃ p q, queue a = p :: q) as (p & q & Q).
  { destruct ec; [done|]. destruct (queue a); [done|eauto]. }
  assert (Forall packet_ok q) as Hq.
  { pose proof (inv_queue _ _ _ _ I h a Ha) as F. rewrite Q in F.
    by apply Forall_cons in F as [_ F]. }
  assert (socket_open a = true → writes h m = 0%nat) as W0.
  { intros O. pose proof (inv_writes _ _ _ _ I h a Ha O) as W.
    rewrite Q, token_Some, decide_True in W by done. simpl in W. lia. }
  assert (∀ h', h' ≠ h → token None h' = token (Some h) h') as Ht.
  { intros h' Hne. rewrite token_None, token_Some. by rewrite decide_False by congruence. }
  rewrite Q in Ha1. simpl tail in Ha1. destruct q as [|p' q].
  - simpl in Ha1. inv_bind. subst. unfold alter_conn.
    rewrite <- (app_nil_r (pending m)).
    eapply (Inv_queue_update None (Some h) None 0 m h a); [done|done|done|by left| |done].
    intros O. specialize (W0 O). rewrite token_None. simpl. split; [lia|by right].
  - simpl nonempty in Ha1. apply do_write_Ret in Ha1 as (c1 & p1 & E1 & Hp1 & ->).
    simpl in E1. apply lookup_alter_inv in E1 as (c0 & E0 & ->).
    rewrite decide_True in Hp1 by done. simpl in Hp1. injection Hp1 as <-.
    unfold start_op, alter_conn. simpl.
    eapply (Inv_queue_update None (Some h) None 0 m h a); [done|done|done| | |done].
    + right. by exists p'.
    + intros O. specialize (W0 O). rewrite token_None. simpl. split; [lia|by right].
Qed.

Lemma count_valid n h ops tasks :
  Forall (op_valid n) ops → Forall (task_valid n) tasks → (n <= h)%nat →
  count (is_read_op h) ops = 0%nat ∧ count (is_write_op h) ops = 0%nat ∧
  count (is_read_task h) tasks = 0%nat ∧ count (is_write_task h) tasks = 0%nat.
Proof.
  intros Ho Hk Hh.
  split_and!; apply count_0; (eapply Forall_impl; [first [exact Ho|exact Hk]|]);
    intros []; simpl; try done; intros ?; destruct (Nat.eqb_spec h0 h); done || lia.
Qed.

(** A connection nobody knows yet has nothing under way. *)
Lemma Inv_push_connection a r m :
  Inv_with None None a m →
  let '(h, m') := push_connection r m in
  Inv_with (Some h) None a m' ∧ (h < length (_connections m'))%nat.
Proof.
  intros I. simpl. rewrite length_app. simpl. split; [|lia].
  set (n := length (_connections m)).
  destruct (count_valid n n (pending m) (ready m))
    as (C1 & C2 & C3 & C4); [apply I|apply I|done|].
  split; simpl; rewrite ?length_app; try apply I.
  - eapply Forall_impl; [apply I|]. intros []; simpl; lia.
  - eapply Forall_impl; [apply I|]. intros []; simpl; lia || intuition lia.
  - intros h c Hc. unfold reads. simpl.
    apply lookup_app_Some in Hc as [Hc|[Hn Hc]].
    + rewrite token_Some, decide_False; [|apply lookup_lt_Some in Hc; lia].
      pose proof (inv_reads _ _ _ _ I h c Hc) as R. by rewrite token_None in R.
    + apply list_lookup_singleton_Some in Hc as [Hz <-]. assert (h = n) as -> by lia.
      rewrite token_Some, decide_True, C1, C3 by done. simpl. lia.
  - intros h c Hc O. unfold writes. simpl.
    apply lookup_app_Some in Hc as [Hc|[Hn Hc]]; [by apply (inv_writes _ _ _ _ I h c)|].
    apply list_lookup_singleton_Some in Hc as [Hz <-]. assert (h = n) as -> by lia.
    simpl. rewrite C2, C4. done.
  - intros h c Hc. apply lookup_app_Some in Hc as [Hc|[Hn Hc]]; [by eapply I|].
    apply list_lookup_singleton_Some in Hc as [_ <-]. constructor.
  - intros h c k p Hc O Hin Hp. apply lookup_app_Some in Hc as [Hc|[Hn Hc]].
    + by eapply (inv_op_size _ _ _ _ I h c).
    + by apply list_lookup_singleton_Some in Hc as [_ <-].
  - intros h c k p Hc O Hin Hp. apply lookup_app_Some in Hc as [Hc|[Hn Hc]].
    + by eapply (inv_task_size _ _ _ _ I h c).
    + by apply list_lookup_singleton_Some in Hc as [_ <-].
Qed.

Lemma Inv_do_accept m : Inv_with None None 1 m → Inv (do_accept m).
Proof.
  intros I.
  assert (∀ h, reads h (do_accept m) = reads h m ∧ writes h (do_accept m) = writes h m) as C.
  { intros h. unfold reads, writes. simpl. rewrite !count_app. simpl. lia. }
  split; try apply I.
  - simpl. apply Forall_app. split; [apply I|]. by repeat constructor.
  - intros h c Hc. destruct (C h) as [-> _]. by apply (inv_reads _ _ _ _ I).
  - intros h c Hc O. destruct (C h) as [_ ->]. by apply (inv_writes _ _ _ _ I).
  - intros h c k p Hc O Hin. simpl in Hin. apply elem_of_app in Hin as [Hin|Hin].
    + by eapply (inv_op_size _ _ _ _ I h c).
    + by apply list_elem_of_singleton in Hin.
  - unfold accepts. simpl. rewrite count_app. simpl.
    pose proof (inv_accepts _ _ _ _ I) as A. unfold accepts in A. lia.
Qed.

Lemma Inv_start e1 e2 e3 e4 : Inv (Master.start e1 e2 e3 e4 Master.create).
Proof.
  unfold Master.start. case_match; [apply Inv_create|]. apply Inv_do_accept.
  destruct Inv_create as [? ? ? ? ? ? ? A]. by split.
Qed.

Lemma on_accept_Inv ec r m m' : on_accept ec r m = Ret m' → Inv_with None None 1 m → Inv m'.
Proof.
  intros E I. unfold on_accept in E. inv_bind. subst. apply Inv_do_accept.
  destruct ec; simpl in Ha; [by inv_bind; subst|].
  pose proof (Inv_push_connection 1 r m I) as P. simpl in P. destruct P as [I' _].
  eapply (do_read_Inv None 1); [left; exact Ha|exact I'].
Qed.

(** One handler, with the token of the operation it completes. *)
Lemma run_task_Inv k n m i :
  get_master n = Some (set_ready (delete i (ready m)) m) → ready m !! i = Some k → Inv m →
  post_inv Inv (run_task k n).
Proof.
  intros G Hk I.
  pose proof (Inv_remove_task _ _ m i k Hk I eq_refl eq_refl) as J.
  assert (task_valid (length (_connections m)) k) as V.
  { eapply Forall_lookup_1; [apply I|exact Hk]. }
  destruct k; simpl in J, V |- *.
  - eapply post_inv_on_master; [exact G|]. intros m' E. by eapply Inv_write_loop.
  - eapply post_inv_on_master; [exact G|]. intros m' E. destruct V. by eapply Inv_enqueue.
  - eapply post_inv_on_master; [exact G|]. intros m' E. inv_bind. subst. split; apply J.
  - eapply post_inv_on_master; [exact G|]. intros m' E. by eapply on_accept_Inv.
  - by eapply on_header_Inv.
  - by eapply on_body_Inv.
  - by eapply on_written_Inv.
Qed.

Lemma step_Inv n m n' :
  get_master n = Some m → Inv m → step n (Ret n') →
  ∃ m', get_master n' = Some m' ∧ Inv m'.
Proof.
  intros G I S. remember (Ret n') as r eqn:Er. destruct S as [m1 i o k G1 Ho Hk|m1 i k G1 Hs Hk];
    rewrite G in G1; injection G1 as <-.
  - simplify_eq. eexists. split; [apply get_put_master|]. by eapply Inv_complete.
  - eapply run_task_Inv; [apply get_put_master|exact Hk|exact I|exact Er].
Qed.

Lemma steps_Inv n m n' :
  get_master n = Some m → Inv m → steps n n' →
  ∃ m', get_master n' = Some m' ∧ Inv m'.
Proof.
  intros G I. induction 1 as [|n n1 n2 _ IH S]; [eauto|].
  destruct (IH G) as (m1 & G1 & I1). by eapply step_Inv.
Qed.

(** A write that completed on a connection that is still open finds its packet
    at the front of the queue and hands over to the next one. *)
Lemma on_written_open n m i h l c :
  get_master n = Some (set_ready (delete i (ready m)) m) →
  ready m !! i = Some (TWritten h false l) → Inv m →
  _connections m !! h = Some c → socket_open c = true →
  ∃ p q n' m' c', queue c = p :: q ∧ on_written h false l n = Ret n' ∧
    get_master n' = Some m' ∧ _connections m' !! h = Some c' ∧ queue c' = q ∧
    socket_open c' = true ∧ writes h m' = (if nonempty q then 1%nat else 0%nat).
Proof.
  intros G Hk I Hc O.
  pose proof (writes_task h false l m (list_elem_of_lookup_2 _ _ _ Hk)) as W1.
  pose proof (inv_writes _ _ _ _ I h c Hc O) as W. rewrite token_None in W.
  destruct (queue c) as [|p q] eqn:Q; [simpl in W; lia|].
  assert (l = Packet.size p) as ->.
  { eapply (inv_task_size _ _ _ _ I h c); [done..| |by rewrite Q].
    by eapply list_elem_of_lookup_2. }
  assert (∃ n', on_written h false (Packet.size p) n = Ret n') as [n' En'].
  { unfold on_written. rewrite G. simpl. unfold conn, at_. simpl. rewrite Hc. simpl.
    rewrite Q. simpl. rewrite Z.eqb_refl. simpl. destruct q as [|p' q]; [by eexists|].
    unfold do_write, conn, at_. simpl. rewrite list_lookup_alter_eq, Hc. simpl.
    pose proof (inv_queue _ _ _ _ I h c Hc) as F. rewrite Q in F.
    rewrite !Forall_cons in F. destruct F as (_ & P & _).
    destruct (wire_Ret p' P) as [w ->]. by eexists. }
  pose proof (run_task_Inv _ n m i G Hk I _ En') as (m' & G' & I').
  exists p, q, n', m'.
  assert (∃ c', _connections m' !! h = Some c' ∧ queue c' = q ∧ socket_open c' = true)
    as (c' & E' & Q' & O').
  { unfold on_written in En'. rewrite G in En'. simpl in En'. unfold conn, at_ in En'.
    simpl in En'. rewrite Hc in En'. simpl in En'. rewrite Q in En'. simpl in En'.
    rewrite Z.eqb_refl in En'. simpl in En'. inv_bind. subst n'.
    rewrite get_put_master in G'. injection G' as ->.
    assert (_connections m' = alter (set_queue q) h (_connections m)) as ->.
    { destruct q as [|p' q]; simpl in Ha; [by inv_bind; subst|].
      by apply do_write_Ret in Ha as (? & ? & _ & _ & ->). }
    exists (set_queue q c). by rewrite list_lookup_alter_eq, Hc. }
  exists c'. split_and!; try done.
  pose proof (inv_writes _ _ _ _ I' h c' E' O') as W'.
  by rewrite token_None, Nat.add_0_r, Q' in W'.
Qed.
End Preservation.
