(* ===== verification/UserFs.v ===== *)
(** * user_fs.h, user_fs.cc, tcp_manager.h, tcp_manager.cc: a node of the group

    [UserFS] owns a [TCPManager], which owns a messager and calls back into
    [UserFS]; the three share the state of one node, so they are one file.
    [Node.t] is that state.  A member function that can throw or fail is a
    function of the node into [outcome].  [UserFS] is an owner in the sense of
    TcpMessager: the instances [node_owner], [node_reader] and [node_slave]
    close the knot.  The blocks the source runs under [_access] are the atomic
    units here; the two halves of [initTCPNetwork], before and after the network
    thread is started, are two functions, because handlers may run in between. *)

From S2P Require Import Prelude BytesOrder StdSet Archive Path DirTree Host Packet Ssh.
From S2P Require Import TcpMessager.

Module TCPManager.

Record t := mk {
  _is_master : bool;
  _is_slave : bool;
  _master_messager : option Master.t;
  _slave_messager : option Slave.t
}.

(** [TCPManager(owner)] *)
Definition create : t := mk false false None None.

Definition set_master (m : Master.t) (x : t) : t :=
  mk (_is_master x) (_is_slave x) (Some m) (_slave_messager x).
Definition set_slave (m : Slave.t) (x : t) : t :=
  mk (_is_master x) (_is_slave x) (_master_messager x) (Some m).

(** [true] on error *)
Definition initialize `{Resolver} (is_master : bool) (addr : bytes) (port : Z) (x : t)
    : bool * t :=
  if is_master then
    let x := mk true (_is_slave x) (Some Master.create) None in
    if Master.init addr port then (true, x) else (false, x)
  else
    let x := mk (_is_master x) true None (Some Slave.create) in
    if Slave.init addr port then (true, x) else (false, x).

(** [start()]: what the new thread does before it enters the event loop; the
    booleans are the acceptor's error codes, see [Master.start]. *)
Definition start (e1 e2 e3 e4 : bool) (x : t) : outcome t :=
  if _is_master x then
    m ← deref (_master_messager x); Ret (set_master (Master.start e1 e2 e3 e4 m) x)
  else if _is_slave x then
    m ← deref (_slave_messager x); Ret (set_slave (Slave.start m) x)
  else Ret x.

(** Write to all peers. *)
Definition write (message : bytes) (x : t) : outcome t :=
  let packet := Packet.encodeData message Packet.create in
  if _is_master x then
    m ← deref (_master_messager x); Ret (set_master (Master.write packet m) x)
  else if _is_slave x then
    m ← deref (_slave_messager x); Ret (set_slave (Slave.write packet m) x)
  else Ret x.

(** Write to one peer. *)
Definition writeTo (message : bytes) (h : nat) (x : t) : outcome t :=
  let packet := Packet.encodeData message Packet.create in
  m ← deref (_master_messager x); Ret (set_master (Master.writeTo packet h m) x).

(** The first half of [~TCPManager()]: both messagers are asked to stop. *)
Definition stop (x : t) : t :=
  mk (_is_master x) (_is_slave x) (Master.stop <$> _master_messager x)
     (Slave.stop <$> _slave_messager x).
End TCPManager.

Module Node.

(** The members of [UserFS], with [_tcp_manager] and [_ssh_manager]. *)
Record t := mk {
  _main_thread_is_waiting : bool;
  _slave_wait_sem : Z;
  _host_id : Z;
  _working_dir : bytes;
  _max_host_id : Z;
  _dir_tree : option TreeNode.t;
  _hosts : list Host.t;
  _tcp_manager : TCPManager.t;
  _ssh_manager : gmap Z SSHSession.t
}.

(** [UserFS()] *)
Definition create : t := mk true 0 0 [] 2 DirTree_create [] TCPManager.create ∅.

Definition set_waiting (b : bool) (n : t) : t :=
  mk b (_slave_wait_sem n) (_host_id n) (_working_dir n) (_max_host_id n) (_dir_tree n)
     (_hosts n) (_tcp_manager n) (_ssh_manager n).
Definition sem_post (n : t) : t :=
  mk (_main_thread_is_waiting n) (_slave_wait_sem n + 1) (_host_id n) (_working_dir n)
     (_max_host_id n) (_dir_tree n) (_hosts n) (_tcp_manager n) (_ssh_manager n).
Definition set_host_id (i : Z) (n : t) : t :=
  mk (_main_thread_is_waiting n) (_slave_wait_sem n) i (_working_dir n) (_max_host_id n)
     (_dir_tree n) (_hosts n) (_tcp_manager n) (_ssh_manager n).
Definition set_working_dir (d : bytes) (n : t) : t :=
  mk (_main_thread_is_waiting n) (_slave_wait_sem n) (_host_id n) d (_max_host_id n)
     (_dir_tree n) (_hosts n) (_tcp_manager n) (_ssh_manager n).
Definition set_max_host_id (i : Z) (n : t) : t :=
  mk (_main_thread_is_waiting n) (_slave_wait_sem n) (_host_id n) (_working_dir n) i
     (_dir_tree n) (_hosts n) (_tcp_manager n) (_ssh_manager n).
Definition set_dir_tree (d : option TreeNode.t) (n : t) : t :=
  mk (_main_thread_is_waiting n) (_slave_wait_sem n) (_host_id n) (_working_dir n)
     (_max_host_id n) d (_hosts n) (_tcp_manager n) (_ssh_manager n).
Definition set_hosts (hs : list Host.t) (n : t) : t :=
  mk (_main_thread_is_waiting n) (_slave_wait_sem n) (_host_id n) (_working_dir n)
     (_max_host_id n) (_dir_tree n) hs (_tcp_manager n) (_ssh_manager n).
Definition set_tcp_manager (x : TCPManager.t) (n : t) : t :=
  mk (_main_thread_is_waiting n) (_slave_wait_sem n) (_host_id n) (_working_dir n)
     (_max_host_id n) (_dir_tree n) (_hosts n) x (_ssh_manager n).
Definition set_ssh_manager (s : gmap Z SSHSession.t) (n : t) : t :=
  mk (_main_thread_is_waiting n) (_slave_wait_sem n) (_host_id n) (_working_dir n)
     (_max_host_id n) (_dir_tree n) (_hosts n) (_tcp_manager n) s.

Definition master (n : t) : option Master.t := TCPManager._master_messager (_tcp_manager n).

Definition set_master (m : Master.t) (n : t) : t :=
  set_tcp_manager (TCPManager.set_master m (_tcp_manager n)) n.

Definition slave (n : t) : option Slave.t := TCPManager._slave_messager (_tcp_manager n).

Definition set_slave (m : Slave.t) (n : t) : t :=
  set_tcp_manager (TCPManager.set_slave m (_tcp_manager n)) n.

(** A member of the TCP manager, called on the node. *)
Definition on_tcp (f : TCPManager.t → outcome TCPManager.t) (n : t) : outcome t :=
  x ← f (_tcp_manager n); Ret (set_tcp_manager x n).
End Node.
Import Node.

(** ** The members of UserFS that do not call the messager's [close] *)

Definition setMaster (n : Node.t) : Node.t := set_host_id 1 n.

(** Push self's host at 0. *)
Definition initHost (addr : bytes) (tcp_port ssh_port : Z) (n : Node.t) : Node.t :=
  let host := Host.mk (_host_id n) addr (_working_dir n) tcp_port ssh_port in
  set_hosts (Hosts.push host (_hosts n)) n.

Definition UserFS_find `{BoostPath} (path : bytes) (n : Node.t) : outcome (option TreeNode.t) :=
  find (_dir_tree n) path.

Definition hostID (n : Node.t) : Z := _host_id n.

Section UserFS.
Context `{TextArchive}.

(** [sendUpdate(dir_tree_seq, hosts_seq)] *)
Definition sendUpdate_seqs (dir_tree_seq hosts_seq : bytes) (n : Node.t) : outcome Node.t :=
  on_tcp (TCPManager.write (Protocol.message_update dir_tree_seq hosts_seq)) n.

(** [sendUpdate()] *)
Definition sendUpdate (n : Node.t) : outcome Node.t :=
  sendUpdate_seqs (DirTree_serialize (_dir_tree n)) (Hosts.serialize (_hosts n)) n.

(** [_dir_tree.root()->children = tree.root()->children] *)
Definition assign_children (tree : option TreeNode.t) (n : Node.t) : outcome Node.t :=
  r ← deref (_dir_tree n); r' ← deref tree;
  Ret (set_dir_tree (Some (TreeNode.set_children (TreeNode.children r') r)) n).

Definition slaveRecognized (slave_id : Z) (dir_tree_seq hosts_seq : bytes) (n : Node.t)
    : outcome Node.t :=
  merged_tree ← DirTree_deserialize dir_tree_seq;
  let n := set_host_id slave_id n in
  merged_hosts ← Hosts.deserialize hosts_seq;
  n ← assign_children merged_tree n;
  let n := set_hosts merged_hosts n in
  Ret (sem_post (set_waiting false n)).

Definition updateInfo (dir_tree_seq hosts_seq : bytes) (n : Node.t) : outcome Node.t :=
  new_tree ← DirTree_deserialize dir_tree_seq;
  merged_hosts ← Hosts.deserialize hosts_seq;
  n ← assign_children new_tree n;
  Ret (set_hosts merged_hosts n).

(** [disconnect()], on a slave *)
Definition slave_disconnect (n : Node.t) : outcome Node.t :=
  t ← removeNotOf (_host_id n) (_dir_tree n);
  let n := set_dir_tree t n in
  if _main_thread_is_waiting n then Ret (sem_post (set_waiting false n)) else Ret n.

(** [std::get<4>] of the connection is assigned. *)
Definition set_slave_id (i : Z) (h : nat) (n : Node.t) : outcome Node.t :=
  m ← deref (master n);
  Ret (set_master (Master.alter_conn (Master.set_slave_id i) h m) n).

(** [disconnect(handle)], on the master *)
Definition master_disconnect (h : nat) (n : Node.t) : outcome Node.t :=
  m ← deref (master n);
  c ← Master.conn h m;
  let slave_id := Master.slave_id c in
  if slave_id =? 0 then Ret n else
  t ← removeOf slave_id (_dir_tree n);
  n ← set_slave_id 0 h (set_dir_tree t n);
  sendUpdate n.
End UserFS.

(** [TCPManager::disconnect(handle)] forwards to its owner. *)
#[export] Instance node_owner `{TextArchive} : MasterOwner Node.t := {|
  get_master := master;
  put_master := Node.set_master;
  owner_disconnect := master_disconnect
|}.

Section NewConnection.
Context `{TextArchive}.

(** [TCPManager::close(handle)] *)
Definition TCPManager_close (h : nat) (n : Node.t) : outcome Node.t := close h n.

(** The part of [newConnection] after the conflict check. *)
Definition accept_slave (slave_dir_tree : option TreeNode.t) (slave_host : Host.t) (h : nat)
    (n : Node.t) : outcome Node.t :=
  let slave_id := _max_host_id n in
  let n := set_max_host_id (u64 (slave_id + 1)) n in
  m ← deref (master n);
  c ← Master.conn h m;
  let slave_host := Host.set_id slave_id (Host.set_address (Master.remote c slave_id) slave_host) in
  r ← deref (root slave_dir_tree);
  let slave_dir_tree := Some (TreeNode.setHostID slave_id r) in
  n ← set_slave_id slave_id h n;
  t ← merge (_dir_tree n) slave_dir_tree;
  let n := set_hosts (Hosts.push slave_host (_hosts n)) (set_dir_tree t n) in
  let merged_dir_tree_seq := DirTree_serialize (_dir_tree n) in
  let merged_hosts_seq := Hosts.serialize (_hosts n) in
  let message := Protocol.message_recognition slave_id merged_dir_tree_seq merged_hosts_seq in
  n ← on_tcp (TCPManager.writeTo message h) n;
  sendUpdate_seqs merged_dir_tree_seq merged_hosts_seq n.

Definition newConnection (dir_tree_seq host_seq : bytes) (h : nat) (n : Node.t)
    : outcome Node.t :=
  slave_dir_tree ← DirTree_deserialize dir_tree_seq;
  slave_host ← Host.deserialize host_seq;
  conflicts ← hasConflict (_dir_tree n) slave_dir_tree;
  if nonempty conflicts then TCPManager_close h n
  else accept_slave slave_dir_tree slave_host h n.

(** [TCPManager::read(packet, handle)] *)
Definition TCPManager_read_master (p : Packet.t) (h : nat) (n : Node.t) : outcome Node.t :=
  e ← Protocol.parse_master (Packet.data p);
  match e with
  | Protocol.NewConnection d hs => newConnection d hs h n
  | _ => Ret n
  end.

(** [TCPManager::read(packet)] *)
Definition TCPManager_read_slave (p : Packet.t) (n : Node.t) : outcome Node.t :=
  e ← Protocol.parse_slave (Packet.data p);
  match e with
  | Protocol.SlaveRecognized i d hs => slaveRecognized i d hs n
  | Protocol.UpdateInfo d hs => updateInfo d hs n
  | _ => Ret n
  end.
End NewConnection.

#[export] Instance node_reader `{TextArchive} : MasterReader Node.t := TCPManager_read_master.

#[export] Instance node_slave `{TextArchive} : SlaveOwner Node.t := {|
  get_slave := slave;
  put_slave := Node.set_slave;
  slave_owner_disconnect := slave_disconnect;
  slave_owner_read := TCPManager_read_slave
|}.

(** ** Starting a node *)

Section Init.
Context `{TextArchive} `{Resolver}.

(** [initTCPNetwork] up to and including [_tcp_manager.start()]; the network
    thread runs from here on. *)
Definition initTCPNetwork_start (addr : bytes) (port : Z) (e1 e2 e3 e4 : bool) (n : Node.t)
    : outcome (bool * Node.t) :=
  let is_master := _host_id n =? 1 in
  let '(init_rtv, x) := TCPManager.initialize is_master addr port (_tcp_manager n) in
  let n := set_tcp_manager x n in
  if (init_rtv : bool) then Ret (true, n) else
  n ← on_tcp (TCPManager.start e1 e2 e3 e4) n; Ret (false, n).

(** The rest, in the main thread, while the network thread runs: the master
    registers itself, a slave sends its tree and host and then waits on the
    semaphore.  [is_master] is the local variable of that name. *)
Definition initTCPNetwork_finish (is_master : bool) (n : Node.t) : outcome Node.t :=
  if is_master then
    h ← Hosts.get (_hosts n) 0; Ret (set_hosts (Hosts.push h (_hosts n)) n)
  else
    let dir_tree_seq := DirTree_serialize (_dir_tree n) in
    h ← Hosts.get (_hosts n) 0;
    let host_seq := Host.serialize h in
    on_tcp (TCPManager.write (Protocol.message_join dir_tree_seq host_seq)) n.

(** [_slave_wait_sem.wait()]: [None] while the count is zero. *)
Definition sem_wait (n : Node.t) : option Node.t :=
  if 0 <? _slave_wait_sem n then
    Some (mk (_main_thread_is_waiting n) (_slave_wait_sem n - 1) (_host_id n) (_working_dir n)
             (_max_host_id n) (_dir_tree n) (_hosts n) (_tcp_manager n) (_ssh_manager n))
  else None.
End Init.

(** ** Concrete nodes *)

Module ExampleGroup.
Import ExampleArchive.

#[export] Instance memory : Memory := 1048576.

Definition master_host : Host.t := Host.mk 1 (str "10.0.0.1") (str "/srv/master/") 10000 22.
Definition slave_host : Host.t := Host.mk 0 (str "10.0.0.1") (str "/srv/standby1/") 10000 22.

Definition connection (id : Z) : Master.Connection :=
  Master.mkConnection true (λ _, str "10.0.0.2") (replicate 8 nul) Packet.create [] id.

(** A master whose main thread is done with [initTCPNetwork], with messager [m]. *)
Definition master_with (m : Master.t) : Node.t :=
  mk true 0 1 (str "/srv/master/") 2 (Some ExampleTree.master) [master_host; master_host]
     (TCPManager.mk true false (Some m) None) ∅.

Definition listening : Node.t := master_with (Master.start false false false false Master.create).

(** The same with one client that has not sent anything yet. *)
Definition one_client : Master.t :=
  Master.mk [connection 0] [Master.OpAccept; Master.OpReadHeader 0] [] false.

Definition serving : Node.t := master_with one_client.

(** A slave that has sent its join message and waits. *)
Definition standby : Node.t :=
  mk true 0 0 (str "/srv/standby1/") 2 (Some ExampleTree.standby1) [slave_host]
     (TCPManager.mk false true None (Some Slave.create)) ∅.

Definition join_message : bytes :=
  Protocol.message_join (DirTree_serialize (Some ExampleTree.standby1))
    (Host.serialize slave_host).
End ExampleGroup.
