(* ===== verification/Group.v ===== *)
(** * A running master

    UserFS discharges the messager's requirements ([node_owner_ok]), so the
    messager's invariant holds for the real program; on top of it, the
    invariant of the host table and the directory tree ([master_ok]), and a
    concrete run ([ExampleRun]) that other files use as a witness. *)

From S2P Require Import Prelude BytesOrder StdSet Archive Path DirTree Host Packet Ssh.
From S2P Require Import TcpMessager MasterLoop UserFs.
Import Node.

(** ** UserFS as the owner of a master messager *)

Section Owner.
Context `{TextArchive}.

Lemma packet_ok_encodeData d : packet_ok (Packet.encodeData d Packet.create).
Proof. apply encodeData_size. Qed.

(** The master messager after a call of the owner. *)
Definition evolved (n n' : Node.t) : Prop :=
  ∀ m, master n = Some m → ∃ m', master n' = Some m' ∧ evolves m m'.

#[local] Instance evolved_preorder : PreOrder evolved.
Proof.
  split.
  - intros n m G. exists m. split; [done|reflexivity].
  - intros n1 n2 n3 H1 H2 m G. destruct (H1 m G) as (m2 & G2 & E2).
    destruct (H2 m2 G2) as (m3 & G3 & E3). exists m3. split; [done|by trans m2].
Qed.

Lemma evolved_set_master n m m' : master n = Some m → evolves m m' → evolved n (set_master m' n).
Proof. intros G E m1 G1. rewrite G in G1. injection G1 as <-. by exists m'. Qed.

(** Writes only post. *)
Lemma tcp_write_evolved msg n n' : on_tcp (TCPManager.write msg) n = Ret n' → evolved n n'.
Proof.
  unfold on_tcp, TCPManager.write. intros E m G. unfold master in G. inv_bind. subst n'.
  unfold master. simpl. repeat case_match; inv_bind; subst; simpl.
  - rewrite G in Ha0. simplify_eq. eexists. split; [done|].
    apply evolves_post, packet_ok_encodeData.
  - exists m. split; [done|reflexivity].
  - exists m. split; [done|reflexivity].
Qed.

Lemma tcp_writeTo_evolved msg h n n' m :
  master n = Some m → (h < length (Master._connections m))%nat →
  on_tcp (TCPManager.writeTo msg h) n = Ret n' → evolved n n'.
Proof.
  unfold on_tcp, TCPManager.writeTo. intros G Hh E m' G'. unfold master in G, G'.
  rewrite G in G'. injection G' as <-. inv_bind. subst. rewrite G in Ha0. simplify_eq.
  unfold master. simpl. eexists. split; [done|]. apply evolves_post.
  split; [apply packet_ok_encodeData|done].
Qed.

Lemma set_slave_id_evolved i h n n' : set_slave_id i h n = Ret n' → evolved n n'.
Proof.
  unfold set_slave_id. intros E. inv_bind. subst.
  eapply evolved_set_master; [exact Ha|auto with gsfs].
Qed.

Lemma evolved_data n n' : master n' = master n → evolved n n'.
Proof. intros E m G. exists m. split; [congruence|reflexivity]. Qed.

Lemma master_disconnect_evolved h n n' : master_disconnect h n = Ret n' → evolved n n'.
Proof.
  unfold master_disconnect. intros E. inv_bind. case_match; inv_bind; subst; [done|].
  trans (set_dir_tree a1 n); [by apply evolved_data|].
  trans a2; [by eapply set_slave_id_evolved|]. by eapply tcp_write_evolved.
Qed.

Lemma close_evolved h n n' : close h n = Ret n' → evolved n n'.
Proof.
  unfold close. intros E. inv_bind. case_match; inv_bind; subst; [|done].
  etrans; [|eapply master_disconnect_evolved; exact E].
  eapply evolved_set_master; [exact Ha|auto with gsfs].
Qed.

Lemma accept_slave_evolved t sh h n n' m :
  master n = Some m → (h < length (Master._connections m))%nat →
  accept_slave t sh h n = Ret n' → evolved n n'.
Proof.
  unfold accept_slave. intros G Hh E. inv_bind.
  set (n1 := set_max_host_id (u64 (_max_host_id n + 1)) n) in *.
  assert (evolved n n1) as E1 by (by apply evolved_data).
  apply set_slave_id_evolved in Ha2 as E2.
  match type of Ha4 with on_tcp _ ?x = _ => set (n3 := x) in * end.
  assert (evolved a2 n3) as E3 by (by apply evolved_data).
  assert (evolved n n3) as E4 by (trans n1; [done|by trans a2]).
  destruct (E4 m G) as (m3 & G3 & Ev3).
  trans n3; [done|]. trans a4.
  - eapply tcp_writeTo_evolved; [exact G3| |exact Ha4].
    by rewrite <- (Forall2_length _ _ _ (evolves_conns _ _ Ev3)).
  - by eapply tcp_write_evolved.
Qed.

Lemma read_master_evolved p h n n' m :
  master n = Some m → (h < length (Master._connections m))%nat →
  TCPManager_read_master p h n = Ret n' → evolved n n'.
Proof.
  unfold TCPManager_read_master. intros G Hh E. inv_bind.
  destruct a; inv_bind; subst; try done.
  unfold newConnection in E. inv_bind. case_match.
  - by eapply close_evolved.
  - by eapply accept_slave_evolved.
Qed.

#[export] Instance node_owner_ok : MasterOwnerOk Node.t.
Proof.
  split.
  - done.
  - intros h n n' m G E. exact (master_disconnect_evolved h n n' E m G).
  - intros p h n n' m G Hh E. exact (read_master_evolved p h n n' m G Hh E m G).
Qed.
End Owner.

(** ** The invariant of the master's host table and tree *)

(** Everything of a node but its messagers. *)
Definition data (n : Node.t) :=
  (_main_thread_is_waiting n, _slave_wait_sem n, _host_id n, _working_dir n,
   _max_host_id n, _dir_tree n, _hosts n, _ssh_manager n).

Lemma on_tcp_data f n n' : on_tcp f n = Ret n' → data n' = data n.
Proof. unfold on_tcp. intros E. by inv_bind; subst. Qed.

Lemma on_tcp_Ret f n n' : on_tcp f n = Ret n' → ∃ x, n' = set_tcp_manager x n.
Proof. unfold on_tcp. intros E. inv_bind. subst. by eexists. Qed.

Lemma set_slave_id_data i h n n' : set_slave_id i h n = Ret n' → data n' = data n.
Proof. unfold set_slave_id. intros E. by inv_bind; subst. Qed.

(** Host [i] is entry [i] of the table, entry 0 being the master's own copy; the
    next id is the size of the table; the root of the tree is a directory and every
    node below it belongs to a host of the table. *)
Record master_ok (max_host_id : Z) (dir_tree : option TreeNode.t) (hosts : list Host.t) : Prop := {
  ok_size : 2 <= len hosts;
  ok_next : max_host_id = len hosts;
  ok_ids i h : hosts !! i = Some h → (0 < i)%nat → Host.id h = Z.of_nat i;
  ok_root : ∃ r, dir_tree = Some r ∧ TreeNode.wf r ∧ TreeNode.type r = DIRECTORY ∧
    Forall (λ d, 1 <= TreeNode.host_id d < len hosts) (TreeNode.descendants r)
}.

(** Ids are 64-bit: the invariant speaks of runs with fewer than 2^64 hosts. *)
Definition master_inv (n : Node.t) : Prop :=
  len (_hosts n) < 2 ^ 64 → master_ok (_max_host_id n) (_dir_tree n) (_hosts n).

Lemma master_inv_data n n' : data n' = data n → master_inv n → master_inv n'.
Proof. unfold data, master_inv. intros E. injection E as _ _ _ _ -> -> -> _. done. Qed.

Lemma removeOf_Ret h tree tree' :
  removeOf h tree = Ret tree' →
  ∃ r, tree = Some r ∧
    tree' = Some (TreeNode.set_children (removeOf_loop h (TreeNode.children r)) r).
Proof. unfold removeOf. intros E. inv_bind. subst. eauto. Qed.

Lemma merge_Ret this tree this' :
  merge this tree = Ret this' →
  ∃ r s, this = Some r ∧ tree = Some s ∧
    this' = Some (TreeNode.set_children
      (set_insert_all TreeNode.name (TreeNode.children s) (TreeNode.children r)) r).
Proof. unfold merge, root. intros E. inv_bind. subst. eauto 10. Qed.

Section MasterInvariant.
Context `{TextArchive}.

Lemma removeOf_master_ok h mx tree tree' hosts :
  removeOf h tree = Ret tree' → master_ok mx tree hosts → master_ok mx tree' hosts.
Proof.
  intros E [S N I (r & -> & W & T & F)]. pose proof (removeOf_wf h (Some r) tree' W E) as W'.
  apply removeOf_Ret in E as (r' & [= <-] & ->).
  split; [done..|]. eexists. split; [done|]. split; [exact W'|]. split; [exact T|].
  rewrite TreeNode.Forall_descendants in *. simpl.
  rewrite removeOf_loop_filter. by apply Forall_filter.
Qed.

Lemma master_disconnect_inv h n n' :
  master_disconnect h n = Ret n' → master_inv n → master_inv n'.
Proof.
  unfold master_disconnect, sendUpdate. intros E I. inv_bind. case_match; inv_bind; [by subst|].
  eapply master_inv_data; [by eapply on_tcp_data|].
  eapply master_inv_data; [by eapply set_slave_id_data|].
  intros Hl. simpl in *. eapply removeOf_master_ok; [done|]. by apply I.
Qed.

Lemma close_inv h n n' : close h n = Ret n' → master_inv n → master_inv n'.
Proof.
  unfold close. intros E I. inv_bind. case_match; [|inv_bind; by subst].
  eapply master_disconnect_inv; [exact E|]. done.
Qed.

(** Merging the renumbered tree of the next host and adding its entry. *)
Lemma merge_master_ok mx tree s tree' hosts a :
  len hosts + 1 < 2 ^ 64 → TreeNode.wf s →
  merge tree (Some (TreeNode.setHostID mx s)) = Ret tree' →
  master_ok mx tree hosts →
  master_ok (u64 (mx + 1)) tree' (Hosts.push (Host.set_id mx a) hosts).
Proof.
  intros Hl Ws E [S N I (r & -> & W & T & F)]. subst mx.
  pose proof (merge_wf (Some r) (Some (TreeNode.setHostID (len hosts) s)) tree' W
    (TreeNode.setHostID_wf _ _ Ws) E) as W'.
  apply merge_Ret in E as (r' & s' & [= <-] & [= <-] & ->).
  assert (len (Hosts.push (Host.set_id (len hosts) a) hosts) = len hosts + 1) as L.
  { unfold Hosts.push. by rewrite len_app. }
  split.
  - lia.
  - rewrite L. apply wrap_small. lia.
  - intros i h Hi Hpos. unfold Hosts.push in Hi.
    apply lookup_app_Some in Hi as [Hi|[Hge Hi]]; [by apply I|].
    apply list_lookup_singleton_Some in Hi as [Hz <-]. simpl. unfold len. lia.
  - eexists. split; [done|]. split; [exact W'|]. split; [exact T|]. rewrite L.
    apply TreeNode.Forall_descendants. simpl.
    apply TreeNode.insert_all_Forall.
    + by apply TreeNode.wf_children.
    + apply TreeNode.Forall_descendants.
      eapply Forall_impl; [apply TreeNode.setHostID_descendants|]. simpl. intros d ->. lia.
    + apply TreeNode.Forall_descendants. eapply Forall_impl; [exact F|]. simpl. lia.
Qed.

Lemma accept_slave_inv s sh h n n' :
  TreeNode.wf s → accept_slave (Some s) sh h n = Ret n' → master_inv n → master_inv n'.
Proof.
  intros Ws E I. unfold accept_slave, sendUpdate_seqs in E. simpl in E. inv_bind. subst.
  eapply master_inv_data; [by eapply on_tcp_data|].
  eapply master_inv_data; [by eapply on_tcp_data|].
  apply set_slave_id_data in Ha1 as D. unfold data in D. injection D as _ _ _ _ Em Et Eh _.
  intros Hl. simpl in *. rewrite Eh in *. rewrite Et in Ha2. rewrite Em.
  unfold Hosts.push in Hl. rewrite len_app in Hl. simpl in Hl. unfold len in Hl at 2. simpl in Hl.
  eapply merge_master_ok; [lia|exact Ws|exact Ha2|]. apply I. lia.
Qed.

Lemma read_master_inv p h n n' :
  TCPManager_read_master p h n = Ret n' → master_inv n → master_inv n'.
Proof.
  unfold TCPManager_read_master. intros E I. inv_bind. destruct a; inv_bind; subst; try done.
  unfold newConnection in E. inv_bind. case_match; [by eapply close_inv|].
  destruct a as [s|]; [|unfold accept_slave in E; by inv_bind].
  eapply accept_slave_inv; [|exact E|exact I].
  by apply DirTree_deserialize_wf in Ha0.
Qed.
End MasterInvariant.

Section MasterRun.
Context `{TextArchive} `{Memory}.

Lemma on_master_inv f (n n' : Node.t) : on_master f n = Ret n' → master_inv n → master_inv n'.
Proof. unfold on_master. intros E I. inv_bind. by subst. Qed.

Lemma run_task_inv k (n n' : Node.t) : run_task k n = Ret n' → master_inv n → master_inv n'.
Proof.
  intros E I. destruct k; simpl in E; try (by eapply on_master_inv).
  - unfold on_header in E. case_match; [by eapply on_master_inv|by eapply close_inv].
  - unfold on_body in E. inv_bind. case_match; [|by eapply close_inv]. inv_bind.
    eapply on_master_inv; [exact E|]. eapply read_master_inv; [exact Ha2|done].
  - unfold on_written in E. inv_bind. destruct a1; [|by eapply close_inv]. by inv_bind; subst.
Qed.

Lemma step_master_inv (n n' : Node.t) : step n (Ret n') → master_inv n → master_inv n'.
Proof.
  intros S I. remember (Ret n') as r eqn:E. destruct S; [by simplify_eq|].
  by eapply run_task_inv; [exact E|].
Qed.

Lemma steps_master_inv (n n' : Node.t) : steps n n' → master_inv n → master_inv n'.
Proof. induction 1 as [|n n1 n2 _ IH S]; [done|]. intros I. eapply step_master_inv; eauto. Qed.

(** The messager as [start()] leaves it. *)
Definition just_started (n : Node.t) : Prop :=
  ∃ e1 e2 e3 e4, master n = Some (Master.start e1 e2 e3 e4 Master.create).

Lemma reachable_Inv (n n' : Node.t) :
  just_started n → steps n n' → ∃ m, master n' = Some m ∧ Inv m.
Proof.
  intros (e1 & e2 & e3 & e4 & G).
  exact (steps_Inv (N := Node.t) n _ n' G (Inv_start e1 e2 e3 e4)).
Qed.

(** ** Properties of the master's event loop *)

(** C12: from a master whose messager has just started, whatever the network does and in
    whatever order handlers run, every open connection keeps exactly one read
    and one write (none when nothing is queued) under way, at most one accept
    is, and no read is ever doubled on any connection. *)
Theorem master_io_discipline (n n' : Node.t) :
  just_started n → steps n n' →
  ∃ m, master n' = Some m ∧ (accepts m <= 1)%nat ∧
    ∀ h c, Master._connections m !! h = Some c →
      (reads h m <= 1)%nat ∧
      (Master.socket_open c = true →
        reads h m = 1%nat ∧
        writes h m = if nonempty (Master.queue c) then 1%nat else 0%nat).
Proof.
  intros G S. destruct (reachable_Inv n n' G S) as (m & G' & I).
  exists m. split; [done|]. split.
  { pose proof (inv_accepts _ _ _ _ I). lia. }
  intros h c Hc. pose proof (inv_reads _ _ _ _ I h c Hc) as [R1 R2].
  pose proof (inv_writes _ _ _ _ I h c Hc) as W. rewrite token_None in *.
  split; [lia|]. intros O. specialize (R2 O). specialize (W O). split; [lia|].
  rewrite <- W. lia.
Qed.

(** In every state the event loop reaches, a completed write on a
    connection whose socket is still open finds the packet it wrote at the front
    of the queue, removes exactly that one and starts the next. *)
Theorem write_completion_advances (n0 n1 : Node.t) m i h l c :
  just_started n0 → steps n0 n1 → master n1 = Some m →
  Master.ready m !! i = Some (Master.TWritten h false l) →
  Master._connections m !! h = Some c → Master.socket_open c = true →
  ∃ p q n' m' c', Master.queue c = p :: q ∧
    run_task (Master.TWritten h false l)
      (set_master (Master.set_ready (delete i (Master.ready m)) m) n1) = Ret n' ∧
    master n' = Some m' ∧ Master._connections m' !! h = Some c' ∧ Master.queue c' = q ∧
    Master.socket_open c' = true ∧ writes h m' = (if nonempty q then 1%nat else 0%nat).
Proof.
  intros G0 S G1 Hi Hc O.
  destruct (reachable_Inv n0 n1 G0 S) as (m1 & G1' & I).
  assert (m1 = m) as -> by congruence.
  exact (on_written_open (N := Node.t)
    (set_master (Master.set_ready (delete i (Master.ready m)) m) n1) m i h l c eq_refl Hi I Hc O).
Qed.

(** in every state the master's event loop reaches (with fewer than 2^64
    hosts ever), host [i] is entry [i] of the table, the next id is the table's
    size, the tree is a tree of sets under a directory, and every node below its root
    belongs to a host of the table. *)
Theorem master_invariant_reachable (n n' : Node.t) :
  master_ok (_max_host_id n) (_dir_tree n) (_hosts n) → steps n n' →
  len (_hosts n') < 2 ^ 64 →
  master_ok (_max_host_id n') (_dir_tree n') (_hosts n').
Proof. intros I S Hl. by apply (steps_master_inv n n' S (λ _, I)). Qed.
End MasterRun.


(** ** A run *)

Module ExampleRun.
Import ExampleArchive ExampleGroup.
Notation run_from n s := (play (N := Node.t) s n).

Definition size_of (msg : bytes) : bytes := host_to_network_64 (len msg).

(** A client connects and sends its join message. *)
Definition admission : list action :=
  [ Complete 0 (Master.TAccepted false (λ _, str "10.0.0.2")); Run 0;
    Complete 0 (Master.THeader 0 false (size_of join_message)); Run 0;
    Complete 1 (Master.TBody 0 false join_message); Run 0 ].

Definition after (s : list action) : Node.t :=
  match run_from listening s with Some (Ret n) => n | _ => listening end.

Definition admitted_node : Node.t := after admission.

(** The recognition is queued, its write starts and completes. *)
Definition recognition_size : Z :=
  match Master.pending <$> master (after (admission ++ [Run 0])) with
  | Some [_; _; Master.OpWrite _ n] => n
  | _ => 0
  end.

Definition recognition : list action :=
  admission ++ [Run 0; Complete 2 (Master.TWritten 0 false recognition_size)].

Definition recognised_node : Node.t := after recognition.

Definition recognised_master : Master.t := default Master.create (master recognised_node).

Lemma admission_plays : run_from listening admission = Some (Ret admitted_node).
Proof. vm_compute. reflexivity. Qed.

Lemma recognition_plays : run_from listening recognition = Some (Ret recognised_node).
Proof. vm_compute. reflexivity. Qed.

Lemma listening_started : just_started listening.
Proof. exists false, false, false, false. reflexivity. Qed.

Lemma listening_ok :
  master_ok (_max_host_id listening) (_dir_tree listening) (_hosts listening).
Proof.
  split; [by compute|done| |].
  - intros [|[|[|i]]] h E Hi; simplify_eq/=; [lia|done].
  - eexists. split; [done|]. split; [apply ExampleTree.master_wf|]. split; [done|].
    vm_compute. repeat constructor; done.
Qed.
End ExampleRun.

Section GroupWitnesses.
Import ExampleArchive ExampleGroup ExampleRun.

Lemma master_io_discipline_witness :
  ∃ m c, master admitted_node = Some m ∧ Master._connections m !! 0%nat = Some c ∧
    (accepts m <= 1)%nat ∧ Master.socket_open c = true ∧ reads 0 m = 1%nat.
Proof.
  destruct (master_io_discipline listening admitted_node listening_started
    (play_steps _ _ _ admission_plays)) as (m & G & A & D).
  assert (∃ c, Master._connections m !! 0%nat = Some c ∧ Master.socket_open c = true)
    as (c & Hc & O).
  { vm_compute in G. injection G as <-. eexists. split; reflexivity. }
  exists m, c. destruct (D 0%nat c Hc) as [_ R]. destruct (R O) as [R1 _]. by split_and!.
Defined.

Lemma write_completion_advances_witness :
  ∃ c n' m' c', Master._connections recognised_master !! 0%nat = Some c ∧
    run_task (N := Node.t) (Master.TWritten 0 false recognition_size)
      (set_master (Master.set_ready (delete 1%nat (Master.ready recognised_master))
        recognised_master) recognised_node) = Ret n' ∧
    master n' = Some m' ∧ Master._connections m' !! 0%nat = Some c' ∧
    Master.queue c' = tail (Master.queue c).
Proof.
  assert (master recognised_node = Some recognised_master) as G by (vm_compute; reflexivity).
  assert (Master.ready recognised_master !! 1%nat =
    Some (Master.TWritten 0 false recognition_size)) as Hk by (vm_compute; reflexivity).
  destruct (Master._connections recognised_master !! 0%nat) as [c|] eqn:Hc;
    [|vm_compute in Hc; discriminate Hc].
  assert (Master.socket_open c = true) as O.
  { vm_compute in Hc. injection Hc as <-. reflexivity. }
  destruct (write_completion_advances listening recognised_node recognised_master 1 0
    recognition_size c listening_started (play_steps _ _ _ recognition_plays) G Hk Hc O)
    as (p & q & n' & m' & c' & Eq & E & G' & Hc' & Q & _).
  exists c, n', m', c'. split; [reflexivity|]. split; [exact E|]. split; [exact G'|].
  split; [exact Hc'|]. by rewrite Eq.
Defined.

Lemma master_invariant_reachable_witness :
  len (_hosts admitted_node) = 3 ∧
  master_ok (_max_host_id admitted_node) (_dir_tree admitted_node) (_hosts admitted_node).
Proof.
  split; [reflexivity|].
  apply (master_invariant_reachable listening admitted_node listening_ok
    (play_steps _ _ _ admission_plays)). reflexivity.
Defined.
End GroupWitnesses.
