(* ===== verification/Handshake.v ===== *)
(** * Joining and leaving the group

    The functional behaviour of [newConnection] and the two [disconnect]s on
    every branch, the transfer of a message over a connection, the agreement a
    handshake establishes, and an abstract specification of the group (a finite
    map from names to files, with joins and leaves) that the master's event
    loop implements. *)

From S2P Require Import Prelude BytesOrder StdSet Archive Path DirTree Host Packet Ssh.
From S2P Require Import TcpMessager Channel MasterLoop UserFs Group.
Import Node.

(** A packet as the receiving side rebuilds it from a message. *)
Definition received (message : bytes) : Packet.t := Packet.mk (len message) message.

Lemma data_received message : Packet.data (received message) = message ++ [nul].
Proof. done. Qed.

(** ** [newConnection] never refuses *)

Section Join.
Context `{TextArchive}.

Lemma newConnection_accepts d hs h n r s sh :
  _dir_tree n = Some r → DirTree_deserialize d = Ret (Some s) → Host.deserialize hs = Ret sh →
  newConnection d hs h n = accept_slave (Some s) sh h n.
Proof.
  intros Er Ed Eh. unfold newConnection. rewrite Ed. run. rewrite Eh. run. rewrite Er.
  assert (hasConflict (Some r) (Some s) = Ret []) as ->; [|done].
  unfold hasConflict. simpl. unfold set_begin. by destruct (length _ + length _)%nat.
Qed.

(** The node after a slave was accepted. *)
Definition joined (s : TreeNode.t) (sh : Host.t) (h : nat) (c : Master.Connection)
    (r : TreeNode.t) (m : Master.t) (n : Node.t) : Node.t :=
  let i := _max_host_id n in
  let tree := Some (TreeNode.set_children
    (set_insert_all TreeNode.name (TreeNode.children (TreeNode.setHostID i s))
       (TreeNode.children r)) r) in
  let hosts := Hosts.push (Host.set_id i (Host.set_address (Master.remote c i) sh)) (_hosts n) in
  let d := DirTree_serialize tree in
  let hs := Hosts.serialize hosts in
  set_master
    (Master.write (sent (Protocol.message_update d hs))
      (Master.writeTo (sent (Protocol.message_recognition i d hs)) h
        (Master.alter_conn (Master.set_slave_id i) h m)))
    (set_hosts hosts (set_dir_tree tree (set_max_host_id (u64 (i + 1)) n))).

Lemma accept_slave_spec s sh h n r m c :
  _dir_tree n = Some r → TCPManager._is_master (_tcp_manager n) = true →
  master n = Some m → Master._connections m !! h = Some c →
  accept_slave (Some s) sh h n = Ret (joined s sh h c r m n).
Proof.
  intros Er Em G Hc. unfold master in G. unfold accept_slave, set_slave_id, master. simpl.
  rewrite G. simpl. unfold Master.conn, at_. rewrite Hc. simpl.
  rewrite Er. simpl. unfold sendUpdate_seqs, on_tcp, TCPManager.writeTo, TCPManager.write.
  simpl. rewrite Em. simpl. done.
Qed.

Lemma newConnection_joined d hs h n r s sh m c :
  _dir_tree n = Some r → TCPManager._is_master (_tcp_manager n) = true →
  master n = Some m → Master._connections m !! h = Some c →
  DirTree_deserialize d = Ret (Some s) → Host.deserialize hs = Ret sh →
  newConnection d hs h n = Ret (joined s sh h c r m n).
Proof.
  intros Er Em G Hc Ed Eh. rewrite (newConnection_accepts d hs h n r s sh) by done.
  by apply accept_slave_spec.
Qed.

(** ** [disconnect(handle)] *)

Definition left_ (h : nat) (c : Master.Connection) (r : TreeNode.t) (m : Master.t) (n : Node.t)
    : Node.t :=
  let tree := Some (TreeNode.set_children
    (removeOf_loop (Master.slave_id c) (TreeNode.children r)) r) in
  set_master
    (Master.write (sent (Protocol.message_update (DirTree_serialize tree)
       (Hosts.serialize (_hosts n))))
      (Master.alter_conn (Master.set_slave_id 0) h m))
    (set_dir_tree tree n).

Lemma master_disconnect_spec h n r m c :
  _dir_tree n = Some r → TCPManager._is_master (_tcp_manager n) = true →
  master n = Some m → Master._connections m !! h = Some c →
  master_disconnect h n =
    Ret (if Master.slave_id c =? 0 then n else left_ h c r m n).
Proof.
  intros Er Em G Hc. unfold master in G.
  unfold master_disconnect, set_slave_id, master, Master.conn, at_. rewrite G. simpl.
  rewrite Hc. simpl. case_match; [done|]. rewrite Er. simpl. rewrite ?G. simpl.
  unfold sendUpdate, sendUpdate_seqs, on_tcp, TCPManager.write. simpl. rewrite Em. done.
Qed.

(** ** The slave's side *)

(** The node after taking over a tree and a host table. *)
Definition adopted (tree : TreeNode.t) (hosts : list Host.t) (r : TreeNode.t) (n : Node.t)
    : Node.t :=
  set_hosts hosts (set_dir_tree (Some (TreeNode.set_children (TreeNode.children tree) r)) n).

Lemma slaveRecognized_spec i d hs n tree hosts r :
  _dir_tree n = Some r → DirTree_deserialize d = Ret (Some tree) → Hosts.deserialize hs = Ret hosts →
  slaveRecognized i d hs n =
    Ret (sem_post (set_waiting false (adopted tree hosts r (set_host_id i n)))).
Proof.
  intros Er Ed Eh. unfold slaveRecognized, assign_children. rewrite Ed. run. rewrite Eh. run.
  simpl. rewrite Er. done.
Qed.

Lemma updateInfo_spec d hs n tree hosts r :
  _dir_tree n = Some r → DirTree_deserialize d = Ret (Some tree) → Hosts.deserialize hs = Ret hosts →
  updateInfo d hs n = Ret (adopted tree hosts r n).
Proof.
  intros Er Ed Eh. unfold updateInfo, assign_children. rewrite Ed. run. rewrite Eh. run.
  rewrite Er. done.
Qed.
End Join.

(** ** A message over a connection *)

Section Transfer.
Context `{TextArchive} `{Memory}.

Lemma decodeSize_fill (d b : bytes) p :
  Protocol.wire_u64 (len d) →
  Packet.decodeSize (fill (host_to_network_64 (len d)) b) p =
  Ret (Packet.mk (len d) (Packet._data p)).
Proof.
  intros Hd. unfold Packet.decodeSize, fill.
  by rewrite network_to_host_64_small by done.
Qed.

Lemma setData_fill (d b : bytes) p :
  Packet._size p = len d → Packet.setData (fill d b) p = Ret (received d).
Proof.
  intros E. unfold Packet.setData, fill. rewrite E, sub_string_app. done.
Qed.

Lemma on_header_spec h (msg : bytes) (n : Node.t) m c :
  master n = Some m → Master._connections m !! h = Some c →
  Protocol.wire_u64 (len msg) → len msg <= vector_max →
  ∃ n1 m1 c1, on_header h false (host_to_network_64 (len msg)) n = Ret n1 ∧
    master n1 = Some m1 ∧ Master._connections m1 !! h = Some c1 ∧
    Packet.size (Master.packet c1) = len msg ∧
    Master.pending m1 = Master.pending m ++ [Master.OpReadBody h] ∧ data n1 = data n.
Proof.
  intros G Hc Hw Hv. unfold on_header. simpl negb. rewrite len_host_to_network_64.
  change (8 =? Packet.sizeLength) with true. simpl andb. cbv iota.
  unfold on_master. change (get_master n) with (master n). rewrite G. run.
  unfold Master.conn at 1, at_. rewrite Hc. run. rewrite decodeSize_fill by done. run.
  unfold Master.do_read_body, Master.conn, at_. simpl.
  rewrite list_lookup_alter_eq, Hc. simpl.
  unfold vec_resize. rewrite (proj2 (Z.leb_le _ _) Hv). run.
  do 3 eexists. split; [done|]. split; [done|]. simpl.
  rewrite !list_lookup_alter_eq, Hc. done.
Qed.

Lemma on_body_spec h (msg : bytes) (n : Node.t) m c :
  master n = Some m → Master._connections m !! h = Some c →
  Packet.size (Master.packet c) = len msg →
  ∃ n1, data n1 = data n ∧
    on_body h false msg n =
      (TCPManager_read_master (received msg) h n1 ≫= on_master (Master.do_read_header h)).
Proof.
  intros G Hc Hs. unfold on_body. change (get_master n) with (master n). rewrite G. run.
  unfold Master.conn, at_. rewrite Hc. run. rewrite Hs, Z.eqb_refl. simpl andb. cbv iota.
  rewrite setData_fill by done. run. eexists. split; [|done]. done.
Qed.

(** A message crosses a connection intact: the bytes written for it are an
    8-byte header and the message; a master that receives the header waits for
    exactly that many bytes, and when they are there passes a packet holding the
    message, and nothing else, to its manager before it reads the next header. *)
Theorem message_transfer h (msg : bytes) (n : Node.t) m c :
  master n = Some m → Master._connections m !! h = Some c →
  Protocol.wire_u64 (len msg) → len msg <= vector_max →
  ∃ hdr n1 m1 c1,
    Packet.wire (sent msg) = Ret (hdr ++ msg) ∧
    on_header h false hdr n = Ret n1 ∧ master n1 = Some m1 ∧
    Master._connections m1 !! h = Some c1 ∧ data n1 = data n ∧
    Master.pending m1 = Master.pending m ++ [Master.OpReadBody h] ∧
    Packet.size (Master.packet c1) = len msg ∧
    ∃ n2, data n2 = data n ∧
      on_body h false msg n1 =
        (TCPManager_read_master (received msg) h n2 ≫= on_master (Master.do_read_header h)).
Proof.
  intros G Hc Hw Hv. exists (host_to_network_64 (len msg)).
  destruct (on_header_spec h msg n m c G Hc Hw Hv) as (n1 & m1 & c1 & E & G1 & Hc1 & Hs & Hp & Hd).
  destruct (on_body_spec h msg n1 m1 c1 G1 Hc1 Hs) as (n2 & Hd2 & E2).
  exists n1, m1, c1. split_and!; try done.
  - apply wire_encodeData. unfold Protocol.wire_u64 in Hw. lia.
  - exists n2. split; [congruence|done].
Qed.
End Transfer.

(** ** The handshake *)

Section Agreement.
Context `{TextArchiveOk}.

(** What two nodes agree on: the files of the group and the hosts. *)
Definition agree (a b : Node.t) : Prop :=
  (TreeNode.children <$> _dir_tree a) = (TreeNode.children <$> _dir_tree b) ∧
  _hosts a = _hosts b.

(** C9: the join handshake, end to end: the message of a slave with tree [t] and
    host [sh] makes the master queue first a recognition for that connection and
    then an update for everyone; the slave that reads the recognition has the
    master's files and host table, the id the master allocated, and its main
    thread released; a further node that reads the update agrees with the master
    too.  The id and the lengths of trees and host tables are below 2^48, where the
    64-bit codec is exact ([wire_u64]). *)
Theorem join_handshake n m h c r t sh (s o : Node.t) rs ro :
  TCPManager._is_master (_tcp_manager n) = true → master n = Some m →
  Master._connections m !! h = Some c →
  _dir_tree n = Some r → TreeNode.wf r → TreeNode.wf t →
  _dir_tree s = Some rs → _dir_tree o = Some ro →
  let d := DirTree_serialize (Some t) in
  let hs := Host.serialize sh in
  let n' := joined t sh h c r m n in
  let d' := DirTree_serialize (_dir_tree n') in
  let hs' := Hosts.serialize (_hosts n') in
  let recognition := Protocol.message_recognition (_max_host_id n) d' hs' in
  let update := Protocol.message_update d' hs' in
  Protocol.wire_u64 (_max_host_id n) →
  Protocol.wire_u64 (len d) → Protocol.wire_u64 (len hs) →
  Protocol.wire_u64 (len d') → Protocol.wire_u64 (len hs') →
  TCPManager_read_master (received (Protocol.message_join d hs)) h n = Ret n' ∧
  (∃ m', master n' = Some m' ∧ Master.ready m' =
    Master.ready m ++ [Master.TWriteTo (sent recognition) h; Master.TWrite (sent update)]) ∧
  (∃ s', TCPManager_read_slave (received recognition) s = Ret s' ∧ agree s' n' ∧
    _host_id s' = _max_host_id n ∧ _main_thread_is_waiting s' = false ∧
    _slave_wait_sem s' = _slave_wait_sem s + 1) ∧
  (∃ o', TCPManager_read_slave (received update) o = Ret o' ∧ agree o' n').
Proof.
  intros Em G Hc Er Wr Wt Es Eo d hs n' d' hs' rec upd Hi Hd Hh Hd' Hh'.
  assert (∃ r', _dir_tree n' = Some r' ∧ TreeNode.wf r') as (r' & Er' & Wr').
  { eexists. split; [done|]. change (tree_wf (_dir_tree n')).
    eapply (merge_wf (Some r) (Some (TreeNode.setHostID (_max_host_id n) t)));
      [done|by apply TreeNode.setHostID_wf|done]. }
  assert (DirTree_deserialize d' = Ret (Some r')) as Ed'.
  { unfold d'. rewrite Er'. by apply ia_load_saved; simpl; rewrite TreeNode.load_serialize. }
  split_and!.
  - unfold TCPManager_read_master. rewrite data_received.
    rewrite Protocol.parse_join by done. run.
    apply (newConnection_joined d hs h n r t sh m c); try done.
    + apply ia_load_saved. simpl. by rewrite TreeNode.load_serialize.
    + apply Host.deserialize_serialize.
  - eexists. split; [done|]. simpl. by rewrite <- app_assoc.
  - eexists. split.
    { unfold TCPManager_read_slave. rewrite data_received.
      unfold rec. rewrite Protocol.parse_recognition by done. run.
      apply (slaveRecognized_spec _ d' hs' s r' (_hosts n') rs); [done|done|].
      apply Hosts.hosts_roundtrip. }
    split_and!; [|done..]. split; [by rewrite Er'|done].
  - eexists. split.
    { unfold TCPManager_read_slave. rewrite data_received.
      unfold upd. rewrite Protocol.parse_update by done. run.
      apply (updateInfo_spec d' hs' o r' (_hosts n') ro); [done|done|].
      apply Hosts.hosts_roundtrip. }
    split; [by rewrite Er'|done].
Qed.
End Agreement.

(** ** The group as an abstract data type

    What the program promises: a map from the names at the top of the file
    system to files, to which a host can add its files under free names and
    from which a host's files can be removed. *)

Record group := mkGroup {
  next_id : Z;
  files : gmap bytes TreeNode.t;
  table : list Host.t
}.

Inductive group_step (g : group) : group → Prop :=
  | group_join s host :
      map_Forall (λ _ f, TreeNode.host_id f = next_id g) s → Host.id host = next_id g →
      group_step g (mkGroup (u64 (next_id g + 1)) (files g ∪ s) (table g ++ [host]))
  | group_leave i :
      i ≠ 0 →
      group_step g (mkGroup (next_id g)
        (filter (λ p, TreeNode.host_id p.2 ≠ i) (files g)) (table g)).

(** The children of a node by name. *)
Definition child_map (cs : list TreeNode.t) : gmap bytes TreeNode.t :=
  foldr (λ c m, <[TreeNode.name c := c]> m) ∅ cs.

Definition abstraction (n : Node.t) : group :=
  mkGroup (_max_host_id n)
    (match _dir_tree n with Some r => child_map (TreeNode.children r) | None => ∅ end)
    (_hosts n).

Lemma lookup_child_map cs x :
  set_wf TreeNode.name cs → child_map cs !! x = TreeNode.find_child x cs.
Proof.
  induction cs as [|c cs IH]; intros W; [done|]. unfold TreeNode.find_child.
  rewrite set_find_cons by done. apply set_wf_cons in W as [_ W]. simpl.
  rewrite lookup_insert. case_decide; [done|]. by apply IH.
Qed.

Lemma child_map_removeOf i r :
  TreeNode.wf r →
  child_map (removeOf_loop i (TreeNode.children r)) =
  filter (λ p, TreeNode.host_id p.2 ≠ i) (child_map (TreeNode.children r)).
Proof.
  intros W. pose proof (TreeNode.wf_children r W) as Wc. apply map_eq. intros x.
  rewrite lookup_child_map by (rewrite removeOf_loop_filter; by apply set_wf_filter).
  rewrite find_child_removeOf, map_lookup_filter, lookup_child_map by done.
  destruct (TreeNode.find_child x _); [|done]. simpl. by case_decide; case_guard.
Qed.

Lemma child_map_merge r s :
  TreeNode.wf r → TreeNode.wf s →
  child_map (set_insert_all TreeNode.name (TreeNode.children s) (TreeNode.children r)) =
  child_map (TreeNode.children r) ∪ child_map (TreeNode.children s).
Proof.
  intros W1 W2. pose proof (TreeNode.wf_children r W1). pose proof (TreeNode.wf_children s W2).
  apply map_eq. intros x. rewrite lookup_child_map by auto with gsfs.
  rewrite find_child_merge, lookup_union, !lookup_child_map by done.
  by destruct (TreeNode.find_child x _), (TreeNode.find_child x _).
Qed.

Lemma child_map_owned i s :
  TreeNode.wf s →
  map_Forall (λ _ f, TreeNode.host_id f = i) (child_map (TreeNode.children (TreeNode.setHostID i s))).
Proof.
  intros W x f. rewrite lookup_child_map by (by apply TreeNode.wf_children, TreeNode.setHostID_wf).
  intros [Hf _]%set_find_Some; [|by apply TreeNode.wf_children, TreeNode.setHostID_wf].
  pose proof (children_setHostID_owned i s) as F. rewrite Forall_forall in F. auto.
Qed.

Section Refinement.
Context `{TextArchive}.

Definition rooted (n : Node.t) : Prop := ∃ r, _dir_tree n = Some r ∧ TreeNode.wf r.

(** Nothing, or one step of the group. *)
Definition refines (n n' : Node.t) : Prop :=
  rooted n' ∧ (abstraction n' = abstraction n ∨ group_step (abstraction n) (abstraction n')).

Lemma abstraction_root n r :
  _dir_tree n = Some r →
  abstraction n = mkGroup (_max_host_id n) (child_map (TreeNode.children r)) (_hosts n).
Proof. unfold abstraction. by intros ->. Qed.

Lemma rooted_data n n' : data n' = data n → rooted n → rooted n'.
Proof. unfold rooted, data. intros E. by injection E as _ _ _ _ _ -> _ _. Qed.

Lemma abstraction_data n n' : data n' = data n → abstraction n' = abstraction n.
Proof. unfold abstraction, data. intros E. by injection E as _ _ _ _ -> -> -> _. Qed.

Lemma refines_data n n' : rooted n → data n' = data n → refines n n'.
Proof. intros R E. split; [by eapply rooted_data|]. left. by apply abstraction_data. Qed.

Lemma refines_trans_l n1 n2 n3 : data n2 = data n1 → refines n2 n3 → refines n1 n3.
Proof. intros E [R S]. split; [done|]. by rewrite <- (abstraction_data _ _ E). Qed.

Lemma refines_trans_r n1 n2 n3 : data n3 = data n2 → refines n1 n2 → refines n1 n3.
Proof.
  intros E [R S]. split; [by eapply rooted_data|]. by rewrite (abstraction_data _ _ E).
Qed.

Lemma master_disconnect_refines h n n' :
  rooted n → master_disconnect h n = Ret n' → refines n n'.
Proof.
  intros (r & Er & W) E. unfold master_disconnect, sendUpdate in E. inv_bind.
  destruct (Z.eqb_spec (Master.slave_id a0) 0) as [|Hi]; inv_bind.
  { subst. apply refines_data; [by exists r|done]. }
  eapply refines_trans_r; [by eapply on_tcp_data|].
  eapply refines_trans_r; [by eapply set_slave_id_data|].
  rewrite Er in Ha1. pose proof (removeOf_wf _ (Some r) a1 W Ha1) as W1.
  apply removeOf_Ret in Ha1 as (r1 & [= <-] & ->).
  split; [by eexists|]. right. unfold abstraction at 2. simpl.
  rewrite child_map_removeOf by done.
  rewrite (abstraction_root n r Er). by apply (group_leave (mkGroup _ _ _)).
Qed.

Lemma close_refines h (n n' : Node.t) : rooted n → close h n = Ret n' → refines n n'.
Proof.
  intros R E. unfold close in E. inv_bind. case_match; [|inv_bind; subst; by apply refines_data].
  eapply refines_trans_l; [|eapply master_disconnect_refines; [|exact E]]; done.
Qed.

Lemma accept_slave_refines s sh h n n' :
  rooted n → TreeNode.wf s → accept_slave (Some s) sh h n = Ret n' → refines n n'.
Proof.
  intros (r & Er & W) Ws E. unfold accept_slave, sendUpdate_seqs in E. simpl in E. inv_bind. subst.
  eapply refines_trans_r; [by eapply on_tcp_data|].
  eapply refines_trans_r; [by eapply on_tcp_data|].
  apply set_slave_id_data in Ha1 as D. unfold data in D. injection D as _ _ _ _ Em Et Eh _.
  simpl in Em, Et, Eh. rewrite Et, Er in Ha2.
  pose proof (merge_wf (Some r) (Some (TreeNode.setHostID (_max_host_id n) s)) a2 W
    (TreeNode.setHostID_wf _ _ Ws) Ha2) as W2.
  apply merge_Ret in Ha2 as (r' & s' & [= <-] & [= <-] & ->).
  split; [by eexists|]. right. unfold abstraction at 2. simpl. rewrite Em, Eh.
  rewrite child_map_merge by (done || by apply TreeNode.setHostID_wf).
  rewrite (abstraction_root n r Er). apply (group_join (mkGroup _ _ _)); [|done].
  by apply child_map_owned.
Qed.

Lemma read_master_refines p h n n' :
  rooted n → TCPManager_read_master p h n = Ret n' → refines n n'.
Proof.
  intros R E. unfold TCPManager_read_master in E. inv_bind.
  destruct a; inv_bind; subst; try by apply refines_data.
  unfold newConnection in E. inv_bind. case_match; [by eapply close_refines|].
  destruct a as [s|]; [|unfold accept_slave in E; by inv_bind].
  eapply accept_slave_refines; [done| |exact E]. by apply DirTree_deserialize_wf in Ha0.
Qed.

Context `{Memory}.

Lemma on_master_data f (n n' : Node.t) : on_master f n = Ret n' → data n' = data n.
Proof. unfold on_master. intros E. by inv_bind; subst. Qed.

Lemma run_task_refines k (n n' : Node.t) : rooted n → run_task k n = Ret n' → refines n n'.
Proof.
  intros R E. destruct k; simpl in E; try (by eapply refines_data, on_master_data).
  - unfold on_header in E. case_match; [by eapply refines_data, on_master_data|by eapply close_refines].
  - unfold on_body in E. inv_bind. case_match; [|by eapply close_refines]. inv_bind.
    eapply refines_trans_r; [by eapply on_master_data|].
    eapply refines_trans_l; [|eapply read_master_refines; [|exact Ha2]]; done.
  - unfold on_written in E. inv_bind. destruct a1; [|by eapply close_refines].
    inv_bind. subst. by apply refines_data.
Qed.

(** C10: refinement: one step of the master's event loop, with any client and any
    scheduling, changes the group not at all or by exactly one join of the next
    host (its files added under the names that were free) or one leave. *)
Theorem master_step_refines_group (n n' : Node.t) :
  rooted n → step n (Ret n') →
  rooted n' ∧ (abstraction n' = abstraction n ∨ group_step (abstraction n) (abstraction n')).
Proof.
  intros R S. remember (Ret n') as x eqn:E. destruct S.
  - simplify_eq. by apply refines_data.
  - eapply refines_trans_l; [|eapply run_task_refines; [|exact E]]; done.
Qed.
End Refinement.

(** ** Leaving *)

Section Leave.
Context `{TextArchive}.

(** A connection after [close]: closed, its queue dropped, its id forgotten. *)
Definition dropped (c : Master.Connection) : Master.Connection :=
  Master.set_slave_id 0 (Master.set_queue [] (Master.close_socket c)).

(** C14: closing the connection of a recognised slave forgets its id, drops what
    was queued for it, removes exactly the files of that host from the tree,
    keeps the host table, and queues one update with the new tree for everyone;
    closing it again changes nothing. *)
Theorem close_removes_slave h n r m c :
  _dir_tree n = Some r → TreeNode.wf r → TCPManager._is_master (_tcp_manager n) = true →
  master n = Some m → Master._connections m !! h = Some c →
  Master.socket_open c = true → Master.slave_id c ≠ 0 →
  ∃ n' m' r', close h n = Ret n' ∧ close h n' = Ret n' ∧
    master n' = Some m' ∧ Master._connections m' !! h = Some (dropped c) ∧
    _dir_tree n' = Some r' ∧
    (∀ x, TreeNode.find_child x (TreeNode.children r') =
      f ← TreeNode.find_child x (TreeNode.children r);
      if decide (TreeNode.host_id f = Master.slave_id c) then None else Some f) ∧
    _hosts n' = _hosts n ∧
    Master.ready m' = Master.ready m ++ [Master.TWrite (sent (Protocol.message_update
      (DirTree_serialize (_dir_tree n')) (Hosts.serialize (_hosts n'))))].
Proof.
  intros Er W Em G Hc O Hi.
  set (m1 := Master.alter_conn (λ c, Master.set_queue [] (Master.close_socket c)) h m).
  set (c1 := Master.set_queue [] (Master.close_socket c)).
  assert (Master._connections m1 !! h = Some c1) as Hc1.
  { simpl. by rewrite list_lookup_alter_eq, Hc. }
  assert (close h n = Ret (left_ h c1 r m1 (set_master m1 n))) as E.
  { unfold close. change (get_master n) with (master n). rewrite G. run.
    unfold Master.conn, at_. rewrite Hc. run. rewrite O.
    trans (master_disconnect h (set_master m1 n)); [done|].
    rewrite (master_disconnect_spec h (set_master m1 n) r m1 c1) by done.
    change (Master.slave_id c1) with (Master.slave_id c).
    destruct (Z.eqb_spec (Master.slave_id c) 0); [done|]. done. }
  set (n' := left_ h c1 r m1 (set_master m1 n)) in *.
  assert (∃ m', master n' = Some m' ∧ Master._connections m' !! h = Some (dropped c))
    as (m' & G' & Hc').
  { eexists. split; [done|]. simpl. by rewrite !list_lookup_alter_eq, Hc. }
  exists n', m'. eexists. split; [done|]. split_and!; try done.
  - unfold close. change (get_master n') with (master n'). rewrite G'. run.
    unfold Master.conn, at_. by rewrite Hc'.
  - intros x. simpl. rewrite find_child_removeOf by done.
    destruct (TreeNode.find_child x _); simpl; [|done]. by repeat case_decide.
  - by injection G' as <-.
Qed.

(** C34: name conflicts are not refused: a slave whose message can be read always
    joins, whatever names it brings; under a name the group already has, the
    old file stays and the slave's is not visible; under a free name the
    slave's file appears with the slave's new id. *)
Theorem conflicting_slave_joins d hs h n r s sh m c :
  _dir_tree n = Some r → TCPManager._is_master (_tcp_manager n) = true →
  master n = Some m → Master._connections m !! h = Some c → TreeNode.wf r →
  DirTree_deserialize d = Ret (Some s) → Host.deserialize hs = Ret sh →
  ∃ n' r', newConnection d hs h n = Ret n' ∧ _dir_tree n' = Some r' ∧
    ∀ x, TreeNode.find_child x (TreeNode.children r') =
      match TreeNode.find_child x (TreeNode.children r) with
      | Some f => Some f
      | None => (λ f, TreeNode.set_host_id (_max_host_id n)
                        (TreeNode.setHostID (_max_host_id n) f))
                <$> TreeNode.find_child x (TreeNode.children s)
      end.
Proof.
  intros Er Em G Hc W Ed Eh.
  exists (joined s sh h c r m n). eexists. split; [by apply newConnection_joined|].
  split; [done|]. intros x. simpl.
  apply DirTree_deserialize_wf in Ed.
  rewrite find_child_merge by (done || by apply TreeNode.setHostID_wf).
  rewrite TreeNode.children_setHostID. destruct (TreeNode.find_child x _); [done|].
  apply (set_find_map TreeNode.name). by intros [].
Qed.

(** a join message whose sequences are not archives of a tree and a host
    raises an exception in the network thread, which nothing under src/
    catches. *)
Theorem unreadable_join_throws d hs h n :
  text_iarchive d = None ∨ (∃ t, DirTree_deserialize d = Ret t) ∧ text_iarchive hs = None →
  newConnection d hs h n = Exn archive_exception.
Proof.
  unfold newConnection, DirTree_deserialize, Host.deserialize, ia_load.
  intros [-> |[[t E] ->]]; [done|]. by rewrite E.
Qed.
End Leave.

(** ** The life of a slave *)

Section SlaveLife.
Context `{TextArchive}.

(** The callbacks a slave's messager makes. *)
Inductive slave_event :=
  | Recognized (i : Z) (d hs : bytes)
  | Updated (d hs : bytes)
  | Disconnected.

Definition slave_handle (e : slave_event) (n : Node.t) : outcome Node.t :=
  match e with
  | Recognized i d hs => slaveRecognized i d hs n
  | Updated d hs => updateInfo d hs n
  | Disconnected => slave_disconnect n
  end.

Fixpoint slave_run (es : list slave_event) (n : Node.t) : outcome Node.t :=
  match es with
  | [] => Ret n
  | e :: es => n ← slave_handle e n; slave_run es n
  end.

Definition wakes (e : slave_event) : bool :=
  match e with Updated _ _ => false | _ => true end.

Lemma slave_handle_sem e n n' :
  slave_handle e n = Ret n' →
  if wakes e && (_main_thread_is_waiting n || match e with Disconnected => false | _ => true end)
  then _main_thread_is_waiting n' = false ∧ _slave_wait_sem n' = _slave_wait_sem n + 1
  else _main_thread_is_waiting n' = _main_thread_is_waiting n ∧
       _slave_wait_sem n' = _slave_wait_sem n.
Proof.
  destruct e; simpl; intros E.
  - unfold slaveRecognized, assign_children in E. inv_bind. subst. simpl. by rewrite orb_true_r.
  - unfold updateInfo, assign_children in E. inv_bind. by subst.
  - unfold slave_disconnect in E. inv_bind. rewrite orb_false_r. simpl in E.
    destruct (_main_thread_is_waiting n) eqn:Ew; inv_bind; by subst.
Qed.

(** C30: the main thread of a slave blocks on the semaphore exactly until the
    first recognition or disconnection: as long as only updates came in its
    count is zero and the wait cannot pass, afterwards it can. *)
Theorem slave_main_thread_released es n n' :
  _main_thread_is_waiting n = true → _slave_wait_sem n = 0 → slave_run es n = Ret n' →
  if existsb wakes es then is_Some (sem_wait n') else sem_wait n' = None.
Proof.
  intros Hw Hs E.
  assert (if existsb wakes es
    then _main_thread_is_waiting n' = false ∧ 1 <= _slave_wait_sem n'
    else _main_thread_is_waiting n' = true ∧ _slave_wait_sem n' = 0) as R.
  { assert (∀ es n n', _main_thread_is_waiting n = false → 1 <= _slave_wait_sem n →
      slave_run es n = Ret n' →
      _main_thread_is_waiting n' = false ∧ 1 <= _slave_wait_sem n') as L.
    { clear. induction es as [|e es IH]; intros n n' Hw Hs E; simpl in E; inv_bind; [by subst|].
      apply slave_handle_sem in Ha. rewrite Hw in Ha.
      destruct (wakes e && _); eapply IH; [..|exact E| | |exact E]; destruct Ha; congruence || lia. }
    revert n Hw Hs E. induction es as [|e es IH]; intros n Hw Hs E; simpl in E; inv_bind; [by subst|].
    apply slave_handle_sem in Ha. rewrite Hw in Ha. simpl. rewrite andb_true_r in Ha.
    destruct (wakes e); simpl.
    - eapply L; [..|exact E]; destruct Ha; congruence || lia.
    - apply (IH a); [..|exact E]; destruct Ha; congruence. }
  unfold sem_wait. destruct (existsb wakes es); destruct R as [_ R].
  - destruct (Z.ltb_spec 0 (_slave_wait_sem n')); [by eexists|lia].
  - by rewrite R.
Qed.

(** A slave cut off from its master keeps exactly its own files, with
    everything below them, in its tree. *)
Theorem slave_disconnect_keeps_own n r :
  _dir_tree n = Some r → TreeNode.wf r →
  ∃ n' r', slave_disconnect n = Ret n' ∧ _dir_tree n' = Some r' ∧ _hosts n' = _hosts n ∧
    ∀ x, TreeNode.find_child x (TreeNode.children r') =
      f ← TreeNode.find_child x (TreeNode.children r);
      if decide (TreeNode.host_id f = _host_id n) then Some f else None.
Proof.
  intros Er W. unfold slave_disconnect. rewrite Er. simpl.
  destruct (_main_thread_is_waiting n); do 2 eexists; split_and!; try done;
    intros x; simpl; rewrite find_child_removeNotOf by done;
    (destruct (TreeNode.find_child x _); simpl; [|done]); by repeat case_decide.
Qed.
End SlaveLife.

(** ** Concrete handshakes *)

Section HandshakeWitnesses.
Import ExampleArchive ExampleGroup ExampleRun.

(** The tree with the first stand-by node's file, and a master that serves it. *)
Definition grouped_tree : TreeNode.t :=
  TreeNode.set_children
    (set_insert_all TreeNode.name
      (TreeNode.children (TreeNode.setHostID 2 ExampleTree.standby1))
      (TreeNode.children ExampleTree.master)) ExampleTree.master.

Definition grouped : Node.t :=
  set_dir_tree (Some grouped_tree) (master_with (Master.mk [connection 2] [] [] false)).

Lemma grouped_wf : TreeNode.wf grouped_tree.
Proof. repeat constructor. Qed.

(** A tree that brings a name the master has. *)
Definition rival : TreeNode.t :=
  ExampleTree.dir 0 [] [ExampleTree.file 0 7 (str "master_file1")].

Lemma message_transfer_witness :
  ∃ hdr n1, Packet.wire (sent join_message) = Ret (hdr ++ join_message) ∧
    on_header (N := Node.t) 0 false hdr serving = Ret n1.
Proof.
  destruct (message_transfer 0 join_message serving one_client (connection 0))
    as (hdr & n1 & m1 & c1 & W & E & _);
    [reflexivity|reflexivity|vm_compute; done|vm_compute; done|].
  exists hdr, n1. split; [exact W|exact E].
Defined.

Lemma join_handshake_witness :
  ∃ n', TCPManager_read_master (received join_message) 0 serving = Ret n' ∧
    _hosts n' = [master_host; master_host;
                 Host.mk 2 (str "10.0.0.2") (str "/srv/standby1/") 10000 22].
Proof.
  pose proof (join_handshake serving one_client 0 (connection 0) ExampleTree.master
    ExampleTree.standby1 slave_host standby standby ExampleTree.standby1 ExampleTree.standby1
    eq_refl eq_refl eq_refl eq_refl ExampleTree.master_wf ExampleTree.standby1_wf
    eq_refl eq_refl) as J.
  cbv zeta in J.
  do 5 (match type of J with ?P → _ =>
    assert P as Hw by (vm_compute; done); specialize (J Hw); clear Hw end).
  destruct J as [E _]. eexists. split; [exact E|reflexivity].
Defined.

Lemma master_step_refines_group_witness :
  ∃ n', step listening (Ret n') ∧ rooted n' ∧
    (abstraction n' = abstraction listening ∨
     group_step (abstraction listening) (abstraction n')).
Proof.
  assert (step (N := Node.t) listening
    (Ret (after [Complete 0 (Master.TAccepted false (λ _, str "10.0.0.2"))]))) as S.
  { apply (act_step (Complete 0 (Master.TAccepted false (λ _, str "10.0.0.2")))).
    vm_compute. reflexivity. }
  eexists. split; [exact S|].
  apply (master_step_refines_group listening); [|exact S].
  exists ExampleTree.master. split; [reflexivity|apply ExampleTree.master_wf].
Defined.

Lemma close_removes_slave_witness :
  ∃ n' r', close (N := Node.t) 0 grouped = Ret n' ∧ _dir_tree n' = Some r' ∧
    TreeNode.find_child (str "standby1_file1") (TreeNode.children r') = None ∧
    TreeNode.find_child (str "master_file1") (TreeNode.children r') =
      Some (ExampleTree.file 1 22 (str "master_file1")).
Proof.
  destruct (close_removes_slave 0 grouped grouped_tree (Master.mk [connection 2] [] [] false)
    (connection 2)) as (n' & m' & r' & E & _ & _ & _ & Er & F & _);
    try reflexivity; [apply grouped_wf|done|].
  exists n', r'. split; [exact E|]. split; [exact Er|]. rewrite !F. split; reflexivity.
Defined.

Lemma conflicting_slave_joins_witness :
  ∃ n' r', newConnection (DirTree_serialize (Some rival)) (Host.serialize slave_host) 0 serving
      = Ret n' ∧
    _dir_tree n' = Some r' ∧
    TreeNode.find_child (str "master_file1") (TreeNode.children r') =
      Some (ExampleTree.file 1 22 (str "master_file1")).
Proof.
  destruct (conflicting_slave_joins (DirTree_serialize (Some rival)) (Host.serialize slave_host)
    0 serving ExampleTree.master rival slave_host one_client (connection 0))
    as (n' & r' & E & Er & F); try reflexivity; [apply ExampleTree.master_wf|].
  exists n', r'. split; [exact E|]. split; [exact Er|]. rewrite F. reflexivity.
Defined.

Lemma unreadable_join_throws_witness :
  newConnection (str "not an archive") (Host.serialize slave_host) 0 serving =
  Exn archive_exception.
Proof. apply unreadable_join_throws. left. reflexivity. Defined.

Lemma slave_main_thread_released_witness :
  ∃ n', slave_run [Updated (DirTree_serialize (Some ExampleTree.master))
                     (Hosts.serialize [master_host]); Disconnected] standby = Ret n' ∧
    is_Some (sem_wait n').
Proof.
  eexists. split; [vm_compute; reflexivity|].
  apply (slave_main_thread_released [Updated (DirTree_serialize (Some ExampleTree.master))
    (Hosts.serialize [master_host]); Disconnected] standby); reflexivity.
Defined.

Lemma slave_disconnect_keeps_own_witness :
  ∃ n' r', slave_disconnect (set_dir_tree (Some grouped_tree) (set_host_id 2 standby)) = Ret n' ∧
    _dir_tree n' = Some r' ∧
    TreeNode.find_child (str "master_file1") (TreeNode.children r') = None.
Proof.
  destruct (slave_disconnect_keeps_own
    (set_dir_tree (Some grouped_tree) (set_host_id 2 standby)) grouped_tree)
    as (n' & r' & E & Er & _ & F); [reflexivity|apply grouped_wf|].
  exists n', r'. split; [exact E|]. split; [exact Er|]. rewrite F. reflexivity.
Defined.
End HandshakeWitnesses.
