(* ===== verification/Totality.v ===== *)
(** * When a handler of the master cannot fail

    A handler of the master's event loop runs on whatever clients have sent.
    The theorem of this file says that it returns normally, without an
    exception and without undefined behaviour, on every input but three kinds:
    a header that announces more than the memory holds, a body that is not a
    well-formed message, and the completion of a write to a connection that has
    been closed in the meantime. *)

From S2P Require Import Prelude BytesOrder StdSet Archive Path DirTree Host Packet Ssh.
From S2P Require Import TcpMessager Channel MasterLoop UserFs Group Handshake.
Import Node.

(** ** The messager's own operations *)

Lemma do_write_total h m c p q :
  Master._connections m !! h = Some c → Master.queue c = p :: q → packet_ok p →
  Master.do_write h m = Ret (Master.start_op (Master.OpWrite h (Packet.size p)) m).
Proof.
  intros Hc Hq Hp. unfold Master.do_write, Master.conn, at_. rewrite Hc. run. rewrite Hq. run.
  simpl. by destruct (wire_Ret p Hp) as [w ->].
Qed.

Lemma enqueue_total p h m :
  (h < length (Master._connections m))%nat → packet_ok p →
  ∃ m', Master.enqueue p h m = Ret m' ∧
    length (Master._connections m') = length (Master._connections m).
Proof.
  intros Hh Hp. destruct (lookup_lt_is_Some_2 _ _ Hh) as [c Hc].
  unfold Master.enqueue, Master.conn, at_. rewrite Hc. run.
  destruct (Master.queue c) as [|p' q] eqn:Hq; simpl.
  - rewrite (do_write_total h _ (Master.set_queue [p] c) p []).
    + eexists. split; [done|]. simpl. by rewrite length_alter.
    + simpl. rewrite list_lookup_alter_eq, Hc. simpl. by rewrite Hq.
    + done.
    + done.
  - eexists. split; [done|]. simpl. by rewrite length_alter.
Qed.

Lemma write_loop_total p hs m :
  Forall (λ h, (h < length (Master._connections m))%nat) hs → packet_ok p →
  ∃ m', Master.write_loop p hs m = Ret m'.
Proof.
  intros F Hp. revert m F. induction hs as [|h hs IH]; intros m F; [by eexists|].
  apply Forall_cons in F as [Hh F]. simpl.
  assert (∃ m', Master.write_one p h m = Ret m' ∧
    length (Master._connections m') = length (Master._connections m)) as (m' & -> & L).
  { unfold Master.write_one. destruct (lookup_lt_is_Some_2 _ _ Hh) as [c Hc].
    unfold Master.conn at 1, at_. rewrite Hc. run.
    destruct (Master.socket_open c); simpl; [by apply enqueue_total|by eexists]. }
  run. apply IH. by rewrite L.
Qed.

(** A header is decoded from its own bytes. *)
Lemma network_to_host_64_app data rest :
  (8 <= length data)%nat →
  ∃ z, network_to_host_64 (data ++ rest) = Ret z ∧ network_to_host_64 data = Ret z ∧ 0 <= z.
Proof.
  intros Hl. do 7 (destruct data as [|? data]; [simpl in Hl; lia|]).
  edestruct (network_to_host_64_Ret) as (z & E & Hz); [|exists z; split_and!; [|exact E|lia]].
  - simpl. lia.
  - rewrite <- E. simpl. by rewrite !network_to_host_64_bytes.
Qed.

Section Reads.
Context `{Memory} (Hmem : Packet.sizeLength <= vector_max).

Lemma do_read_header_total h m :
  (h < length (Master._connections m))%nat → ∃ m', Master.do_read_header h m = Ret m'.
Proof.
  intros Hh. destruct (lookup_lt_is_Some_2 _ _ Hh) as [c Hc].
  unfold Master.do_read_header, Master.conn, at_. rewrite Hc. run.
  unfold vec_resize. rewrite (proj2 (Z.leb_le _ _) Hmem). run. by eexists.
Qed.

Lemma on_accept_total ec r m : ∃ m', Master.on_accept ec r m = Ret m'.
Proof.
  unfold Master.on_accept. destruct ec; simpl; [by eexists|].
  unfold Master.do_new_connection.
  edestruct (do_read_header_total (length (Master._connections m))) as [m' E];
    [|rewrite E; by eexists].
  simpl. rewrite length_app. simpl. lia.
Qed.
End Reads.

(** ** The node's handlers *)

Section Handlers.
Context `{TextArchive} `{Memory}.

(** A master with a root and a messager. *)
Record serving_master (n : Node.t) (m : Master.t) : Prop := {
  srv_role : TCPManager._is_master (_tcp_manager n) = true;
  srv_root : is_Some (_dir_tree n);
  srv_messager : master n = Some m
}.

Lemma master_disconnect_total h n m :
  serving_master n m → (h < length (Master._connections m))%nat →
  ∃ n', master_disconnect h n = Ret n'.
Proof.
  intros [R [r Er] G] Hh. destruct (lookup_lt_is_Some_2 _ _ Hh) as [c Hc].
  rewrite (master_disconnect_spec h n r m c) by done. by eexists.
Qed.

Lemma close_total h (n : Node.t) m :
  serving_master n m → (h < length (Master._connections m))%nat → ∃ n', close h n = Ret n'.
Proof.
  intros [R Er G] Hh. destruct (lookup_lt_is_Some_2 _ _ Hh) as [c Hc].
  unfold close. change (get_master n) with (master n). rewrite G. run.
  unfold Master.conn, at_. rewrite Hc. run. destruct (Master.socket_open c); [|by eexists].
  eapply master_disconnect_total; [split; [exact R|exact Er|reflexivity]|].
  simpl. by rewrite length_alter.
Qed.

(** A body whose message the manager and the owner understand. *)
Definition readable (message : bytes) : Prop :=
  ∃ e, Protocol.parse_master (message ++ [nul]) = Ret e ∧
    match e with
    | Protocol.NewConnection d hs =>
        ∃ t sh, DirTree_deserialize d = Ret (Some t) ∧ Host.deserialize hs = Ret sh
    | _ => True
    end.

Lemma read_master_total h message n m :
  serving_master n m → (h < length (Master._connections m))%nat → readable message →
  ∃ n', TCPManager_read_master (received message) h n = Ret n'.
Proof.
  intros [R [r Er] G] Hh (e & Ee & He). destruct (lookup_lt_is_Some_2 _ _ Hh) as [c Hc].
  unfold TCPManager_read_master. rewrite data_received, Ee. run.
  destruct e; [|by eexists..]. destruct He as (t & sh & Ed & Eh).
  rewrite (newConnection_joined _ _ h n r t sh m c) by done. by eexists.
Qed.

(** The inputs on which a handler may fail are excluded. *)
Definition benign (m : Master.t) (k : Master.task) : Prop :=
  match k with
  | Master.THeader h false data => ∀ z, network_to_host_64 data = Ret z → z <= vector_max
  | Master.TBody h false data => readable data
  | Master.TWritten h false l =>
      ∀ c, Master._connections m !! h = Some c → Master.socket_open c = true
  | _ => True
  end.

Context (Hmem : Packet.sizeLength <= vector_max).

Lemma on_header_total h ec data (n : Node.t) m :
  serving_master n m → (h < length (Master._connections m))%nat →
  benign m (Master.THeader h ec data) → ∃ n', on_header h ec data n = Ret n'.
Proof.
  intros S Hh B. unfold on_header. destruct (negb ec && _) eqn:Ec; [|by eapply close_total].
  apply andb_true_iff in Ec as [He Hl%Z.eqb_eq]. destruct ec; [done|].
  destruct S as [R Er G]. destruct (lookup_lt_is_Some_2 _ _ Hh) as [c Hc].
  unfold on_master. change (get_master n) with (master n). rewrite G. run.
  unfold Master.conn at 1, at_. rewrite Hc. run. unfold Packet.decodeSize, fill.
  destruct (network_to_host_64_app data (drop (length data) (Master.buffer c)))
    as (z & -> & Ez & Hz); [unfold len, Packet.sizeLength in Hl; lia|]. run.
  unfold Master.do_read_body, Master.conn, at_. simpl. rewrite list_lookup_alter_eq, Hc. run.
  simpl. unfold vec_resize. rewrite (proj2 (Z.leb_le _ _) (B z Ez)). run. by eexists.
Qed.

Lemma on_body_total h ec data (n : Node.t) m :
  serving_master n m → (h < length (Master._connections m))%nat →
  benign m (Master.TBody h ec data) → ∃ n', on_body h ec data n = Ret n'.
Proof.
  intros S Hh B. pose proof S as [R Er G]. destruct (lookup_lt_is_Some_2 _ _ Hh) as [c Hc].
  unfold on_body. change (get_master n) with (master n). rewrite G. run.
  unfold Master.conn, at_. rewrite Hc. run.
  destruct (negb ec && _) eqn:Ec; [|by eapply close_total].
  apply andb_true_iff in Ec as [He Hl%Z.eqb_eq]. destruct ec; [done|].
  rewrite setData_fill by done. run.
  match goal with |- context [owner_read _ _ ?x] => set (n1 := x) end.
  set (m1 := Master.alter_conn _ h m) in n1.
  assert (serving_master n1 m1) as S1 by (by split).
  assert (h < length (Master._connections m1))%nat as H1 by (simpl; by rewrite length_alter).
  destruct (read_master_total h data n1 m1 S1 H1 B) as [n2 E2].
  change (owner_read (received data) h n1) with (TCPManager_read_master (received data) h n1).
  rewrite E2. run.
  destruct (read_master_evolved _ _ _ _ m1 (srv_messager _ _ S1) H1 E2 m1 (srv_messager _ _ S1))
    as (m2 & G2 & Ev).
  unfold on_master. change (get_master n2) with (master n2). rewrite G2. run.
  destruct (do_read_header_total Hmem h m2) as [m3 ->].
  - by rewrite <- (Forall2_length _ _ _ (evolves_conns _ _ Ev)).
  - run. by eexists.
Qed.

(** Every ready handler whose input is benign returns. *)
Lemma run_task_total (n : Node.t) m i k :
  serving_master n m → Inv m → Master.ready m !! i = Some k → benign m k →
  ∃ n', run_task k (set_master (Master.set_ready (delete i (Master.ready m)) m) n) = Ret n'.
Proof.
  intros S I Hk B. set (m1 := Master.set_ready _ m). set (n1 := set_master m1 n).
  assert (serving_master n1 m1) as S1 by (destruct S; by split).
  pose proof (inv_ready _ _ _ _ I) as V. rewrite Forall_forall in V.
  specialize (V k (list_elem_of_lookup_2 _ _ _ Hk)).
  assert (∀ f, (∃ m', f m1 = Ret m') → ∃ n', on_master f n1 = Ret n') as OM.
  { intros f [m' E]. unfold on_master. change (get_master n1) with (Some m1). run.
    rewrite E. run. by eexists. }
  destruct k as [p|p h| |ec r|h ec d|h ec d|h ec l]; simpl in V; simpl run_task.
  - apply OM. apply write_loop_total; [|done]. apply Forall_forall. intros h Hh.
    unfold Master.iterators in Hh. rewrite elem_of_reverse, elem_of_seq in Hh. lia.
  - apply OM. destruct (enqueue_total p h m1) as (m' & E & _); [apply V..|by exists m'].
  - apply OM. by eexists.
  - apply OM. by apply on_accept_total.
  - by apply (on_header_total h ec d n1 m1).
  - by apply (on_body_total h ec d n1 m1).
  - destruct ec.
    + unfold on_written. change (get_master n1) with (Some m1). run.
      destruct (lookup_lt_is_Some_2 _ _ V) as [c Hc].
      unfold Master.conn, at_. change (Master._connections m1) with (Master._connections m).
      rewrite Hc. run. simpl. by apply (close_total h n1 m1).
    + destruct (lookup_lt_is_Some_2 _ _ V) as [c Hc].
      assert (get_master n1 = Some (Master.set_ready (delete i (Master.ready m)) m)) as G1
        by exact (srv_messager _ _ S1).
      destruct (on_written_open (N := Node.t) n1 m i h l c G1 Hk I Hc (B c Hc))
        as (p & q & n' & m' & c' & _ & E & _).
      by exists n'.
Qed.

(** ** What stays true along a run *)

Definition role (n : Node.t) : bool := TCPManager._is_master (_tcp_manager n).

Lemma on_tcp_write_role msg n n' : on_tcp (TCPManager.write msg) n = Ret n' → role n' = role n.
Proof.
  unfold on_tcp, TCPManager.write, role. intros E. inv_bind. subst.
  repeat case_match; inv_bind; by subst.
Qed.

Lemma on_tcp_writeTo_role msg h n n' :
  on_tcp (TCPManager.writeTo msg h) n = Ret n' → role n' = role n.
Proof. unfold on_tcp, TCPManager.writeTo, role. intros E. inv_bind. by subst. Qed.

Lemma set_slave_id_role i h n n' : set_slave_id i h n = Ret n' → role n' = role n.
Proof. unfold set_slave_id, role. intros E. inv_bind. by subst. Qed.

Lemma master_disconnect_role h n n' : master_disconnect h n = Ret n' → role n' = role n.
Proof.
  unfold master_disconnect, sendUpdate, sendUpdate_seqs. intros E. inv_bind.
  case_match; inv_bind; [by subst|].
  rewrite (on_tcp_write_role _ _ _ E). by rewrite (set_slave_id_role _ _ _ _ Ha2).
Qed.

Lemma close_role h (n n' : Node.t) : close h n = Ret n' → role n' = role n.
Proof.
  unfold close. intros E. inv_bind. case_match; [|inv_bind; by subst].
  by rewrite (master_disconnect_role _ _ _ E).
Qed.

Lemma read_master_role p h n n' : TCPManager_read_master p h n = Ret n' → role n' = role n.
Proof.
  unfold TCPManager_read_master. intros E. inv_bind. destruct a; inv_bind; subst; try done.
  unfold newConnection in E. inv_bind. case_match; [by eapply close_role|].
  unfold accept_slave, sendUpdate_seqs in E. inv_bind. subst.
  rewrite (on_tcp_write_role _ _ _ E), (on_tcp_writeTo_role _ _ _ _ Ha8).
  change (role a5 = role n). by rewrite (set_slave_id_role _ _ _ _ Ha6).
Qed.

Lemma run_task_role k (n n' : Node.t) : run_task k n = Ret n' → role n' = role n.
Proof.
  assert (∀ f (n n' : Node.t), on_master f n = Ret n' → role n' = role n) as OM.
  { unfold on_master. intros f x x' E. by inv_bind; subst. }
  intros E. destruct k; simpl in E; try (by eapply OM).
  - unfold on_header in E. case_match; [by eapply OM|by eapply close_role].
  - unfold on_body in E. inv_bind. case_match; [|by eapply close_role]. inv_bind.
    rewrite (OM _ _ _ E). by rewrite (read_master_role _ _ _ _ Ha2).
  - unfold on_written in E. inv_bind. destruct a1; [|by eapply close_role]. by inv_bind; subst.
Qed.

Lemma steps_serving (n n' : Node.t) :
  role n = true → rooted n → steps n n' → role n' = true ∧ rooted n'.
Proof.
  intros R T. induction 1 as [|n n1 n2 _ IH S]; [done|]. destruct (IH R T) as [R1 T1].
  remember (Ret n2) as x eqn:E. destruct S.
  - simplify_eq. split; [done|]. by eapply rooted_data.
  - split; [by rewrite (run_task_role _ _ _ E)|]. eapply run_task_refines; [|exact E].
    by eapply rooted_data.
Qed.
End Handlers.

(** ** The theorem *)

Section Total.
Context `{TextArchive} `{Memory}.

(** C11: safety of the master's event loop: in every state reached from a started
    master, a ready handler returns normally (no exception, no failed assertion,
    no undefined behaviour) unless its input is a header that announces more
    bytes than the memory holds, a body that is not a well-formed message, or a
    completed write on a connection that was closed meanwhile. *)
Theorem handlers_total (n0 n : Node.t) m i k :
  Packet.sizeLength <= vector_max → just_started n0 → role n0 = true → rooted n0 →
  steps n0 n → master n = Some m → Master.ready m !! i = Some k → benign m k →
  ∃ n', run_task k (set_master (Master.set_ready (delete i (Master.ready m)) m) n) = Ret n'.
Proof.
  intros Hmem J R T S G Hk B.
  destruct (reachable_Inv n0 n J S) as (m1 & G1 & I). assert (m1 = m) as -> by congruence.
  destruct (steps_serving n0 n R T S) as [R' (r & Er & _)].
  apply run_task_total; [done|split; [done|by exists r|done]|done|done|done].
Qed.
End Total.

Section TotalityWitness.
Import ExampleArchive ExampleGroup ExampleRun.

(** The join message has arrived and waits to be handled. *)
Definition arrival : list action := take 5 admission.

Definition arrived : Master.t := default Master.create (master (after arrival)).

Lemma join_readable : readable join_message.
Proof.
  exists (Protocol.NewConnection (DirTree_serialize (Some ExampleTree.standby1))
    (Host.serialize slave_host)). split; [vm_compute; reflexivity|].
  exists ExampleTree.standby1, slave_host. split; vm_compute; reflexivity.
Qed.

Lemma handlers_total_witness :
  ∃ n', run_task (Master.TBody 0 false join_message)
    (set_master (Master.set_ready (delete 0%nat (Master.ready arrived)) arrived)
      (after arrival)) = Ret n'.
Proof.
  apply (handlers_total listening (after arrival) arrived 0 (Master.TBody 0 false join_message)).
  - by compute.
  - apply listening_started.
  - reflexivity.
  - exists ExampleTree.master. split; [reflexivity|apply ExampleTree.master_wf].
  - apply (play_steps arrival). vm_compute. reflexivity.
  - vm_compute. reflexivity.
  - vm_compute. reflexivity.
  - apply join_readable.
Defined.
End TotalityWitness.
