(* ===== verification/SlaveLoop.v ===== *)
(** * The event loop of a slave

    [slave_step] is one step of a slave node: the network completes an
    operation, the network thread runs a ready handler, or the main thread
    posts a packet.  The invariant [SInv] is proved for every owner that keeps
    to [SlaveOwnerOk]; UserFS does.  A slave never empties its queue of packets,
    so a completed write always finds the packet it wrote. *)

From S2P Require Import Prelude BytesOrder StdSet Archive Path DirTree Host Packet Ssh.
From S2P Require Import TcpMessager Channel MasterLoop UserFs Group Handshake Totality.
Import Slave.

(** ** Operations under way *)

Definition is_read (o : op) : bool :=
  match o with OpConnect | OpReadHeader | OpReadBody => true | OpWrite _ => false end.

Definition is_read_done (k : task) : bool :=
  match k with TConnected _ | THeader _ _ | TBody _ _ => true | _ => false end.

Definition is_write (o : op) : bool := match o with OpWrite _ => true | _ => false end.

Definition is_write_done (k : task) : bool := match k with TWritten _ _ => true | _ => false end.

(** Connecting or reading, and writing. *)
Definition slave_reads (m : Slave.t) : nat :=
  (count is_read (pending m) + count is_read_done (ready m))%nat.

Definition slave_writes (m : Slave.t) : nat :=
  (count is_write (pending m) + count is_write_done (ready m))%nat.

(** Results Boost.Asio documents for an operation. *)
Definition slave_completes (m : Slave.t) (o : op) (k : task) : Prop :=
  match o, k with
  | OpConnect, TConnected _ => True
  | OpReadHeader, THeader ec data =>
      len data <= Packet.sizeLength ∧ (ec = false → len data = Packet.sizeLength)
  | OpReadBody, TBody ec data =>
      len data <= Packet.size (_packet m) ∧ (ec = false → len data = Packet.size (_packet m))
  | OpWrite n, TWritten ec length => length <= n ∧ (ec = false → length = n)
  | _, _ => False
  end.

#[export] Instance slave_completes_dec m o k : Decision (slave_completes m o k).
Proof. destruct o, k; simpl; apply _. Defined.

Definition remove_ready (i : nat) (m : Slave.t) : Slave.t :=
  mk (socket_open m) (_packet m) (_buffer m) (_write_packets m) (pending m)
     (delete i (ready m)) (stopped m).

Definition complete (i : nat) (k : task) (m : Slave.t) : Slave.t :=
  mk (socket_open m) (_packet m) (_buffer m) (_write_packets m) (delete i (pending m))
     (ready m ++ [k]) (stopped m).

Section SlaveLoop.
Context {N : Type} `{SlaveOwner N} `{Memory}.

Inductive slave_step (n : N) : outcome N → Prop :=
  | slave_complete m i o k :
      get_slave n = Some m → pending m !! i = Some o → slave_completes m o k →
      slave_step n (Ret (put_slave (complete i k m) n))
  | slave_run_ready m i k :
      get_slave n = Some m → stopped m = false → ready m !! i = Some k →
      slave_step n (slave_run_task k (put_slave (remove_ready i m) n))
  | slave_post m p :
      get_slave n = Some m → packet_ok p →
      slave_step n (Ret (put_slave (Slave.write p m) n)).

Inductive slave_steps : N → N → Prop :=
  | slave_steps_refl n : slave_steps n n
  | slave_steps_more n n' n'' :
      slave_steps n n' → slave_step n' (Ret n'') → slave_steps n n''.
End SlaveLoop.

(** The owner's callbacks leave the messager alone. *)
Class SlaveOwnerOk (N : Type) `{SlaveOwner N} : Prop := {
  get_put_slave m n : get_slave (put_slave m n) = Some m;
  slave_owner_disconnect_keeps n n' :
    slave_owner_disconnect n = Ret n' → get_slave n' = get_slave n;
  slave_owner_read_keeps p n n' :
    slave_owner_read p n = Ret n' → get_slave n' = get_slave n
}.

(** ** The invariant

    [rt] and [wt] count the operation whose handler is running. *)

Definition slave_task_ok (k : task) : Prop :=
  match k with TWrite p => packet_ok p | _ => True end.

Record SInv_with (rt wt : nat) (m : Slave.t) : Prop := {
  sinv_ready : Forall slave_task_ok (ready m);
  sinv_queue : Forall packet_ok (_write_packets m);
  sinv_reads : (slave_reads m + rt <= 1)%nat;
  sinv_writes : (slave_writes m + wt <= if nonempty (_write_packets m) then 1 else 0)%nat;
  sinv_op_size n : OpWrite n ∈ pending m →
    ∃ p, head (_write_packets m) = Some p ∧ n = Packet.size p;
  sinv_task_size l : TWritten false l ∈ ready m →
    ∃ p, head (_write_packets m) = Some p ∧ l = Packet.size p
}.

Definition SInv : Slave.t → Prop := SInv_with 0 0.

Lemma SInv_start : SInv (Slave.start Slave.create).
Proof.
  split; simpl; try done; try (vm_compute; lia); intros ? C; by rewrite ?elem_of_cons, ?elem_of_nil in C;
    naive_solver.
Qed.

Lemma SInv_weaken rt wt rt' wt' m :
  (rt' <= rt)%nat → (wt' <= wt)%nat → SInv_with rt wt m → SInv_with rt' wt' m.
Proof. intros Hr Hw []. split; try done; lia. Qed.

(** Changes that do not touch queue, operations or handlers. *)
Lemma SInv_same rt wt m m' :
  pending m' = pending m → ready m' = ready m → _write_packets m' = _write_packets m →
  SInv_with rt wt m → SInv_with rt wt m'.
Proof.
  intros P R Q I. destruct I. unfold slave_reads, slave_writes in *.
  split; unfold slave_reads, slave_writes; by rewrite ?P, ?R, ?Q.
Qed.

Lemma SInv_start_read wt m o :
  is_read o = true → SInv_with 1 wt m → SInv_with 0 wt (start_op o m).
Proof.
  intros Ho I. destruct I as [V Q R W S1 S2]. unfold slave_reads, slave_writes in *.
  split; simpl; try done; unfold slave_reads, slave_writes; simpl; rewrite ?count_app; simpl.
  - rewrite Ho. lia.
  - destruct o; simplify_eq/=; lia.
  - intros n [Hin|Hin%list_elem_of_singleton]%elem_of_app; [by apply S1|by subst].
Qed.

Lemma SInv_post rt wt m p : packet_ok p → SInv_with rt wt m → SInv_with rt wt (Slave.write p m).
Proof.
  intros Hp I. destruct I as [V Q R W S1 S2]. unfold slave_reads, slave_writes in *.
  split; simpl; try done; unfold slave_reads, slave_writes; simpl; rewrite ?count_app; simpl;
    try lia.
  - apply Forall_app. split; [done|by constructor].
  - intros l [Hin|Hin%list_elem_of_singleton]%elem_of_app; [by apply S2|by subst].
Qed.

Lemma SInv_do_write rt m m' :
  do_write m = Ret m' → (slave_writes m = 0)%nat → SInv_with rt 0 m → SInv_with rt 0 m'.
Proof.
  unfold do_write. intros E Z I. inv_bind. subst. destruct I as [V Q R W S1 S2].
  destruct (_write_packets m) as [|p q] eqn:Eq; [done|]. simplify_eq/=.
  unfold slave_reads, slave_writes in *.
  split; simpl; rewrite ?Eq; try done; unfold slave_reads, slave_writes; simpl;
    rewrite ?count_app; simpl; try lia.
  intros n [Hin|Hin%list_elem_of_singleton]%elem_of_app; [by apply S1|].
  injection Hin as ->. by exists a.
Qed.

Lemma count_zero_not {A} (f : A → bool) l a : count f l = 0%nat → a ∈ l → f a = false.
Proof.
  intros Z Ha. destruct (f a) eqn:E; [|done]. pose proof (count_elem f l a Ha E). lia.
Qed.

(** Changing the queue when no write is under way. *)
Lemma SInv_set_queue rt m q :
  slave_writes m = 0%nat → Forall packet_ok q → SInv_with rt 0 m ∨ SInv_with rt 1 m →
  SInv_with rt 0 (set_queue q m).
Proof.
  intros Z Hq I. unfold slave_writes in Z.
  assert (∃ wt, SInv_with rt wt m) as [wt [V Q R W S1 S2]] by naive_solver.
  split; simpl; try done; unfold slave_reads, slave_writes in *; simpl.
  - destruct (nonempty q); lia.
  - intros n Hin. assert (is_write (OpWrite n) = false); [|done].
    eapply count_zero_not; [|exact Hin]. lia.
  - intros l Hin. assert (is_write_done (TWritten false l) = false); [|done].
    eapply count_zero_not; [|exact Hin]. lia.
Qed.

Lemma SInv_on_write rt p m m' :
  packet_ok p → on_write p m = Ret m' → SInv_with rt 0 m → SInv_with rt 0 m'.
Proof.
  intros Hp E I. unfold on_write in E. pose proof (sinv_queue _ _ _ I) as Q.
  pose proof (sinv_writes _ _ _ I) as W.
  destruct (_write_packets m) as [|p0 q] eqn:Eq; simpl in E, W.
  - assert (SInv_with rt 0 (set_queue [p] m)) as I1.
    { apply SInv_set_queue; [lia|by constructor|by left]. }
    by eapply SInv_do_write; [exact E|unfold slave_writes in *; simpl; lia|].
  - inv_bind. subst. destruct I as [V _ R _ S1 S2]. rewrite Eq in S1, S2.
    apply Forall_cons in Q as [Q0 Q].
    split; simpl; try done. constructor; [done|]. apply Forall_app. split; [done|by constructor].
Qed.

Lemma SInv_remove m i k :
  ready m !! i = Some k → SInv m →
  SInv_with (if is_read_done k then 1 else 0) (if is_write_done k then 1 else 0)
    (remove_ready i m).
Proof.
  intros Hk [V Q R W S1 S2]. unfold slave_reads, slave_writes in *.
  pose proof (count_delete is_read_done _ _ _ Hk). pose proof (count_delete is_write_done _ _ _ Hk).
  split; simpl; try done; unfold slave_reads, slave_writes; simpl; try lia.
  - rewrite Forall_forall in *. intros x Hx. apply V. by eapply list_elem_of_delete_inv.
  - intros l Hl. apply S2. by eapply list_elem_of_delete_inv.
Qed.

Lemma SInv_complete m i o k :
  pending m !! i = Some o → slave_completes m o k → SInv m → SInv (complete i k m).
Proof.
  intros Ho Hk [V Q R W S1 S2]. unfold slave_reads, slave_writes in *.
  pose proof (count_delete is_read _ _ _ Ho). pose proof (count_delete is_write _ _ _ Ho).
  split; simpl; try done; unfold slave_reads, slave_writes; simpl; rewrite ?count_app; simpl.
  - apply Forall_app. split; [done|]. constructor; [|done]. by destruct o, k.
  - destruct o, k; simplify_eq/=; lia.
  - destruct o, k; simplify_eq/=; lia.
  - intros n Hn. apply S1. by eapply list_elem_of_delete_inv.
  - intros l [Hl|Hl%list_elem_of_singleton]%elem_of_app; [by apply S2|]. subst k.
    destruct o as [| | |n]; try done. destruct Hk as [_ Hl]. rewrite Hl by done.
    apply S1. by eapply list_elem_of_lookup_2.
Qed.

Section SlavePreservation.
Context {N : Type} `{SlaveOwnerOk N} `{Memory}.

Lemma slave_drop_SInv rt wt n m n' :
  get_slave n = Some m → SInv_with rt wt m → slave_drop n = Ret n' →
  ∃ m', get_slave n' = Some m' ∧ SInv m'.
Proof.
  intros G I E. unfold slave_drop, on_slave in E. rewrite G in E. inv_bind.
  apply slave_owner_disconnect_keeps in E. exists (set_open false m). simplify_eq.
  rewrite E, get_put_slave. split; [done|].
  eapply SInv_weaken; [| |eapply SInv_same; [..|exact I]; done]; lia.
Qed.

Lemma do_read_header_SInv wt m m' :
  do_read_header m = Ret m' → SInv_with 1 wt m → SInv_with 0 wt m'.
Proof.
  unfold do_read_header. intros E I. inv_bind. subst. apply SInv_start_read; [done|].
  by eapply SInv_same; [..|exact I].
Qed.

Lemma do_read_body_SInv wt m m' :
  do_read_body m = Ret m' → SInv_with 1 wt m → SInv_with 0 wt m'.
Proof.
  unfold do_read_body. intros E I. inv_bind. subst. apply SInv_start_read; [done|].
  by eapply SInv_same; [..|exact I].
Qed.

(** A member function of the messager keeps the invariant of the node. *)
Lemma on_slave_SInv (f : Slave.t → outcome Slave.t) n m n' :
  get_slave n = Some m → (∀ m', f m = Ret m' → SInv m') → on_slave f n = Ret n' →
  ∃ m', get_slave n' = Some m' ∧ SInv m'.
Proof.
  intros G F E. unfold on_slave in E. rewrite G in E. inv_bind. subst.
  eexists. split; [apply get_put_slave|]. simplify_eq. by apply F.
Qed.

Lemma slave_on_written_SInv ec l n m n' :
  get_slave n = Some m → SInv_with 0 1 m →
  slave_on_written ec l n = Ret n' → ∃ m', get_slave n' = Some m' ∧ SInv m'.
Proof.
  intros G I E. unfold slave_on_written in E. rewrite G in E. cbn [deref] in E.
  rewrite bind_Ret in E. apply bind_Ret_inv in E as ([] & _ & E); [|by eapply slave_drop_SInv].
  apply bind_Ret_inv in E as (m1 & E1 & [= <-]).
  pose proof (sinv_writes _ _ _ I) as W. pose proof (sinv_queue _ _ _ I) as Q.
  assert (slave_writes m = 0%nat) as Z by (destruct (nonempty (_write_packets m)); lia).
  assert (Forall packet_ok (tail (_write_packets m))) as Qt by (by destruct Q).
  assert (SInv (set_queue (tail (_write_packets m)) m)) as I1
    by (apply SInv_set_queue; [done|done|by right]).
  eexists. split; [apply get_put_slave|].
  destruct (nonempty (tail (_write_packets m))); [|by injection E1 as <-].
  by eapply SInv_do_write; [eassumption|done|].
Qed.

Lemma slave_run_SInv k n m i n' :
  get_slave n = Some (remove_ready i m) → ready m !! i = Some k → SInv m →
  slave_run_task k n = Ret n' → ∃ m', get_slave n' = Some m' ∧ SInv m'.
Proof.
  intros G Hk I E. pose proof (SInv_remove m i k Hk I) as I1.
  pose proof (sinv_ready _ _ _ I) as V. rewrite Forall_forall in V.
  specialize (V k (list_elem_of_lookup_2 _ _ _ Hk)).
  destruct k as [p| |ec|ec d|ec d|ec l]; simpl in E, I1, V.
  - eapply on_slave_SInv; [exact G| |exact E]. intros m' E'. by eapply SInv_on_write.
  - eapply on_slave_SInv; [exact G| |exact E]. intros m' [= <-].
    by eapply SInv_same; [..|exact I1].
  - unfold slave_on_connect in E. destruct ec; simpl in E.
    + apply slave_owner_disconnect_keeps in E. eexists. split; [by rewrite E|].
      eapply SInv_weaken; [| |exact I1]; lia.
    + eapply on_slave_SInv; [exact G| |exact E]. intros m' E'. by eapply do_read_header_SInv.
  - unfold slave_on_header in E. case_match; [|by eapply slave_drop_SInv].
    eapply on_slave_SInv; [exact G| |exact E]. intros m' E'. cbv beta in E'. inv_bind.
    eapply do_read_body_SInv; [exact E'|]. by eapply SInv_same; [..|exact I1].
  - unfold slave_on_body in E. rewrite G in E. inv_bind. simplify_eq.
    case_match; [|by eapply slave_drop_SInv]. inv_bind. apply slave_owner_read_keeps in Ha0.
    rewrite get_put_slave in Ha0. eapply on_slave_SInv; [exact Ha0| |exact E].
    intros m' E'. eapply do_read_header_SInv; [exact E'|]. by eapply SInv_same; [..|exact I1].
  - by eapply slave_on_written_SInv.
Qed.

Lemma slave_step_SInv n m n' :
  get_slave n = Some m → SInv m → slave_step n (Ret n') →
  ∃ m', get_slave n' = Some m' ∧ SInv m'.
Proof.
  intros G I S. remember (Ret n') as r eqn:Er.
  destruct S as [m1 i o k G1 Ho Hk|m1 i k G1 Hs Hk|m1 p G1 Hp]; rewrite G in G1; injection G1 as <-.
  - simplify_eq. eexists. split; [apply get_put_slave|]. by eapply SInv_complete.
  - eapply slave_run_SInv; [apply get_put_slave|exact Hk|exact I|exact Er].
  - simplify_eq. eexists. split; [apply get_put_slave|]. by apply SInv_post.
Qed.

Lemma slave_steps_SInv n m n' :
  get_slave n = Some m → SInv m → slave_steps n n' →
  ∃ m', get_slave n' = Some m' ∧ SInv m'.
Proof.
  intros G I. induction 1 as [|n n1 n2 _ IH S]; [eauto|].
  destruct (IH G) as (m1 & G1 & I1). by eapply slave_step_SInv.
Qed.
End SlavePreservation.

(** ** UserFS as the owner of a slave messager *)

Section SlaveNode.
Context `{TextArchive}.

Lemma assign_children_keeps t n n' :
  assign_children t n = Ret n' → Node._tcp_manager n' = Node._tcp_manager n.
Proof. unfold assign_children. intros E. inv_bind. by subst. Qed.

Lemma slave_disconnect_keeps n n' :
  slave_disconnect n = Ret n' → Node._tcp_manager n' = Node._tcp_manager n.
Proof. unfold slave_disconnect. intros E. inv_bind. case_match; inv_bind; by subst. Qed.

Lemma read_slave_keeps p n n' :
  TCPManager_read_slave p n = Ret n' → Node._tcp_manager n' = Node._tcp_manager n.
Proof.
  unfold TCPManager_read_slave, slaveRecognized, updateInfo. intros E. inv_bind.
  destruct a; inv_bind; subst; try done; simpl.
  - by rewrite (assign_children_keeps _ _ _ Ha2).
  - by rewrite (assign_children_keeps _ _ _ Ha2).
Qed.

#[export] Instance node_slave_ok : SlaveOwnerOk Node.t.
Proof.
  split.
  - done.
  - intros n n' E. unfold get_slave, node_slave, Node.slave.
    by rewrite (slave_disconnect_keeps n n' E).
  - intros p n n' E. unfold get_slave, node_slave, Node.slave.
    by rewrite (read_slave_keeps p n n' E).
Qed.

(** The tree keeps a root whose children are a set. *)
Lemma assign_children_rooted t n n' :
  tree_wf t → assign_children t n = Ret n' → rooted n → rooted n'.
Proof.
  unfold assign_children. intros W E (r & Er & Wr). inv_bind. subst. rewrite Er in Ha.
  simplify_eq. eexists. split; [done|]. simpl in W.
  apply TreeNode.wf_set_children; [done|by apply TreeNode.wf_children|by apply TreeNode.Forall_wf].
Qed.

Lemma slave_disconnect_rooted n n' : slave_disconnect n = Ret n' → rooted n → rooted n'.
Proof.
  unfold slave_disconnect. intros E (r & Er & W). inv_bind. rewrite Er in Ha.
  pose proof (removeNotOf_wf _ (Some r) a W Ha) as Wa. unfold removeNotOf in Ha. inv_bind. subst a.
  case_match; inv_bind; subst; by eexists.
Qed.

Lemma read_slave_rooted p n n' : TCPManager_read_slave p n = Ret n' → rooted n → rooted n'.
Proof.
  unfold TCPManager_read_slave, slaveRecognized, updateInfo. intros E R. inv_bind.
  destruct a; inv_bind; subst; try done.
  - apply DirTree_deserialize_wf in Ha0.
    destruct (assign_children_rooted _ _ _ Ha0 Ha2) as (r & Er & W); [done|]. by exists r.
  - apply DirTree_deserialize_wf in Ha0.
    destruct (assign_children_rooted _ _ _ Ha0 Ha2) as (r & Er & W); [done|]. by exists r.
Qed.

Context `{Memory}.

Lemma on_slave_rooted f (n n' : Node.t) : on_slave f n = Ret n' → rooted n → rooted n'.
Proof. unfold on_slave. intros E R. inv_bind. by subst. Qed.

Lemma slave_drop_rooted (n n' : Node.t) : slave_drop n = Ret n' → rooted n → rooted n'.
Proof.
  unfold slave_drop. intros E R. inv_bind.
  eapply slave_disconnect_rooted; [exact E|]. by eapply on_slave_rooted.
Qed.

Lemma slave_run_rooted k (n n' : Node.t) : slave_run_task k n = Ret n' → rooted n → rooted n'.
Proof.
  intros E R. destruct k; simpl in E; try (by eapply on_slave_rooted).
  - unfold slave_on_connect in E. case_match; [by eapply on_slave_rooted|].
    by eapply slave_disconnect_rooted.
  - unfold slave_on_header in E. case_match; [by eapply on_slave_rooted|by eapply slave_drop_rooted].
  - unfold slave_on_body in E. inv_bind. case_match; [|by eapply slave_drop_rooted]. inv_bind.
    eapply on_slave_rooted; [exact E|]. eapply read_slave_rooted; [exact Ha1|done].
  - unfold slave_on_written in E. inv_bind. destruct a0; [|by eapply slave_drop_rooted].
    inv_bind. by subst.
Qed.

Lemma slave_steps_rooted (n n' : Node.t) : slave_steps n n' → rooted n → rooted n'.
Proof.
  induction 1 as [|n n1 n2 _ IH S]; [done|]. intros R. specialize (IH R).
  remember (Ret n2) as x eqn:E. destruct S; [by simplify_eq| |by simplify_eq].
  by eapply slave_run_rooted; [exact E|].
Qed.

(** ** When a handler of a slave cannot fail *)

(** A body whose message the manager and the owner understand. *)
Definition slave_readable (message : bytes) : Prop :=
  ∃ e, Protocol.parse_slave (message ++ [nul]) = Ret e ∧
    match e with
    | Protocol.SlaveRecognized _ d hs | Protocol.UpdateInfo d hs =>
        ∃ t hosts, DirTree_deserialize d = Ret (Some t) ∧ Hosts.deserialize hs = Ret hosts
    | _ => True
    end.

Definition slave_benign (k : task) : Prop :=
  match k with
  | THeader false data => ∀ z, network_to_host_64 data = Ret z → z <= vector_max
  | TBody false data => slave_readable data
  | _ => True
  end.

Lemma slave_disconnect_total n : rooted n → ∃ n', slave_disconnect n = Ret n'.
Proof.
  intros (r & Er & _). unfold slave_disconnect. rewrite Er. simpl. case_match; by eexists.
Qed.

Lemma slave_drop_total (n : Node.t) m :
  Node.slave n = Some m → rooted n → ∃ n', slave_drop n = Ret n'.
Proof.
  intros G R. unfold slave_drop, on_slave. change (get_slave n) with (Node.slave n). rewrite G. run.
  by apply slave_disconnect_total.
Qed.

Lemma read_slave_total message n :
  rooted n → slave_readable message → ∃ n', TCPManager_read_slave (received message) n = Ret n'.
Proof.
  intros (r & Er & _) (e & Ee & He). unfold TCPManager_read_slave. rewrite data_received, Ee. run.
  destruct e; try (by eexists); destruct He as (t & hosts & Ed & Eh).
  - rewrite (slaveRecognized_spec _ _ _ n t hosts r) by done. by eexists.
  - rewrite (updateInfo_spec _ _ n t hosts r) by done. by eexists.
Qed.

Context (Hmem : Packet.sizeLength <= vector_max).

Lemma slave_read_header_total m : ∃ m', do_read_header m = Ret m'.
Proof.
  unfold do_read_header, vec_resize. rewrite (proj2 (Z.leb_le _ _) Hmem). run. by eexists.
Qed.

Lemma slave_header_total ec data (n : Node.t) m :
  Node.slave n = Some m → rooted n → slave_benign (THeader ec data) →
  ∃ n', slave_on_header ec data n = Ret n'.
Proof.
  intros G R B. unfold slave_on_header.
  destruct (negb ec && _) eqn:Ec; [|by eapply slave_drop_total].
  apply andb_true_iff in Ec as [He Hl%Z.eqb_eq]. destruct ec; [done|].
  unfold on_slave. change (get_slave n) with (Node.slave n). rewrite G. run.
  unfold Packet.decodeSize, fill.
  destruct (network_to_host_64_app data (drop (length data) (_buffer m)))
    as (z & -> & Ez & Hz); [unfold len, Packet.sizeLength in Hl; lia|]. run.
  unfold do_read_body, vec_resize. simpl. rewrite (proj2 (Z.leb_le _ _) (B z Ez)). run.
  by eexists.
Qed.

Lemma slave_body_total ec data (n : Node.t) m :
  Node.slave n = Some m → rooted n → slave_benign (TBody ec data) →
  ∃ n', slave_on_body ec data n = Ret n'.
Proof.
  intros G R B. unfold slave_on_body. change (get_slave n) with (Node.slave n). rewrite G. run.
  destruct (negb ec && _) eqn:Ec; [|by eapply slave_drop_total].
  apply andb_true_iff in Ec as [He Hl%Z.eqb_eq]. destruct ec; [done|].
  rewrite setData_fill by done. run.
  match goal with |- context [slave_owner_read _ ?x] => set (n1 := x) end.
  assert (rooted n1) as R1 by exact R.
  destruct (read_slave_total data n1 R1 B) as [n2 E2].
  change (slave_owner_read (received data) n1) with (TCPManager_read_slave (received data) n1).
  rewrite E2. run. apply read_slave_keeps in E2. unfold on_slave.
  change (get_slave n2) with (Node.slave n2). unfold Node.slave. rewrite E2. simpl.
  match goal with |- context [do_read_header ?x] => destruct (slave_read_header_total x) as [m' ->] end.
  run. by eexists.
Qed.

(** A completed write finds the packet it wrote. *)
Lemma slave_written_total l (n : Node.t) m i :
  Node.slave n = Some (remove_ready i m) → rooted n → SInv m →
  ready m !! i = Some (TWritten false l) → ∃ n', slave_on_written false l n = Ret n'.
Proof.
  intros G R I Hk. unfold slave_on_written. change (get_slave n) with (Node.slave n).
  rewrite G. run. simpl.
  destruct (sinv_task_size _ _ _ I l) as (p & Hp & ->); [by eapply list_elem_of_lookup_2|].
  pose proof (sinv_queue _ _ _ I) as Q.
  destruct (_write_packets m) as [|p' q]; simplify_eq/=. rewrite Z.eqb_refl.
  apply Forall_cons in Q as [_ Q].
  destruct q as [|p' q]; simpl; [by eexists|]. apply Forall_cons in Q as [Hp' _].
  unfold do_write. simpl. destruct (wire_Ret p' Hp') as [w ->]. by eexists.
Qed.

Lemma slave_run_total (n : Node.t) m i k :
  Node.slave n = Some m → rooted n → SInv m → ready m !! i = Some k → slave_benign k →
  ∃ n', slave_run_task k (Node.set_slave (remove_ready i m) n) = Ret n'.
Proof.
  intros G R I Hk B. set (m1 := remove_ready i m). set (n1 := Node.set_slave m1 n).
  assert (Node.slave n1 = Some m1) as G1 by done. assert (rooted n1) as R1 by exact R.
  pose proof (sinv_ready _ _ _ I) as V. rewrite Forall_forall in V.
  specialize (V k (list_elem_of_lookup_2 _ _ _ Hk)).
  destruct k as [p| |ec|ec d|ec d|ec l]; simpl in V; simpl slave_run_task.
  - unfold on_slave. change (get_slave n1) with (Some m1). run. unfold on_write.
    destruct (_write_packets m1) as [|p0 q] eqn:Q; simpl; [|by eexists].
    unfold do_write. simpl. destruct (wire_Ret p V) as [w ->]. by eexists.
  - unfold on_slave. change (get_slave n1) with (Some m1). run. by eexists.
  - unfold slave_on_connect. destruct ec; simpl; [by apply slave_disconnect_total|].
    unfold on_slave. change (get_slave n1) with (Some m1). run.
    destruct (slave_read_header_total m1) as [m' ->]. run. by eexists.
  - by apply (slave_header_total ec d n1 m1).
  - by apply (slave_body_total ec d n1 m1).
  - destruct ec; [|by apply (slave_written_total l n1 m i)].
    unfold slave_on_written. change (get_slave n1) with (Some m1). run. simpl.
    by apply (slave_drop_total n1 m1).
Qed.
End SlaveNode.

(** ** Properties *)

Section SlaveProperties.
Context `{TextArchive} `{Memory}.

(** C15: from a slave whose messager has just started, whatever the network does,
    whatever the main thread sends and in whatever order handlers run: at most
    one connect or read is under way, at most one write and none when nothing is
    queued, a completed write is that of the packet at the front of the queue,
    and the tree keeps its root and stays a tree of sets. *)
Theorem slave_io_discipline (n n' : Node.t) :
  Node.slave n = Some (Slave.start Slave.create) → rooted n → slave_steps n n' →
  ∃ m, Node.slave n' = Some m ∧ rooted n' ∧ (slave_reads m <= 1)%nat ∧
    (slave_writes m <= if nonempty (_write_packets m) then 1 else 0)%nat ∧
    ∀ l, TWritten false l ∈ ready m →
      ∃ p, head (_write_packets m) = Some p ∧ l = Packet.size p.
Proof.
  intros G R S.
  destruct (slave_steps_SInv (N := Node.t) (H := node_slave) n (Slave.start Slave.create) n' G SInv_start S) as (m & G' & I).
  exists m. split; [done|]. split; [by eapply slave_steps_rooted|].
  destruct I. split_and!; [lia|lia|done].
Qed.

(** C16: safety of the slave's event loop: in every state reached from a started
    slave a ready handler returns normally unless its input is a header that
    announces more bytes than the memory holds or a body that is not a
    well-formed message from the master; unlike on the master, closing the
    connection cannot make a completed write fail. *)
Theorem slave_handlers_total (n0 n : Node.t) m i k :
  Packet.sizeLength <= vector_max → Node.slave n0 = Some (Slave.start Slave.create) →
  rooted n0 → slave_steps n0 n → Node.slave n = Some m → ready m !! i = Some k →
  slave_benign k →
  ∃ n', slave_run_task k (Node.set_slave (remove_ready i m) n) = Ret n'.
Proof.
  intros Hmem G0 R S G Hk B.
  destruct (slave_steps_SInv (N := Node.t) (H := node_slave) n0 (Slave.start Slave.create) n G0 SInv_start S) as (m1 & G1 & I).
  assert (m1 = m) as -> by (change (get_slave n) with (Node.slave n) in G1; congruence).
  apply slave_run_total; [done|done|by eapply slave_steps_rooted|done|done|done].
Qed.
End SlaveProperties.

(** ** A concrete slave *)

Section SlaveWitnesses.
Import ExampleArchive ExampleGroup.

(** It is connecting; then the main thread posts the join message and the
    connection is made. *)
Definition connecting : Node.t := Node.set_slave (Slave.start Slave.create) standby.

Definition posted_join : Slave.t := Slave.write (sent join_message) (Slave.start Slave.create).

Definition connected_slave : Slave.t := complete 0 (TConnected false) posted_join.

Definition connected_node : Node.t := Node.set_slave connected_slave connecting.

Lemma connecting_rooted : rooted connecting.
Proof. exists ExampleTree.standby1. split; [reflexivity|apply ExampleTree.standby1_wf]. Qed.

Lemma connected_steps : slave_steps connecting connected_node.
Proof.
  eapply slave_steps_more; [eapply slave_steps_more; [apply slave_steps_refl|]|].
  - apply (slave_post connecting (Slave.start Slave.create) (sent join_message));
      [reflexivity|apply packet_ok_encodeData].
  - exact (slave_complete (Node.set_slave posted_join connecting) posted_join 0 OpConnect
      (TConnected false) eq_refl eq_refl I).
Qed.

Lemma slave_io_discipline_witness :
  ∃ m, Node.slave connected_node = Some m ∧ (slave_reads m <= 1)%nat.
Proof.
  destruct (slave_io_discipline connecting connected_node eq_refl connecting_rooted connected_steps)
    as (m & G & _ & R & _).
  exists m. split; [exact G|exact R].
Defined.

Lemma slave_handlers_total_witness :
  ∃ n', slave_run_task (TConnected false)
    (Node.set_slave (remove_ready 1 connected_slave) connected_node) = Ret n'.
Proof.
  apply (slave_handlers_total connecting connected_node connected_slave 1 (TConnected false));
    [by compute|reflexivity|apply connecting_rooted|apply connected_steps|reflexivity|reflexivity|
     exact I].
Defined.
End SlaveWitnesses.
