(* ===== verification/Buffers.v ===== *)
(** * The buffers of operations under way

    Boost.Asio requires the memory an operation was given to stay as it is until
    its handler is called: a write sends from the packet at the front of the
    sending queue, a read stores into the connection's buffer, whose size its packet
    holds.  Here: what a step of the event loop does to them while the operation is
    under way, on the master (Group) and on a slave (SlaveLoop). *)

From S2P Require Import Prelude BytesOrder StdSet Archive Path DirTree Host Packet Ssh.
From S2P Require Import TcpMessager Channel MasterLoop UserFs Group Handshake Totality SlaveLoop.
Import Master.

(** ** On the master *)

Section Intact.
(** A part of a connection, and the changes of it that are allowed. *)
Context {X : Type} (view : Connection → X) (R : X → X → Prop) `{!PreOrder R}.
Hypothesis view_same : ∀ c c',
  buffer c' = buffer c → packet c' = packet c → queue c' = queue c → R (view c) (view c').
Hypothesis view_append : ∀ c p, R (view c) (view (set_queue (queue c ++ [p]) c)).

(** The handlers that may change it otherwise, when they are those of [h]. *)
Definition read_sees : Prop :=
  ∀ c b p, R (view c) (view (set_buffer b c)) ∧ R (view c) (view (set_packet p c)).
Definition write_sees : Prop := ∀ c q, R (view c) (view (set_queue q c)).

(** Connection [h] has changed in that way only, as far as it is still open. *)
Definition intact (h : nat) (m m' : Master.t) : Prop :=
  ∀ c', _connections m' !! h = Some c' → socket_open c' = true →
    ∃ c, _connections m !! h = Some c ∧ socket_open c = true ∧ R (view c) (view c').

#[local] Instance intact_refl h : Reflexive (intact h).
Proof. intros m c Hc O. by exists c. Qed.

#[local] Instance intact_trans h : Transitive (intact h).
Proof.
  intros m1 m2 m3 K1 K2 c3 H3 O3. destruct (K2 c3 H3 O3) as (c2 & H2 & O2 & R2).
  destruct (K1 c2 H2 O2) as (c1 & H1 & O1 & R1). exists c1. split_and!; [done..|].
  by trans (view c2).
Qed.

Lemma intact_conns h m m' : _connections m' = _connections m → intact h m m'.
Proof. intros E c' Hc O. rewrite E in Hc. by exists c'. Qed.

Lemma intact_alter f h h0 m :
  h0 ≠ h ∨ (∀ c, socket_open (f c) = true → socket_open c = true ∧ R (view c) (view (f c))) →
  intact h m (alter_conn f h0 m).
Proof.
  intros Hf c' Hc O. simpl in Hc. apply lookup_alter_inv in Hc as (c & Hc & ->). exists c.
  split; [done|]. destruct (decide (h0 = h)) as [->|]; [|done].
  destruct Hf as [|Hf]; [done|by apply Hf].
Qed.

Lemma intact_evolves h m m' : evolves m m' → intact h m m'.
Proof.
  intros [C _ _] c' Hc O. destruct (Forall2_lookup_r _ _ _ _ _ C Hc) as (c & Hc0 & _ & B & P & Q).
  exists c. destruct Q as [[Eo Eq]|[Eo _]]; [|congruence].
  split_and!; [done|congruence|by apply view_same].
Qed.

Lemma intact_enqueue p h h0 m m' : enqueue p h0 m = Ret m' → intact h m m'.
Proof.
  unfold enqueue. intros E. inv_bind.
  trans (alter_conn (λ c, set_queue (queue c ++ [p]) c) h0 m).
  - apply intact_alter. right. intros c O. by split.
  - case_match; [|inv_bind; by subst].
    apply do_write_Ret in E as (c & p' & _ & _ & ->). by apply intact_conns.
Qed.

Lemma intact_write_loop p h hs m m' : write_loop p hs m = Ret m' → intact h m m'.
Proof.
  revert m. induction hs as [|h0 hs IH]; intros m E; simpl in E; inv_bind; [by subst|].
  trans a; [|by apply IH]. unfold write_one in Ha. inv_bind.
  case_match; [inv_bind; by subst|by eapply intact_enqueue].
Qed.

Lemma intact_push r h m :
  (h < length (_connections m))%nat → intact h m (push_connection r m).2.
Proof. intros Hh c' Hc O. simpl in Hc. rewrite lookup_app_l in Hc by done. by exists c'. Qed.

Section IntactBy.
Context {N : Type} `{MasterOwner N} `{!MasterReader N} `{Memory} `{!MasterOwnerOk N}.

Lemma intact_read h h0 m m' :
  do_read_header h0 m = Ret m' ∨ do_read_body h0 m = Ret m' → h0 ≠ h ∨ read_sees → intact h m m'.
Proof.
  intros E Hs.
  assert (∃ b o, m' = start_op o (alter_conn (set_buffer b) h0 m)) as (b & o & ->).
  { destruct E as [E|E]; unfold do_read_header, do_read_body in E; inv_bind; subst; by do 2 eexists. }
  trans (alter_conn (set_buffer b) h0 m); [|by apply intact_conns].
  apply intact_alter. destruct Hs as [|Hs]; [by left|right]. intros c O. split; [done|].
  apply (Hs c b Packet.create).
Qed.

Lemma intact_received h h0 m b p :
  h0 ≠ h ∨ read_sees → intact h m (alter_conn (λ c, set_packet p (set_buffer b c)) h0 m).
Proof.
  intros Hs. apply intact_alter. destruct Hs as [|Hs]; [by left|right]. intros c O. split; [done|].
  trans (view (set_buffer b c)); [apply (Hs c b p)|apply (Hs (set_buffer b c) b p)].
Qed.

Lemma intact_on_accept ec r h m m' :
  on_accept ec r m = Ret m' → (h < length (_connections m))%nat → intact h m m'.
Proof.
  unfold on_accept. intros E Hh. apply bind_Ret_inv in E as (m1 & E1 & [= <-]).
  trans m1; [|by apply intact_conns]. destruct ec; simpl in E1; [by inv_bind; subst|].
  etrans; [by eapply intact_push|]. eapply intact_read; [left; exact E1|left].
  simpl. lia.
Qed.

Lemma intact_close h h0 n n' m :
  get_master n = Some m → close h0 n = Ret n' → ∃ m', get_master n' = Some m' ∧ intact h m m'.
Proof.
  intros G E. unfold close in E. rewrite G in E. simpl in E. inv_bind.
  destruct (socket_open a); [|inv_bind; subst; by exists m].
  eapply owner_disconnect_evolves in E as (m' & G' & Ev); [|apply get_put_master].
  exists m'. split; [done|]. etrans; [|by eapply intact_evolves].
  apply intact_evolves. auto with gsfs.
Qed.

(** The handler of another connection, or of another operation. *)
Definition harmless (h : nat) (k : task) : Prop :=
  match k with
  | THeader h0 _ _ | TBody h0 _ _ => h0 ≠ h ∨ read_sees
  | TWritten h0 _ _ => h0 ≠ h ∨ write_sees
  | _ => True
  end.

Lemma on_master_intact h f n n' m :
  get_master n = Some m → on_master f n = Ret n' → (∀ m', f m = Ret m' → intact h m m') →
  ∃ m', get_master n' = Some m' ∧ intact h m m'.
Proof.
  intros G E F. unfold on_master in E. rewrite G in E. simpl in E. inv_bind. subst.
  eexists. split; [apply get_put_master|by apply F].
Qed.

Lemma run_intact h k n n' m :
  get_master n = Some m → run_task k n = Ret n' → (h < length (_connections m))%nat →
  harmless h k → ∃ m', get_master n' = Some m' ∧ intact h m m'.
Proof.
  intros G E Hh K. destruct k as [p|p h0| |ec r|h0 ec d|h0 ec d|h0 ec l]; simpl in E, K.
  - eapply on_master_intact; [done..|]. intros m'. apply intact_write_loop.
  - eapply on_master_intact; [done..|]. intros m'. apply intact_enqueue.
  - eapply on_master_intact; [done..|]. intros m' [= <-]. by apply intact_conns.
  - eapply on_master_intact; [done..|]. intros m' E'. by eapply intact_on_accept.
  - unfold on_header in E. case_match; [|by eapply intact_close].
    eapply on_master_intact; [done..|]. intros m' E'. cbv beta zeta in E'. inv_bind.
    etrans; [by apply intact_received|eapply intact_read; [right; exact E'|done]].
  - unfold on_body in E. rewrite G in E. simpl in E. inv_bind.
    case_match; [|by eapply intact_close]. inv_bind.
    pose proof Ha as Hc. unfold conn in Hc. apply at_Ret, lookup_lt_Some in Hc.
    eapply owner_read_evolves in Ha1 as (m1 & G1 & Ev);
      [|apply get_put_master|simpl; by rewrite length_alter].
    eapply on_master_intact in E as (m' & G' & K'); [exists m'; split; [done|]|exact G1|].
    + etrans; [by apply intact_received|]. etrans; [by eapply intact_evolves|exact K'].
    + intros m' E'. eapply intact_read; [left; exact E'|done].
  - unfold on_written in E. rewrite G in E. simpl in E. inv_bind. destruct a0; [|by eapply intact_close].
    cbv zeta in E. inv_bind. subst. eexists. split; [apply get_put_master|].
    trans (alter_conn (set_queue (tail (queue a))) h0 m).
    + apply intact_alter. destruct K as [|K]; [by left|right]. intros c O. split; [done|apply K].
    + case_match; [|inv_bind; by subst].
      apply do_write_Ret in Ha1 as (c & p' & _ & _ & ->). by apply intact_conns.
Qed.
End IntactBy.
End Intact.

Definition receiving (c : Connection) : bytes * Packet.t := (buffer c, packet c).

Lemma count_two {A B} (f : A → bool) (g : B → bool) l l' a b :
  a ∈ l → f a = true → b ∈ l' → g b = true → (2 <= count f l + count g l')%nat.
Proof. intros Ha Fa Hb Gb. pose proof (count_elem f l a Ha Fa). pose proof (count_elem g l' b Hb Gb). lia. Qed.

Section MasterBuffers.
Context `{TextArchive} `{Memory}.

(** Nothing but the operation's own handler is harmful. *)
Lemma step_intact {X} (view : Connection → X) (R : X → X → Prop) `{!PreOrder R}
    (n n' : Node.t) m m' h c c' :
  (∀ c c', buffer c' = buffer c → packet c' = packet c → queue c' = queue c → R (view c) (view c')) →
  (∀ c p, R (view c) (view (set_queue (queue c ++ [p]) c))) →
  step n (Ret n') → Node.master n = Some m → Node.master n' = Some m' →
  _connections m !! h = Some c → _connections m' !! h = Some c' → socket_open c' = true →
  (∀ k, k ∈ ready m → harmless view R h k) →
  socket_open c = true ∧ R (view c) (view c').
Proof.
  intros V A S G G' Hc Hc' O K.
  assert (intact view R h m m') as Intact.
  { remember (Ret n') as r eqn:Er. pose proof (lookup_lt_Some _ _ _ Hc) as Hh.
    destruct S as [m1 i o k G1 Ho Hk|m1 i k G1 Hs Hk];
      change (get_master n) with (Node.master n) in G1; rewrite G in G1; injection G1 as <-.
    - injection Er as <-. injection G' as <-. by apply intact_conns.
    - destruct (run_intact (N := Node.t) view R V A h k
        (put_master (set_ready (delete i (ready m)) m) n) n' (set_ready (delete i (ready m)) m))
        as (m2 & G2 & K'); [apply get_put_master|done|done| |].
      + apply K. by eapply list_elem_of_lookup_2.
      + change (get_master n') with (Node.master n') in G2. rewrite G' in G2.
        by injection G2 as <-. }
  destruct (Intact c' Hc' O) as (c1 & Hc1 & Oc & E). rewrite Hc in Hc1. by injection Hc1 as <-.
Qed.

(** C13: the memory of the master's operations under way: in every state the event
    loop reaches and whatever step it takes next, while a read on a connection is
    under way the buffer it stores into and the size it was given stay as they are,
    and while a write is, its packet stays at the front of the queue, to which
    packets may only be appended; as long as the connection is not closed. *)
Theorem master_buffers_kept (n0 n n' : Node.t) m m' h c c' :
  just_started n0 → steps n0 n → step n (Ret n') →
  Node.master n = Some m → Node.master n' = Some m' →
  _connections m !! h = Some c → _connections m' !! h = Some c' → socket_open c' = true →
  (OpReadHeader h ∈ pending m ∨ OpReadBody h ∈ pending m →
    buffer c' = buffer c ∧ packet c' = packet c) ∧
  (∀ l, OpWrite h l ∈ pending m → queue c `prefix_of` queue c').
Proof.
  intros J S0 S G G' Hc Hc' O.
  destruct (reachable_Inv n0 n J S0) as (m1 & G1 & I). rewrite G in G1. injection G1 as <-.
  split.
  - intros Hop. destruct (step_intact receiving eq n n' m m' h c c') as [_ E]; try done.
    + by intros c1 c2 E1 E2 _; unfold receiving; rewrite E1, E2.
    + intros k Hk. destruct (inv_reads _ _ _ _ I h c Hc) as [Rd _]. rewrite token_None in Rd.
      assert (is_read_task h k = false) as F.
      { destruct (is_read_task h k) eqn:F; [|done]. exfalso. unfold reads in Rd.
        destruct Hop as [Hop|Hop];
          pose proof (count_two (is_read_op h) (is_read_task h) _ _ _ _ Hop (Nat.eqb_refl h) Hk F); lia. }
      destruct k; simpl in *; try done; try (left; by apply Nat.eqb_neq). by right.
    + unfold receiving in E. by injection E.
  - intros l Hop.
    assert (socket_open c = true) as Oc.
    { destruct (step_intact (λ _, tt) eq n n' m m' h c c') as [Oc _]; try done.
      intros [] _; simpl; try done; by right. }
    apply (step_intact queue prefix n n' m m' h c c'); try done.
    + by intros c1 c2 _ _ ->.
    + intros c1 p. by apply prefix_app_r.
    + intros k Hk. pose proof (inv_writes _ _ _ _ I h c Hc Oc) as Wr. rewrite token_None in Wr.
      assert (is_write_task h k = false) as F.
      { destruct (is_write_task h k) eqn:F; [|done]. exfalso. unfold writes in Wr.
        pose proof (count_two (is_write_op h) (is_write_task h) _ _ _ _ Hop (Nat.eqb_refl h) Hk F).
        destruct (nonempty (queue c)); lia. }
      destruct k; simpl in *; try done; try (left; by apply Nat.eqb_neq); by right.
Qed.

(** But closing a connection releases the memory of a write that is under way:
    when a read on it fails (the client is gone), the queue is emptied at once, while
    the write that was given its front is still an operation of the messager. *)
Theorem close_releases_write_buffer (n n' : Node.t) m h c d l :
  Node.master n = Some m → _connections m !! h = Some c → socket_open c = true →
  OpWrite h l ∈ pending m → run_task (THeader h true d) n = Ret n' →
  ∃ m' c', Node.master n' = Some m' ∧ _connections m' !! h = Some c' ∧
    OpWrite h l ∈ pending m' ∧ socket_open c' = false ∧ queue c' = [].
Proof.
  intros G Hc O Hop E. simpl in E. unfold on_header, close in E. simpl in E.
  change (get_master n) with (Node.master n) in E. rewrite G in E. simpl in E.
  unfold conn, at_ in E. rewrite Hc in E. simpl in E. rewrite O in E.
  set (m1 := alter_conn _ h m) in E.
  destruct (owner_disconnect_evolves (N := Node.t) (H := node_owner) h (Node.set_master m1 n) n' m1 eq_refl E)
    as (m' & G' & [C P _]). simpl in C, P. apply (Forall2_lookup_l _ _ _ h (set_queue [] (close_socket c))) in C
    as (c' & Hc' & _ & _ & _ & Q); [|by rewrite list_lookup_alter_eq, Hc].
  exists m', c'. rewrite P. split_and!; try done; by destruct Q as [[]|[]].
Qed.
End MasterBuffers.

(** ** On a slave *)

Section SlaveBuffers.
Context {N : Type} `{SlaveOwnerOk N} `{Memory}.
Import Slave.

(** Which of them a handler leaves alone. *)
Definition slave_intact (k : Slave.task) (m m' : Slave.t) : Prop :=
  (is_read_done k = false → Slave._buffer m' = Slave._buffer m ∧ Slave._packet m' = Slave._packet m) ∧
  (is_write_done k = false → Slave._write_packets m `prefix_of` Slave._write_packets m').

Lemma on_slave_intact k f (n n' : N) m :
  get_slave n = Some m → on_slave f n = Ret n' → (∀ m', f m = Ret m' → slave_intact k m m') →
  ∃ m', get_slave n' = Some m' ∧ slave_intact k m m'.
Proof.
  intros G E F. unfold on_slave in E. rewrite G in E. simpl in E. inv_bind. subst.
  eexists. split; [apply get_put_slave|by apply F].
Qed.

Lemma slave_drop_intact k (n n' : N) m :
  get_slave n = Some m → slave_drop n = Ret n' → ∃ m', get_slave n' = Some m' ∧ slave_intact k m m'.
Proof.
  intros G E. unfold slave_drop, on_slave in E. rewrite G in E. simpl in E. inv_bind.
  apply slave_owner_disconnect_keeps in E. eexists. rewrite E.
  split; [subst; apply get_put_slave|]. by split.
Qed.

Lemma slave_run_intact k (n n' : N) m :
  get_slave n = Some m → slave_run_task k n = Ret n' →
  ∃ m', get_slave n' = Some m' ∧ slave_intact k m m'.
Proof.
  intros G E. destruct k as [p| |ec|ec d|ec d|ec l]; simpl in E.
  - eapply on_slave_intact; [done..|]. intros m' E'. unfold Slave.on_write, Slave.do_write in E'.
    destruct (negb _); inv_bind; subst; split; try done; intros _; by apply prefix_app_r.
  - eapply on_slave_intact; [done..|]. intros m' [= <-]. by split.
  - unfold slave_on_connect in E. destruct ec; simpl in E.
    + apply slave_owner_disconnect_keeps in E. exists m. rewrite E. by split.
    + eapply on_slave_intact; [done..|]. intros m' E'. unfold Slave.do_read_header in E'.
      inv_bind. subst. by split.
  - unfold slave_on_header in E. case_match; [|by eapply slave_drop_intact].
    eapply on_slave_intact; [done..|]. intros m' E'. unfold Slave.do_read_body in E'.
    cbv beta zeta in E'. inv_bind. subst. by split.
  - unfold slave_on_body in E. rewrite G in E. simpl in E.
    case_match; [|by eapply slave_drop_intact]. inv_bind. apply slave_owner_read_keeps in Ha0.
    rewrite get_put_slave in Ha0. unfold on_slave, Slave.do_read_header in E. rewrite Ha0 in E.
    simpl in E. inv_bind. subst. eexists. split; [apply get_put_slave|by split].
  - unfold slave_on_written in E. rewrite G in E. simpl in E. inv_bind.
    destruct a; [|by eapply slave_drop_intact]. inv_bind. subst.
    eexists. split; [apply get_put_slave|]. split; [intros _|done].
    unfold Slave.do_write in Ha0. case_match; inv_bind; by subst.
Qed.
End SlaveBuffers.

Section SlaveNodeBuffers.
Context `{TextArchive} `{Memory}.

(** A slave keeps the memory of its operations under way in every step of its
    event loop and of its main thread, also when it closes its socket: it never
    clears its queue. *)
Theorem slave_buffers_kept (n0 n n' : Node.t) m m' :
  Node.slave n0 = Some (Slave.start Slave.create) → slave_steps n0 n → slave_step n (Ret n') →
  Node.slave n = Some m → Node.slave n' = Some m' →
  (Slave.OpReadHeader ∈ Slave.pending m ∨ Slave.OpReadBody ∈ Slave.pending m →
    Slave._buffer m' = Slave._buffer m ∧ Slave._packet m' = Slave._packet m) ∧
  (∀ l, Slave.OpWrite l ∈ Slave.pending m →
    Slave._write_packets m `prefix_of` Slave._write_packets m').
Proof.
  intros G0 S0 S G G'.
  destruct (slave_steps_SInv (N := Node.t) (H := node_slave) n0 (Slave.start Slave.create) n
    G0 SInv_start S0) as (m1 & G1 & I).
  change (get_slave n) with (Node.slave n) in G1. rewrite G in G1. injection G1 as <-.
  remember (Ret n') as r eqn:Er.
  destruct S as [m1 i o k G1 Ho Hk|m1 i k G1 Hs Hk|m1 p G1 Hp];
    change (get_slave n) with (Node.slave n) in G1; rewrite G in G1; injection G1 as <-.
  - injection Er as <-. injection G' as <-. done.
  - destruct (slave_run_intact (N := Node.t) (H := node_slave) k (put_slave (remove_ready i m) n) n'
      (remove_ready i m) (get_put_slave _ _) Er)
      as (m2 & G2 & K1 & K2).
    change (get_slave n') with (Node.slave n') in G2. rewrite G' in G2. injection G2 as <-.
    apply list_elem_of_lookup_2 in Hk.
    pose proof (sinv_reads _ _ _ I) as Rd. pose proof (sinv_writes _ _ _ I) as Wr.
    unfold slave_reads, slave_writes in *. split.
    + intros Hop. apply K1. destruct (is_read_done k) eqn:F; [|done]. exfalso.
      destruct Hop as [Hop|Hop]; pose proof (count_two is_read is_read_done _ _ _ _ Hop eq_refl Hk F); lia.
    + intros l Hop. apply K2. destruct (is_write_done k) eqn:F; [|done]. exfalso.
      pose proof (count_two is_write is_write_done _ _ _ _ Hop eq_refl Hk F).
      destruct (nonempty (Slave._write_packets m)); lia.
  - injection Er as <-. injection G' as <-. done.
Qed.
End SlaveNodeBuffers.

(** ** Concrete nodes *)

Section BufferWitnesses.
Import ExampleArchive ExampleGroup ExampleRun.

(** The recognition is being written; next the update is queued behind it. *)
Definition writing_node : Node.t := after (admission ++ [Run 0]).
Definition queued_node : Node.t := after (admission ++ [Run 0; Run 0]).
Definition writing : Master.t := default Master.create (Node.master writing_node).
Definition queued : Master.t := default Master.create (Node.master queued_node).

Definition first_of (m : Master.t) : Connection :=
  default (connection 0) (_connections m !! 0%nat).

Lemma writing_steps : steps listening writing_node.
Proof. eapply (play_steps (admission ++ [Run 0])). vm_compute. reflexivity. Qed.

Lemma queued_step : step writing_node (Ret queued_node).
Proof.
  apply (act_step (N := Node.t) (Run 0)). vm_compute. reflexivity.
Qed.

Lemma master_buffers_kept_witness :
  length (queue (first_of writing)) = 1%nat ∧ length (queue (first_of queued)) = 2%nat ∧
  queue (first_of writing) `prefix_of` queue (first_of queued).
Proof.
  split; [vm_compute; reflexivity|]. split; [vm_compute; reflexivity|].
  destruct (master_buffers_kept listening writing_node queued_node writing queued 0
    (first_of writing) (first_of queued) listening_started writing_steps queued_step)
    as [_ W]; [vm_compute; reflexivity..|].
  apply (W recognition_size). apply (list_elem_of_lookup_2 _ 2). vm_compute. reflexivity.
Defined.

Lemma close_releases_write_buffer_witness :
  ∃ n' m' c', run_task (N := Node.t) (THeader 0 true []) writing_node = Ret n' ∧
    Node.master n' = Some m' ∧ _connections m' !! 0%nat = Some c' ∧
    OpWrite 0 recognition_size ∈ pending m' ∧ queue c' = [].
Proof.
  assert (∃ n', run_task (N := Node.t) (THeader 0 true []) writing_node = Ret n') as [n' E]
    by (eexists; vm_compute; reflexivity).
  destruct (close_releases_write_buffer writing_node n' writing 0 (first_of writing) []
    recognition_size) as (m' & c' & G & Hc & Hop & _ & Hq);
    [vm_compute; reflexivity|vm_compute; reflexivity|vm_compute; reflexivity| |exact E|].
  - apply (list_elem_of_lookup_2 _ 2). vm_compute. reflexivity.
  - exists n', m', c'. exact (conj E (conj G (conj Hc (conj Hop Hq)))).
Defined.

(** A slave that writes its join message; then the connection is reported. *)
Definition run_slave (k : Slave.task) (i : nat) (n : Node.t) : Node.t :=
  match slave_run_task k (put_slave (remove_ready i (default Slave.create (Node.slave n))) n) with
  | Ret n' => n'
  | _ => n
  end.

Definition joining_node : Node.t := run_slave (Slave.TWrite (sent join_message)) 0 connected_node.
Definition reading_node : Node.t := run_slave (Slave.TConnected false) 0 joining_node.
Definition joining_slave : Slave.t := default Slave.create (Node.slave joining_node).

Lemma run_slave_step k i n m :
  Node.slave n = Some m → Slave.stopped m = false → Slave.ready m !! i = Some k →
  (∃ n', slave_run_task k (put_slave (remove_ready i m) n) = Ret n') →
  slave_step n (Ret (run_slave k i n)).
Proof.
  intros G Hs Hk [n' E]. unfold run_slave. rewrite G. cbn [from_option id]. rewrite E.
  rewrite <- E. by apply (slave_run_ready (N := Node.t) (H := node_slave)).
Qed.

Lemma slave_buffers_kept_witness :
  Slave._write_packets joining_slave `prefix_of`
    Slave._write_packets (default Slave.create (Node.slave reading_node)).
Proof.
  refine (proj2 (slave_buffers_kept connecting joining_node reading_node joining_slave _
    eq_refl _ _ _ _) (Packet.size (sent join_message)) _).
  - eapply slave_steps_more; [exact connected_steps|].
    eapply (run_slave_step _ 0 _ connected_slave); [reflexivity..|]. eexists. vm_compute. reflexivity.
  - eapply (run_slave_step _ 0 _ joining_slave); [vm_compute; reflexivity..|].
    eexists. vm_compute. reflexivity.
  - vm_compute. reflexivity.
  - vm_compute. reflexivity.
  - apply (list_elem_of_lookup_2 _ 0). vm_compute. reflexivity.
Defined.
End BufferWitnesses.
