(* ===== verification/Consistency.v ===== *)
(** * What a slave ends up with

    Boost.Asio runs handlers that were posted by one thread in the order they
    were posted; the step relation of MasterLoop does not rely on that.  Here
    it is assumed for the two handlers that send ([fifo_step]), and then the
    packets on their way to a slave end with the current state of the group:
    when they have been delivered, the slave agrees with the master. *)

From S2P Require Import Prelude BytesOrder StdSet Archive Path DirTree Host Packet Ssh.
From S2P Require Import TcpMessager Channel MasterLoop UserFs Group Handshake Totality.
Import Node.

(** ** Packets on their way *)

Definition is_post (k : Master.task) : bool :=
  match k with Master.TWrite _ | Master.TWriteTo _ _ => true | _ => false end.

(** The packet a posted handler will queue for connection [h]. *)
Definition post_for (h : nat) (k : Master.task) : option Packet.t :=
  match k with
  | Master.TWrite p => Some p
  | Master.TWriteTo p h' => if decide (h' = h) then Some p else None
  | _ => None
  end.

Definition posts_for (h : nat) (ks : list Master.task) : list Packet.t := omap (post_for h) ks.

(** What is queued for a connection, and what will be. *)
Definition outbox (h : nat) (m : Master.t) (c : Master.Connection) : list Packet.t :=
  Master.queue c ++ posts_for h (Master.ready m).

Lemma posts_for_app h ks ks' : posts_for h (ks ++ ks') = posts_for h ks ++ posts_for h ks'.
Proof. apply omap_app. Qed.

Lemma post_for_not_post h k : is_post k = false → post_for h k = None.
Proof. by destruct k. Qed.

Lemma posts_for_not_posts h ks : Forall (λ k, is_post k = false) ks → posts_for h ks = [].
Proof.
  induction 1 as [|k ks Hk _ IH]; [done|]. unfold posts_for. simpl.
  by rewrite post_for_not_post.
Qed.

(** Taking a handler out of the ready ones. *)
Lemma posts_for_delete h ks i k :
  ks !! i = Some k →
  (is_post k = true → Forall (λ k, is_post k = false) (take i ks)) →
  posts_for h ks =
  match post_for h k with Some p => [p] | None => [] end ++ posts_for h (delete i ks).
Proof.
  intros Hi Hp. rewrite <- (take_drop_middle ks i k Hi) at 1.
  rewrite delete_take_drop, !posts_for_app. unfold posts_for at 2. simpl.
  destruct (is_post k) eqn:Ek.
  - rewrite (posts_for_not_posts h (take i ks)) by auto. simpl. by destruct (post_for h k).
  - rewrite (post_for_not_post h k) by done. done.
Qed.

Section Fifo.
Context `{TextArchive} `{Memory}.

(** The packet that carries the current tree and hosts. *)
Definition current_update (n : Node.t) : Packet.t :=
  sent (Protocol.message_update (DirTree_serialize (_dir_tree n)) (Hosts.serialize (_hosts n))).

Inductive fifo_step (n : Node.t) : Node.t → Prop :=
  | fifo_complete m i o k :
      master n = Some m → Master.pending m !! i = Some o → completes m o k →
      fifo_step n (set_master (Master.mk (Master._connections m) (delete i (Master.pending m))
        (Master.ready m ++ [k]) (Master.stopped m)) n)
  | fifo_run m i k n' :
      master n = Some m → Master.stopped m = false → Master.ready m !! i = Some k →
      (is_post k = true → Forall (λ k, is_post k = false) (take i (Master.ready m))) →
      run_task k (set_master (Master.set_ready (delete i (Master.ready m)) m) n) = Ret n' →
      fifo_step n n'.

Inductive fifo_steps : Node.t → Node.t → Prop :=
  | fifo_refl n : fifo_steps n n
  | fifo_more n n' n'' : fifo_steps n n' → fifo_step n' n'' → fifo_steps n n''.

Lemma fifo_step_step n n' : fifo_step n n' → step n (Ret n').
Proof.
  intros [m i o k G Ho Hk|m i k n1 G Hs Hk _ E].
  - exact (step_complete (N := Node.t) n m i o k G Ho Hk).
  - rewrite <- E. exact (step_run (N := Node.t) n m i k G Hs Hk).
Qed.

Lemma fifo_steps_steps n n' : fifo_steps n n' → steps n n'.
Proof.
  induction 1 as [|n n1 n2 _ IH S]; [constructor|].
  eapply steps_more; [exact IH|by apply fifo_step_step].
Qed.

(** ** The invariant

    [taken h] is the packet for [h] that the running handler has taken out of
    the ready ones and has not queued yet. *)

Definition settled (u : Packet.t) (q : list Packet.t) : Prop := q = [] ∨ last q = Some u.

Definition Cons_with (taken : nat → list Packet.t) (u : Packet.t) (m : Master.t) : Prop :=
  ∀ h c, Master._connections m !! h = Some c → Master.socket_open c = true →
    Master.slave_id c ≠ 0 →
    settled u (Master.queue c ++ taken h ++ posts_for h (Master.ready m)).

Definition none (h : nat) : list Packet.t := [].

Definition Cons (n : Node.t) : Prop :=
  ∀ m, master n = Some m → Cons_with none (current_update n) m.

Lemma settled_app u q : settled u (q ++ [u]).
Proof. right. by rewrite last_snoc. Qed.

Lemma settled_tail u p q : settled u (p :: q) → settled u q.
Proof. intros [C|C]; [done|]. destruct q as [|p' q]; [by left|right]. done. Qed.

(** Connections keep what the invariant looks at; a new one has no id. *)
Definition quiet (m m' : Master.t) : Prop :=
  Master.ready m' = Master.ready m ∧
  ∀ h c', Master._connections m' !! h = Some c' → Master.socket_open c' = true →
    Master.slave_id c' ≠ 0 →
    ∃ c, Master._connections m !! h = Some c ∧ Master.socket_open c = true ∧
      Master.slave_id c ≠ 0 ∧ Master.queue c' = Master.queue c.

Lemma Cons_quiet t u m m' : quiet m m' → Cons_with t u m → Cons_with t u m'.
Proof.
  intros [R Q] C h c' Hc' O Hi. destruct (Q h c' Hc' O Hi) as (c & Hc & O' & Hi' & ->).
  rewrite R. by apply C.
Qed.

Lemma quiet_refl m : quiet m m.
Proof. split; [done|]. intros h c Hc O Hi. by exists c. Qed.

Lemma quiet_trans m1 m2 m3 : quiet m1 m2 → quiet m2 m3 → quiet m1 m3.
Proof.
  intros [R1 Q1] [R2 Q2]. split; [congruence|]. intros h c Hc O Hi.
  destruct (Q2 h c Hc O Hi) as (c2 & Hc2 & O2 & Hi2 & E2).
  destruct (Q1 h c2 Hc2 O2 Hi2) as (c1 & Hc1 & O1 & Hi1 & E1).
  exists c1. split_and!; try done. congruence.
Qed.

Lemma quiet_alter f h m :
  (∀ c, Master.socket_open (f c) = Master.socket_open c ∧
        Master.slave_id (f c) = Master.slave_id c ∧ Master.queue (f c) = Master.queue c) →
  quiet m (Master.alter_conn f h m).
Proof.
  intros Hf. split; [done|]. simpl. intros h' c' (c & Hc & ->)%lookup_alter_inv O Hi.
  destruct (Hf c) as (E1 & E2 & E3). exists c. case_decide; [|done].
  split_and!; [done|congruence|congruence|done].
Qed.

Lemma quiet_start_op o m : quiet m (Master.start_op o m).
Proof. split; [done|]. intros h c Hc O Hi. by exists c. Qed.

(** With everything announced anew, nothing else matters. *)
Lemma Cons_broadcast t u m : (∀ h, t h = []) → Cons_with t u (Master.write u m).
Proof.
  intros Ht h c Hc O Hi. rewrite Ht. simpl. rewrite posts_for_app. unfold posts_for at 2. simpl.
  rewrite app_assoc. apply settled_app.
Qed.

(** ** The handlers that send *)

Lemma do_write_quiet h m m' : Master.do_write h m = Ret m' → quiet m m'.
Proof. intros (c & p & _ & _ & ->)%do_write_Ret. apply quiet_start_op. Qed.

(** [enqueue] appends to one queue. *)
Lemma enqueue_queue p h m m' :
  Master.enqueue p h m = Ret m' →
  Master.ready m' = Master.ready m ∧
  Master._connections m' = alter (λ c, Master.set_queue (Master.queue c ++ [p]) c) h
    (Master._connections m).
Proof.
  unfold Master.enqueue. intros E. inv_bind. case_match; [|inv_bind; by subst].
  by apply do_write_Ret in E as (c & p' & _ & _ & ->).
Qed.

(** The loop over the connections appends once to every open one. *)
Lemma write_loop_queue p hs m m' :
  NoDup hs → Master.write_loop p hs m = Ret m' →
  Master.ready m' = Master.ready m ∧
  ∀ h c', Master._connections m' !! h = Some c' →
    ∃ c, Master._connections m !! h = Some c ∧
      Master.socket_open c' = Master.socket_open c ∧ Master.slave_id c' = Master.slave_id c ∧
      Master.queue c' = Master.queue c ++
        (if decide (h ∈ hs ∧ Master.socket_open c = true) then [p] else []).
Proof.
  intros N. revert m. induction N as [|h0 hs Hh N IH]; intros m E; simpl in E; inv_bind.
  { subst. split; [done|]. intros h c Hc. exists c. split_and!; try done.
    rewrite decide_False by (rewrite elem_of_nil; naive_solver). by rewrite app_nil_r. }
  destruct (IH _ E) as [R Q].
  assert (Master.ready a = Master.ready m ∧ ∀ h c', Master._connections a !! h = Some c' →
    ∃ c, Master._connections m !! h = Some c ∧
      Master.socket_open c' = Master.socket_open c ∧ Master.slave_id c' = Master.slave_id c ∧
      Master.queue c' = Master.queue c ++
        (if decide (h = h0 ∧ Master.socket_open c = true) then [p] else [])) as [R1 Q1].
  { unfold Master.write_one, Master.conn in Ha. inv_bind. apply at_Ret in Ha0.
    destruct (Master.socket_open a0) eqn:O; simpl in Ha.
    - apply enqueue_queue in Ha as [-> Ec]. split; [done|]. intros h c'. rewrite Ec.
      intros (c & Hc & ->)%lookup_alter_inv. exists c. split; [done|].
      destruct (decide (h0 = h)) as [->|].
      + rewrite decide_True by (split; [done|congruence]). done.
      + rewrite decide_False by naive_solver. by rewrite app_nil_r.
    - inv_bind. subst. split; [done|]. intros h c Hc. exists c. split_and!; try done.
      rewrite decide_False by (intros [-> C]; congruence). by rewrite app_nil_r. }
  split; [congruence|]. intros h c' Hc'. destruct (Q h c' Hc') as (c1 & Hc1 & O1 & I1 & E1).
  destruct (Q1 h c1 Hc1) as (c & Hc & O & I & E2).
  exists c. split_and!; [done|congruence|congruence|]. rewrite E1, E2, O, <- app_assoc. f_equal.
  destruct (decide (h = h0)) as [->|Hne].
  - rewrite (decide_False (P := h0 ∈ hs ∧ _)) by naive_solver. rewrite app_nil_r.
    apply decide_ext. rewrite elem_of_cons. naive_solver.
  - rewrite (decide_False (P := h = h0 ∧ _)) by naive_solver. simpl.
    apply decide_ext. rewrite elem_of_cons. naive_solver.
Qed.

Lemma on_write_Cons p u m m' :
  Master.on_write p m = Ret m' → Cons_with (λ _, [p]) u m → Cons_with none u m'.
Proof.
  unfold Master.on_write. intros E C h c' Hc' O Hi.
  apply write_loop_queue in E as [R Q]; [|unfold Master.iterators; rewrite reverse_Permutation; apply NoDup_seq].
  destruct (Q h c' Hc') as (c & Hc & O' & Hi' & ->). rewrite decide_True.
  - rewrite R. unfold none. simpl. rewrite <- app_assoc.
    apply (C h c Hc); congruence.
  - split; [|congruence]. unfold Master.iterators. rewrite elem_of_reverse, elem_of_seq.
    apply lookup_lt_Some in Hc. lia.
Qed.

Lemma on_writeTo_Cons p h0 u m m' :
  Master.on_writeTo p h0 m = Ret m' →
  Cons_with (λ h, if decide (h0 = h) then [p] else []) u m → Cons_with none u m'.
Proof.
  unfold Master.on_writeTo. intros [R Ec]%enqueue_queue C h c'. rewrite Ec, R.
  intros (c & Hc & ->)%lookup_alter_inv O Hi. specialize (C h c Hc). cbv beta in C. unfold none. simpl.
  destruct (decide (h0 = h)); simpl in *; [rewrite <- app_assoc|]; by apply C.
Qed.

Lemma on_written_Cons h ec l (n n' : Node.t) m u :
  master n = Some m → on_written h ec l n = Ret n' → Cons_with none u m →
  (∃ m', n' = set_master m' n ∧ Cons_with none u m') ∨ close h n = Ret n'.
Proof.
  intros G E C. unfold on_written in E. change (get_master n) with (master n) in E.
  rewrite G in E. cbn [deref] in E. rewrite bind_Ret in E. inv_bind.
  destruct a0; [|by right]. left. inv_bind. subst. exists a0. split; [done|].
  eapply Cons_quiet; [|].
  { destruct (nonempty _); [by eapply do_write_quiet|]. injection Ha1 as <-. apply quiet_refl. }
  intros h' c' (c & Hc & ->)%lookup_alter_inv O Hi. simpl in *.
  apply at_Ret in Ha. specialize (C h' c Hc).
  destruct (decide (h = h')) as [<-|]; simpl in *; [|by apply C].
  rewrite Hc in Ha. injection Ha as ->. specialize (C O Hi).
  destruct (Master.queue a) as [|p q]; [done|]. by apply settled_tail in C.
Qed.

(** ** The handlers that read, accept and close *)

Lemma do_read_header_quiet h m m' : Master.do_read_header h m = Ret m' → quiet m m'.
Proof.
  unfold Master.do_read_header. intros E. inv_bind. subst.
  eapply quiet_trans; [|apply quiet_start_op]. by apply quiet_alter.
Qed.

Lemma do_read_body_quiet h m m' : Master.do_read_body h m = Ret m' → quiet m m'.
Proof.
  unfold Master.do_read_body. intros E. inv_bind. subst.
  eapply quiet_trans; [|apply quiet_start_op]. by apply quiet_alter.
Qed.

Lemma on_accept_quiet ec r m m' : Master.on_accept ec r m = Ret m' → quiet m m'.
Proof.
  unfold Master.on_accept. intros E. inv_bind. subst.
  eapply quiet_trans; [|apply quiet_start_op]. destruct ec; simpl in Ha.
  { inv_bind. subst. apply quiet_refl. }
  eapply quiet_trans; [|by eapply do_read_header_quiet].
  split; [done|]. simpl. intros h c Hc O Hi.
  apply lookup_app_Some in Hc as [Hc|[_ Hc]]; [by exists c|].
  apply list_lookup_singleton_Some in Hc as [_ <-]. done.
Qed.

Lemma Cons_set_master n m : Cons_with none (current_update n) m → Cons (set_master m n).
Proof. intros C m' [= <-]. done. Qed.

Lemma on_master_Cons f (n n' : Node.t) m :
  master n = Some m → on_master f n = Ret n' →
  (∀ m', f m = Ret m' → Cons_with none (current_update n) m') → Cons n'.
Proof.
  intros G E F. unfold on_master in E. change (get_master n) with (master n) in E.
  rewrite G in E. cbn [deref] in E. rewrite bind_Ret in E. inv_bind. subst.
  by apply Cons_set_master, F.
Qed.

Lemma quiet_close h m :
  quiet m (Master.alter_conn (λ c, Master.set_queue [] (Master.close_socket c)) h m).
Proof.
  split; [done|]. simpl. intros h' c' (c & Hc & ->)%lookup_alter_inv O Hi.
  case_decide; [done|]. by exists c.
Qed.

Lemma close_Cons h (n n' : Node.t) m :
  serving_master n m → Cons n → close h n = Ret n' → Cons n'.
Proof.
  intros [R [r Er] G] C E. unfold close in E. change (get_master n) with (master n) in E.
  rewrite G in E. cbn [deref] in E. rewrite bind_Ret in E. inv_bind. apply at_Ret in Ha.
  destruct (Master.socket_open a); [|inv_bind; by subst].
  set (m1 := Master.alter_conn (λ c, Master.set_queue [] (Master.close_socket c)) h m) in *.
  assert (Master._connections m1 !! h = Some (Master.set_queue [] (Master.close_socket a))) as Hc1
    by (simpl; by rewrite list_lookup_alter_eq, Ha).
  assert (master_disconnect h (set_master m1 n) = Ret n') as E1 by exact E.
  rewrite (master_disconnect_spec h (set_master m1 n) r m1 _ Er R eq_refl Hc1) in E1.
  injection E1 as <-. case_match.
  - apply Cons_set_master. eapply Cons_quiet; [apply quiet_close|by apply C].
  - intros m' [= <-]. by apply Cons_broadcast.
Qed.

Lemma read_master_Cons p h n n' m :
  serving_master n m → Cons n → TCPManager_read_master p h n = Ret n' → Cons n'.
Proof.
  intros [R [r Er] G] C E. unfold TCPManager_read_master in E. inv_bind.
  destruct a as [d hs| | |]; inv_bind; subst; try done.
  assert (∃ s sh, DirTree_deserialize d = Ret (Some s) ∧ Host.deserialize hs = Ret sh)
    as (s & sh & Ed & Eh).
  { unfold newConnection in E. inv_bind. destruct a as [s|]; [by eauto|].
    unfold hasConflict in Ha2. by inv_bind. }
  rewrite (newConnection_accepts d hs h n r s sh) in E by done.
  assert (∃ c, Master._connections m !! h = Some c) as [c Hc].
  { unfold accept_slave in E. inv_bind. unfold master in G. unfold master in Ha0. simpl in Ha0.
    rewrite G in Ha0. injection Ha0 as <-. apply at_Ret in Ha1. by eexists. }
  rewrite (accept_slave_spec s sh h n r m c) in E by done. injection E as <-.
  intros m' [= <-]. by apply Cons_broadcast.
Qed.

(** ** Along a run *)

Lemma run_task_Cons n m i k n' :
  serving_master n m → Cons n → Master.ready m !! i = Some k →
  (is_post k = true → Forall (λ k, is_post k = false) (take i (Master.ready m))) →
  run_task k (set_master (Master.set_ready (delete i (Master.ready m)) m) n) = Ret n' → Cons n'.
Proof.
  intros S C Hk F E. pose proof (srv_messager _ _ S) as G.
  set (m1 := Master.set_ready (delete i (Master.ready m)) m) in *.
  set (n1 := set_master m1 n) in *.
  assert (serving_master n1 m1) as S1 by (destruct S; by split).
  assert (Cons_with (λ h, match post_for h k with Some p => [p] | None => [] end)
    (current_update n) m1) as T.
  { intros h c Hc O Hi. simpl. rewrite <- (posts_for_delete h _ i k Hk F). by apply (C m G h c). }
  assert (is_post k = false → Cons n1) as Q.
  { intros Hp m' [= <-] h c Hc O Hi. specialize (T h c Hc O Hi). cbv beta in T.
    by rewrite post_for_not_post in T. }
  destruct k as [p|p h0| |ec r|h ec d|h ec d|h ec l]; simpl in E; try specialize (Q eq_refl).
  - eapply (on_master_Cons _ n1); [done|exact E|]. intros m' E'. by eapply on_write_Cons.
  - eapply (on_master_Cons _ n1); [done|exact E|]. intros m' E'. eapply on_writeTo_Cons; [exact E'|].
    intros h c Hc O Hi. specialize (T h c Hc O Hi). simpl in T. by destruct (decide (h0 = h)).
  - eapply (on_master_Cons _ n1); [done|exact E|]. intros m' [= <-].
    eapply Cons_quiet; [|by apply Q]. split; [done|]. intros h c Hc O Hi. by exists c.
  - eapply (on_master_Cons _ n1); [done|exact E|]. intros m' E'.
    eapply Cons_quiet; [by eapply on_accept_quiet|by apply Q].
  - unfold on_header in E. case_match; [|by eapply close_Cons].
    eapply (on_master_Cons _ n1); [done|exact E|]. intros m' E'. cbv beta in E'. inv_bind.
    eapply Cons_quiet; [|by apply Q].
    eapply quiet_trans; [|by eapply do_read_body_quiet]. by apply quiet_alter.
  - unfold on_body in E. change (get_master n1) with (Some m1) in E. cbn [deref] in E.
    rewrite bind_Ret in E. inv_bind. case_match; [|by eapply close_Cons]. inv_bind.
    set (m2 := Master.alter_conn _ h m1) in Ha1.
    assert (serving_master (set_master m2 n1) m2) as S2 by (destruct S1; by split).
    assert (Cons (set_master m2 n1)) as C2.
    { apply Cons_set_master. eapply Cons_quiet; [by apply quiet_alter|by apply Q]. }
    pose proof (read_master_Cons a0 h (set_master m2 n1) a1 m2 S2 C2 Ha1) as C3.
    unfold on_master in E. inv_bind. subst. apply Cons_set_master.
    eapply Cons_quiet; [by eapply do_read_header_quiet|]. by apply C3.
  - destruct (on_written_Cons h ec l n1 n' m1 (current_update n) eq_refl E (Q m1 eq_refl))
      as [(m' & -> & C')|E']; [by apply Cons_set_master|by eapply close_Cons].
Qed.

Lemma fifo_step_Cons n n' m : serving_master n m → Cons n → fifo_step n n' → Cons n'.
Proof.
  intros S C F. pose proof (srv_messager _ _ S) as G.
  destruct F as [m1 i o k G1 Ho Hk|m1 i k n1 G1 Hs Hk F E]; rewrite G in G1; injection G1 as <-.
  - apply Cons_set_master. intros h c Hc O Hi. unfold none. simpl. rewrite posts_for_app.
    assert (posts_for h [k] = []) as ->.
    { unfold posts_for. simpl. rewrite post_for_not_post; [done|]. by destruct o, k. }
    rewrite app_nil_r. by apply (C m G h c).
  - by eapply run_task_Cons.
Qed.

Lemma started_Cons n : just_started n → Cons n.
Proof.
  intros (e1 & e2 & e3 & e4 & G) m G' h c Hc. rewrite G in G'. injection G' as <-.
  by destruct e1, e2, e3, e4.
Qed.

Lemma fifo_steps_Cons n n' :
  just_started n → role n = true → rooted n → fifo_steps n n' → Cons n'.
Proof.
  intros J R T S. induction S as [|n n1 n2 S1 IH S2]; [by apply started_Cons|].
  apply fifo_steps_steps in S1. destruct (reachable_Inv n n1 J S1) as (m1 & G1 & _).
  destruct (steps_serving n n1 R T S1) as [R1 (r & Er & _)].
  eapply (fifo_step_Cons n1 n2 m1); [split; [done|by exists r|done]|by apply IH|done].
Qed.
End Fifo.

(** ** The property *)

Section Agreement.
Context `{TextArchiveOk} `{Memory}.

(** Eventual consistency: take any run of a started master in which posted
    writes are handled in the order they were posted.  For every connection of
    a recognised slave, the packets still on their way to it end with an update
    that carries the master's current tree and hosts; so when a single packet is
    left, the slave that reads it (whatever it read before) has the master's
    files and host table. *)
Theorem last_packet_settles n0 n m h c :
  just_started n0 → role n0 = true → rooted n0 → fifo_steps n0 n →
  master n = Some m → Master._connections m !! h = Some c →
  Master.socket_open c = true → Master.slave_id c ≠ 0 →
  let d := DirTree_serialize (_dir_tree n) in
  let hs := Hosts.serialize (_hosts n) in
  Protocol.wire_u64 (len d) → Protocol.wire_u64 (len hs) →
  (outbox h m c = [] ∨ last (outbox h m c) = Some (sent (Protocol.message_update d hs))) ∧
  ∀ p s, outbox h m c = [p] → is_Some (_dir_tree s) →
    ∃ msg s', p = sent msg ∧ TCPManager_read_slave (received msg) s = Ret s' ∧ agree s' n.
Proof.
  intros J R T S G Hc O Hi d hs Hd Hh.
  pose proof (fifo_steps_Cons n0 n J R T S m G h c Hc O Hi) as C.
  change (outbox h m c = [] ∨ last (outbox h m c) = Some (sent (Protocol.message_update d hs))) in C.
  split; [done|]. intros p s Ep [rs Es]. rewrite Ep in C. destruct C as [C|[= ->]]; [done|].
  destruct (steps_serving n0 n R T (fifo_steps_steps _ _ S)) as [_ (r & Er & W)].
  exists (Protocol.message_update d hs), (adopted r (_hosts n) rs s). split; [done|]. split.
  - unfold TCPManager_read_slave. rewrite data_received, Protocol.parse_update by done. run.
    apply (updateInfo_spec d hs s r (_hosts n) rs); [done| |apply Hosts.hosts_roundtrip].
    unfold d. rewrite Er. apply ia_load_saved. simpl. by rewrite TreeNode.load_serialize.
  - split; [by rewrite Er|done].
Qed.
End Agreement.

(** ** A concrete run *)

Section Play.
Context `{TextArchive} `{Memory}.

(** A schedule that keeps the order of posted writes. *)
Definition in_order (a : action) (n : Node.t) : bool :=
  match a, master n with
  | Run i, Some m =>
      match Master.ready m !! i with
      | Some k => negb (is_post k) || forallb (λ k, negb (is_post k)) (take i (Master.ready m))
      | None => false
      end
  | _, _ => true
  end.

Fixpoint fifo_play (s : list action) (n : Node.t) : option Node.t :=
  match s with
  | [] => Some n
  | a :: s =>
      if in_order a n then
        match act a n with Some (Ret n') => fifo_play s n' | _ => None end
      else None
  end.

Lemma act_fifo_step a n n' : in_order a n = true → act a n = Some (Ret n') → fifo_step n n'.
Proof.
  unfold in_order, act. change (get_master n) with (master n). intros O E.
  destruct (master n) as [m|] eqn:G; [|done]. simpl in E. destruct a as [i k|i].
  - destruct (Master.pending m !! i) as [o|] eqn:Ho; [|done]. simpl in E.
    case_decide; [|done]. injection E as <-.
    exact (fifo_complete n m i o k G Ho ltac:(assumption)).
  - destruct (Master.ready m !! i) as [k|] eqn:Hk; [|done]. simpl in E.
    destruct (Master.stopped m) eqn:Hs; [done|]. injection E as E.
    apply (fifo_run n m i k n' G Hs Hk); [|exact E].
    intros Hp. rewrite Hp in O. simpl in O. apply Forall_forall. intros x Hx.
    rewrite forallb_forall in O. apply list_elem_of_In in Hx. specialize (O x Hx).
    by apply negb_true_iff in O.
Qed.

Lemma fifo_play_steps s n n' : fifo_play s n = Some n' → fifo_steps n n'.
Proof.
  assert (∀ n1 n2 n3, fifo_steps n1 n2 → fifo_steps n2 n3 → fifo_steps n1 n3) as Tr.
  { intros n1 n2 n3 H1 H2. induction H2 as [|a b c _ IH S]; [done|].
    eapply fifo_more; [by apply IH|exact S]. }
  revert n. induction s as [|a s IH]; intros n E; simpl in E; [simplify_eq; constructor|].
  destruct (in_order a n) eqn:O; [|done]. destruct (act a n) as [[n1| | |]|] eqn:Ea; try done.
  eapply Tr; [|by apply IH]. eapply fifo_more; [constructor|]. by eapply act_fifo_step.
Qed.
End Play.

Section ConsistencyWitness.
Import ExampleArchive ExampleGroup ExampleRun.

(** The recognition has been delivered; the update waits to be queued. *)
Definition delivered : list action := recognition ++ [Run 1].

Definition delivered_node : Node.t := default listening (fifo_play delivered listening).

Definition delivered_master : Master.t := default Master.create (master delivered_node).

Definition slave_connection : Master.Connection :=
  default (connection 0) (Master._connections delivered_master !! 0%nat).

Lemma last_packet_settles_witness :
  ∃ p msg s', outbox 0 delivered_master slave_connection = [p] ∧ p = sent msg ∧
    TCPManager_read_slave (received msg) standby = Ret s' ∧ agree s' delivered_node.
Proof.
  pose proof (last_packet_settles listening delivered_node delivered_master 0 slave_connection
    listening_started eq_refl) as L.
  assert (rooted listening) as T.
  { exists ExampleTree.master. split; [reflexivity|apply ExampleTree.master_wf]. }
  assert (fifo_steps listening delivered_node) as S.
  { apply (fifo_play_steps delivered). vm_compute. reflexivity. }
  assert (master delivered_node = Some delivered_master) as G by (vm_compute; reflexivity).
  assert (Master._connections delivered_master !! 0%nat = Some slave_connection) as Hc
    by (vm_compute; reflexivity).
  assert (Master.socket_open slave_connection = true) as O by (vm_compute; reflexivity).
  assert (Master.slave_id slave_connection ≠ 0) as Hi by by_decide.
  assert (Protocol.wire_u64 (len (DirTree_serialize (_dir_tree delivered_node)))) as Hd
    by by_decide.
  assert (Protocol.wire_u64 (len (Hosts.serialize (_hosts delivered_node)))) as Hh by by_decide.
  destruct (L T S G Hc O Hi Hd Hh) as [_ A].
  assert (∃ p, outbox 0 delivered_master slave_connection = [p]) as [p Ep].
  { destruct (outbox 0 delivered_master slave_connection) as [|p [|p' q]] eqn:E;
      [vm_compute in E; discriminate E|by exists p|vm_compute in E; discriminate E]. }
  destruct (A p standby Ep) as (msg & s' & Em & Er & Ag); [eexists; reflexivity|].
  exists p, msg, s'. split; [exact Ep|]. split; [exact Em|]. split; [exact Er|exact Ag].
Defined.
End ConsistencyWitness.
