(* ===== verification/Streams.v ===== *)
(** * What is on its way to a slave

    This file says what the messages of the master do to the state of a slave
    ([learn]), and how one handler of the master changes the packets that wait
    for each connection ([run_unsent]): what it appends to them, learnt after
    everything that waits already, is the master's new state.  System.v puts
    the two sides together. *)

From S2P Require Import Prelude BytesOrder StdSet Archive Path DirTree Host Packet Ssh.
From S2P Require Import TcpMessager Channel MasterLoop UserFs Group Handshake Totality SlaveLoop.
From S2P Require Import Consistency.
Import Node.

(** ** Messages of the master *)

Section Learn.
Context `{TextArchive}.

(** What a slave knows of the group, and its own id. *)
Definition knowledge : Type := option (list TreeNode.t) * list Host.t * Z.

Definition knows (n : Node.t) (id : Z) : knowledge :=
  (TreeNode.children <$> _dir_tree n, _hosts n, id).

Definition load_knowledge (d hs : bytes) (id : Z) (v : knowledge) : knowledge :=
  match DirTree_deserialize d, Hosts.deserialize hs with
  | Ret (Some t), Ret hosts => (Some (TreeNode.children t), hosts, id)
  | _, _ => v
  end.

(** The effect of a message on it. *)
Definition learn (v : knowledge) (msg : bytes) : knowledge :=
  match Protocol.parse_slave (msg ++ [nul]) with
  | Ret (Protocol.SlaveRecognized i d hs) => load_knowledge d hs i v
  | Ret (Protocol.UpdateInfo d hs) => load_knowledge d hs v.2 v
  | _ => v
  end.

(** The handler of a slave learns what the message says. *)
Lemma read_slave_learns msg (n n' : Node.t) :
  slave_readable msg → TCPManager_read_slave (received msg) n = Ret n' →
  knows n' (_host_id n') = learn (knows n (_host_id n)) msg.
Proof.
  intros (e & Ee & He) E. unfold TCPManager_read_slave in E. unfold learn.
  rewrite data_received, Ee in E. rewrite Ee. cbn [mbind outcome_bind] in E.
  destruct e as [|i d hs|d hs|]; try by injection E as <-.
  - destruct He as (t & hosts & Ed & Eh). unfold load_knowledge. rewrite Ed, Eh.
    destruct (_dir_tree n) as [r|] eqn:Er.
    + rewrite (slaveRecognized_spec i d hs n t hosts r) in E by done. by injection E as <-.
    + unfold slaveRecognized, assign_children in E. inv_bind. simpl in *. congruence.
  - destruct He as (t & hosts & Ed & Eh). unfold load_knowledge. rewrite Ed, Eh.
    destruct (_dir_tree n) as [r|] eqn:Er.
    + rewrite (updateInfo_spec d hs n t hosts r) in E by done. by injection E as <-.
    + unfold updateInfo, assign_children in E. inv_bind. congruence.
Qed.
End Learn.

(** ** Packets of the master *)

(** What the master vouches for in the messages it sends: a property of their
    contents that is followed from the handler that builds a message to the
    slave that reads it.  HostIds.v chooses one; where none is needed it is
    [unvouched] (SystemInv.v). *)
Class Vouching := vouched : bytes → Prop.

Section Packets.
Context `{TextArchive} `{Memory} `{Vouching}.

(** A message that fits a frame and the receiver's memory, and that a slave
    understands. *)
Definition down_msg (msg : bytes) : Prop :=
  Protocol.wire_u64 (len msg) ∧ len msg <= vector_max ∧ slave_readable msg ∧ vouched msg.

Definition good (p : Packet.t) : Prop := packet_of down_msg p.

Definition good_task (k : Master.task) : Prop :=
  match k with Master.TWrite p | Master.TWriteTo p _ => good p | _ => True end.

Lemma good_sent msg : down_msg msg → good (sent msg).
Proof. done. Qed.

Lemma posts_for_good h ks : Forall good_task ks → Forall good (posts_for h ks).
Proof.
  induction 1 as [|k ks Hk _ IH]; [constructor|]. unfold posts_for. simpl.
  destruct k; simpl; try done; [by constructor|]. case_decide; [by constructor|done].
Qed.

(** The tree and the hosts of a node are small enough to be sent. *)
Record fits (n : Node.t) : Prop := {
  fits_id : Protocol.wire_u64 (_max_host_id n);
  fits_wire : len (DirTree_serialize (_dir_tree n)) + len (Hosts.serialize (_hosts n)) + 32
    < 2 ^ 48;
  fits_memory : len (DirTree_serialize (_dir_tree n)) + len (Hosts.serialize (_hosts n)) + 32
    <= vector_max
}.

Definition recognition_of (i : Z) (n : Node.t) : bytes :=
  Protocol.message_recognition i (DirTree_serialize (_dir_tree n)) (Hosts.serialize (_hosts n)).

Definition update_of (n : Node.t) : bytes :=
  Protocol.message_update (DirTree_serialize (_dir_tree n)) (Hosts.serialize (_hosts n)).

(** The messages a node would send now are vouched for. *)
Definition certified (n : Node.t) : Prop :=
  vouched (update_of n) ∧ ∀ i, Protocol.wire_u64 i → vouched (recognition_of i n).

Lemma len_recognition i d hs :
  len (Protocol.message_recognition i d hs) = len d + len hs + 32.
Proof.
  unfold Protocol.message_recognition. rewrite !len_app, !len_host_to_network_64. lia.
Qed.

Lemma len_update d hs : len (Protocol.message_update d hs) = len d + len hs + 24.
Proof. unfold Protocol.message_update. rewrite !len_app, !len_host_to_network_64. lia. Qed.

Lemma len_join d hs : len (Protocol.message_join d hs) = len d + len hs + 24.
Proof. unfold Protocol.message_join. rewrite !len_app, !len_host_to_network_64. lia. Qed.

Lemma fits_lengths n :
  fits n → Protocol.wire_u64 (len (DirTree_serialize (_dir_tree n))) ∧
    Protocol.wire_u64 (len (Hosts.serialize (_hosts n))).
Proof.
  intros [_ F _]. pose proof (len_nonneg (DirTree_serialize (_dir_tree n))).
  pose proof (len_nonneg (Hosts.serialize (_hosts n))). unfold Protocol.wire_u64. lia.
Qed.

Context `{!TextArchiveOk}.

Lemma deserialize_rooted n :
  rooted n → ∃ r, _dir_tree n = Some r ∧ DirTree_deserialize (DirTree_serialize (_dir_tree n)) = Ret (Some r).
Proof.
  intros (r & Er & W). exists r. split; [done|]. rewrite Er. apply ia_load_saved. simpl.
  by rewrite TreeNode.load_serialize.
Qed.

(** The messages [newConnection] and [sendUpdate] build are understood, and
    teach the state of the master. *)
Lemma recognition_learnt i n v :
  rooted n → fits n → Protocol.wire_u64 i →
  (certified n → down_msg (recognition_of i n)) ∧ learn v (recognition_of i n) = knows n i.
Proof.
  intros R F Hi. destruct (fits_lengths n F) as [Hd Hh]. destruct F as [_ F1 F2].
  destruct (deserialize_rooted n R) as (r & Er & Ed). split.
  - intros [_ V]. specialize (V i Hi). unfold down_msg, recognition_of in *. rewrite len_recognition.
    pose proof (len_nonneg (DirTree_serialize (_dir_tree n))).
    pose proof (len_nonneg (Hosts.serialize (_hosts n))).
    split; [unfold Protocol.wire_u64; lia|]. split; [done|]. split; [|done]. eexists.
    split; [by apply Protocol.parse_recognition|]. simpl.
    exists r, (_hosts n). split; [done|apply Hosts.hosts_roundtrip].
  - unfold learn, recognition_of. rewrite Protocol.parse_recognition by done.
    unfold load_knowledge. rewrite Ed, Hosts.hosts_roundtrip. unfold knows. by rewrite Er.
Qed.

Lemma update_learnt n v :
  rooted n → fits n →
  (certified n → down_msg (update_of n)) ∧ learn v (update_of n) = knows n v.2.
Proof.
  intros R F. destruct (fits_lengths n F) as [Hd Hh]. destruct F as [_ F1 F2].
  destruct (deserialize_rooted n R) as (r & Er & Ed). split.
  - intros [V _]. unfold down_msg, update_of in *. rewrite len_update.
    pose proof (len_nonneg (DirTree_serialize (_dir_tree n))).
    pose proof (len_nonneg (Hosts.serialize (_hosts n))).
    split; [unfold Protocol.wire_u64; lia|]. split; [lia|]. split; [|done]. eexists.
    split; [by apply Protocol.parse_update|]. simpl.
    exists r, (_hosts n). split; [done|apply Hosts.hosts_roundtrip].
  - unfold learn, update_of. rewrite Protocol.parse_update by done.
    unfold load_knowledge. rewrite Ed, Hosts.hosts_roundtrip. unfold knows. by rewrite Er.
Qed.
End Packets.

(** ** What a handler of the master adds *)

Section Effect.
Context `{TextArchive} `{Memory} `{Vouching}.

(** Packets [ps] bring a slave that knows the master's state [n] to [n'].  A
    slave without an id knows nothing in particular. *)
Definition carries (n n' : Node.t) (i i' : Z) (ps : list Packet.t) : Prop :=
  i' ≠ 0 → ∀ v, (i ≠ 0 → v = knows n i) → foldl learn v (body <$> ps) = knows n' i'.

Record effect (n : Node.t) (m : Master.t) (n' : Node.t) (m' : Master.t)
    (posts : list Master.task) : Prop := {
  eff_ready : Master.ready m' = Master.ready m ++ posts;
  eff_posts : Forall (λ k, is_post k = true ∧ good_task k) posts;
  eff_conns h c' : Master._connections m' !! h = Some c' → Master.socket_open c' = true →
    ∃ c, Master._connections m !! h = Some c ∧ Master.socket_open c = true ∧
      Master.queue c' = Master.queue c ∧
      carries n n' (Master.slave_id c) (Master.slave_id c') (posts_for h posts)
}.

Lemma carries_same n n' i : (∀ j, knows n' j = knows n j) → carries n n' i i [].
Proof. intros E Hi v Hv. simpl. by rewrite E, Hv. Qed.

Lemma carries_trans n n1 n2 i i1 i2 ps1 ps2 :
  carries n n1 i i1 ps1 → carries n1 n2 i1 i2 ps2 → carries n n2 i i2 (ps1 ++ ps2).
Proof.
  intros C1 C2 Hi v Hv. rewrite fmap_app, foldl_app. apply C2; [done|].
  intros Hi1. by apply C1.
Qed.

Lemma effect_trans n m n1 m1 n2 m2 ps1 ps2 :
  effect n m n1 m1 ps1 → effect n1 m1 n2 m2 ps2 → effect n m n2 m2 (ps1 ++ ps2).
Proof.
  intros [R1 P1 C1] [R2 P2 C2]. split.
  - by rewrite R2, R1, app_assoc.
  - by apply Forall_app.
  - intros h c2 Hc2 O2. destruct (C2 h c2 Hc2 O2) as (c1 & Hc1 & O1 & Q1 & K1).
    destruct (C1 h c1 Hc1 O1) as (c & Hc & O & Q & K).
    exists c. split_and!; [done|done|congruence|]. rewrite posts_for_app. by eapply carries_trans.
Qed.

(** Nothing is sent. *)
Definition still (m m' : Master.t) : Prop :=
  Master.ready m' = Master.ready m ∧
  ∀ h c', Master._connections m' !! h = Some c' → Master.socket_open c' = true →
    ∃ c, Master._connections m !! h = Some c ∧ Master.socket_open c = true ∧
      Master.queue c' = Master.queue c ∧ Master.slave_id c' = Master.slave_id c.

Lemma effect_still n m m' : still m m' → effect n m (set_master m' n) m' [].
Proof.
  intros [R C]. split; [by rewrite app_nil_r|constructor|].
  intros h c' Hc' O. destruct (C h c' Hc' O) as (c & Hc & O' & Q & ->).
  exists c. split_and!; [done..|]. by apply carries_same.
Qed.

Lemma still_alter f h m :
  (∀ c, Master.socket_open (f c) = Master.socket_open c ∧
        Master.slave_id (f c) = Master.slave_id c ∧ Master.queue (f c) = Master.queue c) →
  still m (Master.alter_conn f h m).
Proof.
  intros Hf. split; [done|]. simpl. intros h' c' (c & Hc & ->)%lookup_alter_inv O.
  destruct (Hf c) as (E1 & E2 & E3). exists c. case_decide; [|done].
  split_and!; [done|congruence|done|done].
Qed.

Lemma still_start_op o m m' : still m m' → still m (Master.start_op o m').
Proof. done. Qed.

Lemma still_trans m1 m2 m3 : still m1 m2 → still m2 m3 → still m1 m3.
Proof.
  intros [R1 C1] [R2 C2]. split; [congruence|]. intros h c3 Hc3 O3.
  destruct (C2 h c3 Hc3 O3) as (c2 & Hc2 & O2 & Q2 & I2).
  destruct (C1 h c2 Hc2 O2) as (c1 & Hc1 & O1 & Q1 & I1).
  exists c1. split_and!; [done|done|congruence|congruence].
Qed.

Lemma still_do_read_header h m m' : Master.do_read_header h m = Ret m' → still m m'.
Proof.
  unfold Master.do_read_header. intros E. inv_bind. subst.
  by apply still_start_op, still_alter.
Qed.

Lemma still_do_read_body h m m' : Master.do_read_body h m = Ret m' → still m m'.
Proof.
  unfold Master.do_read_body. intros E. inv_bind. subst.
  by apply still_start_op, still_alter.
Qed.

(** A closed connection is not looked at. *)
Lemma still_close h m :
  still m (Master.alter_conn (λ c, Master.set_queue [] (Master.close_socket c)) h m).
Proof.
  split; [done|]. simpl. intros h' c' (c & Hc & ->)%lookup_alter_inv O.
  case_decide; [done|]. by exists c.
Qed.

Lemma effect_knows n n1 m n2 m2 ps :
  (∀ j, knows n1 j = knows n j) → effect n1 m n2 m2 ps → effect n m n2 m2 ps.
Proof.
  intros E [R P C]. split; [done|done|]. intros h c' Hc' O.
  destruct (C h c' Hc' O) as (c & Hc & O' & Q & K). exists c. split_and!; [done..|].
  intros Hi v Hv. apply K; [done|]. intros Hi'. rewrite E. by apply Hv.
Qed.

Context `{!TextArchiveOk}.

(** An update to everyone follows a change of the node. *)
Lemma effect_update n m n' m1 m' :
  rooted n' → fits n' → certified n' → still m m1 → m' = Master.write (sent (update_of n')) m1 →
  effect n m n' m' [Master.TWrite (sent (update_of n'))].
Proof.
  intros R F V [Rd C] ->. destruct (update_learnt n' (knows n' 0) R F) as [Hm _]. split.
  - simpl. by rewrite Rd.
  - constructor; [split; [done|by apply good_sent, Hm]|constructor].
  - intros h c' Hc' O. destruct (C h c' Hc' O) as (c & Hc & O' & Q & I).
    exists c. split_and!; [done..|]. intros Hi v Hv. simpl. rewrite body_sent.
    rewrite (proj2 (update_learnt n' v R F)), Hv by congruence. simpl. by rewrite I.
Qed.

Lemma close_effect h (n n' : Node.t) m :
  serving_master n m → rooted n' → fits n' → certified n' → close h n = Ret n' →
  ∃ m' posts, master n' = Some m' ∧ effect n m n' m' posts ∧
    ∀ c', Master._connections m' !! h = Some c' → Master.socket_open c' = false.
Proof.
  intros [R [r Er] G] T F V E. unfold close in E. change (get_master n) with (master n) in E.
  rewrite G in E. cbn [deref] in E. rewrite bind_Ret in E. inv_bind. apply at_Ret in Ha.
  destruct (Master.socket_open a) eqn:Oa.
  - set (m1 := Master.alter_conn (λ c, Master.set_queue [] (Master.close_socket c)) h m) in *.
    assert (Master._connections m1 !! h = Some (Master.set_queue [] (Master.close_socket a))) as Hc1
      by (simpl; by rewrite list_lookup_alter_eq, Ha).
    assert (master_disconnect h (set_master m1 n) = Ret n') as E1 by exact E.
    rewrite (master_disconnect_spec h (set_master m1 n) r m1 _ Er R eq_refl Hc1) in E1.
    injection E1 as <-. case_match.
    + exists m1, []. split; [done|]. split; [apply effect_still, still_close|].
      intros c' Hc'. rewrite Hc1 in Hc'. by injection Hc' as <-.
    + eexists _, _. split; [done|]. split.
      * refine (effect_update n m _ (Master.alter_conn (Master.set_slave_id 0) h m1) _ T F V _ eq_refl).
        split; [done|]. simpl.
        intros h' c' (c2 & (c & Hc & ->)%lookup_alter_inv & ->)%lookup_alter_inv O.
        case_decide; [done|]. by exists c.
      * cbn [Master.write Master.post Master.set_ready Master._connections Master.alter_conn].
        intros c' (c2 & Hc2 & ->)%lookup_alter_inv.
        change (Master._connections m1 !! h = Some c2) in Hc2. rewrite Hc1 in Hc2.
        injection Hc2 as <-. by case_decide.
  - injection E as <-. exists m, []. split; [done|]. split.
    + assert (effect n m (set_master m n) m []) as [Rd P C]; [|by split].
      apply effect_still. split; [done|]. intros h' c' Hc' O. by exists c'.
    + intros c' Hc'. rewrite Ha in Hc'. by injection Hc' as <-.
Qed.

Lemma read_master_effect p h n n' m :
  serving_master n m → fits n → rooted n' → fits n' → certified n' →
  TCPManager_read_master p h n = Ret n' →
  ∃ m' posts, master n' = Some m' ∧ effect n m n' m' posts.
Proof.
  intros [R [r Er] G] F0 T F V E. unfold TCPManager_read_master in E. inv_bind.
  assert (effect n m n m []) as Same.
  { split; [by rewrite app_nil_r|constructor|]. intros h' c' Hc' O. exists c'.
    split_and!; [done..|]. by apply carries_same. }
  destruct a as [d hs| | |]; inv_bind; subst; try (by exists m, []).
  assert (∃ s sh, DirTree_deserialize d = Ret (Some s) ∧ Host.deserialize hs = Ret sh)
    as (s & sh & Ed & Eh).
  { unfold newConnection in E. inv_bind. destruct a as [s|]; [by eauto|].
    unfold hasConflict in Ha2. by inv_bind. }
  rewrite (newConnection_accepts d hs h n r s sh) in E by done.
  assert (∃ c, Master._connections m !! h = Some c) as [c Hc].
  { unfold accept_slave in E. inv_bind. unfold master in G. unfold master in Ha0. simpl in Ha0.
    rewrite G in Ha0. injection Ha0 as <-. apply at_Ret in Ha1. by eexists. }
  rewrite (accept_slave_spec s sh h n r m c) in E by done. injection E as <-.
  set (n' := joined s sh h c r m n) in *. set (i := _max_host_id n).
  eexists _, [Master.TWriteTo (sent (recognition_of i n')) h; Master.TWrite (sent (update_of n'))].
  split; [reflexivity|]. pose proof (fits_id _ F0) as Hi.
  split.
  - simpl. by rewrite <- app_assoc.
  - destruct (recognition_learnt i n' (knows n' 0) T F Hi) as [K1 _].
    destruct (update_learnt n' (knows n' 0) T F) as [K2 _].
    constructor; [|constructor; [|constructor]]; (split; [done|by apply good_sent; auto]).
  - simpl. intros h' c' (c1 & Hc1 & ->)%lookup_alter_inv O.
    exists c1. split; [done|]. split; [by case_decide|]. split; [by case_decide|].
    intros Hi' v Hv. unfold posts_for. simpl. destruct (decide (h = h')) as [<-|].
    + simpl. rewrite !body_sent, (proj2 (recognition_learnt i n' v T F Hi)).
      by rewrite (proj2 (update_learnt n' _ T F)).
    + simpl. rewrite body_sent, (proj2 (update_learnt n' _ T F)), Hv by done. done.
Qed.
End Effect.

(** ** The packets a connection has not been given yet

    The packet at the front of the queue has been given to it when its write
    has completed, before the handler removes it. *)

Definition is_acked (h : nat) (k : Master.task) : bool :=
  match k with Master.TWritten h' false _ => (h' =? h)%nat | _ => false end.

Definition acked (h : nat) (m : Master.t) : bool :=
  (0 <? count (is_acked h) (Master.ready m))%nat.

Definition unsent (h : nat) (m : Master.t) (c : Master.Connection) : list Packet.t :=
  (if acked h m then tail (Master.queue c) else Master.queue c) ++ posts_for h (Master.ready m).

Lemma acked_write h k : is_acked h k = true → is_write_task h k = true.
Proof. by destruct k as [| | | | | |? []]. Qed.

Lemma acked_count h ks : (count (is_acked h) ks <= count (is_write_task h) ks)%nat.
Proof.
  induction ks as [|k ks IH]; simpl; [lia|]. pose proof (acked_write h k) as K.
  destruct (is_acked h k); [rewrite K by done; lia|destruct (is_write_task h k); lia].
Qed.

Lemma acked_writes h m : (count (is_acked h) (Master.ready m) <= writes h m)%nat.
Proof. unfold writes. pose proof (acked_count h (Master.ready m)). lia. Qed.

(** An open connection with a completed write has a packet at the front. *)
Lemma acked_queue h m c :
  Inv m → Master._connections m !! h = Some c → Master.socket_open c = true →
  acked h m = true → ∃ p q, Master.queue c = p :: q.
Proof.
  intros I Hc O A. apply Nat.ltb_lt in A. pose proof (acked_writes h m) as W.
  pose proof (inv_writes _ _ _ _ I h c Hc O) as W'. rewrite token_None in W'.
  destruct (Master.queue c) as [|p q]; [simpl in W'; lia|by eauto].
Qed.

Lemma acked_delete h m i k :
  Master.ready m !! i = Some k → is_acked h k = false →
  acked h (Master.set_ready (delete i (Master.ready m)) m) = acked h m.
Proof.
  intros Hk A. unfold acked. simpl. pose proof (count_delete (is_acked h) _ _ _ Hk) as E.
  rewrite A in E. simpl in E. by rewrite E.
Qed.

(** After the handler of the completed write none is left. *)
Lemma acked_taken h m i k c :
  Inv m → Master._connections m !! h = Some c → Master.socket_open c = true →
  Master.ready m !! i = Some k → is_acked h k = true →
  acked h m = true ∧ acked h (Master.set_ready (delete i (Master.ready m)) m) = false.
Proof.
  intros I Hc O Hk A. unfold acked. simpl. pose proof (count_delete (is_acked h) _ _ _ Hk) as E.
  rewrite A in E. pose proof (acked_writes h m) as W.
  pose proof (inv_writes _ _ _ _ I h c Hc O) as W'. rewrite token_None in W'.
  split; [apply Nat.ltb_lt; lia|]. apply Nat.ltb_ge. destruct (nonempty _); lia.
Qed.

Lemma acked_posts h m m' posts :
  Master.ready m' = Master.ready m ++ posts → Forall (λ k, is_post k = true) posts →
  acked h m' = acked h m.
Proof.
  intros R F. unfold acked. rewrite R, count_app, (count_0 _ posts), Nat.add_0_r; [done|].
  eapply Forall_impl; [exact F|]. by intros [].
Qed.

Section Unsent.
Context `{TextArchive} `{Memory} `{Vouching}.

(** From [(n, m)] to [(n', m')], what is not given to a connection yet grows at
    the end by what brings its slave up to date; a new connection starts with
    the packets that have been posted for it. *)
Definition grows (n : Node.t) (m : Master.t) (n' : Node.t) (m' : Master.t) : Prop :=
  Forall good_task (Master.ready m') ∧
  ∀ h c', Master._connections m' !! h = Some c' → Master.socket_open c' = true →
    (∃ c ps, Master._connections m !! h = Some c ∧ Master.socket_open c = true ∧
      unsent h m' c' = unsent h m c ++ ps ∧ Forall good ps ∧
      carries n n' (Master.slave_id c) (Master.slave_id c') ps) ∨
    (Master._connections m !! h = None ∧ Master.slave_id c' = 0 ∧
      unsent h m' c' = posts_for h (Master.ready m')).

(** What is not given to a connection stays the same. *)
Definition moved (m m' : Master.t) : Prop :=
  ∀ h c', Master._connections m' !! h = Some c' → Master.socket_open c' = true →
    ∃ c, Master._connections m !! h = Some c ∧ Master.socket_open c = true ∧
      Master.slave_id c' = Master.slave_id c ∧ unsent h m' c' = unsent h m c.

Lemma moved_grows n m m' :
  moved m m' → Forall good_task (Master.ready m') → grows n m (set_master m' n) m'.
Proof.
  intros M G. split; [done|]. intros h c' Hc' O. left.
  destruct (M h c' Hc' O) as (c & Hc & O' & Hi & U). exists c, []. rewrite Hi, app_nil_r.
  split_and!; [done|done|done|constructor|by apply carries_same].
Qed.

Section Taken.
Context (n : Node.t) (m : Master.t) (i : nat) (k : Master.task).
Context (I : Inv m) (Hk : Master.ready m !! i = Some k) (Hg : Forall good_task (Master.ready m)).

Let m1 := Master.set_ready (delete i (Master.ready m)) m.

Lemma ready_taken : Forall good_task (Master.ready m1).
Proof.
  simpl. rewrite Forall_forall in *. intros x Hx. apply Hg. by eapply list_elem_of_delete_inv.
Qed.

(** A handler that is not a posted write, on the connections it leaves open. *)
Lemma effect_grows n' m' posts :
  is_post k = false → effect n m1 n' m' posts →
  (∀ h c', Master._connections m' !! h = Some c' → Master.socket_open c' = true →
    is_acked h k = false) →
  grows n m n' m'.
Proof.
  intros Kp [R P C] A. split.
  { rewrite R. apply Forall_app. split; [apply ready_taken|].
    eapply Forall_impl; [exact P|]. by intros ? []. }
  intros h c' Hc' O. left. destruct (C h c' Hc' O) as (c & Hc & O' & Q & K).
  exists c, (posts_for h posts). split_and!; [done|done| |by apply posts_for_good; eapply Forall_impl;
    [exact P|intros ? []]|done].
  unfold unsent. rewrite (acked_posts h m1 m' posts R) by (eapply Forall_impl; [exact P|by intros ? []]).
  unfold m1. rewrite (acked_delete h m i k Hk (A h c' Hc' O)), Q, R, posts_for_app.
  simpl. rewrite (posts_for_delete h (Master.ready m) i k Hk) by congruence.
  rewrite post_for_not_post by done. by rewrite app_assoc.
Qed.

(** A posted write moves a packet from the handlers to the queue. *)
Lemma post_moved m' :
  is_post k = true → Forall (λ k, is_post k = false) (take i (Master.ready m)) →
  Master.ready m' = Master.ready m1 →
  (∀ h c', Master._connections m' !! h = Some c' → Master.socket_open c' = true →
    ∃ c, Master._connections m !! h = Some c ∧ Master.socket_open c = true ∧
      Master.slave_id c' = Master.slave_id c ∧
      Master.queue c' = Master.queue c ++ match post_for h k with Some p => [p] | None => [] end) →
  moved m m'.
Proof.
  intros Kp F R C h c' Hc' O. destruct (C h c' Hc' O) as (c & Hc & O' & Hi & Q).
  exists c. split_and!; [done|done|done|].
  unfold unsent. assert (is_acked h k = false) as A by (by destruct k).
  unfold acked at 1. rewrite R. change (0 <? count (is_acked h) (Master.ready m1))%nat with (acked h m1).
  unfold m1. rewrite (acked_delete h m i k Hk A), Q. simpl.
  rewrite (posts_for_delete h (Master.ready m) i k Hk) by done.
  destruct (acked h m) eqn:Ea; [|by rewrite <- app_assoc].
  destruct (acked_queue h m c I Hc O' Ea) as (p & q & ->). simpl. by rewrite <- app_assoc.
Qed.

(** The handler of a completed write removes the packet from the queue. *)
Lemma popped_moved h l c0 m' :
  k = Master.TWritten h false l → Master._connections m !! h = Some c0 →
  Master.ready m' = Master.ready m1 →
  Master._connections m' = alter (Master.set_queue (tail (Master.queue c0))) h (Master._connections m) →
  moved m m'.
Proof.
  intros Ek Hc0 R C h' c'. rewrite C. intros (c & Hc & ->)%lookup_alter_inv O. exists c.
  split; [done|]. split; [by case_decide|]. split; [by case_decide|].
  unfold unsent, acked. rewrite R. change (0 <? count (is_acked h') (Master.ready m1))%nat with (acked h' m1).
  rewrite (posts_for_delete h' (Master.ready m) i k Hk) by (by rewrite Ek).
  rewrite Ek. change (0 <? count (is_acked h') (Master.ready m))%nat with (acked h' m). simpl. f_equal.
  destruct (decide (h = h')) as [<-|Hne].
  - assert (c0 = c) as -> by congruence.
    destruct (acked_taken h m i k c I Hc O Hk) as [-> A]; [rewrite Ek; apply Nat.eqb_refl|].
    unfold m1. by rewrite A.
  - unfold m1. rewrite (acked_delete h' m i k Hk); [done|]. rewrite Ek. simpl. by apply Nat.eqb_neq.
Qed.
End Taken.

(** The two handlers that queue a packet. *)
Lemma on_write_moved m i p m' :
  Inv m → Master.ready m !! i = Some (Master.TWrite p) →
  Forall (λ k, is_post k = false) (take i (Master.ready m)) →
  Master.on_write p (Master.set_ready (delete i (Master.ready m)) m) = Ret m' →
  Master.ready m' = delete i (Master.ready m) ∧ moved m m'.
Proof.
  intros I Hk Hf E. apply write_loop_queue in E as [R Q];
    [|unfold Master.iterators; rewrite reverse_Permutation; apply NoDup_seq].
  split; [done|]. eapply (post_moved m i _ I Hk); [done|done|exact R|].
  intros h c' Hc' O. destruct (Q h c' Hc') as (c & Hc & O' & Hi & Eq). exists c.
  rewrite decide_True in Eq; [split_and!; [done|congruence|done|done]|].
  split; [|congruence]. unfold Master.iterators. rewrite elem_of_reverse, elem_of_seq.
  apply lookup_lt_Some in Hc. lia.
Qed.

Lemma on_writeTo_moved m i p h0 m' :
  Inv m → Master.ready m !! i = Some (Master.TWriteTo p h0) →
  Forall (λ k, is_post k = false) (take i (Master.ready m)) →
  Master.on_writeTo p h0 (Master.set_ready (delete i (Master.ready m)) m) = Ret m' →
  Master.ready m' = delete i (Master.ready m) ∧ moved m m'.
Proof.
  intros I Hk Hf [R Q]%enqueue_queue. split; [done|].
  eapply (post_moved m i _ I Hk); [done|done|exact R|]. rewrite Q.
  intros h c' (c & Hc & ->)%lookup_alter_inv O. exists c. simpl.
  destruct (decide (h0 = h)); simpl in *; [done|]. by rewrite app_nil_r.
Qed.

Lemma fits_master m n : fits (set_master m n) ↔ fits n.
Proof. split; intros []; by split. Qed.

Lemma rooted_master m n : rooted (set_master m n) ↔ rooted n.
Proof. done. Qed.

(** A member function of the messager that sends nothing. *)
Lemma on_master_effect f (n n' : Node.t) m :
  master n = Some m → on_master f n = Ret n' → (∀ m', f m = Ret m' → still m m') →
  ∃ m', master n' = Some m' ∧ n' = set_master m' n ∧ effect n m n' m' [].
Proof.
  intros G E F. unfold on_master in E. change (get_master n) with (master n) in E.
  rewrite G in E. cbn [deref] in E. rewrite bind_Ret in E. inv_bind. subst.
  exists a. split; [done|]. split; [done|]. by apply effect_still, F.
Qed.

Lemma still_refl m : still m m.
Proof. split; [done|]. intros h c Hc O. by exists c. Qed.

Lemma still_header h (data : bytes) m m' :
  (c ← Master.conn h m;
   let b := fill data (Master.buffer c) in
   p ← Packet.decodeSize b (Master.packet c);
   Master.do_read_body h
     (Master.alter_conn (λ c, Master.set_packet p (Master.set_buffer b c)) h m)) = Ret m' →
  still m m'.
Proof.
  intros E. cbv zeta in E. inv_bind.
  eapply still_trans; [|exact (still_do_read_body h _ _ E)].
  by apply still_alter.
Qed.

Context `{!TextArchiveOk}.

Lemma on_body_effect h ec data (n n' : Node.t) m :
  serving_master n m → fits n → rooted n' → fits n' → certified n' → on_body h ec data n = Ret n' →
  ∃ m' posts, master n' = Some m' ∧ effect n m n' m' posts.
Proof.
  intros S F0 T F V E. pose proof S as [R Er G]. unfold on_body in E.
  change (get_master n) with (master n) in E. rewrite G in E. cbn [deref] in E.
  rewrite bind_Ret in E. inv_bind. case_match.
  2:{ destruct (close_effect h n n' m S T F V E) as (m' & ps & G' & Ef & _). eauto. }
  inv_bind. set (m2 := Master.alter_conn _ h m) in Ha1.
  assert (serving_master (set_master m2 n) m2) as S2 by (by split).
  unfold on_master in E. inv_bind. subst n'. rewrite fits_master in F. rewrite rooted_master in T.
  destruct (read_master_effect a0 h (set_master m2 n) a1 m2 S2 (proj2 (fits_master m2 n) F0) T F V Ha1)
    as (m3 & ps & G3 & E3).
  change (master a1 = Some a2) in Ha2. rewrite G3 in Ha2. injection Ha2 as <-.
  exists a3, (([] ++ ps) ++ []). split; [done|].
  eapply effect_trans; [eapply effect_trans; [|exact E3]|].
  - apply effect_still. by apply still_alter.
  - apply effect_still. by eapply still_do_read_header.
Qed.

(** The new connection is not looked at by anyone yet. *)
Lemma on_accept_grows n m i ec r m' :
  Inv m → Forall good_task (Master.ready m) →
  Master.ready m !! i = Some (Master.TAccepted ec r) →
  Master.on_accept ec r (Master.set_ready (delete i (Master.ready m)) m) = Ret m' →
  grows n m (set_master m' n) m'.
Proof.
  intros I Hg Hk E. set (m1 := Master.set_ready _ m) in E. unfold Master.on_accept in E.
  inv_bind. subst m'. destruct ec; simpl in Ha.
  { injection Ha as <-.
    eapply (effect_grows n m i _ Hk Hg _ _ []); [done| |done].
    apply effect_still. by apply still_start_op, still_refl. }
  unfold Master.do_new_connection, Master.do_read_header in Ha. inv_bind. subst a.
  split; [by eapply ready_taken|].
  cbn [Master.do_accept Master.start_op Master.alter_conn Master._connections Master.ready].
  intros h c' (c & Hc & ->)%lookup_alter_inv O.
  apply lookup_app_Some in Hc as [Hc|[Hl Hc]].
  - left. exists c, []. assert (h < length (Master._connections m))%nat by (by eapply lookup_lt_Some).
    rewrite decide_False by (simpl; lia). rewrite decide_False in O by (simpl; lia).
    split_and!; [done|done| |constructor|by apply carries_same]. unfold unsent.
    rewrite app_nil_r, <- (acked_delete h m i _ Hk eq_refl). cbn [Master.ready].
    rewrite (posts_for_delete h (Master.ready m) i _ Hk) by done. done.
  - right. apply list_lookup_singleton_Some in Hc as [_ <-].
    split; [by apply lookup_ge_None|]. split; [by case_decide|].
    unfold unsent. cbn [Master.ready]. case_decide; simpl; by case_match.
Qed.

(** The handler of a completed write removes the packet that was written. *)
Lemma written_grows n m i h l n' :
  serving_master n m → Inv m → Forall good_task (Master.ready m) →
  Master.ready m !! i = Some (Master.TWritten h false l) → rooted n' → fits n' → certified n' →
  on_written h false l (set_master (Master.set_ready (delete i (Master.ready m)) m) n) = Ret n' →
  ∃ m', master n' = Some m' ∧ grows n m n' m'.
Proof.
  intros S I Hg Hk T F V E. set (m1 := Master.set_ready _ m) in E. set (n1 := set_master m1 n) in E.
  assert (serving_master n1 m1) as S1 by (destruct S; by split).
  unfold on_written in E. change (get_master n1) with (Some m1) in E. cbn [deref] in E.
  rewrite bind_Ret in E. apply bind_Ret_inv in E as (c0 & Hc0 & E). apply at_Ret in Hc0.
  apply bind_Ret_inv in E as (ok & _ & E). destruct ok.
  2:{ destruct (close_effect h n1 n' m1 S1 T F V E) as (m' & ps & G' & Ef & Cl).
      exists m'. split; [done|]. eapply (effect_grows n m i _ Hk Hg);
        [done|by eapply (effect_knows n n1); [|exact Ef]|].
      intros h' c' Hc' O. simpl. destruct (Nat.eqb_spec h h') as [<-|]; [|done].
      rewrite (Cl c' Hc') in O. done. }
  apply bind_Ret_inv in E as (m' & E & [= <-]). exists m'. split; [done|].
  assert (Master.ready m' = Master.ready m1 ∧ Master._connections m' =
    alter (Master.set_queue (tail (Master.queue c0))) h (Master._connections m)) as [R C].
  { destruct (nonempty _); [|by injection E as <-].
    by apply do_write_Ret in E as (? & ? & _ & _ & ->). }
  change (grows n m (set_master m' n) m').
  apply moved_grows; [|rewrite R; by eapply ready_taken].
  by eapply (popped_moved m i _ I Hk h l c0).
Qed.

(** Every handler of the master. *)
Lemma run_grows n m i k n' :
  serving_master n m → Inv m → fits n → Forall good_task (Master.ready m) →
  Master.ready m !! i = Some k →
  (is_post k = true → Forall (λ k, is_post k = false) (take i (Master.ready m))) →
  run_task k (set_master (Master.set_ready (delete i (Master.ready m)) m) n) = Ret n' →
  rooted n' → fits n' → certified n' → ∃ m', master n' = Some m' ∧ grows n m n' m'.
Proof.
  intros S I F0 Hg Hk Hf E T F V. set (m1 := Master.set_ready _ m) in E.
  set (n1 := set_master m1 n) in E.
  assert (serving_master n1 m1) as S1 by (destruct S; by split).
  assert (∀ m' posts, is_post k = false → (∀ h, is_acked h k = false) → master n' = Some m' →
    effect n1 m1 n' m' posts → ∃ m', master n' = Some m' ∧ grows n m n' m') as Done.
  { intros m' ps Kp Ka G Ef. exists m'. split; [done|].
    eapply (effect_grows n m i k Hk Hg _ _ ps); [done| |done].
    by eapply (effect_knows n n1); [|exact Ef]. }
  assert (∀ f : Master.t → outcome Master.t, on_master f n1 = Ret n' →
    ∃ m', f m1 = Ret m' ∧ n' = set_master m' n) as OM.
  { intros f E'. unfold on_master in E'. change (get_master n1) with (Some m1) in E'.
    cbn [deref] in E'. rewrite bind_Ret in E'. inv_bind. subst. by eauto. }
  assert (∀ h, close h n1 = Ret n' → is_post k = false → (∀ h, is_acked h k = false) →
    ∃ m', master n' = Some m' ∧ grows n m n' m') as Cl.
  { intros h E' Kp Ka. destruct (close_effect h n1 n' m1 S1 T F V E') as (m' & ps & G' & Ef & _).
    by apply (Done m' ps). }
  destruct k as [p|p h0| |ec r|h ec d|h ec d|h ec l]; simpl in E.
  - apply OM in E as (m' & E & ->). exists m'. split; [done|].
    destruct (on_write_moved m i p m' I Hk (Hf eq_refl) E) as [R M].
    apply moved_grows; [done|]. rewrite R. by eapply ready_taken.
  - apply OM in E as (m' & E & ->). exists m'. split; [done|].
    destruct (on_writeTo_moved m i p h0 m' I Hk (Hf eq_refl) E) as [R M].
    apply moved_grows; [done|]. rewrite R. by eapply ready_taken.
  - apply OM in E as (m' & [= <-] & ->). apply (Done (Master.on_stop m1) []); [done..|].
    apply (effect_still n1 m1). split; [done|]. intros h c Hc O. by exists c.
  - apply OM in E as (m' & E & ->). exists m'. split; [done|]. by eapply on_accept_grows.
  - unfold on_header in E. case_match; [|by eapply Cl].
    destruct (on_master_effect _ n1 n' m1 eq_refl E) as (m' & G' & _ & Ef);
      [apply still_header|by apply (Done m' [])].
  - destruct (on_body_effect h ec d n1 n' m1 S1 (proj2 (fits_master m1 n) F0) T F V E)
      as (m' & ps & G' & Ef). by apply (Done m' ps).
  - destruct ec; [|by eapply written_grows].
    unfold on_written in E. change (get_master n1) with (Some m1) in E. cbn [deref] in E.
    rewrite bind_Ret in E. apply bind_Ret_inv in E as (c0 & _ & E). by eapply (Cl h).
Qed.
End Unsent.
