(* ===== verification/Receivers.v ===== *)
(** * Where the readers are, and what a slave sends

    The state of the reader of a connection ([rstate] of Channel.v), read off
    the operations and handlers of the messager on either side, and how a
    handler moves it.  For a slave also what its handlers do to the packets it
    has not given to the network and to what it knows. *)

From S2P Require Import Prelude BytesOrder StdSet Archive Path DirTree Host Packet Ssh.
From S2P Require Import TcpMessager Channel MasterLoop UserFs Group Handshake Totality SlaveLoop.
From S2P Require Import Consistency Streams.
Import Slave.

(** ** The slave's reader *)

Definition slave_op_state (m : Slave.t) (o : op) : option rstate :=
  match o with
  | OpReadHeader => Some RHeader
  | OpReadBody => Some (RBody (Packet.size (_packet m)))
  | _ => None
  end.

Definition slave_task_state (m : Slave.t) (k : task) : option rstate :=
  match k with
  | TConnected false => Some RHeader
  | THeader false d => Some (RGotHeader d)
  | TBody false d => Some (RGotBody (Packet.size (_packet m)) d)
  | _ => None
  end.

Definition slave_at (m : Slave.t) (r : rstate) : Prop :=
  (∃ o, o ∈ pending m ∧ slave_op_state m o = Some r) ∨
  (∃ k, k ∈ ready m ∧ slave_task_state m k = Some r).

Lemma slave_at_none m r : slave_reads m = 0%nat → slave_at m r → False.
Proof.
  unfold slave_reads. intros Z [(o & Ho & E)|(k & Hk & E)].
  - assert (is_read o = false); [|by destruct o].
    eapply (count_zero_not is_read); [|exact Ho]. lia.
  - assert (is_read_done k = false); [|by destruct k as [| |[]|[]|[]|]].
    eapply (count_zero_not is_read_done); [|exact Hk]. lia.
Qed.

Lemma slave_at_start_op o m r :
  slave_at (start_op o m) r → slave_at m r ∨ slave_op_state m o = Some r.
Proof.
  intros [(o' & Ho & E)|(k & Hk & E)]; [|by left; right; exists k].
  simpl in Ho. apply elem_of_app in Ho as [Ho| ->%list_elem_of_singleton]; [|by right].
  left. left. by exists o'.
Qed.

(** The same reads, with the same packet. *)
Lemma slave_at_same m m' r :
  _packet m' = _packet m → (∀ o, is_read o = true → o ∈ pending m' → o ∈ pending m) →
  (∀ k, is_read_done k = true → k ∈ ready m' → k ∈ ready m) → slave_at m' r → slave_at m r.
Proof.
  intros Ep Hp Hr [(o & Ho & E)|(k & Hk & E)].
  - left. exists o. split; [apply Hp; [by destruct o|done]|]. by destruct o; simplify_eq/=; rewrite <- ?Ep.
  - right. exists k. split; [apply Hr; [by destruct k as [| |[]|[]|[]|]|done]|].
    by destruct k as [| |[]|[]|[]|]; simplify_eq/=; rewrite <- ?Ep.
Qed.

(** ** What a slave has not given to the network yet *)

Definition is_slave_post (k : task) : bool := match k with TWrite _ => true | _ => false end.

Definition slave_posts (ks : list task) : list Packet.t :=
  omap (λ k, match k with TWrite p => Some p | _ => None end) ks.

Definition is_slave_acked (k : task) : bool := match k with TWritten false _ => true | _ => false end.

Definition slave_acked (m : Slave.t) : bool := (0 <? count is_slave_acked (ready m))%nat.

Definition slave_unsent (m : Slave.t) : list Packet.t :=
  (if slave_acked m then tail (_write_packets m) else _write_packets m) ++ slave_posts (ready m).

Lemma slave_posts_app ks ks' : slave_posts (ks ++ ks') = slave_posts ks ++ slave_posts ks'.
Proof. apply omap_app. Qed.

Lemma slave_posts_none ks : Forall (λ k, is_slave_post k = false) ks → slave_posts ks = [].
Proof. induction 1 as [|k ks Hk _ IH]; [done|]. by destruct k. Qed.

Lemma slave_posts_delete ks i k :
  ks !! i = Some k →
  (is_slave_post k = true → Forall (λ k, is_slave_post k = false) (take i ks)) →
  slave_posts ks = match k with TWrite p => [p] | _ => [] end ++ slave_posts (delete i ks).
Proof.
  intros Hi Hp. rewrite <- (take_drop_middle ks i k Hi) at 1.
  rewrite delete_take_drop, !slave_posts_app. unfold slave_posts at 2. simpl.
  destruct k; try done. by rewrite (slave_posts_none (take i ks)) by auto.
Qed.

Lemma slave_acked_writes m : (count is_slave_acked (ready m) <= slave_writes m)%nat.
Proof.
  unfold slave_writes. induction (ready m) as [|k ks IH]; simpl; [lia|].
  destruct k as [| | | | |[]]; simpl; lia.
Qed.

Lemma slave_acked_delete m i k :
  ready m !! i = Some k → is_slave_acked k = false →
  slave_acked (remove_ready i m) = slave_acked m.
Proof.
  intros Hk A. unfold slave_acked. simpl. pose proof (count_delete is_slave_acked _ _ _ Hk) as E.
  rewrite A in E. simpl in E. by rewrite E.
Qed.

(** A handler that neither sends nor completes a write leaves it alone. *)
Lemma slave_unsent_taken m i k m' :
  ready m !! i = Some k → is_slave_post k = false → is_slave_acked k = false →
  _write_packets m' = _write_packets m → ready m' = ready (remove_ready i m) →
  slave_unsent m' = slave_unsent m.
Proof.
  intros Hk Kp Ka Q R. unfold slave_unsent.
  assert (slave_acked m' = slave_acked m) as ->.
  { rewrite <- (slave_acked_delete m i k) by done. unfold slave_acked. by rewrite R. }
  rewrite Q, R. simpl. rewrite (slave_posts_delete (ready m) i k Hk) by congruence.
  by destruct k.
Qed.

(** ** The handlers of a slave *)

Section SlaveHandlers.
Context `{TextArchive} `{Memory}.

Definition slave_knows (n : Node.t) : knowledge := knows n (Node._host_id n).

(** The node is set up as a slave. *)
Definition is_standby (n : Node.t) : Prop :=
  TCPManager._is_master (Node._tcp_manager n) = false ∧
  TCPManager._is_slave (Node._tcp_manager n) = true.

(** How the handler [k] moves the reader, to [r]: it does not concern it; the
    connection is there; a header has been read; a body has been handled. *)
Inductive slave_moves (n : Node.t) (m : Slave.t) (k : task) (n' : Node.t) (m' : Slave.t)
    (r : rstate) : Prop :=
  | moves_elsewhere :
      slave_at m r → (socket_open m' = true → slave_knows n' = slave_knows n) →
      slave_moves n m k n' m' r
  | moves_connected :
      k = TConnected false → r = RHeader → slave_knows n' = slave_knows n →
      slave_moves n m k n' m' r
  | moves_header d buf z :
      k = THeader false d → network_to_host_64 (fill d buf) = Ret z → r = RBody z →
      slave_knows n' = slave_knows n → slave_moves n m k n' m' r
  | moves_body d n1 n2 :
      k = TBody false d → r = RHeader → slave_knows n1 = slave_knows n →
      TCPManager_read_slave (received d) n1 = Ret n2 → slave_knows n' = slave_knows n2 →
      slave_moves n m k n' m' r.

Record slave_ran (n : Node.t) (m : Slave.t) (k : task) (n' : Node.t) (m' : Slave.t) : Prop := {
  ran_slave : Node.slave n' = Some m';
  ran_standby : is_standby n → is_standby n';
  ran_unsent : slave_unsent m' = slave_unsent m;
  ran_open : socket_open m' = true → socket_open m = true;
  ran_connect : OpConnect ∈ pending m' → OpConnect ∈ pending m;
  ran_at r : slave_at m' r → slave_moves n m k n' m' r
}.

Section Ran.
Context (n : Node.t) (m : Slave.t) (i : nat) (k : task).
Context (I : SInv m) (Hk : ready m !! i = Some k).

Let m1 := remove_ready i m.
Let n1 := Node.set_slave m1 n.

(** The connection is dropped: the socket is closed, operations stay. *)
Lemma slave_drop_ran n' :
  is_slave_post k = false → slave_drop n1 = Ret n' →
  (is_slave_acked k = true → False) → ∃ m', slave_ran n m k n' m'.
Proof.
  intros Kp E Ka. unfold slave_drop, on_slave in E. change (get_slave n1) with (Some m1) in E.
  cbn [deref] in E. rewrite !bind_Ret in E.
  change (slave_disconnect (Node.set_slave (set_open false m1) n1) = Ret n') in E.
  apply slave_disconnect_keeps in E. exists (set_open false m1).
  split; [unfold Node.slave; by rewrite E|unfold is_standby; by rewrite E| |done|done|].
  - eapply (slave_unsent_taken m i k); [done|done| |done|done]. by destruct (is_slave_acked k).
  - intros r A. apply moves_elsewhere; [|done]. eapply (slave_at_same m (set_open false m1)); [done|done| |done].
    intros k' _. simpl. apply list_elem_of_delete_inv.
Qed.

(** A member function of the messager: nothing is learnt. *)
Lemma on_slave_ran (f : Slave.t → outcome Slave.t) n' :
  on_slave f n1 = Ret n' →
  (∀ m', f m1 = Ret m' → slave_unsent m' = slave_unsent m ∧ socket_open m' = socket_open m ∧
    (OpConnect ∈ pending m' → OpConnect ∈ pending m) ∧
    ∀ r, slave_at m' r → slave_moves n m k (Node.set_slave m' n) m' r) →
  ∃ m', slave_ran n m k n' m'.
Proof.
  intros E F. unfold on_slave in E. change (get_slave n1) with (Some m1) in E.
  cbn [deref] in E. rewrite bind_Ret in E. apply bind_Ret_inv in E as (m' & E & [= <-]).
  destruct (F m' E) as (U & O & C & A). exists m'. split; [done|done|done|congruence|done|done].
Qed.

(** After a reading handler was taken out no read is left. *)
Lemma reads_taken : is_read_done k = true → slave_reads m1 = 0%nat.
Proof.
  intros Kr. pose proof (sinv_reads _ _ _ I). unfold slave_reads in *. simpl.
  pose proof (count_delete is_read_done _ _ _ Hk) as E. rewrite Kr in E. lia.
Qed.

Lemma slave_at_taken r : is_read_done k = true → slave_at m1 r → False.
Proof. intros Kr. by apply slave_at_none, reads_taken. Qed.

(** Starting the next read. *)
Lemma read_started o m2 m' r :
  is_read_done k = true → pending m2 = pending m1 → ready m2 = ready m1 → m' = start_op o m2 →
  slave_at m' r → slave_op_state m2 o = Some r.
Proof.
  intros Kr P R -> A. apply slave_at_start_op in A as [A|A]; [|done]. exfalso.
  apply (slave_at_none m2 r); [|done]. unfold slave_reads. rewrite P, R. by apply reads_taken.
Qed.
End Ran.

(** The queue is changed and, when asked for, the next write started. *)
Lemma queue_changed m1 q (go : bool) m' :
  (if go then Slave.do_write (set_queue q m1) else Ret (set_queue q m1)) = Ret m' →
  _write_packets m' = q ∧ ready m' = ready m1 ∧ _packet m' = _packet m1 ∧
  socket_open m' = socket_open m1 ∧ ∀ o, is_read o = true → o ∈ pending m' → o ∈ pending m1.
Proof.
  destruct go; [|by intros [= <-]]. unfold Slave.do_write. intros E. inv_bind. subst. simpl.
  split_and!; try done. intros o Ho. rewrite elem_of_app, list_elem_of_singleton.
  intros [?| ->]; done.
Qed.

Lemma queue_changed_ran n m i k m' :
  ready m' = ready (remove_ready i m) → _packet m' = _packet m → socket_open m' = socket_open m →
  (∀ o, is_read o = true → o ∈ pending m' → o ∈ pending m) →
  slave_unsent m' = slave_unsent m → slave_ran n m k (Node.set_slave m' n) m'.
Proof.
  intros R Ep O P U. split; [done|done|done|congruence|by apply P|].
  intros r A. apply moves_elsewhere; [|done]. eapply (slave_at_same m m'); [done|done| |done].
  rewrite R. intros k' _. apply list_elem_of_delete_inv.
Qed.

(** A packet moves from the handlers to the queue. *)
Lemma slave_write_ran n m i p n' :
  SInv m → ready m !! i = Some (TWrite p) →
  Forall (λ k, is_slave_post k = false) (take i (ready m)) →
  on_slave (Slave.on_write p) (Node.set_slave (remove_ready i m) n) = Ret n' →
  ∃ m', slave_ran n m (TWrite p) n' m'.
Proof.
  intros I Hk F E. unfold on_slave in E. set (m1 := remove_ready i m) in E.
  change (get_slave (Node.set_slave m1 n)) with (Some m1) in E. cbn [deref] in E.
  rewrite bind_Ret in E. apply bind_Ret_inv in E as (m' & E & [= <-]).
  unfold Slave.on_write in E. apply queue_changed in E as (Q & R & Ep & O & P).
  exists m'. apply (queue_changed_ran n m i); [done|done|done|done|].
  unfold slave_unsent. assert (slave_acked m' = slave_acked m) as ->.
  { rewrite <- (slave_acked_delete m i _ Hk) by done. unfold slave_acked. by rewrite R. }
  rewrite Q, R, (slave_posts_delete (ready m) i _ Hk) by done. simpl.
  destruct (slave_acked m) eqn:A; [|by rewrite <- app_assoc].
  apply Nat.ltb_lt in A. pose proof (slave_acked_writes m). pose proof (sinv_writes _ _ _ I).
  destruct (_write_packets m); [simpl in *; lia|]. simpl. by rewrite <- app_assoc.
Qed.

(** The packet that was written leaves the queue. *)
Lemma slave_written_ran n m i l n' :
  SInv m → ready m !! i = Some (TWritten false l) →
  slave_on_written false l (Node.set_slave (remove_ready i m) n) = Ret n' →
  ∃ m', slave_ran n m (TWritten false l) n' m'.
Proof.
  intros I Hk E. set (m1 := remove_ready i m) in E. set (n1 := Node.set_slave m1 n) in E.
  unfold slave_on_written in E. change (get_slave n1) with (Some m1) in E. cbn [deref] in E.
  rewrite bind_Ret in E.
  destruct (sinv_task_size _ _ _ I l) as (p & Hp & ->); [by eapply list_elem_of_lookup_2|].
  pose proof (slave_acked_writes m) as W. pose proof (sinv_writes _ _ _ I) as W'.
  pose proof (count_delete is_slave_acked _ _ _ Hk) as Ed. simpl in Ed.
  change (_write_packets m1) with (_write_packets m) in E.
  destruct (_write_packets m) as [|p' q] eqn:Q; [done|]. simpl in W'. simplify_eq/=.
  rewrite Z.eqb_refl in E. apply bind_Ret_inv in E as (m' & E & [= <-]). exists m'.
  apply (queue_changed m1 q (nonempty q)) in E as (Q' & R & Ep & O & P).
  apply (queue_changed_ran n m i); [done|done|done|done|].
  unfold slave_unsent, slave_acked. rewrite R, Q', Q. simpl.
  rewrite (slave_posts_delete (ready m) i _ Hk) by done. simpl.
  assert (count is_slave_acked (delete i (ready m)) = 0%nat) as -> by lia.
  by rewrite (proj2 (Nat.ltb_lt 0 (count is_slave_acked (ready m)))) by lia.
Qed.

Lemma slave_body_ran n m i d n' :
  SInv m → ready m !! i = Some (TBody false d) → len d = Packet.size (_packet m) →
  slave_on_body false d (Node.set_slave (remove_ready i m) n) = Ret n' →
  ∃ m', slave_ran n m (TBody false d) n' m'.
Proof.
  intros I Hk Hl E. set (m1 := remove_ready i m) in E. set (n1 := Node.set_slave m1 n) in E.
  unfold slave_on_body in E. change (get_slave n1) with (Some m1) in E. cbn [deref] in E.
  rewrite bind_Ret in E. change (_packet m1) with (_packet m) in E.
  rewrite (proj2 (Z.eqb_eq _ _) Hl) in E. simpl andb in E. cbv iota in E.
  rewrite setData_fill, bind_Ret in E by done.
  apply bind_Ret_inv in E as (n2 & E2 & E). set (m2 := set_packet _ _) in E2.
  set (n3 := put_slave m2 n1) in E2.
  change (TCPManager_read_slave (received d) n3 = Ret n2) in E2.
  pose proof (read_slave_keeps _ _ _ E2) as K. unfold on_slave in E.
  change (get_slave n2) with (Node.slave n2) in E. unfold Node.slave in E. rewrite K in E.
  cbn [Node._tcp_manager] in E. unfold n3 in E. cbn [deref] in E. simpl in E.
  apply bind_Ret_inv in E as (m3 & E3 & [= <-]).
  unfold Slave.do_read_header in E3. apply bind_Ret_inv in E3 as (b & _ & [= <-]).
  eexists. split; [reflexivity|unfold is_standby; simpl; by rewrite K| |done| |].
  - by eapply (slave_unsent_taken m i _ _ Hk).
  - simpl. rewrite elem_of_app, list_elem_of_singleton. naive_solver.
  - intros r A. apply (read_started m i _ I Hk OpReadHeader (set_buffer b m2)) in A; [|done..].
    injection A as <-. by eapply (moves_body _ _ _ _ _ _ d n3 n2).
Qed.

(** Every handler of a slave. *)
Lemma slave_connect_ran n m i ec n' :
  SInv m → ready m !! i = Some (TConnected ec) →
  slave_on_connect ec (Node.set_slave (remove_ready i m) n) = Ret n' →
  ∃ m', slave_ran n m (TConnected ec) n' m'.
Proof.
  intros I Hk E. destruct ec; unfold slave_on_connect in E; simpl in E.
  - apply slave_disconnect_keeps in E. exists (remove_ready i m).
    split; [unfold Node.slave; by rewrite E|unfold is_standby; by rewrite E| |done|done|].
    + by eapply (slave_unsent_taken m i _ _ Hk).
    + intros r A. exfalso. by eapply (slave_at_taken m i _ I Hk).
  - eapply on_slave_ran; [exact E|]. intros m' E'. unfold Slave.do_read_header in E'.
    apply bind_Ret_inv in E' as (b & _ & [= <-]). split_and!; [|done| |].
    + by eapply (slave_unsent_taken m i _ _ Hk).
    + simpl. rewrite elem_of_app, list_elem_of_singleton. naive_solver.
    + intros r A. apply (read_started m i _ I Hk OpReadHeader (set_buffer b (remove_ready i m))) in A;
        [|done..]. injection A as <-. by apply moves_connected.
Qed.

Lemma slave_header_ran n m i ec d n' :
  SInv m → ready m !! i = Some (THeader ec d) →
  slave_on_header ec d (Node.set_slave (remove_ready i m) n) = Ret n' →
  ∃ m', slave_ran n m (THeader ec d) n' m'.
Proof.
  intros I Hk E. unfold slave_on_header in E.
  destruct (negb ec && _) eqn:Ec; [|by eapply slave_drop_ran].
  apply andb_true_iff in Ec as [He _]. destruct ec; [done|].
  eapply on_slave_ran; [exact E|]. intros m' E'. cbv beta zeta in E'.
  apply bind_Ret_inv in E' as (p & Hp & E'). unfold Packet.decodeSize in Hp.
  apply bind_Ret_inv in Hp as (z & Hz & [= <-]).
  unfold Slave.do_read_body in E'. apply bind_Ret_inv in E' as (b & _ & [= <-]).
  split_and!; [|done| |].
  - by eapply (slave_unsent_taken m i _ _ Hk).
  - simpl. rewrite elem_of_app, list_elem_of_singleton. naive_solver.
  - intros r A. eapply (read_started m i _ I Hk OpReadBody) in A; [|done|..|reflexivity]; [|done..].
    injection A as <-. by eapply moves_header.
Qed.

Lemma slave_run_ran n m i k n' :
  SInv m → ready m !! i = Some k →
  (is_slave_post k = true → Forall (λ k, is_slave_post k = false) (take i (ready m))) →
  slave_run_task k (Node.set_slave (remove_ready i m) n) = Ret n' →
  ∃ m', slave_ran n m k n' m'.
Proof.
  intros I Hk F E. destruct k as [p| |ec|ec d|ec d|ec l]; simpl in E.
  - eapply slave_write_ran; eauto.
  - eapply on_slave_ran; [exact E|]. intros m' [= <-]. split_and!; [|done|done|].
    + by eapply (slave_unsent_taken m i _ _ Hk).
    + intros r A. apply moves_elsewhere; [|done].
      eapply (slave_at_same m); [| | |exact A]; [done|done|]. intros k' _. apply list_elem_of_delete_inv.
  - by eapply slave_connect_ran.
  - by eapply slave_header_ran.
  - destruct (negb ec && (len d =? Packet.size (_packet m))) eqn:Ec.
    + apply andb_true_iff in Ec as [He Hl%Z.eqb_eq]. destruct ec; [done|].
      by eapply slave_body_ran.
    + assert (slave_drop (Node.set_slave (remove_ready i m) n) = Ret n') as E'.
      { unfold slave_on_body in E.
        change (get_slave (Node.set_slave (remove_ready i m) n)) with (Some (remove_ready i m)) in E.
        cbn [deref] in E. rewrite bind_Ret in E. change (_packet (remove_ready i m)) with (_packet m) in E.
        by rewrite Ec in E. }
      by eapply slave_drop_ran.
  - destruct ec; [|by eapply slave_written_ran].
    unfold slave_on_written in E.
    change (get_slave (Node.set_slave (remove_ready i m) n)) with (Some (remove_ready i m)) in E.
    cbn [deref negb] in E. rewrite !bind_Ret in E. by eapply slave_drop_ran.
Qed.
End SlaveHandlers.

(** ** The master's reader of a connection *)

Section MasterReaders.
Import Master.

Definition master_op_state (h : nat) (c : Connection) (o : op) : option rstate :=
  match o with
  | OpReadHeader h' => if (h' =? h)%nat then Some RHeader else None
  | OpReadBody h' => if (h' =? h)%nat then Some (RBody (Packet.size (packet c))) else None
  | _ => None
  end.

Definition master_task_state (h : nat) (c : Connection) (k : task) : option rstate :=
  match k with
  | THeader h' false d => if (h' =? h)%nat then Some (RGotHeader d) else None
  | TBody h' false d => if (h' =? h)%nat then Some (RGotBody (Packet.size (packet c)) d) else None
  | _ => None
  end.

(** A connection that has not been entered in the list yet will start with a
    header. *)
Definition master_at (m : Master.t) (h : nat) (r : rstate) : Prop :=
  match _connections m !! h with
  | None => r = RHeader
  | Some c =>
      (∃ o, o ∈ pending m ∧ master_op_state h c o = Some r) ∨
      (∃ k, k ∈ ready m ∧ master_task_state h c k = Some r)
  end.

(** The reads of connection [h] in [m'] are reads in [m], and no handler was
    added but posted writes. *)
Definition reads_within (h : nat) (m m' : Master.t) : Prop :=
  (∀ o, is_read_op h o = true → o ∈ pending m' → o ∈ pending m) ∧
  (∀ k, is_post k = false → k ∈ ready m' → k ∈ ready m).

Definition no_reads (h : nat) (m : Master.t) : Prop :=
  (∀ o, o ∈ pending m → is_read_op h o = false) ∧
  (∀ k, k ∈ ready m → is_read_task h k = false).

(** ... with the same packet. *)
Definition reader_kept (h : nat) (m m' : Master.t) : Prop :=
  reads_within h m m' ∧
  (_connections m' !! h = None → _connections m !! h = None) ∧
  ∀ c', _connections m' !! h = Some c' →
    ∃ c, _connections m !! h = Some c ∧ packet c' = packet c.

#[export] Instance reads_within_preorder h : PreOrder (reads_within h).
Proof.
  split; [done|]. intros m1 m2 m3 [O1 K1] [O2 K2]. split; intros x Hx Hin.
  - apply O1; [done|]. by apply O2.
  - apply K1; [done|]. by apply K2.
Qed.

#[export] Instance reader_kept_preorder h : PreOrder (reader_kept h).
Proof.
  split.
  - intros m. split; [reflexivity|]. split; [done|]. intros c Hc. by exists c.
  - intros m1 m2 m3 (W1 & N1 & C1) (W2 & N2 & C2). split; [by trans m2|]. split; [auto|].
    intros c3 Hc3. destruct (C2 c3 Hc3) as (c2 & Hc2 & E2).
    destruct (C1 c2 Hc2) as (c1 & Hc1 & E1). exists c1. split; [done|congruence].
Qed.

Lemma no_reads_within h m m' : reads_within h m m' → no_reads h m → no_reads h m'.
Proof.
  intros [O K] [NO NK]. split.
  - intros o Ho. destruct (is_read_op h o) eqn:E; [|done]. rewrite <- E. by apply NO, O.
  - intros k Hk. destruct (is_read_task h k) eqn:E; [|done]. rewrite <- E.
    apply NK, K; [by destruct k|done].
Qed.

Lemma master_at_kept h m m' r : reader_kept h m m' → master_at m' h r → master_at m h r.
Proof.
  intros ([O K] & N & C) A. unfold master_at in *.
  destruct (_connections m' !! h) as [c'|]; [|by rewrite N].
  destruct (C c' eq_refl) as (c & -> & Ep).
  destruct A as [(o & Ho & E)|(k & Hk & E)]; [left; exists o|right; exists k].
  - split; [apply O; [|done]|]; destruct o; simplify_eq/=; rewrite <- ?Ep; by case_match.
  - split; [apply K; [by destruct k|done]|];
      destruct k as [| | | |? []|? []|]; simplify_eq/=; rewrite <- ?Ep; by case_match.
Qed.

(** A connection whose only read has just been started. *)
Lemma master_at_started h m o c r :
  no_reads h m → _connections m !! h = Some c → master_at (start_op o m) h r →
  master_op_state h c o = Some r.
Proof.
  intros [NO NK] Hc A. unfold master_at in A. simpl in A. rewrite Hc in A.
  destruct A as [(o' & Ho & E)|(k & Hk & E)].
  - apply elem_of_app in Ho as [Ho| ->%list_elem_of_singleton]; [|done].
    apply NO in Ho. destruct o'; simplify_eq/=; by rewrite Ho in E.
  - apply NK in Hk. destruct k as [| | | |? []|? []|]; simplify_eq/=; by rewrite Hk in E.
Qed.

Lemma kept_alter h f h' m : (∀ c, packet (f c) = packet c) → reader_kept h m (alter_conn f h' m).
Proof.
  intros Hf. split; [done|]. simpl. split.
  - rewrite list_lookup_alter. destruct (decide (h' = h)) as [->|]; [|done]. by destruct (_connections m !! h).
  - intros c' (c & Hc & ->)%lookup_alter_inv. exists c. split; [done|]. by case_decide.
Qed.

(** What happens to another connection's read does not matter. *)
Lemma kept_alter_ne h f h' m : h' ≠ h → reader_kept h m (alter_conn f h' m).
Proof.
  intros Hne. split; [done|]. simpl. rewrite list_lookup_alter_ne by done. split; [done|].
  intros c Hc. by exists c.
Qed.

Lemma kept_start_op h o m : is_read_op h o = false → reader_kept h m (start_op o m).
Proof.
  intros Ho. split; [|split; [done|intros c Hc; by exists c]]. split; [|done]. simpl.
  intros o' Ho'. rewrite elem_of_app, list_elem_of_singleton. intros [?| ->]; [done|congruence].
Qed.

Lemma within_alter h f h' m : reads_within h m (alter_conn f h' m).
Proof. done. Qed.

Lemma evolves_kept h m m' : evolves m m' → reader_kept h m m'.
Proof.
  intros [C P (posts & R & F)]. split; [|split].
  - split; [by rewrite P|]. intros k Hk. rewrite R, elem_of_app. intros [?|Hin]; [done|].
    rewrite Forall_forall in F. apply F in Hin. by destruct k.
  - rewrite !lookup_ge_None. by rewrite (Forall2_length _ _ _ C).
  - intros c' Hc'. destruct (Forall2_lookup_r _ _ _ _ _ C Hc') as (c & Hc & _ & _ & E & _).
    by exists c.
Qed.

Lemma kept_do_write h h' m m' : do_write h' m = Ret m' → reader_kept h m m'.
Proof. intros (c & p & _ & _ & ->)%do_write_Ret. by apply kept_start_op. Qed.

Lemma kept_enqueue h p h' m m' : enqueue p h' m = Ret m' → reader_kept h m m'.
Proof.
  unfold enqueue. intros E. inv_bind. case_match.
  - etrans; [|by eapply kept_do_write]. by apply kept_alter.
  - injection E as <-. by apply kept_alter.
Qed.

Lemma kept_write_loop h p hs m m' : write_loop p hs m = Ret m' → reader_kept h m m'.
Proof.
  revert m. induction hs as [|h' hs IH]; intros m E; simpl in E; [by injection E as <-|].
  inv_bind. etrans; [|by apply IH]. unfold write_one in Ha. inv_bind.
  case_match; [by injection Ha as <-|by eapply kept_enqueue].
Qed.

Lemma kept_taken h m i : reader_kept h m (set_ready (delete i (ready m)) m).
Proof.
  split; [|split; [done|intros c Hc; by exists c]]. split; [done|]. simpl.
  intros k _. apply list_elem_of_delete_inv.
Qed.

(** After a reading handler was taken out none is left for its connection. *)
Lemma no_reads_taken h m i k :
  Inv m → ready m !! i = Some k → is_read_task h k = true →
  no_reads h (set_ready (delete i (ready m)) m).
Proof.
  intros I Hk Kr. pose proof (inv_ready _ _ _ _ I) as V. rewrite Forall_forall in V.
  specialize (V k (list_elem_of_lookup_2 _ _ _ Hk)).
  assert (∃ c, _connections m !! h = Some c) as [c Hc].
  { apply lookup_lt_is_Some_2. destruct k; simplify_eq/=; by apply Nat.eqb_eq in Kr as <-. }
  destruct (inv_reads _ _ _ _ I h c Hc) as [R _]. unfold reads in R.
  pose proof (count_delete (is_read_task h) _ _ _ Hk) as E. rewrite Kr in E.
  split; simpl; intros x Hx.
  - eapply (count_zero_not (is_read_op h)); [|exact Hx]. lia.
  - eapply (count_zero_not (is_read_task h)); [|exact Hx]. lia.
Qed.

(** ** The handlers of the master *)

Context `{TextArchive} `{Memory}.

(** How the handler [k] moves the reader of connection [h], to [r]. *)
Inductive master_moves (m : Master.t) (k : task) (h : nat) (r : rstate) : Prop :=
  | mmoves_elsewhere : master_at m h r → master_moves m k h r
  | mmoves_header d buf z :
      k = THeader h false d → network_to_host_64 (fill d buf) = Ret z → r = RBody z →
      master_moves m k h r
  | mmoves_body d :
      k = TBody h false d → r = RHeader → master_moves m k h r.

Definition accepted_one (k : task) : nat := match k with TAccepted false _ => 1 | _ => 0 end.

Record master_ran (m : Master.t) (i : nat) (k : task) (m' : Master.t) : Prop := {
  mran_at h r : master_at m' h r → master_moves m k h r;
  mran_length : length (_connections m') = (length (_connections m) + accepted_one k)%nat;
  mran_ready k' : is_post k' = false → k' ∈ ready m' → k' ∈ delete i (ready m)
}.

Lemma kept_length m m' : (∀ h, reader_kept h m m') → length (_connections m') = length (_connections m).
Proof.
  intros K. apply Nat.le_antisymm.
  - apply lookup_ge_None. destruct (_connections m' !! length (_connections m)) as [c|] eqn:E; [|done].
    destruct (K (length (_connections m))) as (_ & _ & C). destruct (C c E) as (c' & Hc' & _).
    apply lookup_lt_Some in Hc'. lia.
  - apply lookup_ge_None. apply (K (length (_connections m'))). by apply lookup_ge_None.
Qed.

(** A handler that starts no read. *)
Lemma kept_ran m i k m' :
  accepted_one k = 0%nat → (∀ h, reader_kept h (set_ready (delete i (ready m)) m) m') →
  master_ran m i k m'.
Proof.
  intros Ka K. split.
  - intros h r A. apply mmoves_elsewhere. apply (master_at_kept h m m'); [|done].
    etrans; [apply (kept_taken h m i)|apply K].
  - rewrite Ka, Nat.add_0_r. by apply (kept_length (set_ready (delete i (ready m)) m)).
  - intros k' Kp. apply (K 0%nat); done.
Qed.

(** A handler that starts the next read of [h0]. *)
Lemma started_ran m i k h0 m2 m3 o :
  Inv m → ready m !! i = Some k → is_read_task h0 k = true →
  (∀ h, h ≠ h0 → reader_kept h (set_ready (delete i (ready m)) m) m2) →
  reads_within h0 (set_ready (delete i (ready m)) m) m2 →
  length (_connections m2) = length (_connections m) →
  m3 = start_op o m2 → (∀ h, h ≠ h0 → is_read_op h o = false) →
  (∀ c r, _connections m2 !! h0 = Some c → master_op_state h0 c o = Some r →
    master_moves m k h0 r) →
  master_ran m i k m3.
Proof.
  intros I Hk Kr K W L -> Ho M. split.
  - intros h r A. destruct (decide (h = h0)) as [->|Hne].
    + assert (∃ c, _connections m2 !! h0 = Some c) as [c Hc].
      { apply lookup_lt_is_Some_2. rewrite L. pose proof (inv_ready _ _ _ _ I) as V.
        rewrite Forall_forall in V. specialize (V k (list_elem_of_lookup_2 _ _ _ Hk)).
        destruct k; simplify_eq/=; by apply Nat.eqb_eq in Kr as <-. }
      apply (M c r Hc). apply (master_at_started h0 m2 o c r); [|done|done].
      eapply no_reads_within; [exact W|]. by eapply no_reads_taken.
    + apply mmoves_elsewhere. apply (master_at_kept h m (start_op o m2)); [|done].
      etrans; [apply (kept_taken h m i)|]. etrans; [by apply K|]. by apply kept_start_op, Ho.
  - simpl. rewrite L. destruct k; simplify_eq/=; lia.
  - intros k' Kp Hin. by apply W.
Qed.

(** No read is under way for a connection that does not exist yet. *)
Lemma no_reads_fresh m : Inv m → no_reads (length (_connections m)) m.
Proof.
  intros I. pose proof (inv_pending _ _ _ _ I) as P. pose proof (inv_ready _ _ _ _ I) as R.
  rewrite Forall_forall in P. rewrite Forall_forall in R. split.
  - intros o Ho. apply P in Ho. destruct o; simpl in *; try done; apply Nat.eqb_neq; lia.
  - intros k Hk. apply R in Hk. destruct k; simpl in *; try done; apply Nat.eqb_neq; lia.
Qed.

Lemma on_accept_ran m i ec r m' :
  Inv m → ready m !! i = Some (TAccepted ec r) →
  on_accept ec r (set_ready (delete i (ready m)) m) = Ret m' →
  master_ran m i (TAccepted ec r) m'.
Proof.
  intros I Hk E. unfold on_accept in E. apply bind_Ret_inv in E as (m2 & E & [= <-]).
  destruct ec; simpl in E.
  { injection E as <-. apply kept_ran; [done|]. intros h. by apply kept_start_op. }
  unfold do_new_connection, do_read_header in E. inv_bind. subst m2.
  set (h0 := length (_connections m)). set (m1 := set_ready (delete i (ready m)) m).
  cbn [set_ready _connections]. fold h0.
  set (m2 := alter_conn (set_buffer a0) h0
    (mk (_connections m ++ [mkConnection true r [] Packet.create [] 0]) (pending m)
        (delete i (ready m)) (stopped m))).
  assert (length (_connections m2) = S (length (_connections m))) as L.
  { simpl. rewrite length_alter, length_app. simpl. lia. }
  assert (reads_within h0 m1 m2) as W by done.
  split.
  - intros h r' A. apply mmoves_elsewhere. destruct (decide (h = h0)) as [->|Hne].
    + assert (∃ c, _connections m2 !! h0 = Some c) as [c Hc]
        by (apply lookup_lt_is_Some_2; unfold h0; lia).
      assert (master_at (start_op (OpReadHeader h0) m2) h0 r') as A1.
      { eapply master_at_kept; [|exact A]. by apply kept_start_op. }
      apply (master_at_started h0 m2 (OpReadHeader h0) c r') in A1; [|eapply no_reads_within;
        [exact W|]; eapply no_reads_within; [apply (kept_taken h0 m i)|by apply no_reads_fresh]|done].
      simpl in A1. rewrite Nat.eqb_refl in A1. injection A1 as <-.
      unfold master_at. by rewrite (proj2 (lookup_ge_None _ _)) by (unfold h0; lia).
    + eapply (master_at_kept h m); [|exact A]. etrans; [apply (kept_taken h m i)|].
      fold m1. etrans; [|by apply (kept_start_op h OpAccept)].
      etrans; [|apply (kept_start_op h (OpReadHeader h0)); by apply Nat.eqb_neq].
      split; [done|]. simpl. rewrite list_lookup_alter_ne by done.
      destruct (decide (h < h0)%nat).
      * rewrite lookup_app_l by done. split; [done|]. intros c Hc. by exists c.
      * rewrite !(proj2 (lookup_ge_None _ _)); [done|unfold h0 in *; lia|].
        rewrite length_app. simpl. unfold h0 in *. lia.
  - cbn [do_accept start_op _connections]. rewrite L. simpl. lia.
  - done.
Qed.

(** Every handler of the master. *)
(** The master with the handler that runs taken from the ready ones. *)
Notation popped i m n := (Node.set_master (set_ready (delete i (ready m)) m) n).

Lemma on_master_popped (f : Master.t → outcome Master.t) (n n' : Node.t) m i :
  on_master f (popped i m n) = Ret n' →
  ∃ m', f (set_ready (delete i (ready m)) m) = Ret m' ∧ n' = Node.set_master m' n.
Proof.
  intros E. unfold on_master in E.
  change (get_master (popped i m n)) with (Some (set_ready (delete i (ready m)) m)) in E.
  cbn [deref] in E. rewrite bind_Ret in E. inv_bind. subst. by eauto.
Qed.

Lemma close_ran (n n' : Node.t) m i k h :
  close h (popped i m n) = Ret n' → accepted_one k = 0%nat → Inv m → ready m !! i = Some k →
  ∃ m', Node.master n' = Some m' ∧ master_ran m i k m'.
Proof.
  intros E Ka I Hk. destruct (close_evolved h _ n' E _ eq_refl) as (m' & G' & Ev).
  exists m'. split; [done|]. apply kept_ran; [done|]. intros h'. by apply evolves_kept.
Qed.

Lemma on_header_ran (n n' : Node.t) m i h ec d :
  Inv m → ready m !! i = Some (THeader h ec d) →
  on_header h ec d (popped i m n) = Ret n' →
  ∃ m', Node.master n' = Some m' ∧ master_ran m i (THeader h ec d) m'.
Proof.
  intros I Hk E. unfold on_header in E. destruct (negb ec && _) eqn:Ec; [|by eapply close_ran].
  apply andb_true_iff in Ec as [He _]. destruct ec; [done|].
  apply on_master_popped in E as (m' & E & ->). exists m'. split; [done|].
  cbv beta zeta in E. inv_bind. unfold Packet.decodeSize in Ha0. inv_bind. subst a0.
  unfold do_read_body in E. inv_bind. subst m'.
  eapply (started_ran m i _ h); [done|done|apply Nat.eqb_refl| | | |reflexivity| |].
  - intros h' Hne. etrans; [by apply kept_alter_ne|by apply kept_alter_ne].
  - done.
  - simpl. by rewrite !length_alter.
  - intros h' Hne. by apply Nat.eqb_neq.
  - intros c r Hc. simpl in *. rewrite Nat.eqb_refl. intros [= <-].
    rewrite !list_lookup_alter_eq in Hc. destruct (_connections m !! h); [|done].
    injection Hc as <-. by eapply mmoves_header.
Qed.

Lemma on_body_ran (n n' : Node.t) m i h ec d :
  Inv m → ready m !! i = Some (TBody h ec d) →
  on_body h ec d (popped i m n) = Ret n' →
  ∃ m', Node.master n' = Some m' ∧ master_ran m i (TBody h ec d) m'.
Proof.
  intros I Hk E. set (m1 := set_ready (delete i (ready m)) m) in E.
  set (n1 := Node.set_master m1 n) in E.
  unfold on_body in E. change (get_master n1) with (Some m1) in E. cbn [deref] in E.
  rewrite bind_Ret in E. inv_bind. destruct (negb ec && _) eqn:Ec; [|by eapply close_ran].
  apply andb_true_iff in Ec as [He _]. destruct ec; [done|]. inv_bind.
  set (m2 := alter_conn _ h m1) in Ha1. unfold on_master in E. inv_bind. subst n'.
  assert (h < length (_connections m2))%nat as Hh.
  { simpl. rewrite length_alter. apply at_Ret in Ha. by eapply lookup_lt_Some. }
  destruct (read_master_evolved a0 h (Node.set_master m2 n1) a1 m2 eq_refl Hh Ha1 m2 eq_refl)
    as (m3 & G3 & Ev). change (Node.master a1 = Some a2) in Ha2. rewrite G3 in Ha2.
  injection Ha2 as <-. exists a3. split; [done|]. unfold do_read_header in Ha3. inv_bind.
  subst a3. eapply (started_ran m i _ h); [done|done|apply Nat.eqb_refl| | | |reflexivity| |].
  - intros h' Hne. trans m2; [by apply kept_alter_ne|].
    etrans; [by apply evolves_kept|by apply kept_alter_ne].
  - trans m3; [|done]. by apply (evolves_kept h m2 m3).
  - simpl. rewrite length_alter. rewrite <- (Forall2_length _ _ _ (evolves_conns _ _ Ev)).
    simpl. by rewrite length_alter.
  - intros h' Hne. by apply Nat.eqb_neq.
  - intros c r Hc. simpl. rewrite Nat.eqb_refl. intros [= <-]. by eapply mmoves_body.
Qed.

Lemma on_written_ran (n n' : Node.t) m i h ec l :
  Inv m → ready m !! i = Some (TWritten h ec l) →
  on_written h ec l (popped i m n) = Ret n' →
  ∃ m', Node.master n' = Some m' ∧ master_ran m i (TWritten h ec l) m'.
Proof.
  intros I Hk E. set (m1 := set_ready (delete i (ready m)) m) in E.
  unfold on_written in E. change (get_master (Node.set_master m1 n)) with (Some m1) in E.
  cbn [deref] in E. rewrite bind_Ret in E. apply bind_Ret_inv in E as (c0 & _ & E).
  apply bind_Ret_inv in E as (ok & _ & E). destruct ok; [|by eapply close_ran].
  apply bind_Ret_inv in E as (m' & E & [= <-]). exists m'. split; [done|].
  apply kept_ran; [done|]. intros h'.
  etrans; [apply (kept_alter h' (set_queue (tail (queue c0))) h m1); done|].
  destruct (nonempty _); [by eapply kept_do_write|by injection E as <-].
Qed.

Lemma run_master_ran (n n' : Node.t) m i k :
  Node.master n = Some m → Inv m → ready m !! i = Some k →
  run_task k (popped i m n) = Ret n' →
  ∃ m', Node.master n' = Some m' ∧ master_ran m i k m'.
Proof.
  intros G I Hk E. destruct k as [p|p h0| |ec r|h ec d|h ec d|h ec l]; simpl in E.
  - apply on_master_popped in E as (m' & E & ->). exists m'. split; [done|].
    apply kept_ran; [done|]. intros h. by eapply kept_write_loop.
  - apply on_master_popped in E as (m' & E & ->). exists m'. split; [done|].
    apply kept_ran; [done|]. intros h. by eapply kept_enqueue.
  - apply on_master_popped in E as (m' & [= <-] & ->). eexists. split; [done|].
    apply kept_ran; [done|]. intros h. split; [done|]. split; [done|]. intros c Hc. by exists c.
  - apply on_master_popped in E as (m' & E & ->). exists m'. split; [done|]. by apply on_accept_ran.
  - by eapply on_header_ran.
  - by eapply on_body_ran.
  - by eapply on_written_ran.
Qed.

(** No handler but the one that runs is taken from the ready ones. *)
Lemma run_ready (n n' : Node.t) m i k :
  Inv m → ready m !! i = Some k →
  run_task k (Node.set_master (set_ready (delete i (ready m)) m) n) = Ret n' →
  ∃ m' posts, Node.master n' = Some m' ∧ ready m' = delete i (ready m) ++ posts.
Proof.
  intros I Hk E. set (m1 := set_ready (delete i (ready m)) m) in E.
  set (n1 := Node.set_master m1 n) in E.
  assert (∀ f : Master.t → outcome Master.t, on_master f n1 = Ret n' →
    (∀ m', f m1 = Ret m' → ready m' = ready m1) →
    ∃ m' posts, Node.master n' = Some m' ∧ ready m' = delete i (ready m) ++ posts) as OM.
  { intros f E' F. unfold on_master in E'. change (get_master n1) with (Some m1) in E'.
    cbn [deref] in E'. rewrite bind_Ret in E'. inv_bind. subst. exists a, [].
    split; [done|]. rewrite app_nil_r. by apply F. }
  assert (∀ h, close h n1 = Ret n' →
    ∃ m' posts, Node.master n' = Some m' ∧ ready m' = delete i (ready m) ++ posts) as Cl.
  { intros h E'. destruct (close_evolved h n1 n' E' m1 eq_refl) as (m' & G' & Ev).
    destruct (evolves_ready _ _ Ev) as (posts & R & _). by exists m', posts. }
  destruct k as [p|p h0| |ec r|h ec d|h ec d|h ec l]; simpl in E.
  - apply (OM _ E). intros m' E'. apply write_loop_queue in E' as [R _]; [done|].
    unfold iterators. rewrite reverse_Permutation. apply NoDup_seq.
  - apply (OM _ E). by intros m' [R _]%enqueue_queue.
  - apply (OM _ E). by intros m' [= <-].
  - apply (OM _ E). by intros m' [R _]%on_accept_quiet.
  - unfold on_header in E. destruct (negb ec && _); [|by eapply Cl].
    apply (OM _ E). intros m' E'. by apply still_header in E' as [R _].
  - unfold on_body in E. change (get_master n1) with (Some m1) in E. cbn [deref] in E.
    rewrite bind_Ret in E. inv_bind. destruct (negb ec && _); [|by eapply Cl]. inv_bind.
    set (m2 := alter_conn _ h m1) in Ha1. unfold on_master in E. inv_bind. subst n'.
    assert (h < length (_connections m2))%nat as Hh.
    { simpl. rewrite length_alter. apply at_Ret in Ha. by eapply lookup_lt_Some. }
    destruct (read_master_evolved a0 h (Node.set_master m2 n1) a1 m2 eq_refl Hh Ha1 m2 eq_refl)
      as (m3 & G3 & Ev). change (Node.master a1 = Some a2) in Ha2. rewrite G3 in Ha2.
    injection Ha2 as <-. destruct (evolves_ready _ _ Ev) as (posts & R & _).
    exists a3, posts. split; [done|]. apply do_read_header_quiet in Ha3 as [-> _]. exact R.
  - unfold on_written in E. change (get_master n1) with (Some m1) in E. cbn [deref] in E.
    rewrite bind_Ret in E. apply bind_Ret_inv in E as (c0 & _ & E).
    apply bind_Ret_inv in E as (ok & _ & E). destruct ok; [|by eapply Cl].
    apply bind_Ret_inv in E as (m' & E & [= <-]). exists m', []. split; [done|].
    rewrite app_nil_r. destruct (nonempty _); [|by injection E as <-].
    by apply do_write_quiet in E as [-> _].
Qed.
End MasterReaders.
