(* ===== verification/System.v ===== *)
(** * The group: a master and its slaves, connected

    [system] is a master node, slave nodes, and for each slave the connection
    between them: a byte stream in each direction, of which the network
    delivers what was written, in order, in pieces of any size.  A step is a
    handler of the master or of a slave, the completion of one of their
    operations (with an error at any time, with success when the streams allow
    it), or the main thread of a slave sending its files.  The main thread of the
    master takes one step as well, the registration of its own host, which
    [group_step] of EndToEnd.v adds; here the master is one that has taken it.
    [sys_play] executes a schedule of steps.  SystemInv.v has the invariant, Convergence.v the
    theorems. *)

From S2P Require Import Prelude BytesOrder StdSet Archive Path DirTree Host Packet Ssh.
From S2P Require Import TcpMessager Channel MasterLoop UserFs Group Handshake Totality SlaveLoop.
From S2P Require Import Consistency Streams Receivers.
Import Node.

(** ** State *)

(** A slave, with the far end of its connection: whether its main thread has
    sent the join message, whether the connection is established, its handle at
    the master once it was accepted, and what the network holds in each
    direction: the bytes under way, and how many bytes of the packet that is
    being written it has been given. *)
Record peer := mkPeer {
  p_node : Node.t;
  p_announced : bool;
  p_linked : bool;
  p_handle : option nat;
  p_down : bytes;
  p_down_given : nat;
  p_up : bytes;
  p_up_given : nat
}.

Record system := mkSystem { sys_master : Node.t; sys_peers : list peer }.

Definition set_p_node (n : Node.t) (p : peer) : peer :=
  mkPeer n (p_announced p) (p_linked p) (p_handle p) (p_down p) (p_down_given p) (p_up p)
    (p_up_given p).
Definition set_p_down (d : bytes) (g : nat) (p : peer) : peer :=
  mkPeer (p_node p) (p_announced p) (p_linked p) (p_handle p) d g (p_up p) (p_up_given p).
Definition set_p_up (u : bytes) (g : nat) (p : peer) : peer :=
  mkPeer (p_node p) (p_announced p) (p_linked p) (p_handle p) (p_down p) (p_down_given p) u g.
Definition announce (n : Node.t) (p : peer) : peer :=
  mkPeer n true (p_linked p) (p_handle p) (p_down p) (p_down_given p) (p_up p) (p_up_given p).
Definition link (n : Node.t) (p : peer) : peer :=
  mkPeer n (p_announced p) true (p_handle p) (p_down p) (p_down_given p) (p_up p) (p_up_given p).
Definition set_p_handle (h : nat) (p : peer) : peer :=
  mkPeer (p_node p) (p_announced p) (p_linked p) (Some h) (p_down p) (p_down_given p) (p_up p)
    (p_up_given p).

Definition put_peer (j : nat) (p : peer) (s : system) : system :=
  mkSystem (sys_master s) (<[j := p]> (sys_peers s)).

Definition put_master_node (n : Node.t) (s : system) : system := mkSystem n (sys_peers s).

(** An operation of the master completes with [k]. *)
Definition master_completed (i : nat) (k : Master.task) (m : Master.t) : Master.t :=
  Master.mk (Master._connections m) (delete i (Master.pending m)) (Master.ready m ++ [k])
    (Master.stopped m).

(** Results that report an error, and those that bring data. *)
Definition master_failed (k : Master.task) : bool :=
  match k with
  | Master.TAccepted ec _ | Master.THeader _ ec _ | Master.TBody _ ec _
  | Master.TWritten _ ec _ => ec
  | _ => false
  end.

Definition master_received (k : Master.task) : option (nat * bytes) :=
  match k with
  | Master.THeader h false d | Master.TBody h false d => Some (h, d)
  | _ => None
  end.

Definition slave_failed (k : Slave.task) : bool :=
  match k with
  | Slave.TConnected ec | Slave.THeader ec _ | Slave.TBody ec _ | Slave.TWritten ec _ => ec
  | _ => false
  end.

Definition slave_received (k : Slave.task) : option bytes :=
  match k with
  | Slave.THeader false d | Slave.TBody false d => Some d
  | _ => None
  end.

(** ** Steps *)

Section Steps.
Context `{TextArchive} `{Memory}.

Inductive sys_step (s : system) : system → Prop :=
  (** *** the master *)
  | master_runs m i k n' :
      master (sys_master s) = Some m → Master.stopped m = false → Master.ready m !! i = Some k →
      (is_post k = true → Forall (λ k, is_post k = false) (take i (Master.ready m))) →
      run_task k (set_master (Master.set_ready (delete i (Master.ready m)) m) (sys_master s)) =
        Ret n' →
      sys_step s (put_master_node n' s)
  | master_fails m i o k :
      master (sys_master s) = Some m → Master.pending m !! i = Some o → completes m o k →
      master_failed k = true →
      sys_step s (put_master_node (set_master (master_completed i k m) (sys_master s)) s)
  | master_accepts m i remote j p :
      master (sys_master s) = Some m → Master.pending m !! i = Some Master.OpAccept →
      sys_peers s !! j = Some p → p_linked p = true → p_handle p = None →
      sys_step s (put_peer j (set_p_handle (length (Master._connections m)) p)
        (put_master_node
          (set_master (master_completed i (Master.TAccepted false remote) m) (sys_master s)) s))
  | master_receives m i o k h d rest j p :
      master (sys_master s) = Some m → Master.pending m !! i = Some o → completes m o k →
      master_received k = Some (h, d) →
      sys_peers s !! j = Some p → p_handle p = Some h → p_up p = d ++ rest →
      sys_step s (put_peer j (set_p_up rest (p_up_given p) p)
        (put_master_node (set_master (master_completed i k m) (sys_master s)) s))
  | master_transmits m i h n c pk q w chunk rest j p :
      master (sys_master s) = Some m → Master.pending m !! i = Some (Master.OpWrite h n) →
      Master._connections m !! h = Some c → Master.socket_open c = true →
      Master.queue c = pk :: q → Packet.wire pk = Ret w →
      sys_peers s !! j = Some p → p_handle p = Some h →
      (p_down_given p <= length w)%nat → drop (p_down_given p) w = chunk ++ rest →
      sys_step s (put_peer j (set_p_down (p_down p ++ chunk) (p_down_given p + length chunk) p) s)
  | master_writes m i h n j p :
      master (sys_master s) = Some m → Master.pending m !! i = Some (Master.OpWrite h n) →
      completes m (Master.OpWrite h n) (Master.TWritten h false n) →
      sys_peers s !! j = Some p → p_handle p = Some h → Z.of_nat (p_down_given p) = n →
      sys_step s (put_peer j (set_p_down (p_down p) 0 p)
        (put_master_node
          (set_master (master_completed i (Master.TWritten h false n) m) (sys_master s)) s))
  (** *** a slave *)
  | peer_announces j p n' :
      sys_peers s !! j = Some p → p_announced p = false →
      initTCPNetwork_finish false (p_node p) = Ret n' →
      sys_step s (put_peer j (announce n' p) s)
  | peer_runs j p m i k n' :
      sys_peers s !! j = Some p → slave (p_node p) = Some m → Slave.stopped m = false →
      Slave.ready m !! i = Some k →
      (is_slave_post k = true → Forall (λ k, is_slave_post k = false) (take i (Slave.ready m))) →
      slave_run_task k (set_slave (remove_ready i m) (p_node p)) = Ret n' →
      sys_step s (put_peer j (set_p_node n' p) s)
  | peer_fails j p m i o k :
      sys_peers s !! j = Some p → slave (p_node p) = Some m → Slave.pending m !! i = Some o →
      slave_completes m o k → slave_failed k = true →
      sys_step s (put_peer j (set_p_node (set_slave (complete i k m) (p_node p)) p) s)
  | peer_connects j p m i :
      sys_peers s !! j = Some p → slave (p_node p) = Some m →
      Slave.pending m !! i = Some Slave.OpConnect →
      sys_step s (put_peer j
        (link (set_slave (complete i (Slave.TConnected false) m) (p_node p)) p) s)
  | peer_receives j p m i o k d rest :
      sys_peers s !! j = Some p → slave (p_node p) = Some m → Slave.pending m !! i = Some o →
      slave_completes m o k → slave_received k = Some d → p_down p = d ++ rest →
      sys_step s (put_peer j (set_p_down rest (p_down_given p)
        (set_p_node (set_slave (complete i k m) (p_node p)) p)) s)
  | peer_transmits j p m i n pk q w chunk rest :
      sys_peers s !! j = Some p → slave (p_node p) = Some m → p_linked p = true →
      Slave.pending m !! i = Some (Slave.OpWrite n) → Slave.socket_open m = true →
      Slave._write_packets m = pk :: q → Packet.wire pk = Ret w →
      (p_up_given p <= length w)%nat → drop (p_up_given p) w = chunk ++ rest →
      sys_step s (put_peer j (set_p_up (p_up p ++ chunk) (p_up_given p + length chunk) p) s)
  | peer_writes j p m i n :
      sys_peers s !! j = Some p → slave (p_node p) = Some m →
      Slave.pending m !! i = Some (Slave.OpWrite n) → Slave.socket_open m = true →
      Z.of_nat (p_up_given p) = n →
      sys_step s (put_peer j (set_p_up (p_up p) 0
        (set_p_node (set_slave (complete i (Slave.TWritten false n) m) (p_node p)) p)) s).

(** The trees and host tables that are sent stay within what a frame and the
    memory hold. *)
Definition peer_fits (p : peer) : Prop :=
  ∀ host, p_announced p = false → Hosts.get (_hosts (p_node p)) 0 = Ret host →
    let size := len (DirTree_serialize (_dir_tree (p_node p))) + len (Host.serialize host) + 24 in
    size < 2 ^ 48 ∧ size <= vector_max.

Definition sys_fits (s : system) : Prop :=
  fits (sys_master s) ∧ Forall peer_fits (sys_peers s).

Inductive sys_steps : system → system → Prop :=
  | sys_refl s : sys_steps s s
  | sys_more s s' s'' : sys_steps s s' → sys_step s' s'' → sys_fits s'' → sys_steps s s''.

(** A slave whose messager has just been started, and the whole group then. *)
Definition peer_started (p : peer) : Prop :=
  slave (p_node p) = Some (Slave.start Slave.create) ∧ is_standby (p_node p) ∧
  rooted (p_node p) ∧ p_announced p = false ∧ p_linked p = false ∧ p_handle p = None ∧
  p_down p = [] ∧ p_down_given p = 0%nat ∧ p_up p = [] ∧ p_up_given p = 0%nat.

Record sys_started (s : system) : Prop := {
  started_master : just_started (sys_master s);
  started_role : role (sys_master s) = true;
  started_root : rooted (sys_master s);
  started_peers : Forall peer_started (sys_peers s);
  started_fits : sys_fits s
}.

(** ** Schedules *)

#[export] Instance fits_dec n : Decision (fits n).
Proof.
  refine (cast_if_and3 (decide (Protocol.wire_u64 (_max_host_id n)))
    (decide (len (DirTree_serialize (_dir_tree n)) + len (Hosts.serialize (_hosts n)) + 32 < 2 ^ 48))
    (decide (len (DirTree_serialize (_dir_tree n)) + len (Hosts.serialize (_hosts n)) + 32
      <= vector_max))); [by split|by intros []..].
Defined.

#[export] Instance peer_fits_dec p : Decision (peer_fits p).
Proof.
  unfold peer_fits. destruct (p_announced p); [left; by intros|].
  destruct (Hosts.get (_hosts (p_node p)) 0) as [host| | |]; [|left; intros; discriminate..].
  set (size := len (DirTree_serialize (_dir_tree (p_node p))) + len (Host.serialize host) + 24).
  destruct (decide (size < 2 ^ 48 ∧ size <= vector_max)) as [D|D].
  - left. intros h _ [= <-]. exact D.
  - right. intros C. exact (D (C host eq_refl eq_refl)).
Defined.

#[export] Instance sys_fits_dec s : Decision (sys_fits s).
Proof. unfold sys_fits. apply _. Defined.

(** Which step is taken; a transfer says how many bytes are carried. *)
Inductive sys_action :=
  | MasterRuns (i : nat)
  | MasterFails (i : nat) (k : Master.task)
  | MasterAccepts (i : nat) (remote : Z → bytes) (j : nat)
  | MasterReceives (i j : nat)
  | MasterTransmits (i j count : nat)
  | MasterWrites (i j : nat)
  | PeerAnnounces (j : nat)
  | PeerRuns (j i : nat)
  | PeerFails (j i : nat) (k : Slave.task)
  | PeerConnects (j i : nat)
  | PeerReceives (j i : nat)
  | PeerTransmits (j i count : nat)
  | PeerWrites (j i : nat).

Definition returned {A} (r : outcome A) : option A :=
  match r with Ret a => Some a | _ => None end.

(** The result of a read that gets all it asked for. *)
Definition master_read_result (m : Master.t) (o : Master.op) (up : bytes)
    : option (Master.task * nat * bytes) :=
  match o with
  | Master.OpReadHeader h =>
      let d := take (Z.to_nat Packet.sizeLength) up in Some (Master.THeader h false d, h, d)
  | Master.OpReadBody h =>
      c ← Master._connections m !! h;
      let d := take (Z.to_nat (Packet.size (Master.packet c))) up in
      Some (Master.TBody h false d, h, d)
  | _ => None
  end.

Definition slave_read_result (m : Slave.t) (o : Slave.op) (down : bytes)
    : option (Slave.task * bytes) :=
  match o with
  | Slave.OpReadHeader =>
      let d := take (Z.to_nat Packet.sizeLength) down in Some (Slave.THeader false d, d)
  | Slave.OpReadBody =>
      let d := take (Z.to_nat (Packet.size (Slave._packet m))) down in
      Some (Slave.TBody false d, d)
  | _ => None
  end.

Definition master_act (a : sys_action) (s : system) : option system :=
  m ← master (sys_master s);
  let completed i k := put_master_node (set_master (master_completed i k m) (sys_master s)) s in
  match a with
  | MasterRuns i =>
      guard (Master.stopped m = false);; k ← Master.ready m !! i;
      guard (is_post k = true → Forall (λ k, is_post k = false) (take i (Master.ready m)));;
      n' ← returned (run_task k
        (set_master (Master.set_ready (delete i (Master.ready m)) m) (sys_master s)));
      Some (put_master_node n' s)
  | MasterFails i k =>
      o ← Master.pending m !! i; guard (completes m o k);; guard (master_failed k = true);;
      Some (completed i k)
  | MasterAccepts i remote j =>
      o ← Master.pending m !! i; p ← sys_peers s !! j;
      match o with
      | Master.OpAccept =>
          guard (p_linked p = true);; guard (p_handle p = None);;
          Some (put_peer j (set_p_handle (length (Master._connections m)) p)
            (completed i (Master.TAccepted false remote)))
      | _ => None
      end
  | MasterReceives i j =>
      o ← Master.pending m !! i; p ← sys_peers s !! j;
      '(k, h, d) ← master_read_result m o (p_up p);
      guard (completes m o k);; guard (p_handle p = Some h);;
      Some (put_peer j (set_p_up (drop (length d) (p_up p)) (p_up_given p) p) (completed i k))
  | MasterTransmits i j count =>
      o ← Master.pending m !! i; p ← sys_peers s !! j;
      match o with
      | Master.OpWrite h _ =>
          c ← Master._connections m !! h; guard (Master.socket_open c = true);;
          pk ← head (Master.queue c); w ← returned (Packet.wire pk);
          guard (p_handle p = Some h);; guard (p_down_given p <= length w)%nat;;
          let chunk := take count (drop (p_down_given p) w) in
          Some (put_peer j (set_p_down (p_down p ++ chunk) (p_down_given p + length chunk) p) s)
      | _ => None
      end
  | MasterWrites i j =>
      o ← Master.pending m !! i; p ← sys_peers s !! j;
      match o with
      | Master.OpWrite h n =>
          guard (completes m (Master.OpWrite h n) (Master.TWritten h false n));;
          guard (p_handle p = Some h);; guard (Z.of_nat (p_down_given p) = n);;
          Some (put_peer j (set_p_down (p_down p) 0 p) (completed i (Master.TWritten h false n)))
      | _ => None
      end
  | _ => None
  end.

Definition peer_act (a : sys_action) (s : system) : option system :=
  let at_peer j (f : peer → Slave.t → option peer) :=
    p ← sys_peers s !! j; m ← slave (p_node p); p' ← f p m; Some (put_peer j p' s) in
  match a with
  | PeerAnnounces j => at_peer j (λ p m,
      guard (p_announced p = false);; n' ← returned (initTCPNetwork_finish false (p_node p));
      Some (announce n' p))
  | PeerRuns j i => at_peer j (λ p m,
      guard (Slave.stopped m = false);; k ← Slave.ready m !! i;
      guard (is_slave_post k = true → Forall (λ k, is_slave_post k = false) (take i (Slave.ready m)));;
      n' ← returned (slave_run_task k (set_slave (remove_ready i m) (p_node p)));
      Some (set_p_node n' p))
  | PeerFails j i k => at_peer j (λ p m,
      o ← Slave.pending m !! i; guard (slave_completes m o k);; guard (slave_failed k = true);;
      Some (set_p_node (set_slave (complete i k m) (p_node p)) p))
  | PeerConnects j i => at_peer j (λ p m,
      o ← Slave.pending m !! i;
      match o with
      | Slave.OpConnect =>
          Some (link (set_slave (complete i (Slave.TConnected false) m) (p_node p)) p)
      | _ => None
      end)
  | PeerReceives j i => at_peer j (λ p m,
      o ← Slave.pending m !! i; '(k, d) ← slave_read_result m o (p_down p);
      guard (slave_completes m o k);;
      Some (set_p_down (drop (length d) (p_down p)) (p_down_given p)
        (set_p_node (set_slave (complete i k m) (p_node p)) p)))
  | PeerTransmits j i count => at_peer j (λ p m,
      o ← Slave.pending m !! i;
      match o with
      | Slave.OpWrite n =>
          guard (p_linked p = true);; guard (Slave.socket_open m = true);;
          pk ← head (Slave._write_packets m); w ← returned (Packet.wire pk);
          guard (p_up_given p <= length w)%nat;;
          let chunk := take count (drop (p_up_given p) w) in
          Some (set_p_up (p_up p ++ chunk) (p_up_given p + length chunk) p)
      | _ => None
      end)
  | PeerWrites j i => at_peer j (λ p m,
      o ← Slave.pending m !! i;
      match o with
      | Slave.OpWrite n =>
          guard (Slave.socket_open m = true);; guard (Z.of_nat (p_up_given p) = n);;
          Some (set_p_up (p_up p) 0
            (set_p_node (set_slave (complete i (Slave.TWritten false n) m) (p_node p)) p))
      | _ => None
      end)
  | _ => None
  end.

Definition sys_act (a : sys_action) (s : system) : option system :=
  match master_act a s with Some s' => Some s' | None => peer_act a s end.

(** A schedule is played as long as the states fit. *)
Fixpoint sys_play (l : list sys_action) (s : system) : option system :=
  match l with
  | [] => Some s
  | a :: l => s' ← sys_act a s; guard (sys_fits s');; sys_play l s'
  end.

Lemma returned_Some {A} (r : outcome A) a : returned r = Some a → r = Ret a.
Proof. destruct r; naive_solver. Qed.

Lemma take_front {A} (l : list A) n : l = take n l ++ drop (length (take n l)) l.
Proof.
  rewrite length_take. destruct (decide (n <= length l)%nat).
  - rewrite Nat.min_l by done. by rewrite take_drop.
  - rewrite Nat.min_r by lia. rewrite take_ge, drop_ge by lia. by rewrite app_nil_r.
Qed.

Lemma head_cons {A} (l : list A) a : head l = Some a → ∃ q, l = a :: q.
Proof. destruct l; naive_solver. Qed.

(** Opens what a schedule's step has checked. *)
Ltac open_checks :=
  simplify_option_eq;
  repeat match goal with
  | R : match ?o with _ => _ end = Some _ |- _ => destruct o; simplify_option_eq
  | R : returned _ = Some _ |- _ => apply returned_Some in R
  | R : head _ = Some _ |- _ => apply head_cons in R as [? R]
  | R : master_read_result _ ?o _ = Some _ |- _ => destruct o; simplify_option_eq
  | R : slave_read_result _ ?o _ = Some _ |- _ => destruct o; simplify_option_eq
  end.

Lemma master_act_step a s s' : master_act a s = Some s' → sys_step s s'.
Proof.
  unfold master_act. destruct (master (sys_master s)) as [m|] eqn:G; [|done]. simpl. intros E.
  destruct a; try done; open_checks;
    first [by eapply master_runs|by eapply master_fails|by eapply master_accepts
          |by eapply master_writes
          |eapply master_receives;
             [exact G|done|first [done|simpl; by simplify_option_eq]|done|done|done|apply take_front]
          |eapply master_transmits; try done; symmetry; apply take_drop].
Qed.

Lemma peer_act_step a s s' : peer_act a s = Some s' → sys_step s s'.
Proof.
  unfold peer_act. intros E.
  destruct a; try done; open_checks;
    first [by eapply peer_announces|by eapply peer_runs|by eapply peer_fails
          |by eapply peer_connects|by eapply peer_writes
          |eapply peer_receives; [done|done|done|done|done|apply take_front]
          |eapply peer_transmits; try done; symmetry; apply take_drop].
Qed.

Lemma sys_act_step a s s' : sys_act a s = Some s' → sys_step s s'.
Proof.
  unfold sys_act. destruct (master_act a s) eqn:E.
  - intros [= <-]. by eapply master_act_step.
  - by apply peer_act_step.
Qed.

Lemma sys_steps_trans s1 s2 s3 : sys_steps s1 s2 → sys_steps s2 s3 → sys_steps s1 s3.
Proof.
  intros S1 S2. induction S2 as [|a b c _ IH St F]; [done|]. eapply sys_more; [by apply IH|exact St|exact F].
Qed.

Lemma sys_play_steps l s s' : sys_play l s = Some s' → sys_steps s s'.
Proof.
  revert s. induction l as [|a l IH]; intros s E; simpl in E; [simplify_eq; constructor|].
  destruct (sys_act a s) as [s1|] eqn:Ea; [|done]. simpl in E. case_guard; [|done]. simpl in E.
  eapply sys_steps_trans; [|by apply IH]. eapply sys_more; [constructor|by eapply sys_act_step|done].
Qed.
End Steps.
