(* ===== verification/SystemInv.v ===== *)
(** * The invariant of the group

    For every slave: the bytes on their way to it are frames of messages it
    understands, and learnt in order they give the master's state; the bytes on
    their way from it are frames the master understands.  Every step of
    System.v keeps it. *)

From S2P Require Import Prelude BytesOrder StdSet Archive Path DirTree Host Packet Ssh.
From S2P Require Import TcpMessager Channel MasterLoop UserFs Group Handshake Totality SlaveLoop.
From S2P Require Import Consistency Streams Receivers System.
Import Node.

(** The same for the slaves: a property of the messages they announce
    themselves with. *)
Class Speaking := spoken : bytes → Prop.

Section Steps.
Context `{TextArchive} `{Memory} `{Vouching} `{Speaking}.

(** ** The invariant *)

(** A message that fits a frame and the memory, and that the master
    understands. *)
Definition up_msg (msg : bytes) : Prop :=
  Protocol.wire_u64 (len msg) ∧ len msg <= vector_max ∧ readable msg ∧ spoken msg.

(** Where the master's reader of a peer is; before it is accepted, at a
    header. *)
Definition reader (m : Master.t) (hd : option nat) (r : rstate) : Prop :=
  match hd with None => r = RHeader | Some h => master_at m h r end.

(** The connection of a peer at the master, once it is in the list. *)
Definition entered (m : Master.t) (hd : option nat) : option Master.Connection :=
  hd ≫= λ h, Master._connections m !! h.

(** What the master has not given to it yet. *)
Definition down_out (m : Master.t) (hd : option nat) : option (list Packet.t) :=
  match hd with
  | None => Some []
  | Some h =>
      match Master._connections m !! h with
      | None => Some []
      | Some c => if Master.socket_open c then Some (unsent h m c) else None
      end
  end.

Definition up_out (sm : Slave.t) : option (list Packet.t) :=
  if Slave.socket_open sm then Some (slave_unsent sm) else None.

(** The messages on their way to a peer, learnt in order, give the state of the
    master. *)
Definition up_to_date (n : Node.t) (m : Master.t) (p : peer) (sm : Slave.t) (msgs : list bytes)
    : Prop :=
  ∀ c, entered m (p_handle p) = Some c → Master.socket_open c = true → Master.slave_id c ≠ 0 →
    Slave.socket_open sm = true →
    foldl learn (slave_knows (p_node p)) msgs = knows n (Master.slave_id c).

Record peer_inv (n : Node.t) (m : Master.t) (p : peer) (sm : Slave.t) : Prop := {
  pi_slave : slave (p_node p) = Some sm;
  pi_sinv : SInv sm;
  pi_standby : is_standby (p_node p);
  pi_rooted : rooted (p_node p);
  pi_connect : Slave.OpConnect ∈ Slave.pending sm → p_linked p = false;
  pi_linked : p_linked p = false → p_handle p = None;
  pi_handle h : p_handle p = Some h →
    (h < length (Master._connections m))%nat ∨
    (h = length (Master._connections m) ∧ ∃ r, Master.TAccepted false r ∈ Master.ready m);
  pi_idle : entered m (p_handle p) = None → p_down p = [] ∧ p_down_given p = 0%nat;
  pi_down r : slave_at sm r →
    ∃ msgs, channel down_msg r (p_down p) (p_down_given p) (down_out m (p_handle p)) msgs ∧
      (entered m (p_handle p) = None → msgs = []) ∧ up_to_date n m p sm msgs;
  pi_up r : reader m (p_handle p) r →
    ∃ msgs, channel up_msg r (p_up p) (p_up_given p) (up_out sm) msgs
}.

Record sys_inv (s : system) (m : Master.t) : Prop := {
  si_serving : serving_master (sys_master s) m;
  si_rooted : rooted (sys_master s);
  si_inv : Inv m;
  si_fits : sys_fits s;
  si_good : Forall good_task (Master.ready m);
  si_unsent h c : Master._connections m !! h = Some c → Master.socket_open c = true →
    Forall good (unsent h m c);
  si_peers j p : sys_peers s !! j = Some p → ∃ sm, peer_inv (sys_master s) m p sm;
  si_distinct j j' p p' h : sys_peers s !! j = Some p → sys_peers s !! j' = Some p' →
    p_handle p = Some h → p_handle p' = Some h → j = j';
  si_received k h d : k ∈ Master.ready m → master_received k = Some (h, d) →
    ∃ j p, sys_peers s !! j = Some p ∧ p_handle p = Some h
}.

Lemma down_msg_wire msg : down_msg msg → Protocol.wire_u64 (len msg).
Proof. by intros []. Qed.

Lemma up_msg_wire msg : up_msg msg → Protocol.wire_u64 (len msg).
Proof. by intros []. Qed.

(** *** At the start *)

Lemma started_inv s : sys_started s → ∃ m, sys_inv s m.
Proof.
  intros [(e1 & e2 & e3 & e4 & G) R T P F].
  exists (Master.start e1 e2 e3 e4 Master.create).
  set (m := Master.start e1 e2 e3 e4 Master.create) in *.
  assert (Master._connections m = [] ∧ Master.ready m = []) as [Ec Er] by (by destruct e1, e2, e3, e4).
  destruct T as (r & Er' & W). rewrite Forall_forall in P.
  split; [split; [done|by exists r|done]|by exists r|apply Inv_start|done|by rewrite Er| | | |].
  - intros h c. by rewrite Ec.
  - intros j p Hp. apply list_elem_of_lookup_2, P in Hp.
    destruct Hp as (S & St & Rp & A & L & Hh & D & Dg & U & Ug).
    exists (Slave.start Slave.create).
    split; try done; rewrite ?Hh; try done.
    + apply SInv_start.
    + intros r0 [(o & Ho & E)|(k & Hk & E)].
      * simpl in Ho. apply list_elem_of_singleton in Ho as ->. done.
      * by apply elem_of_nil in Hk.
    + intros r0 ->. rewrite U, Ug. exists []. apply channel_empty.
  - intros j j' p p' h Hp. apply list_elem_of_lookup_2, P in Hp.
    destruct Hp as (_ & _ & _ & _ & _ & Hh & _). congruence.
  - intros k h d Hk. rewrite Er in Hk. by apply elem_of_nil in Hk.
Qed.

(** *** A handler of the master *)

Lemma elem_of_delete_ne {A} (l : list A) i i' x : l !! i' = Some x → i' ≠ i → x ∈ delete i l.
Proof.
  intros Hx Hne. apply list_elem_of_lookup. destruct (decide (i' < i)%nat).
  - exists i'. by rewrite list_lookup_delete_lt.
  - exists (pred i'). rewrite list_lookup_delete_ge by lia. by replace (S (pred i')) with i' by lia.
Qed.

Lemma fill_decode (msg : bytes) buf z :
  Protocol.wire_u64 (len msg) →
  network_to_host_64 (fill (host_to_network_64 (len msg)) buf) = Ret z → z = len msg.
Proof.
  intros Hw. unfold fill. rewrite network_to_host_64_small by done. by intros [= <-].
Qed.

(** A received result is where the reader of its connection is. *)
Lemma received_at m k h d :
  Inv m → k ∈ Master.ready m → master_received k = Some (h, d) →
  ∃ r, master_at m h r ∧
    (r = RGotHeader d ∧ k = Master.THeader h false d ∨
     ∃ size, r = RGotBody size d ∧ k = Master.TBody h false d).
Proof.
  intros I Hk E. pose proof (inv_ready _ _ _ _ I) as V. rewrite Forall_forall in V.
  pose proof (V k Hk) as Vk. unfold master_at.
  destruct k as [| | | |h0 [] d0|h0 [] d0|]; simplify_eq/=;
    destruct (lookup_lt_is_Some_2 _ _ Vk) as [c ->].
  - exists (RGotHeader d). split; [|by left]. right. eexists. split; [done|]. simpl.
    by rewrite Nat.eqb_refl.
  - exists (RGotBody (Packet.size (Master.packet c)) d). split; [|right; by eexists].
    right. eexists. split; [done|]. simpl. by rewrite Nat.eqb_refl.
Qed.

Lemma reader_moved m i k m' h wire given out :
  Inv m → Master.ready m !! i = Some k → master_ran m i k m' →
  (∀ r, master_at m h r → ∃ msgs, channel up_msg r wire given out msgs) →
  ∀ r, master_at m' h r → ∃ msgs, channel up_msg r wire given out msgs.
Proof.
  intros I Hk M C r A. pose proof (list_elem_of_lookup_2 _ _ _ Hk) as Hin.
  destruct (mran_at _ _ _ _ M h r A) as [A'|d buf z -> Hz ->|d -> ->].
  - by apply C.
  - destruct (received_at m _ h d I Hin eq_refl) as (r0 & A0 & [[-> _]|(? & _ & ?)]); [|done].
    destruct (C _ A0) as [msgs Ch]. apply (channel_header up_msg up_msg_wire) in Ch as (msg & rest & -> & Hm & -> & Ch).
    apply fill_decode in Hz as ->; [|by apply up_msg_wire]. by eexists.
  - destruct (received_at m _ h d I Hin eq_refl) as (r0 & A0 & [[_ ?]|(size & -> & _)]); [done|].
    destruct (C _ A0) as [msgs Ch]. apply (channel_body up_msg up_msg_wire) in Ch as (rest & -> & _ & Ch).
    by eexists.
Qed.

Lemma down_moved n m n' m' p sm r :
  grows n m n' m' → (length (Master._connections m) <= length (Master._connections m'))%nat →
  (∃ msgs, channel down_msg r (p_down p) (p_down_given p) (down_out m (p_handle p)) msgs ∧
      (entered m (p_handle p) = None → msgs = []) ∧ up_to_date n m p sm msgs) →
  ∃ msgs, channel down_msg r (p_down p) (p_down_given p) (down_out m' (p_handle p)) msgs ∧
      (entered m' (p_handle p) = None → msgs = []) ∧ up_to_date n' m' p sm msgs.
Proof.
  intros [Gt Gc] L (msgs & Ch & E & U). unfold down_out, entered, up_to_date in *.
  destruct (p_handle p) as [h|]; [|by exists msgs]. simpl in *.
  destruct (Master._connections m' !! h) as [c'|] eqn:Hc'.
  2:{ assert (Master._connections m !! h = None) as Hc by (apply lookup_ge_None in Hc'; apply lookup_ge_None; lia).
      rewrite Hc in *. by exists msgs. }
  destruct (Master.socket_open c') eqn:O'.
  2:{ exists msgs. split; [by eapply channel_close|]. split; [done|]. intros c [= <-]. congruence. }
  destruct (Gc h c' Hc' O') as [(c & ps & Hc & O & Eu & Gp & K)|(Hc & Hi & Eu)]; rewrite Hc in *.
  - rewrite O in Ch. rewrite Eu. exists (msgs ++ (body <$> ps)).
    split; [by apply channel_grow|]. split; [done|]. intros c0 [= <-] _ Hi Os.
    rewrite foldl_app. apply K; [done|]. intros Hi'. by apply U.
  - rewrite Eu. exists (msgs ++ (body <$> posts_for h (Master.ready m'))).
    split; [|split; [done|by intros c0 [= <-]]].
    apply (channel_grow down_msg r _ _ []); [done|]. by apply posts_for_good.
Qed.

Lemma peer_inv_runs n m i k n' m' p sm :
  Inv m → Master.ready m !! i = Some k → grows n m n' m' → master_ran m i k m' →
  (∃ posts, Master.ready m' = delete i (Master.ready m) ++ posts) →
  peer_inv n m p sm → peer_inv n' m' p sm.
Proof.
  intros I Hk G M [posts R] []. pose proof (mran_length _ _ _ _ M) as L.
  split; try done.
  - intros h Hh. destruct (pi_handle0 h Hh) as [Hl|(-> & r & Hr)]; [left; lia|].
    apply list_elem_of_lookup in Hr as [i' Hi'].
    destruct (decide (i' = i)) as [->|Hne].
    + rewrite Hk in Hi'. injection Hi' as ->. left. simpl in L. lia.
    + right. assert (accepted_one k = 0%nat) as Z.
      { destruct k; try done. destruct ec; [done|]. exfalso.
        pose proof (inv_accepts _ _ _ _ I) as A. unfold accepts in A.
        pose proof (count_delete is_accept_task _ _ _ Hk) as C. simpl in C.
        pose proof (count_elem is_accept_task _ _ (elem_of_delete_ne _ _ _ _ Hi' Hne) eq_refl). lia. }
      split; [lia|]. exists r. rewrite R. apply elem_of_app. left. by eapply elem_of_delete_ne.
  - intros E. apply pi_idle0. unfold entered in *. destruct (p_handle p) as [h|]; [|done]. simpl in *.
    apply lookup_ge_None in E. apply lookup_ge_None. lia.
  - intros r A. eapply (down_moved n m n' m'); [done|lia|by apply pi_down0].
  - unfold reader in *. destruct (p_handle p) as [h|]; [|done].
    by eapply (reader_moved m i k m' h).
Qed.

(** *** An operation of the master completes *)

Lemma completes_not_post m o k : completes m o k → is_post k = false.
Proof. by destruct o, k. Qed.

Lemma acked_completed h i k m :
  acked h (master_completed i k m) = acked h m || is_acked h k.
Proof.
  unfold acked. simpl. rewrite count_app. simpl. destruct (is_acked h k); rewrite ?orb_true_r, ?orb_false_r.
  - apply Nat.ltb_lt. lia.
  - by rewrite !Nat.add_0_r.
Qed.

Lemma posts_completed h m o i k :
  completes m o k → posts_for h (Master.ready (master_completed i k m)) = posts_for h (Master.ready m).
Proof.
  intros Hk. simpl. rewrite posts_for_app. unfold posts_for at 2. simpl.
  rewrite post_for_not_post by (by eapply completes_not_post). by rewrite app_nil_r.
Qed.

Lemma unsent_completed h m o i k c :
  completes m o k → is_acked h k = false → unsent h (master_completed i k m) c = unsent h m c.
Proof.
  intros Hk A. unfold unsent. by rewrite acked_completed, A, orb_false_r, (posts_completed h m o).
Qed.

Lemma unsent_completed_good h m o i k c :
  completes m o k → Forall good (unsent h m c) → Forall good (unsent h (master_completed i k m) c).
Proof.
  intros Hk. unfold unsent. rewrite acked_completed, (posts_completed h m o) by done.
  rewrite !Forall_app. intros [F1 F2]. split; [|done].
  destruct (acked h m); [done|]. simpl. destruct (is_acked h k); [|done]. by destruct F1.
Qed.

(** The result does not concern the reader of [h]. *)
Lemma master_at_completed m i k h r :
  (∀ d, master_received k ≠ Some (h, d)) → master_at (master_completed i k m) h r → master_at m h r.
Proof.
  intros Hk. unfold master_at. simpl. destruct (Master._connections m !! h) as [c|]; [|done].
  intros [(o & Ho & E)|(k' & Hk' & E)].
  - left. exists o. split; [by eapply list_elem_of_delete_inv|done].
  - right. exists k'. split; [|done].
    apply elem_of_app in Hk' as [Hk'| ->%list_elem_of_singleton]; [done|]. exfalso.
    destruct k as [| | | |h0 [] d0|h0 [] d0|]; simplify_eq/=;
      destruct (Nat.eqb_spec h0 h) as [->|]; try done; by apply (Hk d0).
Qed.

(** It is the reader of [h]: nothing else is under way for it. *)
Lemma master_at_received m i o k h d r :
  Inv m → Master.pending m !! i = Some o → completes m o k → master_received k = Some (h, d) →
  master_at (master_completed i k m) h r →
  ∃ c, Master._connections m !! h = Some c ∧
    (o = Master.OpReadHeader h ∧ r = RGotHeader d ∧ len d = Packet.sizeLength ∧ master_at m h RHeader ∨
     o = Master.OpReadBody h ∧ r = RGotBody (Packet.size (Master.packet c)) d ∧
       len d = Packet.size (Master.packet c) ∧ master_at m h (RBody (Packet.size (Master.packet c)))).
Proof.
  intros I Ho Hc Hr A.
  assert (is_read_op h o = true ∧ is_read_task h k = true) as [Or Kr].
  { destruct o, k as [| | | |? []|? []|]; simplify_eq/=; try done; destruct Hc as [-> _];
      by rewrite Nat.eqb_refl. }
  assert (∃ c, Master._connections m !! h = Some c) as [c Hcn].
  { apply lookup_lt_is_Some_2. pose proof (inv_pending _ _ _ _ I) as V. rewrite Forall_forall in V.
    specialize (V o (list_elem_of_lookup_2 _ _ _ Ho)).
    destruct o; simplify_eq/=; by apply Nat.eqb_eq in Or as <-. }
  exists c. split; [done|]. destruct (inv_reads _ _ _ _ I h c Hcn) as [R _]. unfold reads in R.
  pose proof (count_delete (is_read_op h) _ _ _ Ho) as E. rewrite Or in E.
  unfold master_at in A. simpl in A. rewrite Hcn in A.
  assert (master_task_state h c k = Some r) as Es.
  { destruct A as [(o' & Ho' & E')|(k' & Hk' & E')].
    - assert (is_read_op h o' = false) as N by (eapply (count_zero_not (is_read_op h)); [|exact Ho']; lia).
      destruct o'; simplify_eq/=; by rewrite N in E'.
    - apply elem_of_app in Hk' as [Hk'| ->%list_elem_of_singleton]; [|done].
      assert (is_read_task h k' = false) as N by (eapply (count_zero_not (is_read_task h)); [|exact Hk']; lia).
      destruct k' as [| | | |? []|? []|]; simplify_eq/=; by rewrite N in E'. }
  unfold master_at. rewrite Hcn. pose proof (list_elem_of_lookup_2 _ _ _ Ho) as Hin.
  destruct o, k as [| | | |? []|? []|]; simplify_eq/=; try done;
    destruct Hc as [-> Hc]; rewrite Hcn in Hc; destruct Hc as [_ Hc]; destruct (Hc eq_refl) as [Hl _];
    rewrite Nat.eqb_refl in Es; injection Es as <-; [left|right];
    (split_and!; [done|done|done|]); left; eexists; (split; [exact Hin|]); simpl;
    by rewrite Nat.eqb_refl.
Qed.

Lemma peer_inv_completed n m i o k p sm :
  completes m o k → (∀ h, p_handle p = Some h → is_acked h k = false) →
  (∀ h d, p_handle p = Some h → master_received k ≠ Some (h, d)) →
  peer_inv n m p sm → peer_inv (set_master (master_completed i k m) n) (master_completed i k m) p sm.
Proof.
  intros Hk Ha Hr []. split; try done.
  - intros h Hh. destruct (pi_handle0 h Hh) as [Hl|(-> & r & Hin)]; [by left|right].
    split; [done|]. exists r. simpl. apply elem_of_app. by left.
  - intros r A. destruct (pi_down0 r A) as (msgs & Ch & E & U). exists msgs.
    split; [|done]. unfold down_out in *. destruct (p_handle p) as [h|]; [|done]. simpl.
    destruct (Master._connections m !! h) as [c|]; [|done]. destruct (Master.socket_open c); [|done].
    by rewrite (unsent_completed h m o) by auto.
  - intros r. unfold reader in *. destruct (p_handle p) as [h|]; [|by apply pi_up0].
    intros A. apply pi_up0. eapply master_at_completed; [|exact A]. intros d. by apply Hr.
Qed.

(** The peer an accept takes. *)
Lemma peer_inv_accepted n m i remote p sm :
  p_linked p = true → p_handle p = None → peer_inv n m p sm →
  peer_inv (set_master (master_completed i (Master.TAccepted false remote) m) n)
    (master_completed i (Master.TAccepted false remote) m)
    (set_p_handle (length (Master._connections m)) p) sm.
Proof.
  intros Hl Hh []. unfold reader, entered, down_out, up_to_date, entered in *. rewrite Hh in *.
  assert (Master._connections m !! length (Master._connections m) = None) as N
    by (by apply lookup_ge_None).
  split; try done; simpl; unfold reader, entered, down_out, up_to_date, entered, master_at; simpl;
    rewrite ?N; try done.
  - intros E. congruence.
  - intros h [= <-]. right. split; [done|]. exists remote. apply elem_of_app. right.
    by apply list_elem_of_singleton.
Qed.

(** The peer whose bytes the master has read. *)
Lemma peer_inv_received n m i o k h d rest p sm :
  Inv m → Master.pending m !! i = Some o → completes m o k → master_received k = Some (h, d) →
  p_handle p = Some h → p_up p = d ++ rest → peer_inv n m p sm →
  peer_inv (set_master (master_completed i k m) n) (master_completed i k m)
    (set_p_up rest (p_up_given p) p) sm.
Proof.
  intros I Ho Hk Hr Hh Hu P.
  assert (∀ h', is_acked h' k = false) as Ha by (by destruct k as [| | | |? []|? []|]).
  destruct P. split; try done; simpl.
  - intros h' Hh'. destruct (pi_handle0 h' Hh') as [Hl|(-> & r & Hin)]; [by left|right].
    split; [done|]. exists r. apply elem_of_app. by left.
  - intros r A. destruct (pi_down0 r A) as (msgs & Ch & E & U). exists msgs.
    split; [|done]. unfold down_out in *. rewrite Hh in *. simpl.
    destruct (Master._connections m !! h) as [c|]; [|done]. destruct (Master.socket_open c); [|done].
    by rewrite (unsent_completed h m o) by auto.
  - rewrite Hh in *. simpl in *. intros r A.
    destruct (master_at_received m i o k h d r I Ho Hk Hr A)
      as (c & Hc & [(_ & -> & Hl & A')|(_ & -> & Hl & A')]);
      destruct (pi_up0 _ A') as [msgs Ch]; exists msgs; rewrite Hu in Ch.
    + by apply channel_receive_header.
    + by apply channel_receive_body.
Qed.

(** The packet that is being written, and what it is on the wire. *)
Lemma down_front m h c pk q w :
  Master.queue c = pk :: q → Packet.wire pk = Ret w → acked h m = false →
  Forall good (unsent h m c) → ∃ ps, unsent h m c = pk :: ps ∧ w = frame (body pk) ∧
    Packet.size pk = len w.
Proof.
  intros Q W A F. unfold unsent in *. rewrite A, Q in *. eexists. split; [done|].
  apply Forall_cons in F as [[E [Hw _]] _]. destruct (sent_wire (body pk) Hw) as [W' S'].
  rewrite <- E in W', S'. rewrite W in W'. by injection W' as ->.
Qed.

Lemma not_acked_op m h n c :
  Inv m → Master.OpWrite h n ∈ Master.pending m → Master._connections m !! h = Some c →
  Master.socket_open c = true → acked h m = false ∧ ∃ pk q, Master.queue c = pk :: q ∧ n = Packet.size pk.
Proof.
  intros I Hin Hc O. pose proof (inv_writes _ _ _ _ I h c Hc O) as W. rewrite token_None in W.
  pose proof (writes_op h n m Hin) as W1. split.
  - unfold acked. apply Nat.ltb_ge. unfold writes in *.
    pose proof (count_elem (is_write_op h) _ _ Hin (Nat.eqb_refl h)) as W2.
    pose proof (acked_count h (Master.ready m)).
    destruct (nonempty _); lia.
  - destruct (Master.queue c) as [|pk q] eqn:Q; [simpl in W; lia|]. exists pk, q. split; [done|].
    eapply (inv_op_size _ _ _ _ I h c); [done..|by rewrite Q].
Qed.

(** When the write completes its packet is the first that is not given yet. *)
Lemma written_unsent m i h z c :
  Inv m → Master.pending m !! i = Some (Master.OpWrite h z) →
  completes m (Master.OpWrite h z) (Master.TWritten h false z) →
  Master._connections m !! h = Some c → Forall good (unsent h m c) →
  Master.socket_open c = true ∧ ∃ pk ps, unsent h m c = pk :: ps ∧ z = len (frame (body pk)) ∧
    unsent h (master_completed i (Master.TWritten h false z) m) c = ps.
Proof.
  intros I Ho Hk Hc F. pose proof Hk as [_ Hk']. rewrite Hc in Hk'. destruct Hk' as [_ Hk'].
  destruct (Hk' eq_refl) as [_ O]. split; [done|].
  destruct (not_acked_op m h z c I (list_elem_of_lookup_2 _ _ _ Ho) Hc O) as (Ac & pk & q & Q & Sz).
  assert (∃ w, Packet.wire pk = Ret w) as [w W].
  { apply wire_Ret. pose proof (inv_queue _ _ _ _ I h c Hc) as V. rewrite Q in V.
    by apply Forall_cons in V as [V _]. }
  destruct (down_front m h c pk q w Q W Ac F) as (ps & Eu & -> & Es).
  exists pk, ps. split_and!; [done|congruence|].
  unfold unsent in *. rewrite acked_completed, (posts_completed h m _ _ _ Hk).
  simpl. rewrite Nat.eqb_refl, orb_true_r. rewrite Ac, Q in Eu. rewrite Q. by injection Eu as <-.
Qed.

Lemma peer_inv_transmits n m i h z c pk q w chunk rest p sm :
  Inv m → Master.pending m !! i = Some (Master.OpWrite h z) →
  Master._connections m !! h = Some c → Master.socket_open c = true →
  Master.queue c = pk :: q → Packet.wire pk = Ret w → p_handle p = Some h →
  (p_down_given p <= length w)%nat → drop (p_down_given p) w = chunk ++ rest →
  peer_inv n m p sm →
  peer_inv n m (set_p_down (p_down p ++ chunk) (p_down_given p + length chunk) p) sm.
Proof.
  intros I Ho Hc O Q W Hh Hg Hd []. split; try done; simpl.
  - unfold entered. rewrite Hh. simpl. by rewrite Hc.
  - intros r A. destruct (pi_down0 r A) as (msgs & Ch & E & U). exists msgs. split; [|done].
    unfold down_out in *. rewrite Hh, Hc, O in *.
    destruct (not_acked_op m h z c I (list_elem_of_lookup_2 _ _ _ Ho) Hc O) as [Ac _].
    pose proof Ch as (_ & _ & rest0 & _ & F). destruct (F _ eq_refl) as [Fg _].
    destruct (down_front m h c pk q w Q W Ac Fg) as (ps & Eu & -> & _). rewrite Eu in *.
    by eapply channel_transmit.
Qed.

Lemma peer_inv_writes n m i h z p sm :
  Inv m → Master.pending m !! i = Some (Master.OpWrite h z) →
  completes m (Master.OpWrite h z) (Master.TWritten h false z) →
  p_handle p = Some h → Z.of_nat (p_down_given p) = z → peer_inv n m p sm →
  peer_inv (set_master (master_completed i (Master.TWritten h false z) m) n)
    (master_completed i (Master.TWritten h false z) m) (set_p_down (p_down p) 0 p) sm.
Proof.
  intros I Ho Hk Hh Hg P. pose proof Hk as [_ Hc].
  destruct (Master._connections m !! h) as [c|] eqn:Hcn; [|done]. clear Hc.
  destruct P. split; try done; simpl.
  - intros h' Hh'. destruct (pi_handle0 h' Hh') as [Hl|(-> & r & Hin)]; [by left|right].
    split; [done|]. exists r. apply elem_of_app. by left.
  - unfold entered. rewrite Hh. simpl. by rewrite Hcn.
  - intros r A. destruct (pi_down0 r A) as (msgs & Ch & E & U). exists msgs. split; [|done].
    unfold down_out in *. rewrite Hh in *. simpl. rewrite Hcn in *.
    destruct (Master.socket_open c); [|by eapply channel_close].
    pose proof Ch as (_ & _ & rest0 & _ & F). destruct (F _ eq_refl) as [Fg _].
    destruct (written_unsent m i h z c I Ho Hk Hcn Fg) as (_ & pk & ps & Eu & Ez & ->).
    rewrite Eu in Ch. replace (p_down_given p) with (length (frame (body pk))) in Ch
      by (rewrite Ez in Hg; unfold len in Hg; lia).
    by eapply channel_written.
  - rewrite Hh in *. simpl in *. intros r A. apply pi_up0.
    by eapply (master_at_completed m i (Master.TWritten h false z)).
Qed.

(** *** A handler of a slave *)

Lemma peer_inv_peer_runs n m p sm i k n' :
  peer_inv n m p sm → Slave.ready sm !! i = Some k →
  (is_slave_post k = true → Forall (λ k, is_slave_post k = false) (take i (Slave.ready sm))) →
  slave_run_task k (set_slave (remove_ready i sm) (p_node p)) = Ret n' →
  ∃ sm', peer_inv n m (set_p_node n' p) sm'.
Proof.
  intros P Hk F E. destruct (slave_run_ran (p_node p) sm i k n' (pi_sinv _ _ _ _ P) Hk F E) as (sm' & R).
  destruct (slave_run_SInv (N := Node.t) (H := node_slave) k
    (set_slave (remove_ready i sm) (p_node p)) sm i n' eq_refl Hk (pi_sinv _ _ _ _ P) E) as (sm2 & G2 & I2).
  change (slave n' = Some sm2) in G2. rewrite (ran_slave _ _ _ _ _ R) in G2. injection G2 as <-.
  pose proof (slave_run_rooted k _ _ E (pi_rooted _ _ _ _ P)) as Rt.
  pose proof (list_elem_of_lookup_2 _ _ _ Hk) as Hin. destruct P, R.
  exists sm'. split; try done; simpl; [by auto|by auto| |].
  - intros r A. unfold up_to_date in *. simpl.
    destruct (ran_at r A) as [A0 K| -> -> K|d buf z -> Hz -> K|d n1 n2 -> -> K1 E2 K2].
    + destruct (pi_down0 r A0) as (msgs & Ch & En & U). exists msgs. split; [done|].
      split; [done|]. intros c Hc O Hi Os. rewrite K by done. apply U; auto.
    + destruct (pi_down0 RHeader) as (msgs & Ch & En & U); [right; by eexists|]. exists msgs.
      split; [done|]. split; [done|]. intros c Hc O Hi Os. rewrite K. apply U; auto.
    + destruct (pi_down0 (RGotHeader d)) as (msgs & Ch & En & U); [right; by eexists|].
      apply (channel_header down_msg down_msg_wire) in Ch as (msg & rest & -> & Hm & -> & Ch).
      apply fill_decode in Hz as ->; [|by apply down_msg_wire].
      exists (msg :: rest). split; [done|]. split; [done|]. intros c Hc O Hi Os.
      rewrite K. apply U; auto.
    + destruct (pi_down0 (RGotBody (Packet.size (Slave._packet sm)) d)) as (msgs & Ch & En & U);
        [right; by eexists|].
      apply (channel_body down_msg down_msg_wire) in Ch as (rest & -> & Hd & Ch).
      exists rest. split; [done|]. split; [intros C; by apply En in C|]. intros c Hc O Hi Os.
      rewrite K2. destruct Hd as (_ & _ & Hd & _).
      change (slave_knows n2) with (knows n2 (_host_id n2)). rewrite (read_slave_learns d n1 n2 Hd E2).
      change (knows n1 (_host_id n1)) with (slave_knows n1). rewrite K1.
      apply (U c); auto.
  - intros r A. destruct (pi_up0 r A) as [msgs Ch]. exists msgs. unfold up_out in *.
    destruct (Slave.socket_open sm') eqn:O; [|by eapply channel_close].
    rewrite ran_open in Ch by done. by rewrite ran_unsent.
Qed.

(** *** An operation of a slave completes *)

Lemma slave_at_completed sm i k r :
  slave_task_state sm k = None → slave_at (complete i k sm) r → slave_at sm r.
Proof.
  intros Hk [(o & Ho & E)|(k' & Hk' & E)].
  - simpl in Ho. left. exists o. split; [by eapply list_elem_of_delete_inv|by destruct o].
  - simpl in Hk'. apply elem_of_app in Hk' as [Hk'| ->%list_elem_of_singleton].
    + right. exists k'. by destruct k' as [| |[]|[]|[]|].
    + destruct k as [| |[]|[]|[]|]; simplify_eq/=.
Qed.

(** Only one connect or read is under way, so it is the one that completed. *)
Lemma slave_at_read sm i o k r :
  SInv sm → Slave.pending sm !! i = Some o → is_read o = true → is_read_done k = true →
  slave_at (complete i k sm) r → slave_task_state sm k = Some r.
Proof.
  intros I Ho Or Kr A. pose proof (sinv_reads _ _ _ I) as R. unfold slave_reads in R.
  pose proof (count_delete is_read _ _ _ Ho) as E. rewrite Or in E.
  destruct A as [(o' & Ho' & E')|(k' & Hk' & E')].
  - simpl in Ho'. assert (is_read o' = false) by (eapply (count_zero_not is_read); [|exact Ho']; lia). by destruct o'.
  - simpl in Hk'. apply elem_of_app in Hk' as [Hk'| ->%list_elem_of_singleton].
    + assert (is_read_done k' = false) by (eapply (count_zero_not is_read_done); [|exact Hk']; lia).
      by destruct k' as [| |[]|[]|[]|].
    + by destruct k as [| |[]|[]|[]|].
Qed.

Lemma slave_unsent_completed sm i o k :
  slave_completes sm o k → is_slave_acked k = false →
  slave_unsent (complete i k sm) = slave_unsent sm.
Proof.
  intros Hk A. unfold slave_unsent, slave_acked. cbn [Slave.ready Slave._write_packets complete].
  rewrite count_app, slave_posts_app. assert (slave_posts [k] = []) as -> by (by destruct o, k).
  simpl. by rewrite A, !Nat.add_0_r, app_nil_r.
Qed.

(** An error. *)
Lemma peer_inv_peer_fails n m p sm i o k :
  peer_inv n m p sm → Slave.pending sm !! i = Some o → slave_completes sm o k →
  slave_failed k = true →
  peer_inv n m (set_p_node (set_slave (complete i k sm) (p_node p)) p) (complete i k sm).
Proof.
  intros [] Ho Hk Hf. split; try done; simpl.
  - by eapply SInv_complete.
  - intros C. apply pi_connect0. by eapply list_elem_of_delete_inv.
  - intros r A. apply slave_at_completed in A; [|by destruct k as [| |[]|[]|[]|]]. by apply pi_down0.
  - unfold up_out in *. simpl. rewrite (slave_unsent_completed sm i o k); [done|done|].
    by destruct k as [| | | | |[]].
Qed.

Lemma peer_inv_connects n m p sm i :
  peer_inv n m p sm → Slave.pending sm !! i = Some Slave.OpConnect →
  peer_inv n m (link (set_slave (complete i (Slave.TConnected false) sm) (p_node p)) p)
    (complete i (Slave.TConnected false) sm).
Proof.
  intros [] Ho. pose proof (list_elem_of_lookup_2 _ _ _ Ho) as Hin.
  pose proof (pi_linked0 (pi_connect0 Hin)) as Hh.
  split; try done; simpl.
  - by eapply SInv_complete.
  - intros C. exfalso. pose proof (sinv_reads _ _ _ pi_sinv0) as R. unfold slave_reads in R.
    pose proof (count_delete is_read _ _ _ Ho) as E. simpl in E.
    pose proof (count_elem is_read _ _ C eq_refl). lia.
  - intros r A. apply (slave_at_read sm i Slave.OpConnect) in A; [|done..]. injection A as <-.
    rewrite Hh in *. destruct (pi_idle0 eq_refl) as [-> ->]. exists [].
    split; [apply channel_empty|]. split; [done|]. unfold up_to_date. simpl. by rewrite Hh.
  - unfold up_out in *. simpl.
    by rewrite (slave_unsent_completed sm i Slave.OpConnect (Slave.TConnected false)).
Qed.

(** Bytes of the master's stream. *)
Lemma peer_inv_peer_receives n m p sm i o k d rest :
  peer_inv n m p sm → Slave.pending sm !! i = Some o → slave_completes sm o k →
  slave_received k = Some d → p_down p = d ++ rest →
  peer_inv n m (set_p_down rest (p_down_given p)
    (set_p_node (set_slave (complete i k sm) (p_node p)) p)) (complete i k sm).
Proof.
  intros [] Ho Hk Hr Hd.
  assert (is_read o = true ∧ is_read_done k = true ∧ is_slave_acked k = false) as (Or & Kr & Ka)
    by (by destruct o, k as [| | |[]|[]|]).
  pose proof (list_elem_of_lookup_2 _ _ _ Ho) as Hin.
  split; try done; simpl.
  - by eapply SInv_complete.
  - intros C. apply pi_connect0. by eapply list_elem_of_delete_inv.
  - intros En. destruct (pi_idle0 En) as [E ?]. rewrite E in Hd. symmetry in Hd.
    by apply app_nil in Hd as [_ ->].
  - intros r A. apply (slave_at_read sm i o k r) in A; [|done..].
    destruct o, k as [| | |[]|[]|]; simplify_eq/=; try done; destruct Hk as [_ Hk]; specialize (Hk eq_refl).
    + destruct (pi_down0 RHeader) as (msgs & Ch & En & U); [left; by eexists|].
      exists msgs. rewrite Hd in Ch. split; [by apply channel_receive_header|done].
    + destruct (pi_down0 (RBody (Packet.size (Slave._packet sm)))) as (msgs & Ch & En & U);
        [left; by eexists|].
      exists msgs. rewrite Hd in Ch. split; [by apply channel_receive_body|done].
  - unfold up_out in *. simpl. by rewrite (slave_unsent_completed sm i o k).
Qed.

(** A write that is under way has its packet at the front of the queue. *)
Lemma slave_front sm i z :
  SInv sm → Slave.pending sm !! i = Some (Slave.OpWrite z) →
  ∃ pk q, Slave._write_packets sm = pk :: q ∧ z = Packet.size pk ∧ slave_acked sm = false ∧
    slave_unsent sm = pk :: q ++ slave_posts (Slave.ready sm).
Proof.
  intros I Ho. pose proof (list_elem_of_lookup_2 _ _ _ Ho) as Hin.
  destruct (sinv_op_size _ _ _ I z Hin) as (pk & Hp & ->).
  assert (slave_acked sm = false) as A.
  { unfold slave_acked. apply Nat.ltb_ge. pose proof (sinv_writes _ _ _ I) as W.
    unfold slave_writes in W. pose proof (count_elem is_write _ _ Hin eq_refl).
    assert (count is_slave_acked (Slave.ready sm) <= count is_write_done (Slave.ready sm))%nat.
    { clear. induction (Slave.ready sm) as [|k ks IH]; simpl; [lia|].
      destruct k as [| | | | |[]]; simpl; lia. }
    destruct (nonempty _); lia. }
  destruct (Slave._write_packets sm) as [|pk' q] eqn:Q; [done|]. simplify_eq/=.
  exists pk, q. split_and!; try done. unfold slave_unsent. by rewrite A, Q.
Qed.

Lemma peer_inv_peer_transmits n m p sm i z pk q w chunk rest :
  peer_inv n m p sm → Slave.pending sm !! i = Some (Slave.OpWrite z) →
  Slave.socket_open sm = true → Slave._write_packets sm = pk :: q → Packet.wire pk = Ret w →
  (p_up_given p <= length w)%nat → drop (p_up_given p) w = chunk ++ rest →
  peer_inv n m (set_p_up (p_up p ++ chunk) (p_up_given p + length chunk) p) sm.
Proof.
  intros [] Ho O Q W Hg Hd. split; try done; simpl. intros r A.
  destruct (pi_up0 r A) as [msgs Ch]. exists msgs. unfold up_out in *. rewrite O in *.
  destruct (slave_front sm i z pi_sinv0 Ho) as (pk' & q' & Q' & _ & _ & Eu).
  rewrite Q in Q'. injection Q' as <- <-. rewrite Eu in *.
  pose proof Ch as (_ & _ & rest0 & _ & F). destruct (F _ eq_refl) as [Fg _].
  apply Forall_cons in Fg as [[E [Hw _]] _]. destruct (sent_wire (body pk) Hw) as [W' _].
  rewrite <- E, W in W'. injection W' as ->. by eapply channel_transmit.
Qed.

Lemma peer_inv_peer_writes n m p sm i z :
  peer_inv n m p sm → Slave.pending sm !! i = Some (Slave.OpWrite z) →
  Slave.socket_open sm = true → Z.of_nat (p_up_given p) = z →
  peer_inv n m (set_p_up (p_up p) 0
    (set_p_node (set_slave (complete i (Slave.TWritten false z) sm) (p_node p)) p))
    (complete i (Slave.TWritten false z) sm).
Proof.
  intros [] Ho O Hg.
  destruct (slave_front sm i z pi_sinv0 Ho) as (pk & q & Q & Sz & Ac & Eu).
  split; try done; simpl.
  - by eapply SInv_complete.
  - intros C. apply pi_connect0. by eapply list_elem_of_delete_inv.
  - intros r A. apply slave_at_completed in A; [|done]. by apply pi_down0.
  - intros r A. destruct (pi_up0 r A) as [msgs Ch]. exists msgs. unfold up_out in *. simpl.
    rewrite O, Eu in *. pose proof Ch as (_ & _ & rest0 & _ & F). destruct (F _ eq_refl) as [Fg _].
    apply Forall_cons in Fg as [[E [Hw _]] _]. destruct (sent_wire (body pk) Hw) as [_ Es].
    rewrite <- E in Es.
    assert (slave_unsent (complete i (Slave.TWritten false z) sm) = q ++ slave_posts (Slave.ready sm)) as ->.
    { unfold slave_unsent, slave_acked. cbn [Slave.ready Slave._write_packets complete].
      rewrite count_app, slave_posts_app, Q. simpl.
      rewrite (proj2 (Nat.ltb_lt 0 (count is_slave_acked (Slave.ready sm) + 1))) by lia.
      by rewrite app_nil_r. }
    replace (p_up_given p) with (length (frame (body pk))) in Ch
      by (rewrite Sz, Es in Hg; unfold len in Hg; lia).
    by eapply channel_written.
Qed.

(** *** The main thread of a slave sends its files *)

Context `{!TextArchiveOk}.

(** The message a slave that has not announced itself would send. *)
Definition to_announce (p : peer) : Prop :=
  ∀ host, p_announced p = false → Hosts.get (_hosts (p_node p)) 0 = Ret host →
    spoken (Protocol.message_join (DirTree_serialize (_dir_tree (p_node p))) (Host.serialize host)).

Lemma join_up_msg n host :
  rooted n → len (DirTree_serialize (_dir_tree n)) + len (Host.serialize host) + 24 < 2 ^ 48 →
  len (DirTree_serialize (_dir_tree n)) + len (Host.serialize host) + 24 <= vector_max →
  spoken (Protocol.message_join (DirTree_serialize (_dir_tree n)) (Host.serialize host)) →
  up_msg (Protocol.message_join (DirTree_serialize (_dir_tree n)) (Host.serialize host)).
Proof.
  intros R F1 F2 Sp. destruct (deserialize_rooted n R) as (r & Er & Ed).
  pose proof (len_nonneg (DirTree_serialize (_dir_tree n))).
  pose proof (len_nonneg (Host.serialize host)).
  unfold up_msg. rewrite len_join. split; [unfold Protocol.wire_u64; lia|]. split; [done|].
  split; [|done]. eexists. split; [apply Protocol.parse_join; unfold Protocol.wire_u64; lia|]. simpl.
  exists r, host. split; [done|apply Host.deserialize_serialize].
Qed.

Lemma peer_inv_announces n m p sm n' :
  peer_inv n m p sm → peer_fits p → to_announce p → p_announced p = false →
  initTCPNetwork_finish false (p_node p) = Ret n' → ∃ sm', peer_inv n m (announce n' p) sm'.
Proof.
  intros P F Sp A E. unfold initTCPNetwork_finish in E. inv_bind.
  destruct (F a A Ha) as [F1 F2]. specialize (Sp a A Ha). destruct P. destruct pi_standby0 as [S1 S2].
  unfold on_tcp, TCPManager.write in E. rewrite S1, S2 in E.
  change (TCPManager._slave_messager (_tcp_manager (p_node p))) with (slave (p_node p)) in E.
  rewrite pi_slave0 in E. cbn [deref] in E. rewrite !bind_Ret in E. injection E as <-.
  pose proof (join_up_msg (p_node p) a pi_rooted0 F1 F2 Sp) as M.
  set (msg := Protocol.message_join _ _) in *.
  exists (Slave.write (sent msg) sm). split; try done; simpl.
  - apply SInv_post; [apply packet_ok_encodeData|done].
  - intros r At. apply pi_down0. eapply (slave_at_same sm); [| | |exact At]; [done|done|].
    intros k Kr Hk. simpl in Hk. apply elem_of_app in Hk as [Hk| ->%list_elem_of_singleton]; done.
  - intros r At. destruct (pi_up0 r At) as [msgs Ch]. unfold up_out in *. simpl.
    destruct (Slave.socket_open sm); [|by exists msgs].
    exists (msgs ++ (body <$> [sent msg])).
    assert (slave_unsent (Slave.write (sent msg) sm) = slave_unsent sm ++ [sent msg]) as ->.
    { unfold slave_unsent, slave_acked. cbn [Slave.ready Slave._write_packets Slave.write Slave.post].
      rewrite count_app, slave_posts_app. simpl. by rewrite Nat.add_0_r, app_assoc. }
    apply channel_grow; [done|]. by constructor.
Qed.

(** *** Every step *)

(** A slave changes. *)
Lemma sys_inv_peer s m j p p' :
  sys_inv s m → sys_peers s !! j = Some p → p_handle p' = p_handle p →
  (∃ sm', peer_inv (sys_master s) m p' sm') → sys_fits (put_peer j p' s) →
  sys_inv (put_peer j p' s) m.
Proof.
  intros [] Hp Hh P F. pose proof (lookup_lt_Some _ _ _ Hp) as Hl.
  split; try done; cbn [put_peer sys_peers sys_master].
  - intros j' q. rewrite list_lookup_insert_Some. intros [(<- & <- & _)|[Hne Hq]]; [done|by eapply si_peers0].
  - intros j1 j2 p1 p2 h. rewrite !list_lookup_insert_Some.
    intros [(<- & <- & _)|[H1' P1]] [(<- & <- & _)|[H2' P2]] E1 E2; try done.
    + rewrite Hh in E1. by eapply (si_distinct0 j j2 p p2 h).
    + rewrite Hh in E2. by eapply (si_distinct0 j1 j p1 p h).
    + by eapply (si_distinct0 j1 j2 p1 p2 h).
  - intros k h d Hk Hr. destruct (si_received0 k h d Hk Hr) as (j' & q & Hq & Eh).
    exists j'. destruct (decide (j' = j)) as [->|Hne].
    + exists p'. rewrite list_lookup_insert_eq by done. split; [done|]. congruence.
    + exists q. by rewrite list_lookup_insert_ne.
Qed.

(** An operation of the master completes. *)
Lemma sys_inv_completed s m i o k :
  sys_inv s m → Master.pending m !! i = Some o → completes m o k →
  (∀ j p h, sys_peers s !! j = Some p → p_handle p = Some h → is_acked h k = false) →
  (∀ h d, master_received k ≠ Some (h, d)) →
  sys_inv (put_master_node (set_master (master_completed i k m) (sys_master s)) s)
    (master_completed i k m).
Proof.
  intros [] Ho Hk Ha Hr. split; cbn [put_master_node sys_peers sys_master].
  - destruct si_serving0. by split.
  - done.
  - by eapply Inv_complete.
  - destruct si_fits0 as [F1 F2]. split; [by apply fits_master|done].
  - simpl. apply Forall_app. split; [done|]. constructor; [|constructor]. by destruct o, k.
  - intros h c Hc O. eapply unsent_completed_good; [done|]. by apply si_unsent0.
  - intros j p Hp. destruct (si_peers0 j p Hp) as [sm P]. exists sm.
    by eapply peer_inv_completed; eauto.
  - done.
  - intros k' h d Hk' Hr'. simpl in Hk'. apply elem_of_app in Hk' as [Hk'| ->%list_elem_of_singleton].
    + by eapply si_received0.
    + by apply Hr in Hr'.
Qed.

(** It completes with, or for, the peer [j]. *)
Lemma sys_inv_completed_peer s m i o k j p p' :
  sys_inv s m → Master.pending m !! i = Some o → completes m o k →
  sys_peers s !! j = Some p →
  (∀ j' q h, j' ≠ j → sys_peers s !! j' = Some q → p_handle q = Some h →
    is_acked h k = false ∧ ∀ d, master_received k ≠ Some (h, d)) →
  (∀ j' q h, j' ≠ j → sys_peers s !! j' = Some q → p_handle q = Some h → p_handle p' ≠ Some h) →
  (∀ h, p_handle p = Some h → p_handle p' = Some h) →
  (∀ h d, master_received k = Some (h, d) → p_handle p' = Some h) →
  (∃ sm, peer_inv (set_master (master_completed i k m) (sys_master s)) (master_completed i k m) p' sm) →
  let s' := put_peer j p' (put_master_node (set_master (master_completed i k m) (sys_master s)) s) in
  sys_fits s' → sys_inv s' (master_completed i k m).
Proof.
  intros [] Ho Hk Hp Ha Hd Hh Hr P s' F. pose proof (lookup_lt_Some _ _ _ Hp) as Hl.
  split; cbn [s' put_peer put_master_node sys_peers sys_master].
  - destruct si_serving0. by split.
  - done.
  - by eapply Inv_complete.
  - done.
  - simpl. apply Forall_app. split; [done|]. constructor; [|constructor]. by destruct o, k.
  - intros h c Hc O. eapply unsent_completed_good; [done|]. by apply si_unsent0.
  - intros j' q. rewrite list_lookup_insert_Some. intros [(<- & <- & _)|[Hne Hq]]; [done|].
    destruct (si_peers0 j' q Hq) as [sm P']. exists sm.
    eapply peer_inv_completed; [exact Hk| | |exact P'].
    + intros h Eh. by eapply (Ha j' q h).
    + intros h d Eh. by eapply (Ha j' q h).
  - intros j1 j2 p1 p2 h. rewrite !list_lookup_insert_Some.
    intros [(<- & <- & _)|[N1 P1]] [(<- & <- & _)|[N2 P2]] E1 E2; try done.
    + by apply (Hd j2 p2 h) in E1.
    + by apply (Hd j1 p1 h) in E2.
    + by eapply (si_distinct0 j1 j2 p1 p2 h).
  - intros k' h d Hk' Hr'. simpl in Hk'. apply elem_of_app in Hk' as [Hk'| ->%list_elem_of_singleton].
    + destruct (si_received0 k' h d Hk' Hr') as (j' & q & Hq & Eh).
      exists j'. destruct (decide (j' = j)) as [->|Hne].
      * exists p'. rewrite list_lookup_insert_eq by done. split; [done|]. apply Hh. congruence.
      * exists q. by rewrite list_lookup_insert_ne.
    + exists j, p'. rewrite list_lookup_insert_eq by done. split; [done|]. by eapply Hr.
Qed.

(** A handler of the master runs. *)
Lemma sys_inv_runs s m i k n' :
  sys_inv s m → Master.stopped m = false → Master.ready m !! i = Some k →
  (is_post k = true → Forall (λ k, is_post k = false) (take i (Master.ready m))) →
  run_task k (set_master (Master.set_ready (delete i (Master.ready m)) m) (sys_master s)) = Ret n' →
  sys_fits (put_master_node n' s) → certified n' → ∃ m', sys_inv (put_master_node n' s) m'.
Proof.
  intros [] Hs Hk Hf E F V. pose proof (srv_messager _ _ si_serving0) as G.
  assert (rooted n') as T.
  { eapply run_task_refines; [|exact E]. exact si_rooted0. }
  assert (role n' = true) as R.
  { rewrite (run_task_role _ _ _ E). exact (srv_role _ _ si_serving0). }
  destruct (run_grows (sys_master s) m i k n' si_serving0 si_inv0 (proj1 si_fits0) si_good0 Hk Hf E T (proj1 F) V)
    as (m' & G' & Gr).
  destruct (run_master_ran (sys_master s) n' m i k G si_inv0 Hk E) as (m2 & G2 & Mr).
  rewrite G' in G2. injection G2 as <-.
  destruct (run_ready (sys_master s) n' m i k si_inv0 Hk E) as (m2 & posts & G2 & Rd).
  rewrite G' in G2. injection G2 as <-.
  assert (step (sys_master s) (Ret n')) as St.
  { rewrite <- E. exact (step_run (N := Node.t) (sys_master s) m i k G Hs Hk). }
  destruct (step_Inv (N := Node.t) (H := node_owner) (sys_master s) m n' G si_inv0 St) as (m2 & G2 & I'). change (master n' = Some m2) in G2.
  rewrite G' in G2. injection G2 as <-.
  exists m'. split; cbn [put_master_node sys_peers sys_master].
  - split; [done| |done]. destruct T as (r & Er & _). by exists r.
  - done.
  - done.
  - done.
  - apply Gr.
  - intros h c' Hc' O'. destruct (proj2 Gr h c' Hc' O') as [(c & ps & Hc & O & -> & Fp & _)|(_ & _ & ->)].
    + apply Forall_app. split; [by apply si_unsent0|done].
    + apply posts_for_good, Gr.
  - intros j p Hp. destruct (si_peers0 j p Hp) as [sm P]. exists sm.
    eapply peer_inv_runs; [exact si_inv0|exact Hk|exact Gr|exact Mr|by exists posts|exact P].
  - done.
  - intros k' h d Hk' Hr. apply (si_received0 k' h d); [|done].
    eapply list_elem_of_delete_inv. eapply (mran_ready _ _ _ _ Mr); [|exact Hk']. by destruct k'.
Qed.

Lemma sys_inv_accepts s m i remote j p :
  sys_inv s m → Master.pending m !! i = Some Master.OpAccept →
  sys_peers s !! j = Some p → p_linked p = true → p_handle p = None →
  let s' := put_peer j (set_p_handle (length (Master._connections m)) p)
    (put_master_node
      (set_master (master_completed i (Master.TAccepted false remote) m) (sys_master s)) s) in
  sys_fits s' → ∃ m', sys_inv s' m'.
Proof.
  intros I Ho Hp Hl Hh s' F. destruct (si_peers _ _ I j p Hp) as [sm0 P].
  exists (master_completed i (Master.TAccepted false remote) m).
  apply (sys_inv_completed_peer s m i Master.OpAccept _ j p); try done.
  - intros j' q h Hne Hq Eh Eh'. simpl in Eh'. injection Eh' as <-.
    destruct (si_peers _ _ I j' q Hq) as [smq Pq].
    destruct (pi_handle _ _ _ _ Pq _ Eh) as [Hlt|(_ & r' & Hr')]; [lia|].
    pose proof (inv_accepts _ _ _ _ (si_inv _ _ I)) as Ac. unfold accepts in Ac.
    pose proof (count_elem is_accept_task _ _ Hr' eq_refl).
    pose proof (count_elem is_accept_op _ _ (list_elem_of_lookup_2 _ _ _ Ho) eq_refl). lia.
  - intros h C. congruence.
  - exists sm0. by apply peer_inv_accepted.
Qed.

Lemma sys_inv_receives s m i o k h d rest j p :
  sys_inv s m → Master.pending m !! i = Some o → completes m o k →
  master_received k = Some (h, d) →
  sys_peers s !! j = Some p → p_handle p = Some h → p_up p = d ++ rest →
  let s' := put_peer j (set_p_up rest (p_up_given p) p)
    (put_master_node (set_master (master_completed i k m) (sys_master s)) s) in
  sys_fits s' → ∃ m', sys_inv s' m'.
Proof.
  intros I Ho Hk Hr Hp Hh Hu s' F. destruct (si_peers _ _ I j p Hp) as [sm0 P].
  exists (master_completed i k m). apply (sys_inv_completed_peer s m i o k j p); try done.
  - intros j' q h' Hne Hq Eh'. split; [by destruct k as [| | | |? []|? []|]|].
    intros d' C. rewrite Hr in C. injection C as <- <-.
    apply Hne. by eapply (si_distinct _ _ I).
  - intros j' q h' Hne Hq Eh' C. simpl in C. apply Hne. by eapply (si_distinct _ _ I).
  - intros h' d' C. rewrite Hr in C. injection C as <- <-. done.
  - exists sm0. eapply peer_inv_received; try done. apply I.
Qed.

Lemma sys_step_inv s m s' :
  sys_inv s m → sys_step s s' → sys_fits s' → certified (sys_master s') →
  Forall to_announce (sys_peers s) → ∃ m', sys_inv s' m'.
Proof.
  intros I S F V Sp. pose proof (srv_messager _ _ (si_serving _ _ I)) as G.
  destruct S as [m1 i k n' G1 Hs Hk Hf E|m1 i o k G1 Ho Hk Hf|m1 i r j p G1 Ho Hp Hl Hh
    |m1 i o k h d rest j p G1 Ho Hk Hr Hp Hh Hu|m1 i h z c pk q w ch rest j p G1 Ho Hc O Q W Hp Hh Hg Hd
    |m1 i h z j p G1 Ho Hk Hp Hh Hg|j p n' Hp A E|j p sm i k n' Hp Gs Hs Hk Hf E
    |j p sm i o k Hp Gs Ho Hk Hf|j p sm i Hp Gs Ho|j p sm i o k d rest Hp Gs Ho Hk Hr Hd
    |j p sm i z pk q w ch rest Hp Gs L Ho O Q W Hg Hd|j p sm i z Hp Gs Ho O Hg];
    try (rewrite G in G1; injection G1 as <-).
  all: try (destruct (si_peers _ _ I j p Hp) as [sm0 P]; pose proof (pi_slave _ _ _ _ P) as Gs0).
  all: try (rewrite Gs0 in Gs; injection Gs as <-).
  - by eapply sys_inv_runs.
  - eexists. eapply sys_inv_completed; [done|done|done| |].
    + intros j p h _ _. by destruct k as [| | | | | |? []].
    + by destruct k as [| | | |? []|? []|].
  - by eapply sys_inv_accepts.
  - by eapply sys_inv_receives.
  - exists m. apply (sys_inv_peer s m j p); try done. exists sm0.
    eapply peer_inv_transmits; try done. apply I.
  - exists (master_completed i (Master.TWritten h false z) m).
    apply (sys_inv_completed_peer s m i (Master.OpWrite h z) _ j p); try done.
    + intros j' q h' Hne Hq Eh'. split; [|done]. simpl. apply Nat.eqb_neq. intros ->.
      apply Hne. by eapply (si_distinct _ _ I).
    + intros j' q h' Hne Hq Eh' C. simpl in C. apply Hne. by eapply (si_distinct _ _ I).
    + exists sm0. eapply peer_inv_writes; try done. apply I.
  - exists m. apply (sys_inv_peer s m j p); try done. eapply peer_inv_announces; try done.
    + pose proof (proj2 (si_fits _ _ I)) as Fp. rewrite Forall_forall in Fp.
      by eapply Fp, list_elem_of_lookup_2.
    + rewrite Forall_forall in Sp. by eapply Sp, list_elem_of_lookup_2.
  - exists m. apply (sys_inv_peer s m j p); try done. by eapply peer_inv_peer_runs.
  - exists m. apply (sys_inv_peer s m j p); try done. eexists. by eapply peer_inv_peer_fails.
  - exists m. apply (sys_inv_peer s m j p); try done. eexists. by eapply peer_inv_connects.
  - exists m. apply (sys_inv_peer s m j p); try done. eexists. by eapply peer_inv_peer_receives.
  - exists m. apply (sys_inv_peer s m j p); try done. eexists. by eapply peer_inv_peer_transmits.
  - exists m. apply (sys_inv_peer s m j p); try done. eexists. by eapply peer_inv_peer_writes.
Qed.

End Steps.

(** Nothing in particular is said of the messages. *)
#[export] Instance unvouched : Vouching := λ _, True.
#[export] Instance unspoken : Speaking := λ _, True.

Lemma sys_steps_inv `{TextArchiveOk} `{Memory} s0 s :
  sys_started s0 → sys_steps s0 s → ∃ m, sys_inv s m.
Proof.
  intros S0. induction 1 as [|s0 s1 s2 _ IH St F]; [by apply started_inv|].
  destruct (IH S0) as [m1 I1]. eapply sys_step_inv; [done..|by apply Forall_true].
Qed.
