(* ===== verification/Convergence.v ===== *)
(** * What the connected group guarantees

    Consequences of the invariant of SystemInv.v: no handler of any node fails
    on what the other nodes send; the bytes on their way to a slave determine
    what it will know; a slave to which nothing is on its way agrees with the
    master.  At the end a concrete group is run from its start to that point. *)

From S2P Require Import Prelude BytesOrder StdSet Archive Path DirTree Host Packet Ssh.
From S2P Require Import TcpMessager Channel MasterLoop UserFs Group Handshake Totality SlaveLoop.
From S2P Require Import Consistency Streams Receivers System SystemInv.
Import Node.

Section Guarantees.
Context `{TextArchiveOk} `{Memory}.

(** ** What a handler finds is well-formed *)

Lemma header_bounded (P : bytes → Prop) d wire given out msgs :
  (∀ msg, P msg → Protocol.wire_u64 (len msg) ∧ len msg <= vector_max) →
  channel P (RGotHeader d) wire given out msgs →
  ∀ z, network_to_host_64 d = Ret z → z <= vector_max.
Proof.
  intros HP Ch z Hz.
  apply channel_header in Ch as (msg & rest & -> & Hm & -> & _); [|intros m Hm; apply (HP m Hm)].
  destruct (HP msg Hm) as [Hw Hv].
  rewrite <- (app_nil_r (host_to_network_64 (len msg))), network_to_host_64_small in Hz by done.
  by injection Hz as <-.
Qed.

Lemma up_msg_small msg : up_msg msg → Protocol.wire_u64 (len msg) ∧ len msg <= vector_max.
Proof. by intros (? & ? & _). Qed.

Lemma down_msg_small msg : down_msg msg → Protocol.wire_u64 (len msg) ∧ len msg <= vector_max.
Proof. by intros (? & ? & _). Qed.

Lemma master_benign s m k :
  sys_inv s m → k ∈ Master.ready m →
  (∀ h l c, k = Master.TWritten h false l → Master._connections m !! h = Some c →
    Master.socket_open c = true) →
  benign m k.
Proof.
  intros I Hin W. destruct (master_received k) as [[h d]|] eqn:Er.
  - destruct (received_at m k h d (si_inv _ _ I) Hin Er) as (r & A & E).
    destruct (si_received _ _ I k h d Hin Er) as (j & p & Hp & Hh).
    destruct (si_peers _ _ I j p Hp) as [sm P].
    destruct (pi_up _ _ _ _ P r) as [msgs Ch]; [by rewrite Hh|].
    destruct E as [[-> ->]|(size & -> & ->)]; simpl.
    + by eapply (header_bounded up_msg); [apply up_msg_small|].
    + by apply (channel_body up_msg up_msg_wire) in Ch as (rest & _ & (_ & _ & Hd & _) & _).
  - destruct k as [| | | |? []|? []|h [] l]; simplify_eq/=; try done. intros c Hc. by eapply W.
Qed.

Lemma peer_benign n m p sm k :
  peer_inv n m p sm → k ∈ Slave.ready sm → slave_benign k.
Proof.
  intros P Hin. destruct k as [| | |[] d|[] d|]; simpl; try done.
  - destruct (pi_down _ _ _ _ P (RGotHeader d)) as (msgs & Ch & _); [right; by eexists|].
    by eapply (header_bounded down_msg); [apply down_msg_small|].
  - destruct (pi_down _ _ _ _ P (RGotBody (Packet.size (Slave._packet sm)) d)) as (msgs & Ch & _);
      [right; by eexists|].
    by apply (channel_body down_msg down_msg_wire) in Ch as (rest & _ & (_ & _ & Hd & _) & _).
Qed.

(** ** Properties *)

(** C4: the connected group never fails, but for one race: take a master and any
    number of slaves from their start, connected by byte streams that deliver in
    order in pieces of any size, with connections breaking at any time and
    handlers interleaved in any way (posted writes in order).  As long as trees
    and host tables fit a message, every handler of every slave returns normally,
    and every handler of the master does too, except the completion of a write
    whose connection was closed before the handler ran.  In particular no
    header, length field or archive either side ever reads is malformed. *)
Theorem connected_group_safe s0 s :
  Packet.sizeLength <= vector_max → sys_started s0 → sys_steps s0 s →
  (∀ m i k, master (sys_master s) = Some m → Master.ready m !! i = Some k →
    (∀ h l c, k = Master.TWritten h false l → Master._connections m !! h = Some c →
      Master.socket_open c = true) →
    ∃ n', run_task k (set_master (Master.set_ready (delete i (Master.ready m)) m) (sys_master s)) =
      Ret n') ∧
  (∀ j p sm i k, sys_peers s !! j = Some p → slave (p_node p) = Some sm →
    Slave.ready sm !! i = Some k →
    ∃ n', slave_run_task k (set_slave (remove_ready i sm) (p_node p)) = Ret n').
Proof.
  intros Hmem S0 S. destruct (sys_steps_inv s0 s S0 S) as [m I]. split.
  - intros m1 i k G Hk W. rewrite (srv_messager _ _ (si_serving _ _ I)) in G. injection G as <-.
    apply run_task_total; [done|apply I|apply I|done|].
    eapply master_benign; [done|by eapply list_elem_of_lookup_2|done].
  - intros j p sm i k Hp G Hk. destruct (si_peers _ _ I j p Hp) as [sm1 P].
    rewrite (pi_slave _ _ _ _ P) in G. injection G as <-.
    apply slave_run_total; [done|apply P|apply P|apply P|done|].
    eapply peer_benign; [done|by eapply list_elem_of_lookup_2].
Qed.

(** C5: what is on its way decides what a slave will know.  Take a group whose master
    has registered its own host when it starts (its main thread takes no step in between;
    see [EndToEnd.orderly_run]).  In every state of the connected group, for a recognised slave whose connection is up: the bytes it
    has read and not handled, the bytes on the wire and the packets the master
    has not sent yet are the frames of a list of messages, every one of which
    the slave understands, and learning them in order takes the slave from what
    it knows to the master's files, the master's host table and the id the
    master has recorded for it.  When nothing is under way, it is there. *)
Theorem slave_converges s0 s m j p sm r h c :
  sys_started s0 → sys_steps s0 s → master (sys_master s) = Some m →
  sys_peers s !! j = Some p → slave (p_node p) = Some sm → slave_at sm r →
  Slave.socket_open sm = true → p_handle p = Some h →
  Master._connections m !! h = Some c → Master.socket_open c = true → Master.slave_id c ≠ 0 →
  (∃ msgs, taken r ++ p_down p ++
      drop (p_down_given p) (frames (body <$> unsent h m c)) = frames msgs ∧
    Forall slave_readable msgs ∧
    foldl learn (slave_knows (p_node p)) msgs = knows (sys_master s) (Master.slave_id c)) ∧
  (taken r = [] → p_down p = [] → unsent h m c = [] →
    agree (p_node p) (sys_master s) ∧ _host_id (p_node p) = Master.slave_id c).
Proof.
  intros S0 S G Hp Gs A Os Hh Hc O Hi. destruct (sys_steps_inv s0 s S0 S) as [m1 I].
  rewrite (srv_messager _ _ (si_serving _ _ I)) in G. injection G as <-.
  destruct (si_peers _ _ I j p Hp) as [sm1 P]. rewrite (pi_slave _ _ _ _ P) in Gs. injection Gs as <-.
  destruct (pi_down _ _ _ _ P r A) as (msgs & Ch & _ & U).
  assert (foldl learn (slave_knows (p_node p)) msgs = knows (sys_master s) (Master.slave_id c)) as K.
  { apply U; [|done..]. unfold entered. by rewrite Hh. }
  unfold down_out in Ch. rewrite Hh, Hc, O in Ch. split.
  - exists msgs. destruct Ch as (_ & F & rest & E & Fo). destruct (Fo _ eq_refl) as (_ & _ & ->).
    split; [done|]. split; [|done]. eapply Forall_impl; [exact F|]. by intros msg (_ & _ & ? & _).
  - intros Ht Hd Hu. rewrite (channel_drained _ _ _ _ _ _ Ch Ht Hd Hu) in K. simpl in K.
    unfold slave_knows, knows in K. injection K as K1 K2 K3. by split.
Qed.
End Guarantees.

(** ** A concrete group *)

Module ExampleSystem.
Import ExampleArchive ExampleGroup ExampleRun.

(** Two slaves that are connecting to a listening master. *)
Definition newcomer : peer := mkPeer connecting false false None [] 0 [] 0.

Definition beginning : system := mkSystem listening [newcomer; newcomer].

(** The first one connects, is accepted and recognised; the bytes travel in
    pieces. *)
Definition joining : list sys_action :=
  [PeerConnects 0 0; PeerAnnounces 0; MasterAccepts 0 (λ _, str "10.0.0.2") 0; MasterRuns 0;
   PeerRuns 0 0; PeerRuns 0 0; PeerTransmits 0 1 5; PeerTransmits 0 1 10000; PeerWrites 0 1;
   PeerRuns 0 0; MasterReceives 0 0; MasterRuns 0; MasterReceives 1 0; MasterRuns 0; MasterRuns 0;
   MasterTransmits 2 0 100; PeerReceives 0 0; PeerRuns 0 0].

(** The rest of the recognition and the update are delivered. *)
Definition delivering : list sys_action :=
  [MasterRuns 0; MasterTransmits 2 0 10000; PeerReceives 0 0; PeerRuns 0 0; MasterWrites 2 0;
   MasterRuns 0; MasterTransmits 2 0 10000; MasterWrites 2 0; MasterRuns 0; PeerReceives 0 0;
   PeerRuns 0 0; PeerReceives 0 0; PeerRuns 0 0].

Definition halfway : system := default beginning (sys_play joining beginning).

Definition settled_group : system := default beginning (sys_play delivering halfway).

Definition master_of (s : system) : Master.t := default Master.create (master (sys_master s)).

Definition peer_of (s : system) : peer := default newcomer (sys_peers s !! 0%nat).

Definition slave_of (s : system) : Slave.t := default Slave.create (slave (p_node (peer_of s))).

Definition conn_of (s : system) : Master.Connection :=
  default (connection 0) (Master._connections (master_of s) !! 0%nat).

Lemma beginning_started : sys_started beginning.
Proof.
  split.
  - apply listening_started.
  - reflexivity.
  - exists ExampleTree.master. split; [reflexivity|apply ExampleTree.master_wf].
  - assert (peer_started newcomer) as P.
    { split_and!; [reflexivity|split; reflexivity|apply connecting_rooted|reflexivity..]. }
    constructor; [exact P|]. constructor; [exact P|constructor].
  - by_decide.
Qed.

Lemma halfway_steps : sys_steps beginning halfway.
Proof. apply (sys_play_steps joining). vm_compute. reflexivity. Qed.

Lemma settled_steps : sys_steps beginning settled_group.
Proof.
  eapply sys_steps_trans; [exact halfway_steps|]. apply (sys_play_steps delivering).
  vm_compute. reflexivity.
Qed.

Lemma connected_group_safe_witness :
  ∃ n', run_task (default Master.TStop (Master.ready (master_of halfway) !! 0%nat))
    (set_master (Master.set_ready (delete 0%nat (Master.ready (master_of halfway))) (master_of halfway))
      (sys_master halfway)) = Ret n'.
Proof.
  assert (Packet.sizeLength <= vector_max) as Hm by (by compute).
  destruct (connected_group_safe beginning halfway Hm beginning_started halfway_steps) as [M _].
  apply M; [vm_compute; reflexivity|vm_compute; reflexivity|].
  intros h l c E. vm_compute in E. discriminate E.
Defined.

Lemma slave_converges_witness :
  agree (p_node (peer_of settled_group)) (sys_master settled_group) ∧
  _host_id (p_node (peer_of settled_group)) = 2.
Proof.
  destruct (slave_converges beginning settled_group (master_of settled_group) 0
    (peer_of settled_group) (slave_of settled_group) RHeader 0 (conn_of settled_group)
    beginning_started settled_steps) as [_ D];
    [vm_compute; reflexivity|vm_compute; reflexivity|vm_compute; reflexivity| |vm_compute; reflexivity..| |].
  - left. exists Slave.OpReadHeader. split; [|reflexivity].
    apply (list_elem_of_lookup_2 _ 0). vm_compute. reflexivity.
  - by_decide.
  - destruct D as [A I]; [reflexivity|vm_compute; reflexivity|vm_compute; reflexivity|].
    split; [exact A|]. rewrite I. vm_compute. reflexivity.
Defined.
End ExampleSystem.
