(* ===== verification/Delivery.v ===== *)
(** * Delivery ends, and ends in agreement

    The steps of the group that only carry on what has been announced already:
    the master's posted writes and completed writes, the transfer of bytes from
    the master to the slaves, and the slaves' reading of them.  Every such step
    decreases a measure, so delivery ends whatever the order; and where it
    cannot go on, every recognised slave whose connection is healthy has the
    master's files, hosts and its own id. *)

From S2P Require Import Prelude BytesOrder StdSet Archive Path DirTree Host Packet Ssh.
From S2P Require Import TcpMessager Channel MasterLoop UserFs Group Handshake Totality SlaveLoop.
From S2P Require Import Consistency Streams Receivers System SystemInv Convergence.
Import Node.

(** ** Sums over lists *)

Lemma sum_delete {A} (f : A → nat) l i x :
  l !! i = Some x → sum_list_with f l = (f x + sum_list_with f (delete i l))%nat.
Proof.
  revert i. induction l as [|y l IH]; intros [|i] E; simplify_eq/=; [done|]. rewrite (IH _ E). lia.
Qed.

Lemma sum_insert {A} (f : A → nat) l i x y :
  l !! i = Some x → (sum_list_with f (<[i := y]> l) + f x = sum_list_with f l + f y)%nat.
Proof.
  revert i. induction l as [|z l IH]; intros [|i] E; simplify_eq/=; [lia|]. specialize (IH _ E). lia.
Qed.

Lemma sum_alter {A} (f : A → nat) g l i x :
  l !! i = Some x → (sum_list_with f (alter g i l) + f x = sum_list_with f l + f (g x))%nat.
Proof.
  revert i. induction l as [|z l IH]; intros [|i] E; [done|done|by simplify_eq/=; lia|].
  specialize (IH i E). change (alter g (S i) (z :: l)) with (z :: alter g i l). simpl. lia.
Qed.

Lemma sum_mono {A} (f g : A → nat) l :
  (∀ x, x ∈ l → f x <= g x)%nat → (sum_list_with f l <= sum_list_with g l)%nat.
Proof.
  induction l as [|x l IH]; intros F; simpl; [lia|].
  pose proof (F x (list_elem_of_here _ _)). specialize (IH (λ y Hy, F y (list_elem_of_further _ _ _ Hy))). lia.
Qed.

(** ** Steps *)

Definition delivery_task (m : Master.t) (k : Master.task) : bool :=
  match k with
  | Master.TWrite _ | Master.TWriteTo _ _ => true
  | Master.TWritten h false _ =>
      match Master._connections m !! h with Some c => Master.socket_open c | None => false end
  | _ => false
  end.

Definition slave_delivery_task (k : Slave.task) : bool :=
  match k with
  | Slave.TConnected false | Slave.THeader false _ | Slave.TBody false _ => true
  | _ => false
  end.

Section Delivery.
Context `{TextArchive} `{Memory}.

Inductive delivers (s : system) : system → Prop :=
  | delivers_master m i k n' :
      master (sys_master s) = Some m → Master.stopped m = false → Master.ready m !! i = Some k →
      (is_post k = true → Forall (λ k, is_post k = false) (take i (Master.ready m))) →
      delivery_task m k = true →
      run_task k (set_master (Master.set_ready (delete i (Master.ready m)) m) (sys_master s)) =
        Ret n' →
      delivers s (put_master_node n' s)
  | delivers_bytes m i h n c pk q w chunk rest j p :
      master (sys_master s) = Some m → Master.pending m !! i = Some (Master.OpWrite h n) →
      Master._connections m !! h = Some c → Master.socket_open c = true →
      Master.queue c = pk :: q → Packet.wire pk = Ret w →
      sys_peers s !! j = Some p → p_handle p = Some h →
      (p_down_given p <= length w)%nat → drop (p_down_given p) w = chunk ++ rest → chunk ≠ [] →
      delivers s (put_peer j (set_p_down (p_down p ++ chunk) (p_down_given p + length chunk) p) s)
  | delivers_written m i h n j p :
      master (sys_master s) = Some m → Master.pending m !! i = Some (Master.OpWrite h n) →
      completes m (Master.OpWrite h n) (Master.TWritten h false n) →
      sys_peers s !! j = Some p → p_handle p = Some h → Z.of_nat (p_down_given p) = n →
      delivers s (put_peer j (set_p_down (p_down p) 0 p)
        (put_master_node
          (set_master (master_completed i (Master.TWritten h false n) m) (sys_master s)) s))
  | delivers_peer j p m i k n' :
      sys_peers s !! j = Some p → slave (p_node p) = Some m → Slave.stopped m = false →
      Slave.ready m !! i = Some k → slave_delivery_task k = true →
      slave_run_task k (set_slave (remove_ready i m) (p_node p)) = Ret n' →
      delivers s (put_peer j (set_p_node n' p) s)
  | delivers_read j p m i o k d rest :
      sys_peers s !! j = Some p → slave (p_node p) = Some m → Slave.pending m !! i = Some o →
      slave_completes m o k → slave_received k = Some d → p_down p = d ++ rest →
      delivers s (put_peer j (set_p_down rest (p_down_given p)
        (set_p_node (set_slave (complete i k m) (p_node p)) p)) s).

Lemma delivers_step s s' : delivers s s' → sys_step s s'.
Proof.
  intros [m i k n' G Hs Hk Hf _ E|m i h n c pk q w ch rest j p G Ho Hc O Q W Hp Hh Hg Hd _
    |m i h n j p G Ho Hk Hp Hh Hg|j p m i k n' Hp G Hs Hk Hd E|j p m i o k d rest Hp G Ho Hk Hr Hd].
  - by eapply master_runs.
  - by eapply master_transmits.
  - by eapply master_writes.
  - eapply peer_runs; try done. by destruct k.
  - by eapply peer_receives.
Qed.

(** ** The measure *)

Definition task_work (n : nat) (k : Master.task) : nat :=
  match k with
  | Master.TWrite _ => 5 * n + 1
  | Master.TWriteTo _ _ => 6
  | Master.TWritten _ _ _ => 1
  | _ => 0
  end.

Definition op_work (o : Master.op) : nat := match o with Master.OpWrite _ _ => 2 | _ => 0 end.

Definition queue_work (m : Master.t) : nat :=
  sum_list_with op_work (Master.pending m) +
  3 * sum_list_with (λ c, length (Master.queue c)) (Master._connections m).

Definition master_work (m : Master.t) : nat :=
  sum_list_with (task_work (length (Master._connections m))) (Master.ready m) + queue_work m.

Definition slave_op_work (o : Slave.op) : nat := match o with Slave.OpReadBody => 2 | _ => 0 end.

Definition slave_task_work (k : Slave.task) : nat :=
  match k with
  | Slave.TConnected false => 1
  | Slave.THeader false _ => 3
  | Slave.TBody false _ => 1
  | _ => 0
  end.

Definition slave_work (m : Slave.t) : nat :=
  sum_list_with slave_op_work (Slave.pending m) + sum_list_with slave_task_work (Slave.ready m).

(** Bytes the master has not given to the network. *)
Definition unsent_bytes (m : Master.t) (p : peer) : nat :=
  match p_handle p with
  | None => 0
  | Some h =>
      match Master._connections m !! h with
      | Some c =>
          if Master.socket_open c
          then length (frames (body <$> unsent h m c)) - p_down_given p else 0
      | None => 0
      end
  end.

Definition peer_work (m : Master.t) (p : peer) : nat :=
  2 * unsent_bytes m p + length (p_down p) +
  match slave (p_node p) with Some sm => slave_work sm | None => 0 end.

Definition work (s : system) : nat :=
  match master (sys_master s) with
  | Some m => master_work m + sum_list_with (peer_work m) (sys_peers s)
  | None => 0
  end.

(** ** The master's handlers *)

Lemma start_work h m m' : Master.do_write h m = Ret m' →
  queue_work m' = (queue_work m + 2)%nat.
Proof.
  intros (c & p & _ & _ & ->)%do_write_Ret. unfold queue_work. simpl.
  rewrite sum_list_with_app. simpl. lia.
Qed.

Lemma enqueue_work p h m m' :
  Master.enqueue p h m = Ret m' →
  length (Master._connections m') = length (Master._connections m) ∧
  (queue_work m' <= queue_work m + 5)%nat.
Proof.
  unfold Master.enqueue. intros E. apply bind_Ret_inv in E as (c & Hc & E). apply at_Ret in Hc.
  set (m1 := Master.alter_conn _ h m) in E.
  assert (queue_work m1 = queue_work m + 3)%nat as W.
  { unfold queue_work, m1. simpl.
    pose proof (sum_alter (λ c, length (Master.queue c)) (λ c, Master.set_queue (Master.queue c ++ [p]) c)
      _ _ _ Hc) as S. simpl in S. rewrite length_app in S. simpl in S. lia. }
  assert (length (Master._connections m1) = length (Master._connections m)) as L
    by (simpl; by rewrite length_alter).
  destruct (negb _); [|injection E as <-; split; [done|lia]].
  pose proof (start_work _ _ _ E). apply do_write_Ret in E as (? & ? & _ & _ & ->).
  split; [done|]. simpl in *. lia.
Qed.

Lemma write_loop_work p hs m m' :
  Master.write_loop p hs m = Ret m' →
  length (Master._connections m') = length (Master._connections m) ∧
  (queue_work m' <= queue_work m + 5 * length hs)%nat.
Proof.
  revert m. induction hs as [|h hs IH]; intros m E; simpl in E; [injection E as <-; simpl; lia|].
  inv_bind. destruct (IH _ E) as [L W]. simpl. unfold Master.write_one in Ha. inv_bind.
  destruct (negb _); [injection Ha as <-; lia|]. destruct (enqueue_work _ _ _ _ Ha). lia.
Qed.

(** What a handler that delivers does: nothing is lost, and work is done. *)
Definition delivered (m m' : Master.t) : Prop :=
  moved m m' ∧ length (Master._connections m') = length (Master._connections m) ∧
  (master_work m' < master_work m)%nat.

Lemma posted_delivered m i k m' :
  Inv m → Master.ready m !! i = Some k → is_post k = true →
  Master.ready m' = delete i (Master.ready m) →
  length (Master._connections m') = length (Master._connections m) → moved m m' →
  (queue_work m' < queue_work m + task_work (length (Master._connections m)) k)%nat →
  delivered m m'.
Proof.
  intros I Hk Kp R L M W. split_and!; [done|done|]. unfold master_work. rewrite R, L.
  rewrite (sum_delete (task_work (length (Master._connections m))) (Master.ready m) i k Hk). lia.
Qed.

Lemma written_delivered (n n' : Node.t) m i h l c :
  Inv m → Master.ready m !! i = Some (Master.TWritten h false l) →
  Master._connections m !! h = Some c → Master.socket_open c = true →
  on_written h false l (set_master (Master.set_ready (delete i (Master.ready m)) m) n) = Ret n' →
  ∃ m', n' = set_master m' n ∧ delivered m m'.
Proof.
  intros I Hk Hc O E. set (m1 := Master.set_ready _ m) in E. set (n1 := set_master m1 n) in E.
  pose proof (writes_task h false l m (list_elem_of_lookup_2 _ _ _ Hk)) as W1.
  pose proof (inv_writes _ _ _ _ I h c Hc O) as W. rewrite token_None in W.
  destruct (Master.queue c) as [|p q] eqn:Q; [simpl in W; lia|].
  assert (l = Packet.size p) as ->.
  { eapply (inv_task_size _ _ _ _ I h c); [done..| |by rewrite Q]. by eapply list_elem_of_lookup_2. }
  unfold on_written in E. change (get_master n1) with (Some m1) in E. cbn [deref] in E.
  rewrite bind_Ret in E. unfold Master.conn, at_ in E.
  change (Master._connections m1) with (Master._connections m) in E. rewrite Hc in E.
  rewrite bind_Ret in E. rewrite Q in E. cbn [negb front] in E. rewrite !bind_Ret, Z.eqb_refl in E.
  apply bind_Ret_inv in E as (m' & E & [= <-]). exists m'. split; [done|].
  set (m2 := Master.alter_conn (Master.set_queue (tail (p :: q))) h m1) in E.
  assert (queue_work m2 + 3 = queue_work m)%nat as W2.
  { unfold queue_work, m2. simpl.
    pose proof (sum_alter (λ c, length (Master.queue c)) (Master.set_queue q) _ _ _ Hc) as S.
    simpl in S. rewrite Q in S. simpl in S. lia. }
  assert (Master.ready m' = delete i (Master.ready m) ∧ Master._connections m' =
    alter (Master.set_queue (tail (Master.queue c))) h (Master._connections m) ∧
    (queue_work m' <= queue_work m2 + 2)%nat) as (R & C & W3).
  { rewrite Q. destruct (nonempty _).
    - pose proof (start_work _ _ _ E). apply do_write_Ret in E as (? & ? & _ & _ & ->).
      split_and!; [done|done|lia].
    - injection E as <-. split_and!; [done|done|lia]. }
  split_and!.
  - by eapply (popped_moved m i _ I Hk h (Packet.size p) c).
  - rewrite C. by rewrite length_alter.
  - unfold master_work. rewrite R, C, length_alter.
    rewrite (sum_delete (task_work (length (Master._connections m))) (Master.ready m) i _ Hk).
    simpl. lia.
Qed.

Lemma run_delivered (n n' : Node.t) m i k :
  Inv m → Master.ready m !! i = Some k →
  (is_post k = true → Forall (λ k, is_post k = false) (take i (Master.ready m))) →
  delivery_task m k = true →
  run_task k (set_master (Master.set_ready (delete i (Master.ready m)) m) n) = Ret n' →
  ∃ m', n' = set_master m' n ∧ delivered m m'.
Proof.
  intros I Hk Hf D E. set (m1 := Master.set_ready (delete i (Master.ready m)) m) in E.
  set (n1 := set_master m1 n) in E.
  assert (∀ f : Master.t → outcome Master.t, on_master f n1 = Ret n' →
    ∃ m', f m1 = Ret m' ∧ n' = set_master m' n) as OM.
  { intros f E'. unfold on_master in E'. change (get_master n1) with (Some m1) in E'.
    cbn [deref] in E'. rewrite bind_Ret in E'. inv_bind. subst. by eauto. }
  destruct k as [p|p h0| | | | |h [] l]; simpl in D; try done; simpl in E.
  - apply OM in E as (m' & E & ->). exists m'. split; [done|].
    pose proof (write_loop_work _ _ _ _ E) as [L W].
    destruct (on_write_moved m i p m' I Hk (Hf eq_refl) E) as [R M].
    eapply (posted_delivered m i); [done|done|done|done|done|done|].
    unfold Master.iterators in W. rewrite length_reverse, length_seq in W.
    change (queue_work m1) with (queue_work m) in W. simpl in *. lia.
  - apply OM in E as (m' & E & ->). exists m'. split; [done|].
    pose proof (enqueue_work _ _ _ _ E) as [L W].
    destruct (on_writeTo_moved m i p h0 m' I Hk (Hf eq_refl) E) as [R M].
    eapply (posted_delivered m i); [done|done|done|done|done|done|].
    change (queue_work m1) with (queue_work m) in W. simpl. lia.
  - destruct (Master._connections m !! h) as [c|] eqn:Hc; [|done]. by eapply written_delivered.
Qed.

(** ** The slaves' handlers *)

Lemma slave_taken_work m i k :
  Slave.ready m !! i = Some k → slave_work m = (slave_task_work k + slave_work (remove_ready i m))%nat.
Proof. intros Hk. unfold slave_work. simpl. rewrite (sum_delete _ _ _ _ Hk). lia. Qed.

Lemma slave_start_work o m m' :
  Slave.pending m' = Slave.pending m → Slave.ready m' = Slave.ready m →
  slave_work (Slave.start_op o m') = (slave_work m + slave_op_work o)%nat.
Proof. intros P R. unfold slave_work. simpl. rewrite P, R, sum_list_with_app. simpl. lia. Qed.

Lemma slave_drop_work (n n' : Node.t) m :
  slave n = Some m → slave_drop n = Ret n' →
  ∃ m', slave n' = Some m' ∧ slave_work m' = slave_work m.
Proof.
  intros G E. unfold slave_drop, on_slave in E. change (get_slave n) with (slave n) in E.
  rewrite G in E. cbn [deref] in E. rewrite !bind_Ret in E.
  change (slave_disconnect (Node.set_slave (Slave.set_open false m) n) = Ret n') in E.
  apply slave_disconnect_keeps in E. exists (Slave.set_open false m). unfold slave. by rewrite E.
Qed.

Lemma on_slave_work f (n n' : Node.t) m :
  slave n = Some m → on_slave f n = Ret n' → ∃ m', f m = Ret m' ∧ slave n' = Some m'.
Proof.
  intros G E. unfold on_slave in E. change (get_slave n) with (slave n) in E. rewrite G in E.
  cbn [deref] in E. rewrite bind_Ret in E. apply bind_Ret_inv in E as (m' & E & [= <-]). by exists m'.
Qed.

Lemma slave_run_work (n n' : Node.t) m i k :
  Slave.ready m !! i = Some k → slave_delivery_task k = true →
  slave_run_task k (set_slave (remove_ready i m) n) = Ret n' →
  ∃ m', slave n' = Some m' ∧ (slave_work m' < slave_work m)%nat.
Proof.
  intros Hk D E. rewrite (slave_taken_work m i k Hk). set (m1 := remove_ready i m) in *.
  assert (∀ n1, slave n1 = Some m1 → slave_drop n1 = Ret n' →
    ∃ m', slave n' = Some m' ∧ (slave_work m' < slave_task_work k + slave_work m1)%nat) as Dr.
  { intros n1 G1 E1. destruct (slave_drop_work n1 n' m1 G1 E1) as (m' & G' & W). exists m'.
    split; [done|]. destruct k as [| |[]|[]|[]|]; simplify_eq/=; lia. }
  destruct k as [| |[]|[] d|[] d|]; simplify_eq/=.
  - apply (on_slave_work _ _ _ m1) in E as (m' & E & G'); [|done]. exists m'. split; [done|].
    unfold Slave.do_read_header in E. inv_bind. subst m'.
    rewrite (slave_start_work _ m1) by done. simpl. lia.
  - unfold slave_on_header in E. destruct (_ && _); [|by eapply Dr; [|exact E]].
    apply (on_slave_work _ _ _ m1) in E as (m' & E & G'); [|done]. exists m'. split; [done|].
    cbv beta zeta in E. inv_bind. unfold Slave.do_read_body in E. inv_bind. subst m'.
    rewrite (slave_start_work _ m1) by done. simpl. lia.
  - unfold slave_on_body in E. change (get_slave (set_slave m1 n)) with (Some m1) in E.
    cbn [deref] in E. rewrite bind_Ret in E. destruct (_ && _); [|by eapply Dr; [|exact E]]. inv_bind.
    set (m2 := Slave.set_packet _ _) in Ha0.
    assert (slave a0 = Some m2) as G2.
    { unfold slave. rewrite (read_slave_keeps _ _ _ Ha0). done. }
    apply (on_slave_work _ _ _ m2) in E as (m' & E & G'); [|done]. exists m'. split; [done|].
    unfold Slave.do_read_header in E. inv_bind. subst m'.
    rewrite (slave_start_work _ m1) by done. simpl. lia.
Qed.

(** ** Every step does work *)

Lemma sum_put {A} (f : A → nat) l j x y :
  l !! j = Some x → sum_list_with f (<[j := y]> l) = (f y + sum_list_with f (delete j l))%nat.
Proof.
  intros Hx. pose proof (sum_insert f l j x y Hx). pose proof (sum_delete f l j x Hx). lia.
Qed.

(** One peer does some, the others see no more to do. *)
Lemma peers_work m m' l j p p' :
  l !! j = Some p → (∀ q, peer_work m' q <= peer_work m q)%nat →
  (sum_list_with (peer_work m') (<[j := p']> l) + peer_work m p <=
   sum_list_with (peer_work m) l + peer_work m' p')%nat.
Proof.
  intros Hp Hq. rewrite (sum_put _ _ _ _ _ Hp), (sum_delete (peer_work m) l j p Hp).
  pose proof (sum_mono (peer_work m') (peer_work m) (delete j l) (λ q _, Hq q)). lia.
Qed.

Lemma moved_bytes m m' p :
  length (Master._connections m') = length (Master._connections m) → moved m m' →
  (unsent_bytes m' p <= unsent_bytes m p)%nat.
Proof.
  intros L M. unfold unsent_bytes. destruct (p_handle p) as [h|]; [|lia].
  destruct (Master._connections m' !! h) as [c'|] eqn:Hc'; [|lia].
  destruct (Master.socket_open c') eqn:O'; [|lia].
  destruct (M h c' Hc' O') as (c & Hc & O & _ & U). by rewrite Hc, O, U.
Qed.

Lemma completed_bytes m o i k p :
  completes m o k → (unsent_bytes (master_completed i k m) p <= unsent_bytes m p)%nat.
Proof.
  intros Hk. unfold unsent_bytes. destruct (p_handle p) as [h|]; [|lia]. simpl.
  destruct (Master._connections m !! h) as [c|]; [|lia]. destruct (Master.socket_open c); [|lia].
  unfold unsent. rewrite acked_completed, (posts_completed h m o) by done.
  destruct (acked h m), (is_acked h k); cbn [orb]; try lia.
  destruct (Master.queue c) as [|pk q]; cbn [tail]; [lia|].
  rewrite <- app_comm_cons, fmap_cons. cbn [frames]. rewrite length_app. lia.
Qed.

(** A completed write: one operation less, one handler more. *)
Lemma completed_work m i h z :
  Master.pending m !! i = Some (Master.OpWrite h z) →
  (master_work (master_completed i (Master.TWritten h false z) m) + 1 = master_work m)%nat.
Proof.
  intros Ho. unfold master_work, queue_work. simpl.
  rewrite (sum_delete op_work _ _ _ Ho), sum_list_with_app. simpl. lia.
Qed.

Lemma written_bytes s m i h z p :
  sys_inv s m → Master.pending m !! i = Some (Master.OpWrite h z) →
  completes m (Master.OpWrite h z) (Master.TWritten h false z) →
  p_handle p = Some h → Z.of_nat (p_down_given p) = z →
  (unsent_bytes (master_completed i (Master.TWritten h false z) m) (set_p_down (p_down p) 0 p) <=
   unsent_bytes m p)%nat.
Proof.
  intros I Ho Hk Hh Hg. unfold unsent_bytes. simpl. rewrite Hh.
  destruct (Master._connections m !! h) as [c|] eqn:Hc; [|done].
  destruct (Master.socket_open c) eqn:O; [|done].
  destruct (written_unsent m i h z c (si_inv _ _ I) Ho Hk Hc (si_unsent _ _ I h c Hc O))
    as (_ & pk & ps & -> & Ez & ->).
  rewrite fmap_cons. cbn [frames]. rewrite length_app. rewrite Ez in Hg. unfold len in Hg. lia.
Qed.

(** A read that got its bytes. *)
Lemma read_work sm i o k d :
  Slave.pending sm !! i = Some o → slave_completes sm o k → slave_received k = Some d →
  (slave_work (complete i k sm) < slave_work sm + length d)%nat.
Proof.
  intros Ho Hk Hr. unfold slave_work. simpl. rewrite (sum_delete slave_op_work _ _ _ Ho), sum_list_with_app.
  destruct o, k as [| | |[]|[]|]; simplify_eq/=; try done; destruct Hk as [_ Hk].
  - specialize (Hk eq_refl). unfold len, Packet.sizeLength in Hk. lia.
  - lia.
Qed.

Lemma work_master s m :
  master (sys_master s) = Some m →
  work s = (master_work m + sum_list_with (peer_work m) (sys_peers s))%nat.
Proof. unfold work. by intros ->. Qed.

Lemma transmit_work s m i h z c pk q w ch rest j p :
  sys_inv s m → Master.pending m !! i = Some (Master.OpWrite h z) →
  Master._connections m !! h = Some c → Master.socket_open c = true →
  Master.queue c = pk :: q → Packet.wire pk = Ret w →
  sys_peers s !! j = Some p → p_handle p = Some h →
  drop (p_down_given p) w = ch ++ rest → ch ≠ [] →
  let p' := set_p_down (p_down p ++ ch) (p_down_given p + length ch) p in
  (sum_list_with (peer_work m) (<[j := p']> (sys_peers s)) <
   sum_list_with (peer_work m) (sys_peers s))%nat.
Proof.
  intros I Ho Hc O Q W Hp Hh Hd Hne p'.
  pose proof (peers_work m m (sys_peers s) j p p' Hp (λ _, le_n _)) as Wp.
  assert (unsent_bytes m p' + length ch <= unsent_bytes m p)%nat as B.
  { unfold unsent_bytes, p'. simpl. rewrite Hh, Hc, O.
    destruct (not_acked_op m h z c (si_inv _ _ I) (list_elem_of_lookup_2 _ _ _ Ho) Hc O) as [Ac _].
    destruct (down_front m h c pk q w Q W Ac (si_unsent _ _ I h c Hc O)) as (ps & -> & -> & _).
    apply (f_equal length) in Hd. rewrite length_drop, length_app in Hd.
    rewrite fmap_cons. cbn [frames]. rewrite length_app. lia. }
  unfold peer_work at 2 4 in Wp. unfold p' in *. simpl in Wp. rewrite length_app in Wp.
  destruct ch; [done|]. simpl in *. lia.
Qed.

Lemma written_work s m i h z j p :
  sys_inv s m → Master.pending m !! i = Some (Master.OpWrite h z) →
  completes m (Master.OpWrite h z) (Master.TWritten h false z) →
  sys_peers s !! j = Some p → p_handle p = Some h → Z.of_nat (p_down_given p) = z →
  (work (put_peer j (set_p_down (p_down p) 0 p) (put_master_node
     (set_master (master_completed i (Master.TWritten h false z) m) (sys_master s)) s)) <
   master_work m + sum_list_with (peer_work m) (sys_peers s))%nat.
Proof.
  intros I Ho Hk Hp Hh Hg.
  rewrite (work_master _ (master_completed i (Master.TWritten h false z) m)) by done. simpl sys_peers.
  pose proof (peers_work m (master_completed i (Master.TWritten h false z) m) (sys_peers s) j p
    (set_p_down (p_down p) 0 p) Hp) as Wp.
  pose proof (completed_work m i h z Ho). pose proof (written_bytes s m i h z p I Ho Hk Hh Hg).
  assert (∀ q, peer_work (master_completed i (Master.TWritten h false z) m) q <= peer_work m q)%nat as Hq.
  { intros q. unfold peer_work. pose proof (completed_bytes m _ i _ q Hk). lia. }
  specialize (Wp Hq). unfold peer_work at 2 4 in Wp. simpl in Wp. lia.
Qed.

Lemma delivers_work s m s' : sys_inv s m → delivers s s' → (work s' < work s)%nat.
Proof.
  intros I D. pose proof (srv_messager _ _ (si_serving _ _ I)) as G. rewrite (work_master s m G).
  pose proof (si_inv _ _ I) as Iv.
  destruct D as [m1 i k n' G1 Hs Hk Hf Hd E|m1 i h z c pk q w ch rest j p G1 Ho Hc O Q W Hp Hh Hg Hd Hne
    |m1 i h z j p G1 Ho Hk Hp Hh Hg|j p sm i k n' Hp Gs Hs Hk Hd E|j p sm i o k d rest Hp Gs Ho Hk Hr Hd];
    try (rewrite G in G1; injection G1 as <-).
  - destruct (run_delivered _ n' m i k Iv Hk Hf Hd E) as (m' & -> & M & L & W).
    rewrite (work_master _ m') by done. simpl.
    assert (sum_list_with (peer_work m') (sys_peers s) <= sum_list_with (peer_work m) (sys_peers s))%nat;
      [|lia].
    apply sum_mono. intros p _. unfold peer_work. pose proof (moved_bytes m m' p L M). lia.
  - rewrite (work_master _ m) by done. simpl.
    pose proof (transmit_work s m i h z c pk q w ch rest j p I Ho Hc O Q W Hp Hh Hd Hne) as Wt.
    simpl in Wt. lia.
  - by apply written_work.
  - destruct (slave_run_work (p_node p) n' sm i k Hk Hd E) as (sm' & Gs' & W).
    rewrite (work_master _ m) by done. simpl.
    pose proof (peers_work m m (sys_peers s) j p (set_p_node n' p) Hp (λ _, le_n _)) as Wp.
    unfold peer_work at 2 4 in Wp. simpl in Wp. rewrite Gs, Gs' in Wp.
    change (unsent_bytes m (set_p_node n' p)) with (unsent_bytes m p) in Wp. lia.
  - rewrite (work_master _ m) by done. simpl.
    pose proof (peers_work m m (sys_peers s) j p (set_p_down rest (p_down_given p)
      (set_p_node (set_slave (complete i k sm) (p_node p)) p)) Hp (λ _, le_n _)) as Wp.
    pose proof (read_work sm i o k d Ho Hk Hr) as W.
    unfold peer_work at 2 4 in Wp. simpl in Wp. rewrite Gs, Hd, length_app in Wp.
    change (slave (set_slave (complete i k sm) (p_node p))) with (Some (complete i k sm)) in Wp.
    change (unsent_bytes m (set_p_down rest (p_down_given p)
      (set_p_node (set_slave (complete i k sm) (p_node p)) p))) with (unsent_bytes m p) in Wp. lia.
Qed.

(** ** Where delivery cannot go on *)

Definition delivery (s s' : system) : Prop := delivers s s' ∧ sys_fits s'.

Definition at_rest (s : system) : Prop := ∀ s', ¬ delivers s s'.

(** The first posted write can run. *)
Lemma first_post ks :
  existsb is_post ks = true →
  ∃ i k, ks !! i = Some k ∧ is_post k = true ∧ Forall (λ k, is_post k = false) (take i ks).
Proof.
  induction ks as [|k ks IH]; [done|]. simpl. destruct (is_post k) eqn:Kp.
  - intros _. exists 0%nat, k. split_and!; [done|done|constructor].
  - intros E. destruct (IH E) as (i & k' & Hi & Hp & F). exists (S i), k'.
    split_and!; [done|done|]. by constructor.
Qed.

Lemma rest_posts s m h :
  Packet.sizeLength <= vector_max → sys_inv s m → Master.stopped m = false → at_rest s →
  posts_for h (Master.ready m) = [].
Proof.
  intros Hmem I Hs Hr. apply posts_for_not_posts.
  destruct (existsb is_post (Master.ready m)) eqn:E.
  - exfalso. destruct (first_post _ E) as (i & k & Hk & Kp & F).
    destruct (run_task_total Hmem (sys_master s) m i k (si_serving _ _ I) (si_inv _ _ I) Hk) as [n' E'].
    { by destruct k. }
    eapply Hr. eapply delivers_master; [apply I|done|exact Hk|done| |exact E']. by destruct k.
  - apply Forall_forall. intros k Hk. destruct (is_post k) eqn:Kp; [|done].
    rewrite <- E. symmetry. apply existsb_exists. exists k. split; [by apply list_elem_of_In|done].
Qed.

Lemma rest_acked s m h c :
  Packet.sizeLength <= vector_max → sys_inv s m → Master.stopped m = false → at_rest s →
  Master._connections m !! h = Some c → Master.socket_open c = true → acked h m = false.
Proof.
  intros Hmem I Hs Hr Hc O. apply Nat.ltb_ge. destruct (count (is_acked h) (Master.ready m)) eqn:E; [done|].
  exfalso. assert (∃ k, k ∈ Master.ready m ∧ is_acked h k = true) as (k & Hin & A).
  { clear -E. induction (Master.ready m) as [|k ks IH]; [done|]. simpl in E.
    destruct (is_acked h k) eqn:A; [exists k; split; [apply list_elem_of_here|done]|].
    destruct (IH E) as (k' & Hin & A'). exists k'. split; [by apply list_elem_of_further|done]. }
  destruct k as [| | | | | |h' [] l]; try done. apply Nat.eqb_eq in A as ->.
  apply list_elem_of_lookup in Hin as [i Hk].
  destruct (run_task_total Hmem (sys_master s) m i _ (si_serving _ _ I) (si_inv _ _ I) Hk) as [n' E'].
  { intros c' Hc'. congruence. }
  eapply Hr. eapply delivers_master; [apply I|done|exact Hk|done| |exact E']. simpl. by rewrite Hc.
Qed.

(** A queue that is not empty can be worked on, unless a write has failed. *)
Lemma rest_queue s m j p sm r h c :
  Packet.sizeLength <= vector_max → sys_inv s m → Master.stopped m = false → at_rest s →
  sys_peers s !! j = Some p → slave (p_node p) = Some sm → slave_at sm r → p_handle p = Some h →
  Master._connections m !! h = Some c → Master.socket_open c = true →
  (∀ l, Master.TWritten h true l ∉ Master.ready m) → unsent h m c = [].
Proof.
  intros Hmem I Hs Hr Hp Gs A Hh Hc O Hok. pose proof (si_inv _ _ I) as Iv.
  pose proof (rest_acked s m h c Hmem I Hs Hr Hc O) as Ac. unfold unsent.
  rewrite Ac, (rest_posts s m h Hmem I Hs Hr), app_nil_r.
  destruct (Master.queue c) as [|pk q] eqn:Q; [done|]. exfalso.
  pose proof (inv_writes _ _ _ _ Iv h c Hc O) as W. rewrite token_None, Q in W. simpl in W.
  unfold writes in W. assert (count (is_write_task h) (Master.ready m) = 0%nat) as Z.
  { apply count_0, Forall_forall. intros k Hk. destruct (is_write_task h k) eqn:Kw; [|done].
    destruct k as [| | | | | |h' [] l]; try done; apply Nat.eqb_eq in Kw as ->; [by apply Hok in Hk|].
    pose proof (count_elem (is_acked h) _ _ Hk (Nat.eqb_refl h)) as C.
    apply Nat.ltb_ge in Ac. lia. }
  assert (∃ o, o ∈ Master.pending m ∧ is_write_op h o = true) as (o & Ho & Ow).
  { assert (count (is_write_op h) (Master.pending m) ≠ 0%nat) as Nz by lia. clear -Nz.
    induction (Master.pending m) as [|o os IH]; [done|]. simpl in Nz.
    destruct (is_write_op h o) eqn:Ow; [exists o; split; [apply list_elem_of_here|done]|].
    destruct (IH Nz) as (o' & Hin & Ow'). exists o'. split; [by apply list_elem_of_further|done]. }
  destruct o as [| | |h' z]; try done. apply Nat.eqb_eq in Ow as ->.
  destruct (not_acked_op m h z c Iv Ho Hc O) as (_ & pk' & q' & Q' & ->). rewrite Q in Q'.
  injection Q' as <- <-. apply list_elem_of_lookup in Ho as [i Ho].
  assert (∃ w, Packet.wire pk = Ret w) as [w Hw].
  { apply wire_Ret. pose proof (inv_queue _ _ _ _ Iv h c Hc) as V. rewrite Q in V.
    by apply Forall_cons in V as [V _]. }
  destruct (down_front m h c pk q w Q Hw Ac (si_unsent _ _ I h c Hc O)) as (ps & Eu & -> & Es).
  destruct (si_peers _ _ I j p Hp) as [sm1 P]. rewrite (pi_slave _ _ _ _ P) in Gs. injection Gs as ->.
  destruct (pi_down _ _ _ _ P r A) as (msgs & Ch & _). unfold down_out in Ch. rewrite Hh, Hc, O, Eu in Ch.
  destruct Ch as (_ & _ & rest0 & _ & F). destruct (F _ eq_refl) as (_ & Hg & _).
  change (frames (body <$> take 1 (pk :: ps))) with (frame (body pk) ++ []) in Hg. rewrite app_nil_r in Hg.
  pose proof (srv_messager _ _ (si_serving _ _ I)) as G.
  destruct (decide (p_down_given p = length (frame (body pk)))) as [Eg|Ng].
  - eapply Hr, delivers_written; [exact G|exact Ho| |exact Hp|exact Hh|rewrite Es; unfold len; lia].
    split; [done|]. rewrite Hc. split; [done|]. by split.
  - eapply Hr, (delivers_bytes s m i h (Packet.size pk) c pk q _ (drop (p_down_given p) (frame (body pk))) []);
      [done..|by rewrite app_nil_r|].
    intros C. apply (f_equal length) in C. rewrite length_drop in C. change (length []) with 0%nat in C. lia.
Qed.

(** A reader to which whole frames are there can go on. *)
Lemma rest_reader s m j p sm r wire given :
  Packet.sizeLength <= vector_max → sys_inv s m → at_rest s →
  sys_peers s !! j = Some p → slave (p_node p) = Some sm → Slave.stopped sm = false →
  slave_at sm r → p_down p = wire →
  (∃ msgs, channel down_msg r wire given (Some []) msgs) → taken r = [] ∧ wire = [].
Proof.
  intros Hmem I Hr Hp Gs Hs A Hd [msgs (V & F & rest & E & O)].
  destruct (O [] eq_refl) as (_ & _ & ->). simpl in E. rewrite drop_nil, app_nil_r in E.
  destruct (si_peers _ _ I j p Hp) as [sm1 P]. rewrite (pi_slave _ _ _ _ P) in Gs. injection Gs as ->.
  destruct A as [(o & Ho & Eo)|(k & Hk & Ek)].
  2:{ exfalso. pose proof (peer_benign _ _ _ _ _ P Hk) as B. apply list_elem_of_lookup in Hk as [i Hk].
      destruct (slave_run_total Hmem (p_node p) sm i k (pi_slave _ _ _ _ P) (pi_rooted _ _ _ _ P)
        (pi_sinv _ _ _ _ P) Hk B) as [n' E'].
      eapply Hr, delivers_peer; [exact Hp|apply P|done|exact Hk| |exact E'].
      by destruct k as [| |[]|[]|[]|]. }
  apply list_elem_of_lookup in Ho as [i Ho].
  subst wire. destruct o; cbn [slave_op_state] in Eo; try discriminate Eo; injection Eo as <-;
    cbn [taken] in E.
  - split; [done|]. destruct msgs as [|msg msgs]; [done|]. exfalso.
    change (frames (msg :: msgs)) with (frame msg ++ frames msgs) in E. unfold frame in E.
    rewrite <- app_assoc in E.
    eapply Hr, (delivers_read s j p sm i _ (Slave.THeader false (host_to_network_64 (len msg))));
      [exact Hp|apply P|exact Ho|by split|done|exact E].
  - exfalso. apply frames_header in E as (msg & msgs' & -> & Eh & E); [|done].
    apply Forall_cons in F as [Fm _]. assert (len msg = Packet.size (Slave._packet sm)) as Hl.
    { pose proof (network_to_host_64_small _ [] V) as E1.
      rewrite Eh, network_to_host_64_small in E1 by (by apply down_msg_wire). by injection E1. }
    eapply Hr, (delivers_read s j p sm i _ (Slave.TBody false msg));
      [exact Hp|apply P|exact Ho|simpl; rewrite Hl; by split|done|exact E].
Qed.

(** ** Properties *)

Context `{!TextArchiveOk}.

Lemma delivery_steps s0 s s' : sys_steps s0 s → delivery s s' → sys_steps s0 s'.
Proof. intros S [D F]. eapply sys_more; [exact S|by apply delivers_step|exact F]. Qed.

(** C6: delivery ends: in every state of the connected group the number of
    delivery steps that can follow one another (handlers that send, pieces of
    bytes carried, packets read and handled by slaves), in whatever order, is
    bounded by a number computed from the state; there is no infinite delivery. *)
Theorem delivery_terminates s0 s :
  sys_started s0 → sys_steps s0 s →
  (∀ n s', nsteps delivery n s s' → (n <= work s)%nat) ∧ Acc (flip delivery) s.
Proof.
  intros S0 S. split.
  - intros n s' D. revert S. induction D as [|n s1 s2 s3 D1 _ IH]; intros S; [lia|].
    destruct (sys_steps_inv s0 s1 S0 S) as [m I].
    pose proof (delivers_work s1 m s2 I (proj1 D1)). specialize (IH (delivery_steps _ _ _ S D1)). lia.
  - remember (work s) as w eqn:Ew. revert s S Ew.
    induction (lt_wf w) as [w _ IH]. intros s S ->. constructor. intros s' D.
    destruct (sys_steps_inv s0 s S0 S) as [m I].
    eapply (IH (work s')); [by eapply (delivers_work s m), D|by eapply delivery_steps|done].
Qed.

Lemma rest_agree s m j p sm r h c :
  Packet.sizeLength <= vector_max → sys_inv s m → at_rest s → Master.stopped m = false →
  sys_peers s !! j = Some p → slave (p_node p) = Some sm → Slave.stopped sm = false →
  slave_at sm r → Slave.socket_open sm = true → p_handle p = Some h →
  Master._connections m !! h = Some c → Master.socket_open c = true → Master.slave_id c ≠ 0 →
  (∀ l, Master.TWritten h true l ∉ Master.ready m) →
  agree (p_node p) (sys_master s) ∧ _host_id (p_node p) = Master.slave_id c.
Proof.
  intros Hmem I Hr Hs Hp Gs Hss A Os Hh Hc O Hi Hok.
  pose proof (rest_queue s m j p sm r h c Hmem I Hs Hr Hp Gs A Hh Hc O Hok) as U.
  destruct (si_peers _ _ I j p Hp) as [sm1 P]. pose proof (pi_slave _ _ _ _ P) as Gs1.
  rewrite Gs in Gs1. injection Gs1 as <-.
  destruct (pi_down _ _ _ _ P r A) as (msgs & Ch & _ & K).
  unfold down_out in Ch. rewrite Hh, Hc, O, U in Ch.
  destruct (rest_reader s m j p sm r (p_down p) (p_down_given p) Hmem I Hr Hp Gs Hss A eq_refl)
    as [Ht Hd]; [by exists msgs|].
  rewrite (channel_drained _ _ _ _ _ _ Ch Ht Hd eq_refl) in K.
  specialize (K c). unfold entered in K. rewrite Hh in K. specialize (K Hc O Hi Os). simpl in K.
  unfold slave_knows, knows in K. injection K as K1 K2 K3. by split.
Qed.

(** C7: and it ends in agreement, in a group whose master has registered its own host
    when it starts (its main thread takes no step in between; see
    [EndToEnd.orderly_run]): where no delivery step is possible any more and
    neither event loop was stopped, every recognised slave whose connection is
    up (the slave reads, its socket and the master's are open, no write to it
    has failed) has the master's files, the master's host table and the id the
    master recorded for it.  Together with C6: whatever the group did before,
    if it stops changing, its slaves converge. *)
Theorem delivery_ends_in_agreement s0 s m j p sm r h c :
  Packet.sizeLength <= vector_max → sys_started s0 → sys_steps s0 s → at_rest s →
  master (sys_master s) = Some m → Master.stopped m = false →
  sys_peers s !! j = Some p → slave (p_node p) = Some sm → Slave.stopped sm = false →
  slave_at sm r → Slave.socket_open sm = true → p_handle p = Some h →
  Master._connections m !! h = Some c → Master.socket_open c = true → Master.slave_id c ≠ 0 →
  (∀ l, Master.TWritten h true l ∉ Master.ready m) →
  agree (p_node p) (sys_master s) ∧ _host_id (p_node p) = Master.slave_id c.
Proof.
  intros Hmem S0 S Hr G. destruct (sys_steps_inv s0 s S0 S) as [m1 I].
  rewrite (srv_messager _ _ (si_serving _ _ I)) in G. injection G as ->.
  by apply rest_agree.
Qed.

(** A sufficient condition for rest that can be evaluated. *)
Definition idle_peer (p : peer) : bool :=
  match slave (p_node p) with
  | None => true
  | Some m =>
      forallb (λ k, negb (slave_delivery_task k)) (Slave.ready m) &&
      forallb (λ o, match o with Slave.OpReadBody => false | _ => true end) (Slave.pending m)
  end && negb (nonempty (p_down p)).

Definition idle (s : system) : bool :=
  match master (sys_master s) with
  | None => true
  | Some m =>
      forallb (λ k, negb (delivery_task m k)) (Master.ready m) &&
      forallb (λ o, match o with Master.OpWrite _ _ => false | _ => true end) (Master.pending m)
  end && forallb idle_peer (sys_peers s).

Lemma forallb_lookup {A} (f : A → bool) l i x : forallb f l = true → l !! i = Some x → f x = true.
Proof.
  intros F Hx. rewrite forallb_forall in F. apply F, list_elem_of_In. by eapply list_elem_of_lookup_2.
Qed.

Lemma idle_at_rest s : idle s = true → at_rest s.
Proof.
  unfold idle, idle_peer. intros [Im Ip]%andb_true_iff s' D.
  destruct D as [m i k n' G Hs Hk Hf Hd E|m i h z c pk q w ch rest j p G Ho Hc O Q W Hp Hh Hg Hd Hne
    |m i h z j p G Ho Hk Hp Hh Hg|j p sm i k n' Hp Gs Hs Hk Hd E|j p sm i o k d rest Hp Gs Ho Hk Hr Hd].
  1-3: rewrite G in Im; apply andb_true_iff in Im as [I1 I2].
  4-5: pose proof (forallb_lookup _ _ _ _ Ip Hp) as I; cbv beta in I; rewrite Gs in I;
    apply andb_true_iff in I as [[I1 I2]%andb_true_iff I3].
  - pose proof (forallb_lookup _ _ _ _ I1 Hk) as C. cbv beta in C. by rewrite Hd in C.
  - by pose proof (forallb_lookup _ _ _ _ I2 Ho).
  - by pose proof (forallb_lookup _ _ _ _ I2 Ho).
  - pose proof (forallb_lookup _ _ _ _ I1 Hk) as C. cbv beta in C. by rewrite Hd in C.
  - pose proof (forallb_lookup _ _ _ _ I2 Ho) as C. destruct (p_down p) eqn:Ed; [|done].
    symmetry in Hd. apply app_nil in Hd as [-> _].
    destruct o, k as [| | |[]|[]|]; simplify_eq/=; try done. destruct Hk as [_ Hk]. by specialize (Hk eq_refl).
Qed.
End Delivery.

Section DeliveryWitnesses.
Import ExampleArchive ExampleGroup ExampleRun ExampleSystem.

Lemma delivery_terminates_witness : Acc (flip delivery) halfway.
Proof. apply (delivery_terminates beginning halfway beginning_started halfway_steps). Defined.

Lemma delivery_ends_in_agreement_witness :
  agree (p_node (peer_of settled_group)) (sys_master settled_group).
Proof.
  assert (Packet.sizeLength <= vector_max) as Hm by (by compute).
  assert (at_rest settled_group) as R by (apply idle_at_rest; vm_compute; reflexivity).
  destruct (delivery_ends_in_agreement beginning settled_group (master_of settled_group) 0
    (peer_of settled_group) (slave_of settled_group) RHeader 0 (conn_of settled_group)
    Hm beginning_started settled_steps R) as [A _];
    [vm_compute; reflexivity|vm_compute; reflexivity|vm_compute; reflexivity|vm_compute; reflexivity
    |vm_compute; reflexivity| |vm_compute; reflexivity|vm_compute; reflexivity|vm_compute; reflexivity
    |vm_compute; reflexivity| | |exact A].
  - left. exists Slave.OpReadHeader. split; [|reflexivity].
    apply (list_elem_of_lookup_2 _ 0). vm_compute. reflexivity.
  - by_decide.
  - intros l C. assert (Master.ready (master_of settled_group) = []) as E by (vm_compute; reflexivity).
    rewrite E in C. by apply elem_of_nil in C.
Defined.
End DeliveryWitnesses.
