(* ===== verification/Races.v ===== *)
(** * Interleavings the program does not guard against

    Schedules of the event loop and of the main thread under which a node
    misbehaves.  Each is a run of the same [step] the invariants are proved
    for, computed by [play]; together with those invariants they delimit what
    the program guarantees. *)

From S2P Require Import Prelude BytesOrder StdSet Archive Path DirTree Host Packet Ssh.
From S2P Require Import TcpMessager Channel MasterLoop UserFs Group Handshake.
Import Node.

(** ** A write that completed before its connection was closed *)

Lemma written_after_close `{TextArchive} `{Memory} h l (n : Node.t) m c :
  master n = Some m → Master._connections m !! h = Some c → Master.queue c = [] →
  run_task (Master.TWritten h false l) n = Undef EmptyFront.
Proof.
  intros G Hc Hq. simpl. unfold on_written. change (get_master n) with (master n).
  rewrite G. run. unfold Master.conn, at_. rewrite Hc. run. simpl. by rewrite Hq.
Qed.

Section Schedules.
Import ExampleArchive ExampleGroup ExampleRun.

(** The recognition is being written; the client reads it and goes away, and the
    end of file is handled before the completed write. *)
Definition late_write : list action :=
  admission ++
  [ Run 0;
    Complete 1 (Master.THeader 0 true []);
    Complete 1 (Master.TWritten 0 false recognition_size);
    Run 0; Run 0 ].

(** A second join message arrives on the connection of a recognised slave, then
    the connection ends. *)
Definition second_tree : TreeNode.t :=
  ExampleTree.dir 0 [] [ExampleTree.file 0 5 (str "second_file")].

Definition second_message : bytes :=
  Protocol.message_join (DirTree_serialize (Some second_tree)) (Host.serialize slave_host).

Definition second_join : list action :=
  admission ++
  [ Complete 1 (Master.THeader 0 false (size_of second_message)); Run 2;
    Complete 1 (Master.TBody 0 false second_message); Run 2;
    Complete 1 (Master.THeader 0 true []); Run 4 ].

(** The handlers of a connection can reach undefined behaviour under an
    ordinary client: if it disconnects while a write to it has completed but
    the completion has not been handled, [close] empties the queue and the
    completion handler takes the front of an empty queue. *)
Theorem late_write_completion_undefined :
  ∃ n, steps (N := Node.t) listening n ∧ step (N := Node.t) n (Undef EmptyFront).
Proof.
  exists (after late_write). split.
  - apply (play_steps late_write). vm_compute. reflexivity.
  - apply (act_step (Run 0)). vm_compute. reflexivity.
Qed.

(** Files can outlive their owner: a client that sends two join messages gets
    a second id, and when it disconnects only the files of the second are
    removed; those of the first stay in the tree, and no connection has that id
    any more. *)
Theorem second_join_orphans_files :
  ∃ n m f, steps (N := Node.t) listening n ∧ master n = Some m ∧
    UserFS_find (H := ExamplePath.path) (str "/standby1_file1") n = Ret (Some f) ∧
    TreeNode.host_id f = 2 ∧
    Forall (λ c, Master.socket_open c = false ∧ Master.slave_id c = 0) (Master._connections m).
Proof.
  exists (after second_join), (default Master.create (master (after second_join))).
  exists (ExampleTree.file 2 34 (str "standby1_file1")). split_and!.
  - apply (play_steps second_join). vm_compute. reflexivity.
  - vm_compute. reflexivity.
  - vm_compute. reflexivity.
  - reflexivity.
  - by_decide.
Qed.

(** ** The network thread is started before the main thread is done *)

(** A master between [_tcp_manager.start()] and [_hosts.push(_hosts[0])]. *)
Definition starting : Node.t := set_hosts [master_host] listening.

Definition admitted_early : Node.t :=
  match run_from starting admission with Some (Ret n) => n | _ => starting end.

(** a client that is admitted while the master's main thread is between
    starting the network thread and registering its own host shifts the table:
    entry 2 then is the master's own host, not host 2, and every file of host 2
    is looked for on the master. *)
Theorem early_client_shifts_table :
  ∃ n' h f, initTCPNetwork_finish true admitted_early = Ret n' ∧
    steps (N := Node.t) starting admitted_early ∧
    UserFS_find (H := ExamplePath.path) (str "/standby1_file1") n' = Ret (Some f) ∧
    Hosts.get (_hosts n') (TreeNode.host_id f) = Ret h ∧
    TreeNode.host_id f = 2 ∧ Host.id h = 1.
Proof.
  eexists. exists master_host, (ExampleTree.file 2 34 (str "standby1_file1")). split_and!.
  - vm_compute. reflexivity.
  - apply (play_steps admission). vm_compute. reflexivity.
  - vm_compute. reflexivity.
  - vm_compute. reflexivity.
  - reflexivity.
  - reflexivity.
Qed.
End Schedules.

Section EarlyUpdate.
Context `{TextArchiveOk}.

(** An update broadcast for another host can reach a stand-by node before its
    main thread serialises its own tree and host; the join message it then
    sends holds the group's tree and the master's host entry instead of its
    own, which are lost. *)
Theorem early_update_replaces_join (s : Node.t) rs tree h hs m :
  _dir_tree s = Some rs → TCPManager._is_master (_tcp_manager s) = false →
  TCPManager._is_slave (_tcp_manager s) = true → slave s = Some m → TreeNode.wf tree →
  let d := DirTree_serialize (Some tree) in
  let hosts := Hosts.serialize (h :: hs) in
  Protocol.wire_u64 (len d) → Protocol.wire_u64 (len hosts) →
  ∃ s1 s2 m2, TCPManager_read_slave (received (Protocol.message_update d hosts)) s = Ret s1 ∧
    initTCPNetwork_finish false s1 = Ret s2 ∧ slave s2 = Some m2 ∧
    Slave.ready m2 = Slave.ready m ++ [Slave.TWrite (sent (Protocol.message_join
      (DirTree_serialize (Some (TreeNode.set_children (TreeNode.children tree) rs)))
      (Host.serialize h)))].
Proof.
  intros Er Em Es G W d hosts Hd Hh. exists (adopted tree (h :: hs) rs s).
  unfold slave in G. do 2 eexists. split_and!.
  - unfold TCPManager_read_slave. rewrite data_received, Protocol.parse_update by done. run.
    apply updateInfo_spec; [done| |apply Hosts.hosts_roundtrip].
    apply ia_load_saved. simpl. by rewrite TreeNode.load_serialize.
  - unfold initTCPNetwork_finish, on_tcp, TCPManager.write, adopted. simpl.
    rewrite Em, Es, G. run. done.
  - done.
  - done.
Qed.
End EarlyUpdate.

Section RaceWitnesses.
Import ExampleArchive ExampleGroup.

Lemma early_update_replaces_join_witness :
  ∃ s1 s2, TCPManager_read_slave (received (Protocol.message_update
      (DirTree_serialize (Some ExampleTree.master)) (Hosts.serialize [master_host]))) standby
      = Ret s1 ∧
    initTCPNetwork_finish false s1 = Ret s2.
Proof.
  destruct (early_update_replaces_join standby ExampleTree.standby1 ExampleTree.master master_host
    [] Slave.create eq_refl eq_refl eq_refl eq_refl ExampleTree.master_wf)
    as (s1 & s2 & m2 & E1 & E2 & _); [vm_compute; done|vm_compute; done|].
  exists s1, s2. split; [exact E1|exact E2].
Defined.
End RaceWitnesses.
