(* ===== verification/Fuse.v ===== *)
(** * fuse_interface.h, fuse_interface.cc and UserFS::read: the mounted file system

    The four callbacks FUSE makes, over the node they are mounted on.  The
    static pointer [_user_fs] is an [option], null before [initialize] and
    after [destroy].  [UserFS::read] reads a file of this host through an
    [std::ifstream] and any other through its owner's SSH session; the local
    files are the class [LocalFiles], libssh is the class of Ssh. *)

From S2P Require Import Prelude BytesOrder StdSet Archive Path DirTree Host Packet Ssh.
From S2P Require Import TcpMessager MasterLoop UserFs Group.
From Stdlib Require Import Sorted.
Import Node.

(** ** UserFS::read *)

(** What opening a path for reading and reading from it gives. *)
Inductive local_file :=
  | Unopened                 (** the stream is not open *)
  | Unreadable               (** opened, but the device reports an error *)
  | Contents (b : bytes).

Class LocalFiles := open_local : bytes → local_file.

(** [std::ifstream fin(f); fin.seekg(offset); fin.read(buff, size)]: [fin.bad()]
    and the characters stored in [buff].  Nothing is read from a stream that
    did not open or whose seek failed; a position after the end is no error. *)
Definition ifstream_read (f : local_file) (offset size : Z) : bool * bytes :=
  if s64 offset <? 0 then (false, []) else
  match f with
  | Unopened => (false, [])
  | Unreadable => (0 <? s64 size, [])
  | Contents b => (false, take (Z.to_nat (s64 size)) (drop (Z.to_nat (s64 offset)) b))
  end.

(** [path.substr(path.front() == '/'? 1: 0)] *)
Definition relative (path : bytes) : outcome bytes :=
  c ← front path; Ret (if decide (c = slash) then tail path else path).

Section Read.
Context {W : Type} `{LibSSH W} `{BoostPath} `{LocalFiles}.

(** The owner's session is made on first use; [true] when that failed. *)
Definition ensure_session (node_id : Z) (n : Node.t) : outcome (bool * Node.t) :=
  if negb (SSHManager.findHost node_id (_ssh_manager n)) then
    h ← Hosts.get (_hosts n) node_id;
    let '(rtv, m) :=
      SSHManager.insertHost node_id (Host.address h) (Host.ssh_port h) (_ssh_manager n) in
    Ret (rtv, set_ssh_manager m n)
  else Ret (false, n).

(** The result, and what is left in [buff]. *)
Definition UserFS_read (node_id : Z) (path : bytes) (offset size : Z) (n : Node.t) (w : W)
    : outcome (Z * bytes * Node.t * W) :=
  '(rtv, n) ← ensure_session node_id n;
  if (rtv : bool) then Ret (-1, [], n, w) else
  h ← Hosts.get (_hosts n) node_id;
  rel ← relative path;
  let remote_path := path_append (Host.working_dir h) rel in
  if node_id =? _host_id n then
    let '(bad, buff) := ifstream_read (open_local remote_path) offset size in
    if (bad : bool) then Ret (-1, buff, n, w) else Ret (len buff, buff, n, w)
  else
    '(r, buff, m, w) ← SSHManager.read node_id remote_path offset size (_ssh_manager n) w;
    Ret (r, buff, set_ssh_manager m n, w).
End Read.

(** ** FUSEInterface *)

Definition ENOENT : Z := 2.
Definition EIO : Z := 5.
Definition EACCES : Z := 13.
Definition ENOTDIR : Z := 20.
Definition EISDIR : Z := 21.

Definition O_RDONLY : Z := 0.

(** The file type bits of [st_mode]. *)
Definition S_IFIFO : Z := 4096.
Definition S_IFCHR : Z := 8192.
Definition S_IFDIR : Z := 16384.
Definition S_IFBLK : Z := 24576.
Definition S_IFREG : Z := 32768.
Definition S_IFLNK : Z := 40960.
Definition S_IFSOCK : Z := 49152.

(** 0444 and 0755 *)
Definition read_only : Z := 292.
Definition traversable : Z := 493.

(** The members of [struct stat] the program sets. *)
Record stat := mkStat { st_mode : Z; st_nlink : Z; st_size : Z; st_mtime : Z }.

Definition zero_stat : stat := mkStat 0 0 0 0.

(** A [char*] of a [std::string], as a C function sees it. *)
Fixpoint c_str (s : bytes) : bytes :=
  match s with
  | [] => []
  | c :: s => if decide (c = nul) then [] else c :: c_str s
  end.

Module FUSEInterface.

(** [initialize(userfs)] and [destroy] *)
Definition initialize (userfs : Node.t) : option Node.t := Some userfs.

Definition destroy : option Node.t := None.

Section Callbacks.
Context `{BoostPath}.

Definition find (path : bytes) (_user_fs : option Node.t) : outcome (option TreeNode.t) :=
  n ← deref _user_fs; UserFS_find path n.

(** [getattr] after its lookup: the rest of the callback reads the node. *)
Definition getattr_node (node : TreeNode.t) : outcome (Z * stat) :=
  let fill mode :=
    Ret (0, mkStat mode (TreeNode.num_links node) (s64 (TreeNode.size node))
              (s64 (TreeNode.mtime node))) in
  match TreeNode.type node with
  | REGULAR => fill (Z.lor S_IFREG read_only)
  | DIRECTORY => fill (Z.lor S_IFDIR traversable)
  | SYMLINK => fill (Z.lor S_IFLNK read_only)
  | CHRDEVICE => fill (Z.lor S_IFCHR read_only)
  | BLKDEVICE => fill (Z.lor S_IFBLK read_only)
  | FIFO => fill (Z.lor S_IFIFO read_only)
  | SOCKET => fill (Z.lor S_IFSOCK read_only)
  | UNKNOWN | Unnamed _ => Ret (- ENOENT, zero_stat)
  end.

Definition getattr (path : bytes) (_user_fs : option Node.t) : outcome (Z * stat) :=
  node ← find path _user_fs;
  match node with
  | None => Ret (- ENOENT, zero_stat)
  | Some node => getattr_node node
  end.

(** [readdir] after its lookup; the names are those handed to [filler], whose
    result is ignored. *)
Definition readdir_node (node : TreeNode.t) : outcome (Z * list bytes) :=
  if decide (TreeNode.type node ≠ DIRECTORY) then Ret (- ENOTDIR, [])
  else Ret (0, map (λ i, c_str (TreeNode.name i)) (TreeNode.children node)).

Definition readdir (path : bytes) (_user_fs : option Node.t) : outcome (Z * list bytes) :=
  node ← find path _user_fs;
  match node with
  | None => Ret (- ENOENT, [])
  | Some node => readdir_node node
  end.

Definition open (path : bytes) (flags : Z) (_user_fs : option Node.t) : outcome Z :=
  node ← find path _user_fs;
  match node with
  | None => Ret (- ENOENT)
  | Some _ => if negb (Z.land flags 3 =? O_RDONLY) then Ret (- EACCES) else Ret 0
  end.

Context {W : Type} `{LibSSH W} `{LocalFiles}.

(** [read] after its lookup.  [read_size] is computed and then not used: [size]
    is what is passed on. *)
Definition read_node (node : TreeNode.t) (path : bytes) (size offset : Z)
    (_user_fs : option Node.t) (w : W) : outcome (Z * bytes * option Node.t * W) :=
  if decide (TreeNode.type node = DIRECTORY) then Ret (- EISDIR, [], _user_fs, w) else
  if offset <? 0 then AssertFailed else
  let read_offset := u64 offset in
  let read_size := size in
  let file_size := TreeNode.size node in
  if file_size <=? read_offset then Ret (0, [], _user_fs, w) else
  let read_size :=
    if file_size <? u64 (read_offset + read_size) then u64 (file_size - read_offset)
    else read_size in
  n ← deref _user_fs;
  '(bytes_read, buff, n, w) ← UserFS_read (TreeNode.host_id node) path (u64 offset) size n w;
  if bytes_read <? 0 then Ret (- EIO, buff, Some n, w)
  else Ret (s32 bytes_read, buff, Some n, w).

Definition read (path : bytes) (size offset : Z) (_user_fs : option Node.t) (w : W)
    : outcome (Z * bytes * option Node.t * W) :=
  node ← find path _user_fs;
  match node with
  | None => Ret (- ENOENT, [], _user_fs, w)
  | Some node => read_node node path size offset _user_fs w
  end.
End Callbacks.
End FUSEInterface.

(** ** Lookup and paths *)

Section Paths.
Context `{BoostPathOk}.

Lemma FUSE_find_plain n names :
  plain_names names →
  FUSEInterface.find (abs_path names) (Some n) = Ret (r ← _dir_tree n; DirTree.resolve r names).
Proof. intros Hp. unfold FUSEInterface.find, UserFS_find. run. by apply find_plain. Qed.

(** The path below the mount point, without its leading separator. *)
Definition below (names : list bytes) : bytes := tail (abs_path names).

Lemma relative_abs names : relative (abs_path names) = Ret (below names).
Proof. by destruct names as [|x names]. Qed.

Lemma head_below names : plain_names names → head (below names) ≠ Some slash.
Proof.
  intros (Hn & _). destruct names as [|x names]; [done|].
  apply Forall_cons in Hn as [[Hx Hs] _]. unfold below. simpl.
  destruct x as [|c x]; [done|]. simpl. intros [= ->]. by apply Hs; left.
Qed.

Lemma remote_path d names :
  plain_names names → last d = Some slash → path_append d (below names) = d ++ below names.
Proof. intros Hp Hd. apply path_append_dir; [done|by apply head_below]. Qed.
End Paths.

Section Reading.
Context `{BoostPathOk} {W : Type} `{LibSSH W} `{LocalFiles}.

(** The session table after [ensure_session]. *)
Definition with_session (node_id : Z) (h : Host.t) (n : Node.t) : Node.t :=
  match _ssh_manager n !! node_id with
  | Some _ => n
  | None => set_ssh_manager
      (<[node_id := SSHSession.create (Host.address h) (Host.ssh_port h)]> (_ssh_manager n)) n
  end.

Lemma ensure_session_spec node_id h n :
  Hosts.get (_hosts n) node_id = Ret h →
  ensure_session node_id n = Ret (false, with_session node_id h n).
Proof.
  intros Hh. unfold ensure_session, with_session, SSHManager.findHost, SSHManager.insertHost.
  rewrite Hh. by destruct (_ssh_manager n !! node_id) eqn:E; run; rewrite ?E.
Qed.

Lemma hosts_with_session node_id h n : _hosts (with_session node_id h n) = _hosts n.
Proof. unfold with_session. by case_match. Qed.

Lemma host_id_with_session node_id h n : _host_id (with_session node_id h n) = _host_id n.
Proof. unfold with_session. by case_match. Qed.

(** A read of a file of a known host, whatever its working directory is. *)
Lemma UserFS_read_known node_id names offset size n (w : W) h :
  Hosts.get (_hosts n) node_id = Ret h →
  UserFS_read node_id (abs_path names) offset size n w =
  (let n := with_session node_id h n in
   let file := path_append (Host.working_dir h) (below names) in
   if node_id =? _host_id n then
     let '(bad, buff) := ifstream_read (open_local file) offset size in
     if (bad : bool) then Ret (-1, buff, n, w) else Ret (len buff, buff, n, w)
   else
     '(r, buff, m, w) ← SSHManager.read node_id file offset size (_ssh_manager n) w;
     Ret (r, buff, set_ssh_manager m n, w)).
Proof.
  intros Hh. unfold UserFS_read. rewrite (ensure_session_spec _ h) by done. run.
  rewrite hosts_with_session, Hh. run. by rewrite relative_abs.
Qed.

Lemma UserFS_read_spec node_id names offset size n (w : W) h :
  plain_names names → Hosts.get (_hosts n) node_id = Ret h →
  last (Host.working_dir h) = Some slash →
  UserFS_read node_id (abs_path names) offset size n w =
  (let n := with_session node_id h n in
   let file := Host.working_dir h ++ below names in
   if node_id =? _host_id n then
     let '(bad, buff) := ifstream_read (open_local file) offset size in
     if (bad : bool) then Ret (-1, buff, n, w) else Ret (len buff, buff, n, w)
   else
     '(r, buff, m, w) ← SSHManager.read node_id file offset size (_ssh_manager n) w;
     Ret (r, buff, set_ssh_manager m n, w)).
Proof.
  intros Hp Hh Hd. rewrite (UserFS_read_known _ names offset size n w h Hh). cbv zeta.
  by rewrite (remote_path _ names).
Qed.

(** [read] on a file that is not a directory. *)
Lemma FUSE_read_file names size offset n (w : W) r f :
  plain_names names → _dir_tree n = Some r → DirTree.resolve r names = Some f →
  TreeNode.type f ≠ DIRECTORY → 0 <= offset < 2 ^ 63 → offset < TreeNode.size f →
  FUSEInterface.read (abs_path names) size offset (Some n) w =
  ('(bytes_read, buff, n, w) ←
     UserFS_read (TreeNode.host_id f) (abs_path names) offset size n w;
   if bytes_read <? 0 then Ret (- EIO, buff, Some n, w)
   else Ret (s32 bytes_read, buff, Some n, w)).
Proof.
  intros Hp Er Ef Ht Ho Hs. unfold FUSEInterface.read, FUSEInterface.read_node. rewrite FUSE_find_plain by done. run.
  rewrite Er. simpl. rewrite Ef. rewrite decide_False by done.
  rewrite (proj2 (Z.ltb_ge offset 0)) by lia.
  assert (u64 offset = offset) as -> by (apply wrap_small; lia).
  by rewrite (proj2 (Z.leb_gt _ _) Hs).
Qed.

Lemma FUSE_read_past names size offset n (w : W) r f :
  plain_names names → _dir_tree n = Some r → DirTree.resolve r names = Some f →
  TreeNode.type f ≠ DIRECTORY → 0 <= offset < 2 ^ 63 → TreeNode.size f <= offset →
  FUSEInterface.read (abs_path names) size offset (Some n) w = Ret (0, [], Some n, w).
Proof.
  intros Hp Er Ef Ht Ho Hs. unfold FUSEInterface.read, FUSEInterface.read_node. rewrite FUSE_find_plain by done. run.
  rewrite Er. simpl. rewrite Ef. rewrite decide_False by done.
  rewrite (proj2 (Z.ltb_ge offset 0)) by lia.
  assert (u64 offset = offset) as -> by (apply wrap_small; lia).
  by rewrite (proj2 (Z.leb_le _ _) Hs).
Qed.

(** [size] bytes from [offset], or what there is. *)
Definition slice (offset size : Z) (b : bytes) : bytes :=
  take (Z.to_nat size) (drop (Z.to_nat offset) b).

Lemma len_slice offset size b : 0 <= size → len (slice offset size b) <= size.
Proof. intros Hs. unfold slice, len. rewrite length_take. lia. Qed.

Lemma slice_past offset size b : len b <= offset → slice offset size b = [].
Proof.
  intros Ho. unfold slice. rewrite drop_ge; [by destruct (Z.to_nat size)|].
  unfold len in Ho. lia.
Qed.

Lemma ifstream_read_small b offset size :
  0 <= offset < 2 ^ 63 → 0 <= size < 2 ^ 31 →
  ifstream_read (Contents b) offset size = (false, slice offset size b).
Proof.
  intros Ho Hs. unfold ifstream_read, slice.
  assert (s64 offset = offset) as -> by (apply swrap_small; lia).
  assert (s64 size = size) as -> by (apply swrap_small; lia).
  by rewrite (proj2 (Z.ltb_ge offset 0)) by lia.
Qed.

(** ** Properties *)

(** C23: reading a file of this host: when the recorded size is the size of the
    file, [read] returns exactly the bytes from [offset], at most [size] of
    them, and their number; reading at or after the end gives nothing. *)
Theorem read_own_file names size offset n (w : W) r f h b :
  plain_names names → _dir_tree n = Some r → DirTree.resolve r names = Some f →
  TreeNode.type f ≠ DIRECTORY → TreeNode.host_id f = _host_id n →
  Hosts.get (_hosts n) (_host_id n) = Ret h → last (Host.working_dir h) = Some slash →
  open_local (Host.working_dir h ++ below names) = Contents b → TreeNode.size f = len b →
  0 <= offset < 2 ^ 63 → 0 <= size < 2 ^ 31 →
  ∃ n', FUSEInterface.read (abs_path names) size offset (Some n) w =
      Ret (len (slice offset size b), slice offset size b, Some n', w) ∧
    len (slice offset size b) <= size ∧
    _dir_tree n' = _dir_tree n ∧ _hosts n' = _hosts n ∧ _tcp_manager n' = _tcp_manager n.
Proof.
  intros Hp Er Ef Ht Hi Hh Hd Hb Hl Ho Hs. pose proof (len_slice offset size b) as L.
  destruct (decide (TreeNode.size f <= offset)) as [Hpast|Hin].
  - exists n. rewrite slice_past in * by lia.
    rewrite (FUSE_read_past names size offset n w r f) by done. split_and!; try done.
    simpl. lia.
  - exists (with_session (_host_id n) h n).
    rewrite (FUSE_read_file names size offset n w r f) by (done || lia).
    rewrite Hi, (UserFS_read_spec _ names offset size n w h) by done. cbv zeta.
    rewrite host_id_with_session, Z.eqb_refl, Hb, ifstream_read_small by done. run.
    pose proof (len_nonneg (slice offset size b)).
    rewrite (proj2 (Z.ltb_ge _ _)) by lia.
    assert (s32 (len (slice offset size b)) = len (slice offset size b)) as ->
      by (apply swrap_small; lia).
    split; [done|]. split; [apply L; lia|]. unfold with_session. by case_match.
Qed.

(** C24: reading a file of another host, the first read included.  At or after the end
    of the file nothing is asked and nothing is returned.  Otherwise the session of that
    host, and no other, is asked for the file of that path below the host's working
    directory, with a new session when the host has none yet.  The read returns, with the
    session's bytes and count or with -EIO, and the session that is kept is in order; the
    only exception is a new session whose connection attempt fails before the file has been
    opened, which is undefined, because the cleanup looks at pointers no one has set. *)
Theorem read_remote_file names size offset n (w : W) r f h :
  plain_names names → _dir_tree n = Some r → DirTree.resolve r names = Some f →
  TreeNode.type f ≠ DIRECTORY → TreeNode.host_id f ≠ _host_id n →
  Hosts.get (_hosts n) (TreeNode.host_id f) = Ret h → last (Host.working_dir h) = Some slash →
  (∀ s, _ssh_manager n !! TreeNode.host_id f = Some s → disconnected s ∨ ∃ p, connected p s) →
  0 <= offset < 2 ^ 63 →
  let id := TreeNode.host_id f in
  let file := Host.working_dir h ++ below names in
  let s := default (SSHSession.create (Host.address h) (Host.ssh_port h)) (_ssh_manager n !! id) in
  let result := FUSEInterface.read (abs_path names) size offset (Some n) w in
  (TreeNode.size f <= offset → result = Ret (0, [], Some n, w)) ∧
  (offset < TreeNode.size f → _ssh_manager n !! id = None → lost file s w →
    result = Undef Indeterminate) ∧
  (offset < TreeNode.size f → is_Some (_ssh_manager n !! id) ∨ ¬ lost file s w →
    ∃ k buff s' w', SSHSession.read file offset size s w = Ret (k, buff, s', w') ∧
      (disconnected s' ∨ ∃ p, connected p s') ∧
      result = Ret (if k <? 0 then - EIO else s32 k, buff,
                    Some (set_ssh_manager (<[id := s']> (_ssh_manager n)) n), w')).
Proof.
  intros Hp Er Ef Ht Hi Hh Hd Hok Ho id file s result.
  assert (file ≠ []) as Hf by (unfold file; intros [C _]%app_eq_nil; by rewrite C in Hd).
  split; [|split].
  - intros Hs. by apply (FUSE_read_past names size offset n w r f).
  - intros Hin Hn (s' & w' & E & Hg). unfold result.
    rewrite (FUSE_read_file names size offset n w r f) by done.
    rewrite (UserFS_read_spec _ names offset size n w h) by done. cbv zeta.
    rewrite host_id_with_session, (proj2 (Z.eqb_neq _ _) Hi).
    unfold with_session. unfold id in Hn. unfold s, id in E. rewrite Hn in *. simpl.
    unfold SSHManager.read. rewrite lookup_insert_eq.
    by rewrite (fresh_read_undefined _ _ _ _ _ _ s' w').
  - intros Hin Hs.
    assert (∃ k buff s' w', SSHSession.read file offset size s w = Ret (k, buff, s', w') ∧
      read_post file k s') as (k & buff & s' & w' & E & P).
    { unfold s, id in *. destruct (_ssh_manager n !! TreeNode.host_id f) as [s0|]; simpl in *.
      - by apply read_Ret, Hok.
      - apply fresh_read_Ret; [done|]. by destruct Hs as [[? ?]|]. }
    exists k, buff, s', w'. split; [done|]. split; [unfold read_post in P; naive_solver|].
    unfold result. rewrite (FUSE_read_file names size offset n w r f) by done.
    rewrite (UserFS_read_spec _ names offset size n w h) by done. cbv zeta.
    rewrite host_id_with_session, (proj2 (Z.eqb_neq _ _) Hi).
    unfold with_session, SSHManager.read. unfold s, file, id in *.
    destruct (_ssh_manager n !! TreeNode.host_id f) as [s0|] eqn:Em; simpl in *.
    + rewrite Em, E. run. by case_match.
    + rewrite lookup_insert_eq, E. run. rewrite insert_insert_eq. by case_match.
Qed.
End Reading.

Lemma c_str_id s : nul ∉ s → c_str s = s.
Proof.
  induction s as [|c s IH]; [done|]. intros [Hc Hs]%not_elem_of_cons. simpl.
  rewrite decide_False by done. by rewrite IH.
Qed.

Lemma plain_names_snoc names x : plain_names names → plain_names [x] → plain_names (names ++ [x]).
Proof.
  intros (H1 & H2 & H3) (G1 & G2 & G3). split; [by apply Forall_app|].
  rewrite !elem_of_app. naive_solver.
Qed.

(** The type bits and permissions of a node, for the types [getattr] knows. *)
Definition mode_of (ty : FileType) : option Z :=
  match ty with
  | REGULAR => Some 33060       (* 0100444 *)
  | DIRECTORY => Some 16877     (* 0040755 *)
  | SYMLINK => Some 41252       (* 0120444 *)
  | CHRDEVICE => Some 8484      (* 0020444 *)
  | BLKDEVICE => Some 24868     (* 0060444 *)
  | FIFO => Some 4388           (* 0010444 *)
  | SOCKET => Some 49444        (* 0140444 *)
  | _ => None
  end.

Section Listing.
Context `{BoostPathOk}.

Lemma getattr_spec n r names :
  plain_names names → _dir_tree n = Some r →
  FUSEInterface.getattr (abs_path names) (Some n) =
  Ret (match DirTree.resolve r names with
       | Some f =>
           match mode_of (TreeNode.type f) with
           | Some mode => (0, mkStat mode (TreeNode.num_links f) (s64 (TreeNode.size f))
                                (s64 (TreeNode.mtime f)))
           | None => (- ENOENT, zero_stat)
           end
       | None => (- ENOENT, zero_stat)
       end).
Proof.
  intros Hp Er. unfold FUSEInterface.getattr, FUSEInterface.getattr_node. rewrite FUSE_find_plain by done. run.
  rewrite Er. simpl. destruct (DirTree.resolve r names) as [f|]; [|done].
  by destruct (TreeNode.type f).
Qed.

Lemma readdir_spec n r names d :
  plain_names names → _dir_tree n = Some r → DirTree.resolve r names = Some d →
  TreeNode.type d = DIRECTORY → Forall (λ c, nul ∉ TreeNode.name c) (TreeNode.children d) →
  FUSEInterface.readdir (abs_path names) (Some n) =
  Ret (0, TreeNode.name <$> TreeNode.children d).
Proof.
  intros Hp Er Ed Ht Hn. unfold FUSEInterface.readdir, FUSEInterface.readdir_node. rewrite FUSE_find_plain by done. run.
  rewrite Er. simpl. rewrite Ed. rewrite decide_False by (intros C; by apply C).
  do 2 f_equal. induction Hn as [|c cs Hc _ IH]; [done|]. simpl. by rewrite c_str_id, IH.
Qed.

(** C25: the file system is consistent: listing a directory gives every name once
    and in order, exactly the names that lookup finds below it, and [getattr]
    succeeds on each with the mode of its type and the recorded size; every
    other name below the directory is -ENOENT. *)
Theorem readdir_agrees_with_getattr n r names d :
  plain_names names → _dir_tree n = Some r → TreeNode.wf r →
  DirTree.resolve r names = Some d → TreeNode.type d = DIRECTORY →
  Forall (λ c, nul ∉ TreeNode.name c ∧ is_Some (mode_of (TreeNode.type c)))
    (TreeNode.children d) →
  ∃ l, FUSEInterface.readdir (abs_path names) (Some n) = Ret (0, l) ∧
    StronglySorted (λ a b, string_lt a b = true) l ∧
    ∀ x, plain_names [x] →
      if decide (x ∈ l) then
        ∃ f mode, TreeNode.name f = x ∧ f ∈ TreeNode.children d ∧
          mode_of (TreeNode.type f) = Some mode ∧
          FUSEInterface.getattr (abs_path (names ++ [x])) (Some n) =
            Ret (0, mkStat mode (TreeNode.num_links f) (s64 (TreeNode.size f))
                      (s64 (TreeNode.mtime f)))
      else FUSEInterface.getattr (abs_path (names ++ [x])) (Some n) = Ret (- ENOENT, zero_stat).
Proof.
  intros Hp Er W Ed Ht Hc. apply Forall_and in Hc as [Hn Hk].
  pose proof (TreeNode.wf_children d (resolve_wf _ _ _ W Ed)) as Wd.
  exists (TreeNode.name <$> TreeNode.children d). split; [by eapply readdir_spec|]. split.
  { unfold set_wf in Wd. clear -Wd. induction Wd as [|c cs _ IH F]; simpl; constructor; [done|].
    by apply Forall_fmap. }
  intros x Hx. rewrite (getattr_spec n r) by (done || by apply plain_names_snoc).
  rewrite resolve_app, Ed. simpl.
  destruct (TreeNode.find_child x (TreeNode.children d)) as [f|] eqn:Ef; simpl.
  - apply set_find_Some in Ef as [Hf <-]; [|done].
    rewrite decide_True by (by apply list_elem_of_fmap_2).
    rewrite Forall_forall in Hk. destruct (Hk f Hf) as [mode Em].
    exists f, mode. rewrite Em. by split_and!.
  - rewrite decide_False; [done|]. intros (f & -> & Hf)%list_elem_of_fmap.
    apply (set_find_None TreeNode.name _ _ Wd) with (a := f) in Ef; done.
Qed.

(** C32: the error returns of the four callbacks on a path without dots: a path
    that does not exist is -ENOENT for all of them, listing a file is -ENOTDIR,
    opening for anything but reading is -EACCES, reading a directory is -EISDIR
    and none of them changes the node; a negative offset stops the process. *)
Theorem callback_errors {W} `{LibSSH W} `{LocalFiles} n r names size offset flags (w : W) :
  plain_names names → _dir_tree n = Some r →
  match DirTree.resolve r names with
  | None =>
      FUSEInterface.getattr (abs_path names) (Some n) = Ret (- ENOENT, zero_stat) ∧
      FUSEInterface.readdir (abs_path names) (Some n) = Ret (- ENOENT, []) ∧
      FUSEInterface.open (abs_path names) flags (Some n) = Ret (- ENOENT) ∧
      FUSEInterface.read (abs_path names) size offset (Some n) w = Ret (- ENOENT, [], Some n, w)
  | Some f =>
      FUSEInterface.open (abs_path names) flags (Some n) =
        Ret (if Z.testbit flags 0 || Z.testbit flags 1 then - EACCES else 0) ∧
      (TreeNode.type f ≠ DIRECTORY →
        FUSEInterface.readdir (abs_path names) (Some n) = Ret (- ENOTDIR, []) ∧
        (offset < 0 →
          FUSEInterface.read (abs_path names) size offset (Some n) w = AssertFailed)) ∧
      (TreeNode.type f = DIRECTORY →
        FUSEInterface.read (abs_path names) size offset (Some n) w =
          Ret (- EISDIR, [], Some n, w))
  end.
Proof.
  intros Hp Er.
  unfold FUSEInterface.getattr, FUSEInterface.readdir, FUSEInterface.open, FUSEInterface.read,
    FUSEInterface.getattr_node, FUSEInterface.readdir_node, FUSEInterface.read_node.
  rewrite FUSE_find_plain by done. run. rewrite Er.
  change (r0 ← Some r; DirTree.resolve r0 names) with (DirTree.resolve r names).
  destruct (DirTree.resolve r names) as [f|]; [|done].
  split; [|split; [intros Ht; split|intros Ht]].
  - assert ((Z.land flags 3 =? O_RDONLY) = negb (Z.testbit flags 0 || Z.testbit flags 1)) as ->;
      [|rewrite negb_involutive; by case_match].
    change 3 with (Z.ones 2). rewrite Z.land_ones by lia. unfold O_RDONLY.
    rewrite Z.bit0_odd, (Z.testbit_eqb flags 1) by lia. change (2 ^ 1) with 2. change (2 ^ 2) with 4.
    rewrite <- Z.bit0_odd, (Z.testbit_eqb flags 0) by lia. change (2 ^ 0) with 1.
    rewrite Z.div_1_r.
    destruct (Z.eqb_spec (flags mod 4) 0), (Z.eqb_spec (flags mod 2) 1),
      (Z.eqb_spec ((flags / 2) mod 2) 1); simpl; try done; exfalso; Z.to_euclidean_division_equations; lia.
  - by rewrite decide_True.
  - intros Ho. rewrite decide_False by done. by rewrite (proj2 (Z.ltb_lt _ _) Ho).
  - by rewrite decide_True.
Qed.
End Listing.

Section OnTheMaster.
Context `{TextArchive} `{Memory} `{BoostPathOk}.

(** What is found below the root belongs to the host with its id. *)
Lemma resolved_host max_id r hosts names f :
  master_ok max_id (Some r) hosts → names ≠ [] → DirTree.resolve r names = Some f →
  ∃ h, Hosts.get hosts (TreeNode.host_id f) = Ret h ∧ Host.id h = TreeNode.host_id f.
Proof.
  intros [_ _ Ids (r' & Er & W & T & F)] Hn Ef. injection Er as <-.
  destruct (resolve_nodes r names f W Ef) as [[-> ->]|Hd]; [done|].
  rewrite Forall_forall in F. specialize (F f Hd). unfold len in F.
  destruct (lookup_lt_is_Some_2 hosts (Z.to_nat (TreeNode.host_id f))) as [h Hh]; [lia|].
  exists h. unfold Hosts.get, at_. rewrite Hh. split; [done|].
  rewrite (Ids _ _ Hh) by lia. lia.
Qed.

(** On a master, in every state its event loop reaches, whatever path is read
    or opened, the node found is the root directory or belongs to an entry of
    the host table, and that entry is the host with the node's id: [read] never
    indexes the table out of range and asks the right host. *)
Theorem found_files_have_hosts (n n' : Node.t) names f :
  master_ok (_max_host_id n) (_dir_tree n) (_hosts n) → steps n n' →
  len (_hosts n') < 2 ^ 64 → plain_names names →
  UserFS_find (abs_path names) n' = Ret (Some f) →
  (names = [] ∧ TreeNode.type f = DIRECTORY) ∨
  ∃ h, Hosts.get (_hosts n') (TreeNode.host_id f) = Ret h ∧ Host.id h = TreeNode.host_id f.
Proof.
  intros Ok S Hl Hp Ef.
  pose proof (steps_master_inv n n' S (λ _, Ok) Hl) as Ok'.
  destruct (ok_root _ _ _ Ok') as (r & Er & W & T & _). rewrite Er in Ok'.
  unfold UserFS_find in Ef. rewrite find_plain in Ef by done. injection Ef as Ef.
  rewrite Er in Ef. simpl in Ef. destruct (decide (names = [])) as [->|Hn].
  - left. simpl in Ef. by simplify_eq.
  - right. by eapply resolved_host.
Qed.
End OnTheMaster.

Section Stale.
Context `{BoostPathOk} {W : Type} `{LibSSH W} `{LocalFiles}.

(** a file of this host that is gone, or cannot be opened, reads as empty
    and not as an error, although the tree still records its size. *)
Theorem read_missing_file names size offset n (w : W) r f h :
  plain_names names → _dir_tree n = Some r → DirTree.resolve r names = Some f →
  TreeNode.type f ≠ DIRECTORY → TreeNode.host_id f = _host_id n →
  Hosts.get (_hosts n) (_host_id n) = Ret h → last (Host.working_dir h) = Some slash →
  open_local (Host.working_dir h ++ below names) = Unopened →
  0 <= offset < 2 ^ 63 →
  ∃ n', FUSEInterface.read (abs_path names) size offset (Some n) w = Ret (0, [], Some n', w).
Proof.
  intros Hp Er Ef Ht Hi Hh Hd Hb Ho.
  destruct (decide (TreeNode.size f <= offset)) as [Hpast|Hin].
  - exists n. by rewrite (FUSE_read_past names size offset n w r f).
  - exists (with_session (_host_id n) h n).
    rewrite (FUSE_read_file names size offset n w r f) by (done || lia).
    rewrite Hi, (UserFS_read_spec _ names offset size n w h) by done. cbv zeta.
    rewrite host_id_with_session, Z.eqb_refl, Hb. unfold ifstream_read.
    by destruct (s64 offset <? 0).
Qed.

(** The size recorded in the tree does not bound what a read returns: on a
    file of this host that has grown since, [read] returns bytes after the
    recorded end (the clamped [read_size] is not what is passed on). *)
Theorem read_ignores_recorded_size names size offset n (w : W) r f h b :
  plain_names names → _dir_tree n = Some r → DirTree.resolve r names = Some f →
  TreeNode.type f ≠ DIRECTORY → TreeNode.host_id f = _host_id n →
  Hosts.get (_hosts n) (_host_id n) = Ret h → last (Host.working_dir h) = Some slash →
  open_local (Host.working_dir h ++ below names) = Contents b →
  0 <= offset < TreeNode.size f → TreeNode.size f < offset + size →
  offset + size <= len b → size < 2 ^ 31 → len b < 2 ^ 63 →
  ∃ buff n', FUSEInterface.read (abs_path names) size offset (Some n) w =
      Ret (size, buff, Some n', w) ∧ len buff = size ∧ TreeNode.size f < offset + len buff.
Proof.
  intros Hp Er Ef Ht Hi Hh Hd Hb Ho Hc Hl Hs Hb63.
  assert (len (slice offset size b) = size) as L.
  { unfold slice, len in *. rewrite length_take, length_drop. lia. }
  exists (slice offset size b), (with_session (_host_id n) h n).
  rewrite (FUSE_read_file names size offset n w r f) by (done || lia).
  rewrite Hi, (UserFS_read_spec _ names offset size n w h) by done. cbv zeta.
  rewrite host_id_with_session, Z.eqb_refl, Hb, ifstream_read_small by lia. run.
  rewrite L, (proj2 (Z.ltb_ge size 0)) by lia.
  assert (s32 size = size) as -> by (apply swrap_small; lia). by split_and!; try lia.
Qed.
End Stale.

(** ** A mounted master *)

Section FuseWitnesses.
Import ExampleArchive ExampleGroup ExamplePath ExampleRun.

Definition example_content : bytes := str "This is master file3.!".

(** Only one file can be opened. *)
Definition example_files : LocalFiles := λ p,
  if decide (p = str "/srv/master/master_dir/master_file3") then Contents example_content
  else if decide (p = str "/srv/master/master_file1") then Contents (replicate 100 nul)
  else Unopened.

Definition file3 : list bytes := [str "master_dir"; str "master_file3"].

(** The listening master, with an idle session to host 2, whose file it has. *)
Definition mounted : Node.t :=
  set_ssh_manager {[2 := ExampleSSH.idle]}
    (set_hosts [master_host; master_host; Host.set_id 2 slave_host]
      (set_dir_tree (Some (TreeNode.set_children
        (TreeNode.children ExampleTree.master ++ [ExampleTree.file 2 34 (str "standby1_file1")])
        ExampleTree.master)) listening)).

Definition mounted_tree : TreeNode.t := default ExampleTree.master (_dir_tree mounted).

Lemma read_own_file_witness :
  ∃ n', FUSEInterface.read (H0 := ExampleSSH.lib) (H1 := example_files) (abs_path file3) 4 8
    (Some mounted) ExampleSSH.online = Ret (4, str "mast", Some n', ExampleSSH.online).
Proof.
  destruct (read_own_file (H2 := example_files) file3 4 8 mounted ExampleSSH.online mounted_tree
    (ExampleTree.file 1 22 (str "master_file3")) master_host example_content)
    as (n' & E & _); try reflexivity; try (split; by compute); [by_decide|done|].
  exists n'. exact E.
Defined.

Lemma read_remote_file_witness :
  (∃ buff n' w', FUSEInterface.read (H1 := example_files) (abs_path [str "standby1_file1"]) 4 8
    (Some (set_ssh_manager ∅ mounted)) ExampleSSH.online = Ret (4, buff, Some n', w')) ∧
  FUSEInterface.read (H1 := example_files) (abs_path [str "standby1_file1"]) 4 8
    (Some (set_ssh_manager ∅ mounted)) ExampleSSH.offline = Undef Indeterminate.
Proof.
  split.
  - destruct (read_remote_file (H2 := example_files) [str "standby1_file1"] 4 8
      (set_ssh_manager ∅ mounted) ExampleSSH.online mounted_tree
      (ExampleTree.file 2 34 (str "standby1_file1")) (Host.set_id 2 slave_host))
      as (_ & _ & R); try reflexivity; try (split; by compute); [by_decide|done|by compute|done|].
    destruct R as (k & buff & s' & w' & Es & _ & E).
    + by compute.
    + right. intros (s' & w' & E & _). vm_compute in E. discriminate E.
    + assert (k = 4) as -> by (vm_compute in Es; by injection Es as <- _ _ _).
      do 3 eexists. exact E.
  - refine (proj1 (proj2 (read_remote_file (H2 := example_files) [str "standby1_file1"] 4 8
      (set_ssh_manager ∅ mounted) ExampleSSH.offline mounted_tree
      (ExampleTree.file 2 34 (str "standby1_file1")) (Host.set_id 2 slave_host)
      _ eq_refl eq_refl _ _ eq_refl eq_refl _ _)) _ eq_refl _);
      [by_decide|done|by compute|done|split; by compute|by compute|].
    do 2 eexists. split; [vm_compute; reflexivity|reflexivity].
Defined.

Lemma readdir_agrees_with_getattr_witness :
  ∃ l, FUSEInterface.readdir (abs_path []) (Some mounted) = Ret (0, l) ∧
    StronglySorted (λ a b, string_lt a b = true) l.
Proof.
  destruct (readdir_agrees_with_getattr mounted mounted_tree [] mounted_tree)
    as (l & E & S & _); try reflexivity; [by_decide| | |exists l; by split].
  - repeat constructor.
  - by_decide.
Defined.

Lemma callback_errors_witness :
  FUSEInterface.readdir (abs_path file3) (Some mounted) = Ret (- ENOTDIR, []) ∧
  FUSEInterface.open (abs_path file3) 1 (Some mounted) = Ret (- EACCES).
Proof.
  pose proof (callback_errors (H2 := example_files) mounted mounted_tree file3 4 8 1
    ExampleSSH.online) as (O & R & _); [by_decide|reflexivity|].
  split; [apply R; done|exact O].
Defined.

Lemma found_files_have_hosts_witness :
  ∃ h, Hosts.get (_hosts admitted_node) 2 = Ret h ∧ Host.id h = 2.
Proof.
  destruct (found_files_have_hosts listening admitted_node [str "standby1_file1"]
    (ExampleTree.file 2 34 (str "standby1_file1")) listening_ok
    (play_steps _ _ _ admission_plays)) as [[C _]|R];
    [reflexivity|by_decide|vm_compute; reflexivity|discriminate C|exact R].
Defined.

Lemma read_missing_file_witness :
  ∃ n', FUSEInterface.read (H0 := ExampleSSH.lib) (H1 := example_files)
    (abs_path [str "master_file2"]) 10 0 (Some mounted) ExampleSSH.online =
    Ret (0, [], Some n', ExampleSSH.online).
Proof.
  apply (read_missing_file (H2 := example_files) [str "master_file2"] 10 0 mounted
    ExampleSSH.online mounted_tree (ExampleTree.file 1 22 (str "master_file2")) master_host);
    try reflexivity; try (split; by compute); [by_decide|done].
Defined.

Lemma read_ignores_recorded_size_witness :
  ∃ buff n', FUSEInterface.read (H0 := ExampleSSH.lib) (H1 := example_files)
    (abs_path [str "master_file1"]) 50 10 (Some mounted) ExampleSSH.online =
    Ret (50, buff, Some n', ExampleSSH.online).
Proof.
  destruct (read_ignores_recorded_size (H2 := example_files) [str "master_file1"] 50 10 mounted
    ExampleSSH.online mounted_tree (ExampleTree.file 1 22 (str "master_file1")) master_host
    (replicate 100 nul)) as (buff & n' & E & _);
    try reflexivity; try (split; by compute); [by_decide|done|by compute|].
  exists buff, n'. exact E.
Defined.
End FuseWitnesses.
