(* ===== verification/Objects.v ===== *)
(** * The objects of a directory tree and their lifetimes

    Every [TreeNode] below the root is an element of a [std::set] and an object
    of its own: it lives from the insertion that copies it in to the erasure or
    the assignment that takes it out.  [Object.t] is a tree whose nodes carry the
    identity of their object; identities are never used again, because a pointer
    to an object whose lifetime has ended stays invalid when its storage is
    reused.  The operations of DirTree are repeated on objects, proved to be the
    same operations on the values, and the fate of a pointer is computed from the
    operations that follow. *)

From S2P Require Import Prelude StdSet Archive Path DirTree.

Module Object.

(** [members] are the data members; [elements] is what [children] holds. *)
Inductive t := mk {
  id : nat;
  members : TreeNode.t;
  elements : list t
}.

Section Induction.
Variable P : t → Prop.
Hypothesis step : ∀ o, Forall P (elements o) → P o.

Fixpoint object_ind (o : t) : P o :=
  match o with
  | mk i m es =>
      step (mk i m es)
        ((fix go l : Forall P l :=
           match l with
           | [] => Forall_nil_2 P
           | o :: l => Forall_cons_2 P o l (object_ind o) (go l)
           end) es)
  end.
End Induction.

Definition name (o : t) : bytes := TreeNode.name (members o).

Definition host_id (o : t) : Z := TreeNode.host_id (members o).

Definition set_elements (es : list t) (o : t) : t := mk (id o) (members o) es.

(** The node an object holds, with everything below it. *)
Fixpoint value (o : t) : TreeNode.t :=
  match o with mk _ m es => TreeNode.set_children (map value es) m end.

(** The objects of a tree, its root first. *)
Fixpoint objects (o : t) : list t :=
  match o with mk i m es => mk i m es :: concat (map objects es) end.

Definition ids (o : t) : list nat := map id (objects o).

(** The copy constructor: new objects for the node and everything below it; the
    first free identity is passed along. *)
Fixpoint construct (n : TreeNode.t) (next : nat) : t * nat :=
  match n with
  | TreeNode.mk ty sz u g a m c hid nl nm cs =>
      let '(es, next') :=
        (fix go l k :=
           match l with
           | [] => ([], k)
           | c :: l => let '(o, k) := construct c k in
                       let '(os, k) := go l k in (o :: os, k)
           end) cs (S next) in
      (mk next (TreeNode.mk ty sz u g a m c hid nl nm []) es, next')
  end.

Fixpoint construct_all (l : list TreeNode.t) (k : nat) : list t * nat :=
  match l with
  | [] => ([], k)
  | c :: l => let '(o, k) := construct c k in
              let '(os, k) := construct_all l k in (o :: os, k)
  end.

(** ** Values and identities *)

Lemma children_value o : TreeNode.children (value o) = map value (elements o).
Proof. by destruct o. Qed.

Lemma name_value o : TreeNode.name (value o) = name o.
Proof. by destruct o. Qed.

Lemma host_id_value o : TreeNode.host_id (value o) = host_id o.
Proof. by destruct o. Qed.

Lemma value_set_elements es o :
  value (set_elements es o) = TreeNode.set_children (map value es) (value o).
Proof. by destruct o. Qed.

Lemma objects_eq o : objects o = o :: concat (map objects (elements o)).
Proof. by destruct o. Qed.

Lemma ids_eq o : ids o = id o :: (elements o ≫= ids).
Proof.
  unfold ids at 1. rewrite objects_eq. simpl. f_equal.
  induction (elements o) as [|e es IH]; [done|]. simpl. by rewrite map_app, IH.
Qed.

Lemma id_ids o o' : o' ∈ objects o → id o' ∈ ids o.
Proof. intros Hin. by apply list_elem_of_fmap_2. Qed.

Lemma construct_eq n k :
  construct n k =
  (let '(es, k') := construct_all (TreeNode.children n) (S k) in
   (mk k (TreeNode.set_children [] n) es, k')).
Proof. by destruct n. Qed.

(** The identities from [k] on, up to [k']. *)
Definition numbered (l : list nat) (k k' : nat) : Prop :=
  (k ≤ k')%nat ∧ NoDup l ∧ Forall (λ i, k ≤ i < k')%nat l.

Lemma numbered_nil k : numbered [] k k.
Proof. split; [lia|]. by split; constructor. Qed.

Lemma numbered_app l1 l2 k1 k2 k3 :
  numbered l1 k1 k2 → numbered l2 k2 k3 → numbered (l1 ++ l2) k1 k3.
Proof.
  intros (L1 & N1 & F1) (L2 & N2 & F2). rewrite Forall_forall in F1. rewrite Forall_forall in F2.
  split; [lia|]. split.
  - apply NoDup_app. split; [done|]. split; [|done]. intros i H1 H2.
    specialize (F1 i H1). specialize (F2 i H2). lia.
  - rewrite Forall_forall. intros i [Hi|Hi]%elem_of_app.
    + specialize (F1 i Hi). lia.
    + specialize (F2 i Hi). lia.
Qed.

Lemma numbered_cons l k k' : numbered l (S k) k' → numbered (k :: l) k k'.
Proof.
  intros N. change (k :: l) with ([k] ++ l). eapply numbered_app; [|exact N].
  split; [lia|]. split; [apply NoDup_singleton|]. constructor; [lia|done].
Qed.

(** A copy has the value of its original and fresh identities. *)
Definition copied (n : TreeNode.t) : Prop :=
  ∀ k, value (construct n k).1 = n ∧ numbered (ids (construct n k).1) k (construct n k).2.

Lemma construct_all_copied l :
  Forall copied l → ∀ k, map value (construct_all l k).1 = l ∧
    numbered ((construct_all l k).1 ≫= ids) k (construct_all l k).2.
Proof.
  induction 1 as [|c l Hc _ IH]; intros k; [split; [done|apply numbered_nil]|].
  cbn [construct_all]. destruct (Hc k) as [V N]. destruct (construct c k) as [o k1].
  destruct (IH k1) as [Vs Ns]. destruct (construct_all l k1) as [os k2]. simpl in *.
  split; [by f_equal|]. by eapply numbered_app.
Qed.

Lemma construct_copied n : copied n.
Proof.
  induction n as [n IH] using TreeNode.tree_ind. intros k. rewrite construct_eq.
  destruct (construct_all_copied _ IH (S k)) as [V N].
  destruct (construct_all _ _) as [es k']. simpl in *. split.
  - rewrite V. by destruct n.
  - rewrite ids_eq. by apply numbered_cons.
Qed.

Lemma construct_all_spec l k :
  map value (construct_all l k).1 = l ∧
  numbered ((construct_all l k).1 ≫= ids) k (construct_all l k).2.
Proof. apply construct_all_copied, Forall_true, construct_copied. Qed.
End Object.

(** ** Sets of objects against sets of nodes *)

Section SetMaps.
Context {A B : Type} (key : A → bytes) (key' : B → bytes) (f : A → B).
Hypothesis key_f : ∀ a, key' (f a) = key a.

Lemma map_set_insert x s : map f (set_insert key x s) = set_insert key' (f x) (map f s).
Proof.
  induction s as [|a s IH]; [done|]. simpl. rewrite !key_f.
  destruct (string_lt (key x) (key a)); [done|].
  destruct (string_lt (key a) (key x)); [|done]. simpl. by rewrite IH.
Qed.

Lemma map_set_insert_all l s :
  map f (set_insert_all key l s) = set_insert_all key' (map f l) (map f s).
Proof.
  unfold set_insert_all. revert s. induction l as [|x l IH]; intros s; [done|]. simpl.
  by rewrite IH, map_set_insert.
Qed.

Lemma map_set_find k s : f <$> set_find key k s = set_find key' k (map f s).
Proof.
  induction s as [|a s IH]; [done|]. simpl. rewrite !key_f.
  destruct (string_lt (key a) k); [done|]. by destruct (string_lt k (key a)).
Qed.

(** Insertion keeps the elements that are there and adds at most the new one. *)
Lemma set_insert_keeps x a s : a ∈ s → a ∈ set_insert key x s.
Proof.
  induction s as [|b s IH]; intros Ha; [by apply elem_of_nil in Ha|]. simpl.
  rewrite elem_of_cons in Ha. repeat case_match; rewrite ?elem_of_cons; naive_solver.
Qed.

Lemma set_insert_all_keeps l a s : a ∈ s → a ∈ set_insert_all key l s.
Proof.
  unfold set_insert_all. revert s. induction l as [|x l IH]; intros s Ha; [done|]. simpl.
  by apply IH, set_insert_keeps.
Qed.

Lemma set_insert_submseteq x s : set_insert key x s ⊆+ x :: s.
Proof.
  induction s as [|a s IH]; [done|]. simpl. repeat case_match; [done| |].
  - rewrite (Permutation_swap a x s). by apply submseteq_skip.
  - by apply submseteq_cons.
Qed.

Lemma set_insert_all_submseteq l s : set_insert_all key l s ⊆+ l ++ s.
Proof.
  unfold set_insert_all. revert s. induction l as [|x l IH]; intros s; [done|]. simpl.
  etrans; [apply IH|]. rewrite Permutation_middle. by apply submseteq_app, set_insert_submseteq.
Qed.
End SetMaps.

Lemma NoDup_sub {A} (l k : list A) : l ⊆+ k → NoDup k → NoDup l.
Proof. intros (k' & ->)%submseteq_Permutation. by intros [? _]%NoDup_app. Qed.

Lemma NoDup_bind_inj {A B} (f : A → list B) l a b x :
  NoDup (l ≫= f) → a ∈ l → b ∈ l → x ∈ f a → x ∈ f b → a = b.
Proof.
  induction l as [|c l IH]; intros N Ha Hb Fa Fb; [by apply elem_of_nil in Ha|].
  simpl in N. apply NoDup_app in N as (_ & D & N).
  apply elem_of_cons in Ha as [->|Ha], Hb as [->|Hb]; try done; [| |by apply IH];
    exfalso; eapply D; try done; apply list_elem_of_bind; eauto.
Qed.

(** ** The tree of a node, object by object *)

(** [tree] is what [_root] points to; [next] is the first unused identity. *)
Record store := mkStore { next : nat; tree : Object.t }.

(** What the members of UserFS do to [_dir_tree] once it has its root:
    [merge(s)], [removeOf(i)], [removeNotOf(i)], and
    [root()->children = s.root()->children]. *)
Inductive edit :=
  | Merge (s : TreeNode.t)
  | RemoveOf (i : Z)
  | RemoveNotOf (i : Z)
  | Assign (s : TreeNode.t).

(** The loop that erases the elements with [f]. *)
Fixpoint erase_where (f : Object.t → bool) (l : list Object.t) : list Object.t :=
  match l with
  | [] => []
  | ite :: l => if f ite then erase_where f l else ite :: erase_where f l
  end.

Definition set_root_elements (k : nat) (es : list Object.t) (st : store) : store :=
  mkStore k (Object.set_elements es (tree st)).

Definition merge_objects (s : TreeNode.t) (st : store) : store :=
  let '(es, k) := Object.construct_all (TreeNode.children s) (next st) in
  set_root_elements k (set_insert_all Object.name es (Object.elements (tree st))) st.

Definition removeOf_objects (i : Z) (st : store) : store :=
  set_root_elements (next st)
    (erase_where (λ o, Object.host_id o =? i) (Object.elements (tree st))) st.

Definition removeNotOf_objects (i : Z) (st : store) : store :=
  set_root_elements (next st)
    (erase_where (λ o, negb (Object.host_id o =? i)) (Object.elements (tree st))) st.

(** Assignment of a set: the old elements end, copies of the new ones begin.  An
    implementation may construct the copies in the nodes of the old elements; C++
    does not say which copy takes the place of which element, if any, so that
    nothing may be read through a pointer to an old element.  The model gives every
    copy a new identity, and [Dangling] to a use of an old one. *)
Definition assign_objects (s : TreeNode.t) (st : store) : store :=
  let '(es, k) := Object.construct_all (TreeNode.children s) (next st) in
  set_root_elements k es st.

Definition edit_store (e : edit) (st : store) : store :=
  match e with
  | Merge s => merge_objects s st
  | RemoveOf i => removeOf_objects i st
  | RemoveNotOf i => removeNotOf_objects i st
  | Assign s => assign_objects s st
  end.

(** One case of [edit_store], opened. *)
Ltac unfold_edit :=
  unfold edit_store, merge_objects, removeOf_objects, removeNotOf_objects, assign_objects.

Definition edits (es : list edit) (st : store) : store := foldl (flip edit_store) st es.

(** The same on values, with the operations of DirTree. *)
Definition edit_tree (e : edit) (this : option TreeNode.t) : outcome (option TreeNode.t) :=
  match e with
  | Merge s => merge this (Some s)
  | RemoveOf i => removeOf i this
  | RemoveNotOf i => removeNotOf i this
  | Assign s => r ← deref this; Ret (Some (TreeNode.set_children (TreeNode.children s) r))
  end.

Fixpoint edit_trees (es : list edit) (this : option TreeNode.t) : outcome (option TreeNode.t) :=
  match es with
  | [] => Ret this
  | e :: es => this ← edit_tree e this; edit_trees es this
  end.

(** A pointer is the identity of an object; using it needs the object. *)
Definition at_ptr (p : nat) (st : store) : outcome TreeNode.t :=
  match list_find (λ o, Object.id o = p) (Object.objects (tree st)) with
  | Some (_, o) => Ret (Object.value o)
  | None => Undef Dangling
  end.

(** [DirTree::find], which returns a pointer: the loop of [find_loop] with the
    objects themselves. *)
Fixpoint find_object (_root node : option Object.t) (es : list bytes)
    : outcome (option Object.t) :=
  match es with
  | [] => Ret node
  | ite :: es =>
      if decide (ite = str "..") then AssertFailed
      else if decide (ite = str ".") then find_object _root node es
      else if decide (ite = str "/" ∧ node = None) then find_object _root _root es
      else match node with
           | None => find_object _root node es
           | Some o =>
               match set_find Object.name ite (Object.elements o) with
               | None => Ret None
               | Some c => find_object _root (Some c) es
               end
           end
  end.

Definition find_ptr `{BoostPath} (path : bytes) (st : store) : outcome (option nat) :=
  o ← find_object (Some (tree st)) None (path_iter path); Ret (option_map Object.id o).

(** ** The operations on objects are those on values *)

Lemma value_erase_where (f : Object.t → bool) (g : TreeNode.t → bool) l :
  (∀ o, g (Object.value o) = f o) →
  map Object.value (erase_where f l) = filter (λ n, g n = false) (map Object.value l).
Proof.
  intros E. induction l as [|o l IH]; [done|]. simpl. rewrite filter_cons, E.
  destruct (f o); case_decide; try done. simpl. by rewrite IH.
Qed.

Lemma set_root_elements_value k es st :
  Object.value (tree (set_root_elements k es st)) =
  TreeNode.set_children (map Object.value es) (Object.value (tree st)).
Proof. apply Object.value_set_elements. Qed.

Lemma edit_store_value e st :
  edit_tree e (Some (Object.value (tree st))) = Ret (Some (Object.value (tree (edit_store e st)))).
Proof.
  destruct e as [s|i|i|s]; unfold_edit;
    unfold edit_tree, merge, removeOf, removeNotOf, root; run.
  - destruct (Object.construct_all_spec (TreeNode.children s) (next st)) as [V _].
    destruct (Object.construct_all _ _) as [es k]. simpl fst in V.
    rewrite set_root_elements_value, Object.children_value, <- V.
    by rewrite (map_set_insert_all _ TreeNode.name Object.value) by apply Object.name_value.
  - rewrite set_root_elements_value, Object.children_value, removeOf_loop_filter.
    rewrite (value_erase_where _ (λ n, TreeNode.host_id n =? i))
      by (intros o; by rewrite Object.host_id_value).
    do 3 f_equal. apply list_filter_iff. intros n. symmetry. apply Z.eqb_neq.
  - rewrite set_root_elements_value, Object.children_value, removeNotOf_loop_filter.
    rewrite (value_erase_where _ (λ n, negb (TreeNode.host_id n =? i)))
      by (intros o; by rewrite Object.host_id_value).
    do 3 f_equal. apply list_filter_iff. intros n. rewrite negb_false_iff. symmetry. apply Z.eqb_eq.
  - destruct (Object.construct_all_spec (TreeNode.children s) (next st)) as [V _].
    destruct (Object.construct_all _ _) as [es k]. simpl fst in V.
    by rewrite set_root_elements_value, V.
Qed.

Lemma edits_value es st :
  edit_trees es (Some (Object.value (tree st))) = Ret (Some (Object.value (tree (edits es st)))).
Proof.
  revert st. induction es as [|e es IH]; intros st; [done|]. simpl.
  rewrite edit_store_value. run. apply IH.
Qed.

Lemma find_object_value r o es :
  find_loop (Object.value <$> r) (Object.value <$> o) es =
  (o ← find_object r o es; Ret (option_map Object.value o)).
Proof.
  revert o. induction es as [|x es IH]; intros o; [by destruct o|]. simpl.
  destruct (decide (x = str "..")); [done|]. destruct (decide (x = str ".")); [apply IH|].
  destruct o as [o|]; simpl.
  - rewrite !decide_False by naive_solver. unfold TreeNode.find_child.
    rewrite Object.children_value.
    rewrite <- (map_set_find Object.name TreeNode.name Object.value) by apply Object.name_value.
    destruct (set_find _ x _) as [c|]; [|done]. simpl. apply (IH (Some c)).
  - destruct (decide (x = str "/")).
    + rewrite !decide_True by done. apply IH.
    + rewrite !decide_False by naive_solver. apply (IH None).
Qed.

(** ** Lifetimes *)

(** Every object has an identity of its own, below the next one. *)
Definition store_ok (st : store) : Prop :=
  NoDup (Object.ids (tree st)) ∧ Forall (λ i, i < next st)%nat (Object.ids (tree st)).

(** An edit adds objects with new identities and ends the lifetime of others. *)
Lemma edit_store_ids e st :
  ∃ new, Object.numbered new (next st) (next (edit_store e st)) ∧
    Object.ids (tree (edit_store e st)) ⊆+ new ++ Object.ids (tree st).
Proof.
  assert (∀ es k, Object.ids (tree (set_root_elements k es st)) =
    Object.id (tree st) :: (es ≫= Object.ids)) as Eids by (intros; by rewrite Object.ids_eq).
  assert (∀ f, erase_where f (Object.elements (tree st)) ⊆+ Object.elements (tree st)) as Sub.
  { intros f. induction (Object.elements (tree st)) as [|o l IH]; [done|]. simpl.
    case_match; [by apply submseteq_cons|by apply submseteq_skip]. }
  rewrite (Object.ids_eq (tree st)). destruct e as [s|i|i|s]; unfold_edit.
  - destruct (Object.construct_all_spec (TreeNode.children s) (next st)) as [_ N].
    destruct (Object.construct_all _ _) as [es k]. exists (es ≫= Object.ids). split; [exact N|].
    rewrite Eids, <- Permutation_middle. apply submseteq_skip. rewrite <- bind_app.
    by apply bind_submseteq, set_insert_all_submseteq.
  - exists []. split; [apply Object.numbered_nil|]. rewrite Eids.
    by apply submseteq_skip, bind_submseteq.
  - exists []. split; [apply Object.numbered_nil|]. rewrite Eids.
    by apply submseteq_skip, bind_submseteq.
  - destruct (Object.construct_all_spec (TreeNode.children s) (next st)) as [_ N].
    destruct (Object.construct_all _ _) as [es k]. exists (es ≫= Object.ids). split; [exact N|].
    rewrite Eids, <- Permutation_middle. apply submseteq_skip.
    by apply submseteq_inserts_r.
Qed.

Lemma edit_store_ok e st : store_ok st → store_ok (edit_store e st).
Proof.
  intros [N F]. destruct (edit_store_ids e st) as (new & (L & Nn & Fn) & S).
  rewrite Forall_forall in F. rewrite Forall_forall in Fn. split.
  - eapply NoDup_sub; [exact S|]. apply NoDup_app. split; [done|]. split; [|done].
    intros i Hn Ho. specialize (F i Ho). specialize (Fn i Hn). lia.
  - rewrite Forall_forall. intros i Hi. eapply elem_of_submseteq in Hi; [|exact S].
    apply elem_of_app in Hi as [Hi|Hi]; [specialize (Fn i Hi)|specialize (F i Hi)]; lia.
Qed.

Lemma edits_ok es st : store_ok st → store_ok (edits es st).
Proof. revert st. induction es as [|e es IH]; intros st S; [done|]. by apply IH, edit_store_ok. Qed.

(** An identity that was used and has no object. *)
Definition dead (p : nat) (st : store) : Prop :=
  (p < next st)%nat ∧ p ∉ Object.ids (tree st).

Lemma edit_store_dead e p st : dead p st → dead p (edit_store e st).
Proof.
  intros [L D]. destruct (edit_store_ids e st) as (new & (Ln & _ & Fn) & S).
  rewrite Forall_forall in Fn. split; [lia|]. intros Hi.
  eapply elem_of_submseteq in Hi; [|exact S].
  apply elem_of_app in Hi as [Hi|Hi]; [specialize (Fn p Hi); lia|done].
Qed.

Lemma edits_dead es p st : dead p st → dead p (edits es st).
Proof. revert st. induction es as [|e es IH]; intros st D; [done|]. by apply IH, edit_store_dead. Qed.

Lemma at_ptr_dead p st : dead p st → at_ptr p st = Undef Dangling.
Proof.
  intros [_ D]. unfold at_ptr. destruct (list_find _ _) as [[i o]|] eqn:E; [|done].
  apply list_find_Some in E as (Hi & <- & _). destruct D. apply Object.id_ids.
  by eapply list_elem_of_lookup_2.
Qed.

Lemma NoDup_fmap_inj {A B} (f : A → B) l a b :
  NoDup (map f l) → a ∈ l → b ∈ l → f a = f b → a = b.
Proof.
  intros N (i & Ha)%list_elem_of_lookup (j & Hb)%list_elem_of_lookup E.
  assert (i = j) as ->; [|congruence].
  eapply (NoDup_lookup (f <$> l)); [exact N| |]; rewrite list_lookup_fmap.
  - by rewrite Ha.
  - by rewrite Hb, E.
Qed.

Lemma at_ptr_live o st :
  store_ok st → o ∈ Object.objects (tree st) → at_ptr (Object.id o) st = Ret (Object.value o).
Proof.
  intros [N _] Ho. unfold at_ptr.
  destruct (list_find_elem_of (λ o', Object.id o' = Object.id o) _ o Ho eq_refl) as [[i o'] E].
  rewrite E. apply list_find_Some in E as (Hi & E & _).
  apply list_elem_of_lookup_2 in Hi. by rewrite (NoDup_fmap_inj Object.id _ o' o N Hi Ho E).
Qed.

(** [e] is an element of the root directory, [o] an object of its tree. *)
Definition under (e o : Object.t) (st : store) : Prop :=
  e ∈ Object.elements (tree st) ∧ o ∈ Object.objects e.

Lemma under_objects e o st : under e o st → o ∈ Object.objects (tree st).
Proof.
  intros [He Ho]. rewrite Object.objects_eq. apply elem_of_cons. right.
  apply list_elem_of_In, in_concat. exists (Object.objects e).
  split; [|by apply list_elem_of_In]. by apply in_map, list_elem_of_In.
Qed.

(** The edits after which an element of the root that host [h] owns is still there. *)
Definition keeps (h : Z) (e : edit) : bool :=
  match e with
  | Merge _ => true
  | RemoveOf i => negb (h =? i)
  | RemoveNotOf i => h =? i
  | Assign _ => false
  end.

Lemma elem_of_erase_where f o l : o ∈ erase_where f l ↔ o ∈ l ∧ f o = false.
Proof.
  induction l as [|a l IH]; simpl.
  { split; [by intros ?%elem_of_nil|by intros [?%elem_of_nil _]]. }
  destruct (f a) eqn:E; rewrite ?elem_of_cons, IH; split.
  - intros [??]. auto.
  - intros [[->|?] ?]; [congruence|done].
  - intros [->|[??]]; auto.
  - intros [[->|?] ?]; auto.
Qed.

Lemma edit_store_keeps ed e o st :
  keeps (Object.host_id e) ed = true → under e o st → under e o (edit_store ed st).
Proof.
  intros K [He Ho]. split; [|done]. destruct ed as [s|i|i|s]; unfold_edit; simpl in K.
  - destruct (Object.construct_all _ _). by apply set_insert_all_keeps.
  - apply elem_of_erase_where. split; [done|]. by apply negb_true_iff in K.
  - apply elem_of_erase_where. by rewrite K.
  - done.
Qed.

Lemma edit_store_ends ed e o st :
  keeps (Object.host_id e) ed = false → store_ok st → under e o st →
  dead (Object.id o) (edit_store ed st).
Proof.
  intros K [N F] U. pose proof U as [He Ho].
  assert (Object.id o ∈ Object.ids (tree st)) as Hid by (by eapply Object.id_ids, under_objects).
  rewrite Forall_forall in F. specialize (F _ Hid).
  destruct (edit_store_ids ed st) as (new & (L & _ & _) & _).
  split; [lia|]. rewrite Object.ids_eq in N. apply NoDup_cons in N as [Nr N].
  assert (Object.id o ≠ Object.id (tree st)) as Hr.
  { intros E. rewrite <- E in Nr. apply Nr, list_elem_of_bind. eauto using Object.id_ids. }
  assert (∀ k es, Forall (λ e', e' ≠ e ∧ e' ∈ Object.elements (tree st)) es →
    Object.id o ∉ Object.ids (tree (set_root_elements k es st))) as Out.
  { intros k es Hes. rewrite Forall_forall in Hes. rewrite Object.ids_eq.
    intros [Hi|Hi]%elem_of_cons; [done|].
    apply list_elem_of_bind in Hi as (e' & Hi & He'). destruct (Hes e' He') as [Ne He2].
    destruct Ne. eapply NoDup_bind_inj; eauto using Object.id_ids. }
  destruct ed as [s|i|i|s]; unfold_edit; simpl in K; [done| | |].
  - apply Out, Forall_forall. intros e' [He' Hh]%elem_of_erase_where. split; [|done].
    intros ->. by rewrite Hh in K.
  - apply Out, Forall_forall. intros e' [He' Hh]%elem_of_erase_where. split; [|done].
    intros ->. by rewrite K in Hh.
  - destruct (Object.construct_all_spec (TreeNode.children s) (next st)) as [_ (_ & _ & Fn)].
    destruct (Object.construct_all _ _) as [es k]. rewrite Object.ids_eq.
    intros [Hi|Hi]%elem_of_cons; [done|]. rewrite Forall_forall in Fn. specialize (Fn _ Hi).
    simpl in Fn. lia.
Qed.

(** What becomes of a pointer to an object below the root. *)
Lemma pointer_fate es e o st :
  store_ok st → under e o st →
  at_ptr (Object.id o) (edits es st) =
    if forallb (keeps (Object.host_id e)) es then Ret (Object.value o) else Undef Dangling.
Proof.
  revert st. induction es as [|ed es IH]; intros st S U.
  - by apply at_ptr_live; [|eapply under_objects].
  - change (edits (ed :: es) st) with (edits es (edit_store ed st)). simpl.
    destruct (keeps (Object.host_id e) ed) eqn:K; simpl.
    + apply IH; [by apply edit_store_ok|by apply edit_store_keeps].
    + by eapply at_ptr_dead, edits_dead, edit_store_ends.
Qed.

(** The root itself is never replaced. *)
Lemma edits_root_id es st : Object.id (tree (edits es st)) = Object.id (tree st).
Proof.
  revert st. induction es as [|e es IH]; intros st; [done|].
  change (edits (e :: es) st) with (edits es (edit_store e st)). rewrite IH.
  by destruct e; unfold_edit; try destruct (Object.construct_all _ _).
Qed.

(** ** What [find] returns *)

Lemma set_find_elem {A} (key : A → bytes) k s a : set_find key k s = Some a → a ∈ s.
Proof.
  induction s as [|b s IH]; [done|]. simpl.
  repeat case_match; intros; simplify_eq; auto using list_elem_of_here, list_elem_of_further.
Qed.

Lemma element_objects r o c :
  o ∈ Object.objects r → c ∈ Object.elements o → c ∈ Object.objects r.
Proof.
  revert o. induction r as [r IH] using Object.object_ind. intros o.
  intros Ho Hc. rewrite (Object.objects_eq r) in Ho. apply elem_of_cons in Ho as [->|Ho].
  - eapply under_objects with (st := mkStore 0 r). split; [exact Hc|].
    rewrite Object.objects_eq. apply list_elem_of_here.
  - apply list_elem_of_In, in_concat in Ho as (l & Hl & Ho).
    apply in_map_iff in Hl as (e & <- & He). apply list_elem_of_In in He, Ho.
    rewrite Forall_forall in IH.
    eapply under_objects with (st := mkStore 0 r) (e := e). split; [done|]. by eapply IH.
Qed.

Lemma find_object_objects r node es o :
  (∀ o', node = Some o' → o' ∈ Object.objects r) →
  find_object (Some r) node es = Ret (Some o) → o ∈ Object.objects r.
Proof.
  revert node. induction es as [|x es IH]; intros node Hn E; simpl in E.
  { inv_bind. by apply Hn. }
  repeat case_decide; try done; [by eapply IH| |].
  - eapply IH; [|exact E]. intros o' [= <-]. rewrite Object.objects_eq. apply list_elem_of_here.
  - destruct node as [n|]; [|by eapply IH].
    destruct (set_find _ x _) as [c|] eqn:Ec; [|by inv_bind].
    eapply IH; [|exact E]. intros o' [= <-]. eapply element_objects; [by apply Hn|].
    by eapply set_find_elem.
Qed.

(** The host that owns the element of the root a pointer points into; [None] for
    the root. *)
Definition owner (p : nat) (st : store) : option Z :=
  '(_, e) ← list_find (λ e, p ∈ Object.ids e) (Object.elements (tree st));
  Some (Object.host_id e).

Lemma owner_Some o st :
  store_ok st → o ∈ Object.objects (tree st) →
  match owner (Object.id o) st with
  | Some h => ∃ e, under e o st ∧ Object.host_id e = h
  | None => o = tree st
  end.
Proof.
  intros [N _] Ho. unfold owner.
  rewrite Object.objects_eq in Ho. apply elem_of_cons in Ho as [->|Ho].
  - rewrite Object.ids_eq in N. apply NoDup_cons in N as [Nr _].
    destruct (list_find _ _) as [[i e]|] eqn:E; [|done]. exfalso.
    apply list_find_Some in E as (He & Hi & _). apply Nr, list_elem_of_bind.
    exists e. split; [done|]. by eapply list_elem_of_lookup_2.
  - apply list_elem_of_In, in_concat in Ho as (l & Hl & Ho).
    apply in_map_iff in Hl as (e & <- & He). apply list_elem_of_In in He, Ho.
    destruct (list_find_elem_of (λ e, Object.id o ∈ Object.ids e) _ e He) as [[i e'] E].
    { by apply Object.id_ids. }
    rewrite E. simpl. exists e. split; [done|].
    apply list_find_Some in E as (He' & Hi & _). f_equal.
    rewrite Object.ids_eq in N. apply NoDup_cons in N as [_ N].
    eapply NoDup_bind_inj; [exact N|done| | |exact Hi].
    + by eapply list_elem_of_lookup_2.
    + by apply Object.id_ids.
Qed.

(** [find] returns null exactly when lookup in the value fails, and otherwise a
    pointer to an object that holds the node found. *)
Lemma find_ptr_value `{BoostPath} path st :
  store_ok st →
  find (Some (Object.value (tree st))) path =
    (p ← find_ptr path st;
     match p with
     | Some p => n ← at_ptr p st; Ret (Some n)
     | None => Ret None
     end).
Proof.
  intros S. unfold find, find_ptr.
  pose proof (find_object_value (Some (tree st)) None (path_iter path)) as V.
  simpl in V. rewrite V.
  destruct (find_object _ _ _) as [[o|]| | |] eqn:E; simpl; try done.
  rewrite at_ptr_live; [done|done|]. by eapply find_object_objects; [|exact E].
Qed.

(** What becomes of a pointer that [find] returned, whatever edits follow: a
    pointer to the root stays valid and reads the current root; any other reads
    the node that was found as long as every edit keeps the elements of the host
    that owns it, and is dangling from the first one that does not. *)
Lemma find_ptr_fate `{BoostPath} es path st p :
  store_ok st → find_ptr path st = Ret (Some p) →
  at_ptr p (edits es st) =
    match owner p st with
    | None => Ret (Object.value (tree (edits es st)))
    | Some h => if forallb (keeps h) es then at_ptr p st else Undef Dangling
    end.
Proof.
  intros S E. unfold find_ptr in E. inv_bind. destruct a as [o|]; [|done]. injection E as <-.
  apply find_object_objects in Ha as Ho; [|done].
  pose proof (owner_Some o st S Ho) as Ow. destruct (owner _ _) as [h|].
  - destruct Ow as (e & U & <-). rewrite (pointer_fate es e o st S U).
    by rewrite (at_ptr_live o st S Ho).
  - subst o. rewrite <- (edits_root_id es st). apply at_ptr_live; [by apply edits_ok|].
    rewrite Object.objects_eq. apply list_elem_of_here.
Qed.
