(* ===== verification/Lifetime.v ===== *)
(** * Callbacks and the network thread: the lifetime of what [find] returns

    [UserFS::find] holds the lock [_access] only while it looks a path up; the
    callbacks of fuse_interface.cc use the pointer after that, while the network
    thread may run handlers that change the tree.  Here a callback is split into
    its lookup and its use, the handlers' effects on the objects of the tree
    ([master_edits], [slave_edits]) come in between, and the theorems say when
    the use is safe. *)

From S2P Require Import Prelude BytesOrder StdSet Archive Path DirTree Objects Host Packet Ssh.
From S2P Require Import TcpMessager Channel MasterLoop UserFs Group Handshake SlaveLoop Fuse.
Import Node.

(** ** What the handlers do to the tree *)

Section Edits.
Context `{TextArchive} `{Memory}.

(** The tuple of a connection, when there is one. *)
Definition connection_of (h : nat) (n : Node.t) : option Master.Connection :=
  m ← master n; Master._connections m !! h.

(** [UserFS::disconnect(handle)] *)
Definition disconnect_edits (h : nat) (n : Node.t) : list edit :=
  match connection_of h n with
  | Some c => if Master.slave_id c =? 0 then [] else [RemoveOf (Master.slave_id c)]
  | None => []
  end.

(** [TCPMasterMessager::close] *)
Definition close_edits (h : nat) (n : Node.t) : list edit :=
  match connection_of h n with
  | Some c => if Master.socket_open c then disconnect_edits h n else []
  | None => []
  end.

(** [TCPManager::read(packet, handle)] *)
Definition read_master_edits (p : Packet.t) (h : nat) (n : Node.t) : list edit :=
  match Protocol.parse_master (Packet.data p) with
  | Ret (Protocol.NewConnection d _) =>
      match DirTree_deserialize d with
      | Ret (Some s) =>
          match hasConflict (_dir_tree n) (Some s) with
          | Ret conflicts =>
              if nonempty conflicts then close_edits h n
              else [Merge (TreeNode.setHostID (_max_host_id n) s)]
          | _ => []
          end
      | _ => []
      end
  | _ => []
  end.

(** A handler of the master that returns normally. *)
Definition master_edits (k : Master.task) (n : Node.t) : list edit :=
  match k with
  | Master.THeader h ec data =>
      if negb ec && (len data =? Packet.sizeLength) then [] else close_edits h n
  | Master.TBody h ec data =>
      match connection_of h n with
      | Some c =>
          if negb ec && (len data =? Packet.size (Master.packet c)) then
            match Packet.setData (fill data (Master.buffer c)) (Master.packet c) with
            | Ret p => read_master_edits p h n
            | _ => []
            end
          else close_edits h n
      | None => []
      end
  | Master.TWritten h ec length =>
      match connection_of h n with
      | Some c =>
          match Master.queue c with
          | p :: _ => if negb ec && (length =? Packet.size p) then [] else close_edits h n
          | [] => close_edits h n
          end
      | None => []
      end
  | _ => []
  end.

(** [TCPManager::read(packet)] *)
Definition read_slave_edits (p : Packet.t) : list edit :=
  match Protocol.parse_slave (Packet.data p) with
  | Ret (Protocol.SlaveRecognized _ d _) | Ret (Protocol.UpdateInfo d _) =>
      match DirTree_deserialize d with Ret (Some s) => [Assign s] | _ => [] end
  | _ => []
  end.

(** A handler of a slave that returns normally. *)
Definition slave_edits (k : Slave.task) (n : Node.t) : list edit :=
  match k, slave n with
  | Slave.TConnected ec, _ => if negb ec then [] else [RemoveNotOf (_host_id n)]
  | Slave.THeader ec data, _ =>
      if negb ec && (len data =? Packet.sizeLength) then [] else [RemoveNotOf (_host_id n)]
  | Slave.TBody ec data, Some m =>
      if negb ec && (len data =? Packet.size (Slave._packet m)) then
        match Packet.setData (fill data (Slave._buffer m)) (Slave._packet m) with
        | Ret p => read_slave_edits p
        | _ => []
        end
      else [RemoveNotOf (_host_id n)]
  | Slave.TWritten ec length, Some m =>
      match Slave._write_packets m with
      | p :: _ =>
          if negb ec && (length =? Packet.size p) then [] else [RemoveNotOf (_host_id n)]
      | [] => [RemoveNotOf (_host_id n)]
      end
  | _, _ => []
  end.

(** ** The ids of the connections, and one turn of the event loop *)

Definition roster_of (m : Master.t) : list Z := Master.slave_id <$> Master._connections m.

Definition roster (n : Node.t) : list Z :=
  match master n with Some m => roster_of m | None => [] end.

(** Tree, ids and the next id are those they were. *)
Definition quiet (n n' : Node.t) : Prop :=
  _dir_tree n' = _dir_tree n ∧ _max_host_id n' = _max_host_id n ∧ roster n' = roster n.

(** A handler changes the tree only by a join that takes the next id, or by the
    leave of a connection that has one. *)
Inductive turn (n n' : Node.t) : list edit → Prop :=
  | turn_none k :
      _dir_tree n' = _dir_tree n → _max_host_id n' = _max_host_id n →
      roster n' = roster n ++ replicate k 0 → turn n n' []
  | turn_join h s :
      edit_tree (Merge (TreeNode.setHostID (_max_host_id n) s)) (_dir_tree n) = Ret (_dir_tree n') →
      _max_host_id n' = u64 (_max_host_id n + 1) →
      roster n' = <[h := _max_host_id n]> (roster n) →
      turn n n' [Merge (TreeNode.setHostID (_max_host_id n) s)]
  | turn_leave h i :
      i ≠ 0 → roster n !! h = Some i →
      edit_tree (RemoveOf i) (_dir_tree n) = Ret (_dir_tree n') →
      _max_host_id n' = _max_host_id n → roster n' = <[h := 0]> (roster n) →
      turn n n' [RemoveOf i].

Lemma quiet_turn n n' : quiet n n' → turn n n' [].
Proof. intros (?&?&E). apply (turn_none _ _ 0); [done..|]. by rewrite app_nil_r. Qed.

Lemma turn_quiet n1 n2 n3 n4 es : quiet n1 n2 → turn n2 n3 es → quiet n3 n4 → turn n1 n4 es.
Proof.
  intros (T1 & M1 & R1) Tu (T2 & M2 & R2). destruct Tu as [k ???|h s ???|h i ?????].
  - apply (turn_none _ _ k); congruence.
  - rewrite M1 in *. apply (turn_join _ _ h); congruence.
  - apply (turn_leave _ _ h); congruence.
Qed.

Lemma roster_alter f h m :
  (∀ c, Master.slave_id (f c) = Master.slave_id c) →
  roster_of (Master.alter_conn f h m) = roster_of m.
Proof.
  intros E. unfold roster_of. simpl. apply list_eq. intros i. rewrite !list_lookup_fmap.
  rewrite list_lookup_alter. destruct (decide (h = i)) as [->|]; [|done].
  destruct (Master._connections m !! i); [|done]. simpl. by rewrite E.
Qed.

Lemma roster_set_slave_id i h m :
  roster_of (Master.alter_conn (Master.set_slave_id i) h m) = <[h := i]> (roster_of m).
Proof.
  unfold roster_of. simpl. apply list_eq. intros j. rewrite list_lookup_fmap.
  rewrite list_lookup_alter. destruct (decide (h = j)) as [->|Hj].
  - destruct (Master._connections m !! j) as [c|] eqn:Ec.
    + rewrite list_lookup_insert_eq; [done|]. rewrite length_fmap. by eapply lookup_lt_Some.
    + simpl. symmetry. apply lookup_ge_None. rewrite length_insert, length_fmap.
      by apply lookup_ge_None.
  - by rewrite list_lookup_insert_ne, list_lookup_fmap.
Qed.
(** ** Handlers take turns *)

Definition kept (m m' : Master.t) : Prop := roster_of m' = roster_of m.

Lemma do_write_kept h m m' : Master.do_write h m = Ret m' → kept m m'.
Proof. unfold Master.do_write. intros E. by inv_bind; subst. Qed.

Lemma enqueue_kept p h m m' : Master.enqueue p h m = Ret m' → kept m m'.
Proof.
  unfold Master.enqueue. intros E. inv_bind. unfold kept.
  case_match; [apply do_write_kept in E; rewrite E|inv_bind; subst]; by apply roster_alter.
Qed.

Lemma write_loop_kept p hs m m' : Master.write_loop p hs m = Ret m' → kept m m'.
Proof.
  revert m. induction hs as [|h hs IH]; intros m E; simpl in E; inv_bind; [by subst|].
  apply IH in E. unfold kept in *. rewrite E. unfold Master.write_one in Ha. inv_bind.
  case_match; [inv_bind; by subst|by apply enqueue_kept in Ha].
Qed.

Lemma do_read_header_kept h m m' : Master.do_read_header h m = Ret m' → kept m m'.
Proof.
  unfold Master.do_read_header. intros E. inv_bind. subst.
  by apply (roster_alter (Master.set_buffer a0)).
Qed.

Lemma do_read_body_kept h m m' : Master.do_read_body h m = Ret m' → kept m m'.
Proof.
  unfold Master.do_read_body. intros E. inv_bind. subst.
  by apply (roster_alter (Master.set_buffer a0)).
Qed.

Lemma on_accept_roster ec r m m' :
  Master.on_accept ec r m = Ret m' → ∃ k, roster_of m' = roster_of m ++ replicate k 0.
Proof.
  unfold Master.on_accept. intros E. inv_bind. subst. destruct ec; simpl in Ha.
  - inv_bind. subst. exists 0%nat. by rewrite app_nil_r.
  - apply do_read_header_kept in Ha. exists 1%nat. change (roster_of a = roster_of m ++ [0]).
    rewrite Ha. unfold roster_of. simpl. by rewrite fmap_app.
Qed.

Lemma on_master_quiet f (n n' : Node.t) :
  (∀ m m', f m = Ret m' → kept m m') → on_master f n = Ret n' → quiet n n'.
Proof.
  intros K E. unfold on_master in E. inv_bind. subst. change (get_master n) with (master n) in Ha.
  apply K in Ha0. unfold quiet, roster. simpl. rewrite Ha. done.
Qed.

Lemma on_tcp_write_quiet msg n n' : on_tcp (TCPManager.write msg) n = Ret n' → quiet n n'.
Proof.
  unfold on_tcp, TCPManager.write, quiet, roster, master. intros E. inv_bind. subst.
  repeat case_match; inv_bind; subst; simpl in *; simplify_eq; try done; naive_solver.
Qed.

Lemma on_tcp_writeTo_quiet msg h n n' : on_tcp (TCPManager.writeTo msg h) n = Ret n' → quiet n n'.
Proof.
  unfold on_tcp, TCPManager.writeTo, quiet, roster, master. intros E. inv_bind. subst. simpl.
  by rewrite Ha0.
Qed.

Lemma connection_of_conn h n m c :
  master n = Some m → Master.conn h m = Ret c → connection_of h n = Some c.
Proof. intros G Hc. unfold connection_of. rewrite G. simpl. by apply at_Ret. Qed.

Lemma roster_connection h n c :
  connection_of h n = Some c → roster n !! h = Some (Master.slave_id c).
Proof.
  unfold connection_of, roster, roster_of. destruct (master n) as [m|]; [|done]. simpl. intros E.
  by rewrite list_lookup_fmap, E.
Qed.

Lemma set_slave_id_roster i h n n' :
  set_slave_id i h n = Ret n' → data n' = data n ∧ roster n' = <[h := i]> (roster n).
Proof.
  intros E. split; [by eapply set_slave_id_data|]. unfold set_slave_id in E. inv_bind. subst.
  unfold roster. rewrite Ha. apply roster_set_slave_id.
Qed.

Lemma disconnect_turn h n n' : master_disconnect h n = Ret n' → turn n n' (disconnect_edits h n).
Proof.
  unfold master_disconnect, disconnect_edits. intros E. inv_bind.
  pose proof (connection_of_conn h n a a0 Ha Ha0) as C. rewrite C.
  destruct (Z.eqb_spec (Master.slave_id a0) 0) as [Hz|Hz].
  { inv_bind. subst. by apply quiet_turn. }
  inv_bind. apply set_slave_id_roster in Ha2 as [D R]. apply on_tcp_write_quiet in E.
  eapply turn_quiet; [|eapply turn_leave|exact E]; [done|exact Hz|by apply roster_connection| | |].
  - injection D as _ _ _ _ _ -> _ _. exact Ha1.
  - by injection D as _ _ _ _ -> _ _ _.
  - exact R.
Qed.

Lemma close_turn h (n n' : Node.t) : close h n = Ret n' → turn n n' (close_edits h n).
Proof.
  unfold close, close_edits. intros E. inv_bind. change (get_master n) with (master n) in Ha.
  pose proof (connection_of_conn h n a a0 Ha Ha0) as C. rewrite C.
  destruct (Master.socket_open a0) eqn:So; [|inv_bind; subst; by apply quiet_turn].
  set (n1 := put_master _ n) in E. apply disconnect_turn in E.
  assert (disconnect_edits h n1 = disconnect_edits h n) as <-.
  { unfold disconnect_edits. rewrite C. apply at_Ret in Ha0.
    unfold connection_of, n1. simpl. by rewrite list_lookup_alter_eq, Ha0. }
  eapply turn_quiet; [|exact E|done]. unfold quiet, roster, n1. simpl. rewrite Ha.
  split; [done|]. split; [done|]. by apply roster_alter.
Qed.

Lemma accept_slave_turn s sh h n n' :
  accept_slave (Some s) sh h n = Ret n' →
  turn n n' [Merge (TreeNode.setHostID (_max_host_id n) s)].
Proof.
  unfold accept_slave. intros E. inv_bind. injection Ha1 as <-.
  apply set_slave_id_roster in Ha2 as [D R]. injection D as _ _ _ _ Dm Dt _ _.
  apply on_tcp_write_quiet in E. apply on_tcp_writeTo_quiet in Ha4.
  eapply turn_quiet; [|eapply (turn_join _ _ h)|exact E]; [done| | |].
  - destruct Ha4 as (T & _ & _). rewrite T. simpl. rewrite <- Dt. exact Ha3.
  - destruct Ha4 as (_ & M & _). rewrite M. simpl. by rewrite Dm.
  - destruct Ha4 as (_ & _ & R'). rewrite R'. exact R.
Qed.
Lemma read_master_turn p h n n' :
  TCPManager_read_master p h n = Ret n' → turn n n' (read_master_edits p h n).
Proof.
  unfold TCPManager_read_master, read_master_edits. intros E. inv_bind. rewrite Ha.
  destruct a as [d hs|i d hs|d hs|]; inv_bind; subst; try by apply quiet_turn.
  unfold newConnection in E. inv_bind. rewrite Ha0. destruct a as [s|].
  - rewrite Ha2. destruct (nonempty a1); [by apply close_turn|by eapply accept_slave_turn].
  - unfold hasConflict, root in Ha2. by inv_bind.
Qed.

(** Replacing what a connection has received changes no edit. *)
Lemma read_master_edits_put p h n m f :
  master n = Some m →
  (∀ c, Master.slave_id (f c) = Master.slave_id c ∧ Master.socket_open (f c) = Master.socket_open c) →
  read_master_edits p h (set_master (Master.alter_conn f h m) n) = read_master_edits p h n.
Proof.
  intros G Hf. unfold read_master_edits. simpl.
  assert (close_edits h (set_master (Master.alter_conn f h m) n) = close_edits h n) as ->; [|done].
  unfold close_edits, disconnect_edits, connection_of. simpl. rewrite G. simpl.
  rewrite list_lookup_alter_eq. destruct (Master._connections m !! h) as [c|]; [|done]. simpl.
  by destruct (Hf c) as [-> ->].
Qed.

Lemma on_body_turn h ec dat (n n' : Node.t) :
  on_body h ec dat n = Ret n' → turn n n' (master_edits (Master.TBody h ec dat) n).
Proof.
  unfold on_body, master_edits. intros E. inv_bind. change (get_master n) with (master n) in Ha.
  rewrite (connection_of_conn h n a a0 Ha Ha0).
  destruct (negb ec && _); [|by apply close_turn]. inv_bind. rewrite Ha1.
  apply read_master_turn in Ha2.
  rewrite (read_master_edits_put a1 h n a) in Ha2 by done.
  apply on_master_quiet in E; [|apply do_read_header_kept].
  eapply turn_quiet; [|exact Ha2|exact E]. unfold quiet, roster. simpl. rewrite Ha.
  split; [done|]. split; [done|]. by apply roster_alter.
Qed.

Lemma on_header_turn h ec dat (n n' : Node.t) :
  on_header h ec dat n = Ret n' → turn n n' (master_edits (Master.THeader h ec dat) n).
Proof.
  unfold on_header, master_edits. intros E. destruct (negb ec && _); [|by apply close_turn].
  apply quiet_turn. eapply on_master_quiet; [|exact E]. intros m m' Em. cbv beta zeta in Em. inv_bind.
  apply do_read_body_kept in Em. unfold kept in *. rewrite Em. by apply roster_alter.
Qed.

Lemma on_written_turn h ec l (n n' : Node.t) :
  on_written h ec l n = Ret n' → turn n n' (master_edits (Master.TWritten h ec l) n).
Proof.
  unfold on_written, master_edits. intros E. inv_bind. change (get_master n) with (master n) in Ha.
  rewrite (connection_of_conn h n a a0 Ha Ha0).
  assert (a1 = match Master.queue a0 with p :: _ => negb ec && (l =? Packet.size p) | [] => false end)
    as ->.
  { destruct ec; simpl in *; inv_bind; subst; [by case_match|].
    destruct (Master.queue a0); simpl in *; inv_bind; congruence. }
  destruct (Master.queue a0) as [|p q]; [by apply close_turn|].
  destruct (negb ec && _); [|by apply close_turn]. inv_bind. subst. apply quiet_turn.
  unfold quiet, roster. simpl. rewrite Ha. split; [done|]. split; [done|].
  destruct (nonempty _); [apply do_write_kept in Ha2; rewrite Ha2|inv_bind; subst];
    by apply roster_alter.
Qed.

Lemma run_task_turn k (n n' : Node.t) :
  run_task k n = Ret n' → turn n n' (master_edits k n).
Proof.
  destruct k as [p|p h| |ec r|h ec dat|h ec dat|h ec l]; cbn [run_task]; intros E.
  - apply quiet_turn. eapply on_master_quiet; [|exact E]. intros m m'. apply write_loop_kept.
  - apply quiet_turn. eapply on_master_quiet; [|exact E]. intros m m'. apply enqueue_kept.
  - apply quiet_turn. eapply on_master_quiet; [|exact E]. intros m m' [= <-]. done.
  - unfold on_master in E. inv_bind. subst. apply on_accept_roster in Ha0 as (j & R).
    apply (turn_none _ _ j); [done..|]. unfold roster. simpl.
    change (get_master n) with (master n) in Ha. by rewrite Ha.
  - by apply on_header_turn.
  - by apply on_body_turn.
  - by apply on_written_turn.
Qed.

(** ** Runs of the network thread and what they do to the tree *)

Inductive history (n : Node.t) : list edit → Node.t → Prop :=
  | history_nil : history n [] n
  | history_complete es n1 m i o k :
      history n es n1 → master n1 = Some m →
      Master.pending m !! i = Some o → completes m o k →
      history n es (set_master (Master.mk (Master._connections m) (delete i (Master.pending m))
        (Master.ready m ++ [k]) (Master.stopped m)) n1)
  | history_run es n1 m i k n2 :
      history n es n1 → master n1 = Some m → Master.stopped m = false →
      Master.ready m !! i = Some k →
      run_task k (set_master (Master.set_ready (delete i (Master.ready m)) m) n1) = Ret n2 →
      history n
        (es ++ master_edits k (set_master (Master.set_ready (delete i (Master.ready m)) m) n1)) n2.

(** Histories are the runs of the event loop. *)
Lemma history_steps (n n' : Node.t) : steps n n' ↔ ∃ es, history n es n'.
Proof.
  split.
  - induction 1 as [|n n1 n2 _ (es & IH) S]; [by eexists; constructor|].
    inversion S as [m i o k G Ho C E|m i k G St Hk E].
    + exists es. by eapply history_complete.
    + eexists. by eapply history_run.
  - intros (es & Hh). induction Hh as [|es n1 m i o k _ IH G Ho C|es n1 m i k n2 _ IH G St Hk E].
    + constructor.
    + eapply steps_more; [exact IH|]. exact (step_complete n1 m i o k G Ho C).
    + eapply steps_more; [exact IH|]. rewrite <- E. exact (step_run n1 m i k G St Hk).
Qed.
(** ** Ids are given once *)

(** A connection has no id or one that was given out, and no two share one. *)
Record roster_ok (n : Node.t) : Prop := {
  roster_max : 2 <= _max_host_id n;
  roster_range h i : roster n !! h = Some i → i = 0 ∨ 2 <= i < _max_host_id n;
  roster_inj h1 h2 i : i ≠ 0 → roster n !! h1 = Some i → roster n !! h2 = Some i → h1 = h2
}.

(** An id that was given out and is no connection's. *)
Definition gone (i : Z) (n : Node.t) : Prop :=
  2 <= i < _max_host_id n ∧ i ∉ roster n.

Lemma roster_ok_start n m :
  master n = Some m → Master._connections m = [] → 2 <= _max_host_id n → roster_ok n.
Proof.
  intros G E M. assert (roster n = []) as R by (unfold roster, roster_of; by rewrite G, E).
  split; [done|..]; rewrite R; [by intros h i ?|by intros h1 h2 i _ ?].
Qed.

Lemma lookup_app_zeros (l : list Z) k h i :
  (l ++ replicate k 0) !! h = Some i → l !! h = Some i ∨ i = 0.
Proof.
  intros [E|[_ E]]%lookup_app_Some; [by left|]. right. by apply lookup_replicate in E as [-> _].
Qed.

Lemma turn_max n n' es :
  turn n n' es → 2 <= _max_host_id n → _max_host_id n + len es < 2 ^ 64 →
  _max_host_id n <= _max_host_id n' <= _max_host_id n + len es.
Proof.
  intros T M L. unfold len in *.
  destruct T as [k _ E _|h s _ E _|h i _ _ _ E _]; rewrite E; simpl List.length in *; try lia.
  unfold u64. rewrite wrap_small by lia. lia.
Qed.

Lemma turn_roster_ok n n' es :
  turn n n' es → _max_host_id n + len es < 2 ^ 64 → roster_ok n → roster_ok n'.
Proof.
  intros T L [M R I]. pose proof (turn_max n n' es T M L) as B.
  destruct T as [k _ E Er|h s _ E Er|h i Hi Hr _ E Er]; split; try lia; rewrite Er.
  - intros h i [Hh| ->]%lookup_app_zeros; [|by left]. rewrite E. eauto.
  - intros h1 h2 i Hi [H1|?]%lookup_app_zeros [H2|?]%lookup_app_zeros; naive_solver.
  - unfold len in *. simpl List.length in *. rewrite E. unfold u64. rewrite wrap_small by lia.
    intros h' i [(_ & <- & _)|[_ Hh]]%list_lookup_insert_Some; [lia|].
    destruct (R h' i Hh); lia.
  - intros h1 h2 i Hi [(<- & <- & _)|[N1 H1]]%list_lookup_insert_Some
      [(<- & E2 & _)|[N2 H2]]%list_lookup_insert_Some; [done| | |by eapply I].
    + destruct (R h2 _ H2); lia.
    + subst i. destruct (R h1 _ H1); lia.
  - rewrite E. intros h' j [(_ & <- & _)|[_ Hh]]%list_lookup_insert_Some; [by left|]. eauto.
  - intros h1 h2 j Hj [(_ & <- & _)|[N1 H1]]%list_lookup_insert_Some; [done|].
    intros [(_ & <- & _)|[N2 H2]]%list_lookup_insert_Some; [done|]. by eapply I.
Qed.

(** An id that is gone is not given out again. *)
Lemma turn_gone n n' es i :
  turn n n' es → _max_host_id n + len es < 2 ^ 64 → gone i n → gone i n'.
Proof.
  intros T L [B N]. assert (2 <= _max_host_id n) as M by lia.
  pose proof (turn_max n n' es T M L) as B'. split; [lia|]. rewrite list_elem_of_lookup in *.
  intros (h' & Hh). destruct N. destruct T as [k _ E Er|h s _ E Er|h j Hi Hr _ E Er];
    rewrite Er in Hh.
  - apply lookup_app_zeros in Hh as [Hh| ->]; [by exists h'|lia].
  - apply list_lookup_insert_Some in Hh as [(_ & <- & _)|[_ Hh]]; [lia|by exists h'].
  - apply list_lookup_insert_Some in Hh as [(_ & <- & _)|[_ Hh]]; [lia|by exists h'].
Qed.

Lemma turn_removes n n' es i :
  turn n n' es → roster_ok n → RemoveOf i ∈ es → gone i n'.
Proof.
  intros T [M R I] Hin. destruct T as [k _ E Er|h s _ E Er|h j Hi Hr _ E Er].
  - by apply elem_of_nil in Hin.
  - by apply list_elem_of_singleton in Hin.
  - apply list_elem_of_singleton in Hin as [= <-]. unfold gone. rewrite E, Er.
    split; [destruct (R h i Hr); lia|]. intros (h' & Hh)%list_elem_of_lookup.
    apply list_lookup_insert_Some in Hh as [(_ & ? & _)|[Hn Hh]]; [lia|].
    destruct Hn. by eapply I.
Qed.
Lemma edit_trees_app es1 es2 t :
  edit_trees (es1 ++ es2) t = (t' ← edit_trees es1 t; edit_trees es2 t').
Proof.
  revert t. induction es1 as [|e es1 IH]; intros t; [done|]. simpl. rewrite bind_assoc.
  by destruct (edit_tree e t); run.
Qed.

Lemma turn_tree n n' es : turn n n' es → edit_trees es (_dir_tree n) = Ret (_dir_tree n').
Proof.
  intros [k E _ _|h s E _ _|h i _ _ E _ _]; cbn [edit_trees]; [by rewrite E| |];
    rewrite E; by run.
Qed.

(** Joins and leaves are all a master does to its tree. *)
Definition master_edit (e : edit) : Prop :=
  match e with Merge _ | RemoveOf _ => True | _ => False end.

Lemma turn_master_edit n n' es : turn n n' es → Forall master_edit es.
Proof. intros [k _ _ _|h s _ _ _|h i _ _ _ _ _]; by repeat constructor. Qed.

Record followed (n : Node.t) (es : list edit) (n' : Node.t) : Prop := {
  followed_roster : roster_ok n';
  followed_max : _max_host_id n' <= _max_host_id n + len es;
  followed_gone i : RemoveOf i ∈ es → gone i n';
  followed_edits : Forall master_edit es;
  followed_tree : edit_trees es (_dir_tree n) = Ret (_dir_tree n')
}.

Lemma followed_turn n es n1 es' n2 :
  followed n es n1 → turn n1 n2 es' → _max_host_id n + len (es ++ es') < 2 ^ 64 →
  followed n (es ++ es') n2.
Proof.
  intros [R M G F T] Tu L. rewrite len_app in L. pose proof (len_nonneg es').
  assert (_max_host_id n1 + len es' < 2 ^ 64) as L1 by lia.
  pose proof (turn_max _ _ _ Tu (roster_max _ R) L1). split.
  - by eapply turn_roster_ok.
  - rewrite len_app. lia.
  - intros i [Hi|Hi]%elem_of_app; [eapply turn_gone; eauto|by eapply turn_removes].
  - apply Forall_app. split; [done|by eapply turn_master_edit].
  - rewrite edit_trees_app, T. run. by apply turn_tree.
Qed.

Lemma quiet_conns n m m' :
  master n = Some m → Master._connections m' = Master._connections m → quiet n (set_master m' n).
Proof.
  intros G E. unfold quiet, roster, roster_of. rewrite G. simpl. by rewrite E.
Qed.

Lemma history_followed n es n' :
  roster_ok n → history n es n' → _max_host_id n + len es < 2 ^ 64 → followed n es n'.
Proof.
  intros R Hh. induction Hh as [|es n1 m i o k _ IH G Ho C|es n1 m i k n2 _ IH G St Hk E]; intros L.
  - split; try done; [unfold len; simpl; lia|]. by intros i ?%elem_of_nil.
  - rewrite <- (app_nil_r es) in L |- *. eapply followed_turn; [apply IH|by apply quiet_turn,
      (quiet_conns _ m)|done]. by rewrite app_nil_r in L.
  - eapply followed_turn; [apply IH| |done].
    + rewrite len_app in L. pose proof (len_nonneg (master_edits k
        (set_master (Master.set_ready (delete i (Master.ready m)) m) n1))). lia.
    + apply run_task_turn in E. eapply turn_quiet; [|exact E|done]. by apply (quiet_conns _ m).
Qed.
End Edits.

(** ** Callbacks in two halves *)

(** The objects [st] hold the tree of the node. *)
Definition represents (n : Node.t) (st : store) : Prop :=
  _dir_tree n = Some (Object.value (tree st)) ∧ store_ok st.

(** Objects for a given tree. *)
Definition store_of (r : TreeNode.t) : store :=
  let '(o, k) := Object.construct r 0%nat in mkStore k o.

Lemma store_of_represents n r : _dir_tree n = Some r → represents n (store_of r).
Proof.
  intros E. unfold represents, store_of, store_ok.
  destruct (Object.construct_copied r 0%nat) as [V (_ & N & F)].
  destruct (Object.construct r 0%nat) as [o k]. simpl in *. rewrite V. split; [done|]. split; [done|].
  eapply Forall_impl; [exact F|]. simpl. lia.
Qed.

Lemma edits_represents es n n' st :
  represents n st → edit_trees es (_dir_tree n) = Ret (_dir_tree n') → represents n' (edits es st).
Proof.
  intros [E S] T. split; [|by apply edits_ok]. rewrite E, edits_value in T. congruence.
Qed.

Section Halves.
Context `{BoostPath}.

(** The lookup in the objects [st], the use of the pointer in [st']. *)
Definition in_halves {A} (not_found : A) (use : TreeNode.t → outcome A) (path : bytes)
    (st st' : store) : outcome A :=
  p ← find_ptr path st;
  match p with
  | None => Ret not_found
  | Some p => node ← at_ptr p st'; use node
  end.

Definition getattr_halves : bytes → store → store → outcome (Z * stat) :=
  in_halves (- ENOENT, zero_stat) FUSEInterface.getattr_node.

Definition readdir_halves : bytes → store → store → outcome (Z * list bytes) :=
  in_halves (- ENOENT, []) FUSEInterface.readdir_node.

Context {W : Type} `{LibSSH W} `{LocalFiles}.

(** The second half runs in the state [_user_fs] of its time. *)
Definition read_halves (size offset : Z) (_user_fs : option Node.t) (w : W) (path : bytes)
    : store → store → outcome (Z * bytes * option Node.t * W) :=
  in_halves (- ENOENT, [], _user_fs, w)
    (λ node, FUSEInterface.read_node node path size offset _user_fs w) path.
End Halves.

(** The use of a found node, after the edits [es]. *)
Lemma in_halves_found `{BoostPath} {A} (nf : A) use path es st p i :
  store_ok st → find_ptr path st = Ret (Some p) → owner p st = Some i →
  in_halves nf use path st (edits es st) =
    if forallb (keeps i) es then in_halves nf use path st st else Undef Dangling.
Proof.
  intros S E O. unfold in_halves. rewrite E. run.
  rewrite (find_ptr_fate es path st p S E), O. by destruct (forallb _ es).
Qed.

(** Without anything in between, the two halves are the callback. *)
Lemma in_halves_now `{BoostPath} {A} (nf : A) use path n st :
  represents n st →
  in_halves nf use path st st =
    (node ← FUSEInterface.find path (Some n);
     match node with None => Ret nf | Some node => use node end).
Proof.
  intros [E S]. unfold FUSEInterface.find, UserFS_find. run. rewrite E, find_ptr_value by done.
  unfold in_halves. destruct (find_ptr path st) as [[p|]| | |]; run; try done.
  by destruct (at_ptr p st).
Qed.

Lemma getattr_now `{BoostPath} path n st :
  represents n st → getattr_halves path st st = FUSEInterface.getattr path (Some n).
Proof. apply in_halves_now. Qed.

Lemma readdir_now `{BoostPath} path n st :
  represents n st → readdir_halves path st st = FUSEInterface.readdir path (Some n).
Proof. apply in_halves_now. Qed.

Lemma read_now `{BoostPath} {W} `{LibSSH W} `{LocalFiles} path size offset n (w : W) st :
  represents n st →
  read_halves size offset (Some n) w path st st = FUSEInterface.read path size offset (Some n) w.
Proof. apply in_halves_now. Qed.

(** ** On the master *)

(** One of the edits is the leave of host [i]. *)
Definition leaves (i : Z) (es : list edit) : bool :=
  existsb (λ e, match e with RemoveOf j => i =? j | _ => false end) es.

Lemma leaves_elem i es : leaves i es = true ↔ RemoveOf i ∈ es.
Proof.
  unfold leaves. rewrite existsb_exists. split.
  - intros (e & He & Ei). apply list_elem_of_In in He. destruct e as [|j| |]; try done.
    by apply Z.eqb_eq in Ei as ->.
  - intros Hi. exists (RemoveOf i). by rewrite <- list_elem_of_In, Z.eqb_refl.
Qed.

Lemma keeps_leaves i es :
  Forall master_edit es → forallb (keeps i) es = negb (leaves i es).
Proof.
  induction 1 as [|e es He _ IH]; [done|]. unfold leaves in *. cbn [forallb existsb].
  rewrite negb_orb, IH. by destruct e.
Qed.

Section MasterRace.
Context `{TextArchive} `{Memory} `{BoostPath}.
Context {W : Type} `{LibSSH W} `{LocalFiles}.

(** C19: a callback of the master whose lookup found a file of host [i], and whose
    use of the node comes after any run of the network thread.  If host [i] did
    not leave in between, [getattr] and [readdir] return what they would have
    returned at once, and [read] goes on with the node that was found; if it did,
    the behaviour is undefined: the node was freed.  The files of the master
    itself, and of every host that is still connected at the time of the use, are
    safe.  The hypotheses hold when a master starts ([roster_ok_start],
    [store_of_represents]) and hold again after the run. *)
Theorem master_callback_race (n n' : Node.t) es st path p i size offset (w : W) :
  represents n st → roster_ok n → history n es n' → _max_host_id n + len es < 2 ^ 64 →
  find_ptr path st = Ret (Some p) → owner p st = Some i →
  represents n' (edits es st) ∧ roster_ok n' ∧
  (i = 1 ∨ i ∈ roster n' → leaves i es = false) ∧
  getattr_halves path st (edits es st) =
    (if leaves i es then Undef Dangling else FUSEInterface.getattr path (Some n)) ∧
  readdir_halves path st (edits es st) =
    (if leaves i es then Undef Dangling else FUSEInterface.readdir path (Some n)) ∧
  read_halves size offset (Some n') w path st (edits es st) =
    (if leaves i es then Undef Dangling
     else node ← at_ptr p st; FUSEInterface.read_node node path size offset (Some n') w).
Proof.
  intros R Ro Hh L E O. pose proof (history_followed n es n' Ro Hh L) as [Ro' _ G F T].
  pose proof R as [_ S]. split; [by eapply edits_represents|]. split; [done|]. split.
  - intros Hi. apply not_true_iff_false. intros Lv%leaves_elem. apply G in Lv as [B N].
    destruct Hi as [->|Hi]; [lia|done].
  - rewrite <- (getattr_now path n st R), <- (readdir_now path n st R).
    unfold getattr_halves, readdir_halves, read_halves.
    rewrite !(in_halves_found _ _ path es st p i S E O), (keeps_leaves i es F).
    split; [by destruct (leaves i es)|]. split; [by destruct (leaves i es)|].
    destruct (leaves i es); [done|]. unfold in_halves. simpl. rewrite E. by run.
Qed.
End MasterRace.

(** ** On a slave *)

Section SlaveRace.
Context `{TextArchive} `{Memory} `{BoostPath}.

Lemma assign_children_edit s n n' :
  assign_children (Some s) n = Ret n' → edit_tree (Assign s) (_dir_tree n) = Ret (_dir_tree n').
Proof.
  unfold assign_children. intros E. inv_bind. injection Ha0 as <-. subst. simpl. by rewrite Ha.
Qed.

Lemma assign_children_null n n' : assign_children None n ≠ Ret n'.
Proof. unfold assign_children. intros E. by inv_bind. Qed.

Lemma one_edit e t t' : edit_tree e t = Ret t' → edit_trees [e] t = Ret t'.
Proof. intros E. cbn [edit_trees]. rewrite E. by run. Qed.

Lemma read_slave_edit p n n' :
  TCPManager_read_slave p n = Ret n' →
  edit_trees (read_slave_edits p) (_dir_tree n) = Ret (_dir_tree n').
Proof.
  unfold TCPManager_read_slave, read_slave_edits. intros E. inv_bind. rewrite Ha.
  destruct a as [d hs|i d hs|d hs|]; inv_bind; subst; try done.
  - unfold slaveRecognized in E. inv_bind. subst. rewrite Ha0.
    destruct a as [s|]; [|by apply assign_children_null in Ha2].
    by apply one_edit; apply assign_children_edit in Ha2.
  - unfold updateInfo in E. inv_bind. subst. rewrite Ha0.
    destruct a as [s|]; [|by apply assign_children_null in Ha2].
    by apply one_edit; apply assign_children_edit in Ha2.
Qed.

Lemma slave_disconnect_edit n n' :
  slave_disconnect n = Ret n' →
  edit_trees [RemoveNotOf (_host_id n)] (_dir_tree n) = Ret (_dir_tree n').
Proof.
  unfold slave_disconnect. intros E. inv_bind. apply one_edit. simpl. rewrite Ha.
  by case_match; inv_bind; subst.
Qed.

Lemma on_slave_tree f (n n' : Node.t) :
  on_slave f n = Ret n' → _dir_tree n' = _dir_tree n ∧ _host_id n' = _host_id n.
Proof. unfold on_slave. intros E. by inv_bind; subst. Qed.

Lemma slave_drop_edit (n n' : Node.t) :
  slave_drop n = Ret n' →
  edit_trees [RemoveNotOf (_host_id n)] (_dir_tree n) = Ret (_dir_tree n').
Proof.
  unfold slave_drop. intros E. inv_bind. apply on_slave_tree in Ha as [<- <-].
  by apply slave_disconnect_edit.
Qed.

Lemma slave_run_edits k (n n' : Node.t) :
  slave_run_task k n = Ret n' → edit_trees (slave_edits k n) (_dir_tree n) = Ret (_dir_tree n').
Proof.
  destruct k as [p| |ec|ec dat|ec dat|ec l]; cbn [slave_run_task]; intros E.
  - apply on_slave_tree in E as [-> _]. by destruct (slave n).
  - apply on_slave_tree in E as [-> _]. by destruct (slave n).
  - unfold slave_on_connect in E. cbn [slave_edits]. destruct ec; simpl in E |- *.
    + by apply slave_disconnect_edit.
    + by apply on_slave_tree in E as [-> _].
  - unfold slave_on_header in E. cbn [slave_edits].
    destruct (negb ec && _); [by apply on_slave_tree in E as [-> _]|by apply slave_drop_edit].
  - unfold slave_on_body in E. inv_bind. change (get_slave n) with (slave n) in Ha.
    cbn [slave_edits]. rewrite Ha. destruct (negb ec && _); [|by apply slave_drop_edit].
    inv_bind. rewrite Ha0. apply on_slave_tree in E as [-> _].
    by apply (read_slave_edit _ _ _ Ha1).
  - unfold slave_on_written in E. inv_bind. change (get_slave n) with (slave n) in Ha.
    cbn [slave_edits]. rewrite Ha.
    assert (a0 = match Slave._write_packets a with
                 | p :: _ => negb ec && (l =? Packet.size p) | [] => false end) as ->.
    { destruct ec; simpl in *; inv_bind; subst; [by case_match|].
      destruct (Slave._write_packets a); simpl in *; inv_bind; congruence. }
    destruct (Slave._write_packets a) as [|p q]; [by apply slave_drop_edit|].
    destruct (negb ec && _); [|by apply slave_drop_edit]. by inv_bind; subst.
Qed.

Inductive slave_history (n : Node.t) : list edit → Node.t → Prop :=
  | slave_history_nil : slave_history n [] n
  | slave_history_complete es n1 m i o k :
      slave_history n es n1 → slave n1 = Some m →
      Slave.pending m !! i = Some o → slave_completes m o k →
      slave_history n es (set_slave (complete i k m) n1)
  | slave_history_post es n1 m p :
      slave_history n es n1 → slave n1 = Some m → packet_ok p →
      slave_history n es (set_slave (Slave.write p m) n1)
  | slave_history_run es n1 m i k n2 :
      slave_history n es n1 → slave n1 = Some m → Slave.stopped m = false →
      Slave.ready m !! i = Some k →
      slave_run_task k (set_slave (remove_ready i m) n1) = Ret n2 →
      slave_history n (es ++ slave_edits k (set_slave (remove_ready i m) n1)) n2.

(** Histories are the runs of a slave's event loop. *)
Lemma slave_history_steps (n n' : Node.t) : slave_steps n n' ↔ ∃ es, slave_history n es n'.
Proof.
  split.
  - induction 1 as [|n n1 n2 _ (es & IH) S]; [by eexists; constructor|].
    inversion S as [m i o k G Ho C E|m i k G St Hk E|m p G P E].
    + exists es. by eapply slave_history_complete.
    + eexists. by eapply slave_history_run.
    + exists es. by eapply slave_history_post.
  - intros (es & Hh). induction Hh as [|es n1 m i o k _ IH G Ho C|es n1 m p _ IH G P
      |es n1 m i k n2 _ IH G St Hk E].
    + constructor.
    + eapply slave_steps_more; [exact IH|]. exact (slave_complete n1 m i o k G Ho C).
    + eapply slave_steps_more; [exact IH|]. exact (slave_post n1 m p G P).
    + eapply slave_steps_more; [exact IH|]. rewrite <- E.
      exact (slave_run_ready n1 m i k G St Hk).
Qed.

Lemma slave_history_tree n es n' :
  slave_history n es n' → edit_trees es (_dir_tree n) = Ret (_dir_tree n').
Proof.
  induction 1 as [|es n1 m i o k _ IH G Ho C|es n1 m p _ IH G P|es n1 m i k n2 _ IH G St Hk E];
    [done..|].
  rewrite edit_trees_app, IH. run. by apply slave_run_edits in E.
Qed.

Context {W : Type} `{LibSSH W} `{LocalFiles}.

(** The same on a slave, for any run of its network thread: a callback that
    found a file of host [i] goes on as if nothing had happened exactly when every
    edit in between keeps the files of [i]; otherwise its behaviour is undefined.
    The edits of a slave are cuts, which keep only the slave's own files, and
    updates, which keep nothing: after one, only pointers to the root are valid. *)
Theorem slave_callback_race (n n' : Node.t) es st path p i size offset (w : W) :
  represents n st → slave_history n es n' →
  find_ptr path st = Ret (Some p) → owner p st = Some i →
  represents n' (edits es st) ∧
  getattr_halves path st (edits es st) =
    (if forallb (keeps i) es then FUSEInterface.getattr path (Some n) else Undef Dangling) ∧
  readdir_halves path st (edits es st) =
    (if forallb (keeps i) es then FUSEInterface.readdir path (Some n) else Undef Dangling) ∧
  read_halves size offset (Some n') w path st (edits es st) =
    (if forallb (keeps i) es
     then node ← at_ptr p st; FUSEInterface.read_node node path size offset (Some n') w
     else Undef Dangling).
Proof.
  intros R Hh E O. pose proof R as [_ S].
  split; [by eapply edits_represents, slave_history_tree|].
  rewrite <- (getattr_now path n st R), <- (readdir_now path n st R).
  unfold getattr_halves, readdir_halves, read_halves.
  rewrite !(in_halves_found _ _ path es st p i S E O).
  split; [by destruct (forallb _ es)|]. split; [by destruct (forallb _ es)|].
  destruct (forallb _ es); [|done]. unfold in_halves. rewrite E. by run.
Qed.

(** C21: a slave takes over an update between the two halves of a callback on any
    path but the root: whatever the update says, the behaviour is undefined, also
    when the file is in the new tree as it was in the old one. *)
Theorem update_between_halves (n n' : Node.t) m dat d hs st path p i size offset (w : W) :
  represents n st → slave n = Some m →
  len dat = Packet.size (Slave._packet m) →
  Protocol.parse_slave (dat ++ [nul]) = Ret (Protocol.UpdateInfo d hs) →
  slave_run_task (Slave.TBody false dat) n = Ret n' →
  find_ptr path st = Ret (Some p) → owner p st = Some i →
  let st' := edits (slave_edits (Slave.TBody false dat) n) st in
  represents n' st' ∧
  getattr_halves path st st' = Undef Dangling ∧
  readdir_halves path st st' = Undef Dangling ∧
  read_halves size offset (Some n') w path st st' = Undef Dangling.
Proof.
  intros R G L P Hrun E O st'. pose proof R as [_ S].
  pose proof (slave_run_edits _ _ _ Hrun) as T.
  assert (∃ s, slave_edits (Slave.TBody false dat) n = [Assign s]) as (s & Es).
  { cbn [slave_edits]. rewrite G. simpl negb. rewrite L, Z.eqb_refl. simpl andb. cbv iota.
    rewrite setData_fill by done. unfold read_slave_edits. rewrite data_received, P.
    unfold slave_run_task, slave_on_body in Hrun. change (get_slave n) with (slave n) in Hrun.
    rewrite G in Hrun. cbn [deref] in Hrun. rewrite bind_Ret in Hrun. simpl negb in Hrun.
    rewrite L, Z.eqb_refl in Hrun. simpl andb in Hrun. cbv iota zeta in Hrun.
    rewrite setData_fill in Hrun by done. rewrite bind_Ret in Hrun. inv_bind.
    cbn [slave_owner_read node_slave] in Ha. unfold TCPManager_read_slave in Ha.
    rewrite data_received, P in Ha. rewrite bind_Ret in Ha. unfold updateInfo in Ha. inv_bind.
    rewrite Ha0. destruct a0 as [s|]; [by exists s|]. by apply assign_children_null in Ha2. }
  split; [by eapply edits_represents|]. unfold st'. rewrite Es.
  unfold getattr_halves, readdir_halves, read_halves.
  by rewrite !(in_halves_found _ _ path [Assign s] st p i S E O).
Qed.
End SlaveRace.

(** ** Concrete races *)

Module ExampleRaces.
Import ExampleArchive ExampleGroup ExamplePath.

(** A master that serves host 2, whose connection has just broken. *)
Definition breaking : Master.t :=
  Master.mk [connection 2] [Master.OpAccept] [Master.THeader 0 true []] false.

Definition cut : Node.t :=
  set_max_host_id 3 (set_hosts [master_host; master_host; Host.set_id 2 slave_host]
    (set_dir_tree (Some grouped_tree) (master_with breaking))).

(** The same once the handler has been taken, and after it has run. *)
Definition handling : Node.t := set_master (Master.set_ready [] breaking) cut.

Definition parted : Node.t :=
  match run_task (N := Node.t) (Master.THeader 0 true []) handling with Ret n => n | _ => cut end.

Lemma parted_history : history cut [RemoveOf 2] parted.
Proof.
  change [RemoveOf 2] with ([] ++ master_edits (Master.THeader 0 true []) handling).
  apply (history_run cut [] cut breaking 0 (Master.THeader 0 true []) parted); try reflexivity.
  constructor.
Qed.

Lemma cut_roster : roster_ok cut.
Proof.
  split; [by compute|..]; change (roster cut) with [2].
  - intros h i Hi. destruct h as [|h]; [injection Hi as <-|by destruct h]. right. by compute.
  - intros [|h1] [|h2] i _ E1 E2; [done|by destruct h2|by destruct h1|by destruct h1].
Qed.

Definition before : store := store_of grouped_tree.

Definition own_file : bytes := str "/master_dir/master_file3".

Definition their_file : bytes := str "/standby1_file1".

(** The master's own file is read as if host 2 had not left; the attributes of
    host 2's file are read from freed storage. *)
Lemma master_callback_race_witness :
  getattr_halves own_file before (edits [RemoveOf 2] before) =
    FUSEInterface.getattr own_file (Some cut) ∧
  getattr_halves their_file before (edits [RemoveOf 2] before) = Undef Dangling.
Proof.
  assert (represents cut before) as R by (by apply store_of_represents).
  split.
  - destruct (master_callback_race (H2 := ExampleSSH.lib) (H3 := example_files) cut parted
      [RemoveOf 2] before own_file 2 1 0 0 ExampleSSH.online R cut_roster parted_history)
      as (_ & _ & _ & E & _); [by compute|vm_compute; reflexivity|vm_compute; reflexivity|exact E].
  - destruct (master_callback_race (H2 := ExampleSSH.lib) (H3 := example_files) cut parted
      [RemoveOf 2] before their_file 5 2 0 0 ExampleSSH.online R cut_roster parted_history)
      as (_ & _ & _ & E & _); [by compute|vm_compute; reflexivity|vm_compute; reflexivity|exact E].
Defined.

(** A slave that has the group's tree and is about to handle an update that says
    the same; and one whose connection breaks. *)
Definition update_seq : bytes :=
  Protocol.message_update (DirTree_serialize (Some grouped_tree)) (Hosts.serialize [master_host]).

Definition receiving (k : Slave.task) : Slave.t :=
  Slave.mk true (Packet.mk (len update_seq) []) [] [] [] [k] false.

Definition member (k : Slave.task) : Node.t :=
  Node.set_slave (receiving k)
    (set_host_id 2 (set_dir_tree (Some grouped_tree) standby)).

(** The node once the handler has been taken, and after it has run. *)
Definition taking (k : Slave.task) : Node.t :=
  Node.set_slave (remove_ready 0 (receiving k)) (member k).

Definition taken_over (k : Slave.task) : Node.t :=
  match slave_run_task (N := Node.t) k (taking k) with Ret n => n | _ => member k end.

(** The slave's own file survives the end of the connection, the master's do not. *)
Lemma slave_callback_race_witness :
  getattr_halves their_file before (edits [RemoveNotOf 2] before) =
    FUSEInterface.getattr their_file (Some (member (Slave.THeader true []))) ∧
  getattr_halves own_file before (edits [RemoveNotOf 2] before) = Undef Dangling.
Proof.
  set (k := Slave.THeader true []).
  assert (represents (member k) before) as R by (by apply store_of_represents).
  assert (slave_history (member k) [RemoveNotOf 2] (taken_over k)) as Hh.
  { change [RemoveNotOf 2] with ([] ++ slave_edits k (taking k)).
    apply (slave_history_run (member k) [] (member k) (receiving k) 0 k (taken_over k));
      try reflexivity. constructor. }
  split.
  - destruct (slave_callback_race (H2 := ExampleSSH.lib) (H3 := example_files) (member k)
      (taken_over k) [RemoveNotOf 2] before their_file 5 2 0 0 ExampleSSH.online R Hh)
      as (_ & E & _); [vm_compute; reflexivity|vm_compute; reflexivity|exact E].
  - destruct (slave_callback_race (H2 := ExampleSSH.lib) (H3 := example_files) (member k)
      (taken_over k) [RemoveNotOf 2] before own_file 2 1 0 0 ExampleSSH.online R Hh)
      as (_ & E & _); [vm_compute; reflexivity|vm_compute; reflexivity|exact E].
Defined.

(** The file is in the new tree as it was in the old one. *)
Lemma update_between_halves_witness :
  let k := Slave.TBody false update_seq in
  getattr_halves own_file before (edits (slave_edits k (taking k)) before) = Undef Dangling ∧
  FUSEInterface.getattr own_file (Some (taken_over k)) =
    FUSEInterface.getattr own_file (Some (taking k)).
Proof.
  cbv zeta. set (k := Slave.TBody false update_seq).
  assert (represents (taking k) before) as R by (by apply store_of_represents).
  split; [|vm_compute; reflexivity].
  destruct (update_between_halves (H2 := ExampleSSH.lib) (H3 := example_files) (taking k)
    (taken_over k) (remove_ready 0 (receiving k)) update_seq
    (DirTree_serialize (Some grouped_tree)) (Hosts.serialize [master_host]) before own_file 2 1 0 0
    ExampleSSH.online R) as (_ & E & _); [ | | | | | |exact E]; vm_compute; reflexivity.
Defined.
End ExampleRaces.
