(* ===== verification/Startup.v ===== *)
(** * The master's main thread and its network thread

    [initTCPNetwork] starts the network thread (user_fs.cc:137) before the main
    thread pushes the master's own host a second time (line 141), without the
    lock, so handlers may run in between.  Here is what that does: the host table
    only grows ([steps_extends]), and as long as no client has been admitted the
    handlers neither read nor change anything the main thread is about to change,
    so that its push may as well have come first ([steps_unadmitted]); clients that
    are admitted get the next ids in order ([steps_numbered]).  Main.v and
    EndToEnd.v build on this; Races.v has a run in which a client is admitted too
    early. *)

From S2P Require Import Prelude BytesOrder StdSet Archive Path DirTree Objects Host Packet Ssh.
From S2P Require Import TcpMessager Channel MasterLoop UserFs Group Handshake SlaveLoop Lifetime.
Import Node.

(** ** The host table of the master only grows *)

Section Startup.
Context `{TextArchive} `{Memory}.

Definition extends (n n' : Node.t) : Prop := _hosts n `prefix_of` _hosts n'.

#[local] Instance extends_preorder : PreOrder extends.
Proof. unfold extends. split; [intros n; reflexivity|intros a b c; apply transitivity]. Qed.

Lemma extends_same n n' : _hosts n' = _hosts n → extends n n'.
Proof. unfold extends. by intros ->. Qed.

#[local] Hint Resolve extends_same : core.

Lemma extends_data n n' : data n' = data n → extends n n'.
Proof. unfold data. intros E. injection E as _ _ _ _ _ _ E _. auto. Qed.

Lemma master_disconnect_extends h n n' : master_disconnect h n = Ret n' → extends n n'.
Proof.
  unfold master_disconnect, sendUpdate. intros E. inv_bind. case_match; inv_bind; [subst; auto|].
  trans (set_dir_tree a1 n); [auto|].
  trans a2; [by eapply extends_data, set_slave_id_data|by eapply extends_data, on_tcp_data].
Qed.

Lemma close_extends h n n' : close h n = Ret n' → extends n n'.
Proof.
  unfold close. intros E. inv_bind. case_match; [|inv_bind; subst; auto].
  by apply master_disconnect_extends in E.
Qed.

Lemma accept_slave_extends t sh h n n' : accept_slave t sh h n = Ret n' → extends n n'.
Proof.
  unfold accept_slave, sendUpdate_seqs. intros E. inv_bind.
  trans a2; [by apply set_slave_id_data, extends_data in Ha2|].
  trans a4; [|by eapply extends_data, on_tcp_data].
  etrans; [|by eapply extends_data, on_tcp_data]. by apply prefix_app_r.
Qed.

Lemma read_master_extends p h n n' : TCPManager_read_master p h n = Ret n' → extends n n'.
Proof.
  unfold TCPManager_read_master. intros E. inv_bind. destruct a; inv_bind; subst; auto.
  unfold newConnection in E. inv_bind. case_match; [by eapply close_extends|].
  by eapply accept_slave_extends.
Qed.

Lemma on_master_extends f (n n' : Node.t) : on_master f n = Ret n' → extends n n'.
Proof. unfold on_master. intros E. inv_bind. subst. auto. Qed.

Lemma run_task_extends k (n n' : Node.t) : run_task k n = Ret n' → extends n n'.
Proof.
  intros E. destruct k; simpl in E; try (by eapply on_master_extends).
  - unfold on_header in E. case_match; [by eapply on_master_extends|by eapply close_extends].
  - unfold on_body in E. inv_bind. case_match; [|by eapply close_extends]. inv_bind.
    etrans; [|by eapply on_master_extends]. by apply read_master_extends in Ha2.
  - unfold on_written in E. inv_bind. destruct a1; [|by eapply close_extends]. inv_bind; subst. auto.
Qed.

Lemma steps_extends (n n' : Node.t) : steps n n' → extends n n'.
Proof.
  induction 1 as [|n n1 n2 _ IH S]; [auto|]. trans n1; [done|].
  remember (Ret n2) as r eqn:E. destruct S; [simplify_eq; auto|]. by apply run_task_extends in E.
Qed.

(** The hosts that were admitted on the way got the next ids, in order. *)
Definition numbered (n n' : Node.t) : Prop :=
  ∃ more, _hosts n' = _hosts n ++ more ∧ _max_host_id n' = u64 (_max_host_id n + len more) ∧
    ∀ i h, more !! i = Some h → Host.id h = u64 (_max_host_id n + Z.of_nat i).

Lemma u64_add_l x y : u64 (u64 x + y) = u64 (x + y).
Proof. unfold u64, wrap. apply Zplus_mod_idemp_l. Qed.

Lemma numbered_refl n : u64 (_max_host_id n) = _max_host_id n → numbered n n.
Proof. intros E. exists []. rewrite app_nil_r. split_and!; [done|simpl; by rewrite Z.add_0_r|done]. Qed.

(** One more step, seen from the group. *)
Lemma numbered_refines n n1 n2 : numbered n n1 → refines n1 n2 → numbered n n2.
Proof.
  intros (more & Eh & Em & Ids) [_ [E|S]].
  - unfold abstraction in E. injection E as E1 _ E2. exists more. by rewrite E1, E2.
  - remember (abstraction n2) as g eqn:Eg.
    destruct S as [s host _ Hid|i _]; injection Eg as Em' _ Eh'; simpl in *.
    + exists (more ++ [host]). rewrite <- Eh', <- Em', Eh, app_assoc. split; [done|]. split.
      * rewrite Em, u64_add_l. unfold len. rewrite length_app. simpl. f_equal. lia.
      * intros i h [Hi|[Hi Hh]]%lookup_app_Some; [by apply Ids|].
        apply list_lookup_singleton_Some in Hh as [Hz <-]. rewrite Hid, Em. unfold len.
        do 2 f_equal. lia.
    + exists more. by rewrite <- Eh', <- Em'.
Qed.

Lemma steps_numbered (n n' : Node.t) :
  rooted n → u64 (_max_host_id n) = _max_host_id n → steps n n' → rooted n' ∧ numbered n n'.
Proof.
  intros R E S. induction S as [|n n1 n2 _ IH S]; [split; [done|by apply numbered_refl]|].
  destruct IH as [R1 N1]; [done|done|]. assert (refines n1 n2) as F.
  { remember (Ret n2) as x eqn:Ex. destruct S; [simplify_eq; by apply refines_data|].
    eapply refines_trans_l; [|eapply run_task_refines; [|exact Ex]]; done. }
  split; [by destruct F|by eapply numbered_refines].
Qed.

(** ** Handlers while nobody has been admitted *)

(** No connection has an id yet. *)
Definition unadmitted (n : Node.t) : Prop := Forall (λ i, i = 0) (roster n).

(** [f] takes [n] to [n'] without looking at the host table, and changes nothing
    but the messager. *)
Definition blind (f : Node.t → outcome Node.t) (n n' : Node.t) : Prop :=
  (∃ x, n' = set_tcp_manager x n) ∧ ∀ hs, f (set_hosts hs n) = Ret (set_hosts hs n').

Lemma on_master_blind f (n n' : Node.t) : on_master f n = Ret n' → blind (on_master f) n n'.
Proof.
  unfold on_master, blind. intros E. inv_bind. subst. split; [by eexists|]. intros hs.
  change (get_master (set_hosts hs n)) with (get_master n). rewrite Ha. run. by rewrite Ha0.
Qed.

Lemma close_blind h (n n' : Node.t) : unadmitted n → close h n = Ret n' → blind (close h) n n'.
Proof.
  unfold unadmitted, roster, roster_of, blind, close. intros U E. inv_bind.
  change (get_master n) with (master n) in Ha. rewrite Ha in U.
  apply at_Ret in Ha0 as Hc. rewrite Forall_fmap, Forall_lookup in U.
  pose proof (U h a0 Hc) as Hz. simpl in Hz.
  assert (∀ hs, get_master (set_hosts hs n) = master n) as Eg by done.
  destruct (Master.socket_open a0) eqn:O.
  - cbn [owner_disconnect node_owner] in E. unfold master_disconnect in E. simpl in E.
    inv_bind. apply at_Ret in Ha1 as Hc1. simpl in Hc1. rewrite list_lookup_alter_eq, Hc in Hc1.
    injection Hc1 as <-. simpl in E. rewrite Hz in E. simpl in E. inv_bind. subst n'.
    split; [by eexists|]. intros hs. rewrite Eg, Ha. run. rewrite Ha0. run. rewrite O.
    cbn [owner_disconnect node_owner]. unfold master_disconnect. simpl. rewrite Ha1. run. simpl.
    by rewrite Hz.
  - inv_bind. subst n'. split; [by exists (_tcp_manager n); destruct n|]. intros hs.
    rewrite Eg, Ha. run. rewrite Ha0. run. by rewrite O.
Qed.

Lemma accept_slave_grows t sh h n n' :
  accept_slave t sh h n = Ret n' → length (_hosts n') = S (length (_hosts n)).
Proof.
  unfold accept_slave, sendUpdate_seqs. intros E. inv_bind.
  apply on_tcp_data in E, Ha4. apply set_slave_id_data in Ha2. unfold data in *.
  injection E as _ _ _ _ _ _ -> _. injection Ha4 as _ _ _ _ _ _ -> _. simpl.
  injection Ha2 as _ _ _ _ _ _ -> _. simpl. unfold Hosts.push. rewrite length_app. simpl. lia.
Qed.

Lemma read_master_blind p h n n' :
  unadmitted n → TCPManager_read_master p h n = Ret n' → length (_hosts n') = length (_hosts n) →
  blind (TCPManager_read_master p h) n n'.
Proof.
  unfold TCPManager_read_master. intros U E L. inv_bind.
  assert (∀ n1 : Node.t, blind (λ n, Ret n) n1 n1) as Stay.
  { intros n1. split; [by exists (_tcp_manager n1); destruct n1|done]. }
  unfold blind. rewrite Ha. cbn [mbind outcome_bind].
  destruct a as [d hs| | |]; try (injection E as <-; apply Stay).
  unfold newConnection in *. inv_bind. rewrite Ha0, Ha1. cbn [mbind outcome_bind].
  cbn [_dir_tree set_hosts]. rewrite Ha2. cbn [mbind outcome_bind].
  destruct (nonempty a1); [by apply close_blind|]. apply accept_slave_grows in E. lia.
Qed.

Lemma on_written_blind h ec l (n n' : Node.t) :
  unadmitted n → on_written h ec l n = Ret n' → blind (on_written h ec l) n n'.
Proof.
  unfold on_written, blind. intros U E. inv_bind.
  assert (∀ hs, get_master (set_hosts hs n) = get_master n) as Eg by done.
  destruct a1; inv_bind; subst.
  - split; [by eexists|]. intros hs. rewrite Eg, Ha. run. rewrite Ha0. run. rewrite Ha1. run.
    by rewrite Ha2.
  - apply (close_blind h n n' U) in E as [X C]. split; [done|]. intros hs.
    rewrite Eg, Ha. run. rewrite Ha0. run. rewrite Ha1. run. by rewrite C.
Qed.

Lemma on_body_blind h ec dat (n n' : Node.t) :
  unadmitted n → on_body h ec dat n = Ret n' → length (_hosts n') = length (_hosts n) →
  blind (on_body h ec dat) n n'.
Proof.
  unfold on_body, blind. intros U E L. inv_bind.
  assert (∀ hs, get_master (set_hosts hs n) = get_master n) as Eg by done.
  setoid_rewrite Eg. rewrite Ha. cbn [mbind outcome_bind deref]. rewrite Ha0.
  cbn [mbind outcome_bind]. case_match; [|by apply close_blind].
  inv_bind. rewrite Ha1. cbn [mbind outcome_bind].
  match type of Ha2 with owner_read _ _ ?x = _ => set (n1 := x) in * end.
  destruct (on_master_blind _ _ _ E) as [[x ->] C2].
  assert (unadmitted n1) as U1.
  { unfold unadmitted, roster, n1 in *. simpl. change (get_master n) with (master n) in Ha.
    rewrite Ha in U. by rewrite roster_alter. }
  destruct (read_master_blind a1 h n1 a2 U1 Ha2) as [[y ->] C1]; [done|].
  split; [by eexists|]. intros hs.
  match goal with |- mbind _ (owner_read _ _ ?z) = _ => change z with (set_hosts hs n1) end.
  change (owner_read a1 h (set_hosts hs n1)) with (TCPManager_read_master a1 h (set_hosts hs n1)).
  rewrite C1. cbn [mbind outcome_bind]. by rewrite C2.
Qed.

Lemma on_header_blind h ec dat (n n' : Node.t) :
  unadmitted n → on_header h ec dat n = Ret n' → blind (on_header h ec dat) n n'.
Proof.
  unfold on_header, blind. intros U E.
  case_match; [by apply on_master_blind|by apply close_blind].
Qed.

(** A handler that admits nobody is blind, and leaves no connection with an id. *)
Lemma run_task_blind k (n n' : Node.t) :
  unadmitted n → run_task k n = Ret n' → length (_hosts n') = length (_hosts n) →
  blind (run_task k) n n'.
Proof.
  intros U E L. destruct k; cbn [run_task] in *; try (by apply on_master_blind).
  - by apply on_header_blind.
  - by apply on_body_blind.
  - by apply on_written_blind.
Qed.

Lemma u64_succ x : u64 (x + 1) ≠ x.
Proof.
  unfold u64, wrap. intros E. pose proof (Z.div_mod (x + 1) (2 ^ 64) ltac:(lia)) as D.
  rewrite E in D. lia.
Qed.

Lemma run_task_unadmitted k (n n' : Node.t) :
  unadmitted n → run_task k n = Ret n' → length (_hosts n') = length (_hosts n) → unadmitted n'.
Proof.
  intros U E L. destruct (run_task_blind k n n' U E L) as [[x Ex] _]. unfold unadmitted in *.
  apply run_task_turn in E. destruct E as [j _ _ R|h s _ M _|h i Hi Hr _ _ _].
  - rewrite R. apply Forall_app. split; [done|]. by apply Forall_replicate.
  - subst n'. simpl in M. by destruct (u64_succ (_max_host_id n)).
  - rewrite Forall_lookup in U. by destruct Hi; apply (U h).
Qed.

(** A run of the network thread in which nobody is admitted changes nothing but
    the messager, and is also a run of a master with any other host table. *)
Lemma steps_unadmitted (n n' : Node.t) :
  unadmitted n → steps n n' → length (_hosts n') = length (_hosts n) →
  unadmitted n' ∧ data n' = data n ∧ ∀ hs, steps (set_hosts hs n) (set_hosts hs n').
Proof.
  intros U S. induction S as [n|n n1 n2 S IH St]; intros L; [split_and!; [done|done|constructor]|].
  pose proof (steps_extends _ _ S) as P1%prefix_length.
  assert (extends n1 n2) as P2%prefix_length.
  { apply steps_extends. eapply steps_more; [constructor|done]. }
  destruct IH as (U1 & D1 & C1); [done|lia|].
  remember (Ret n2) as r eqn:E. destruct St as [m i o k G Hi C|m i k G Hs Hi].
  - injection E as <-. split_and!; [|done|].
    + unfold unadmitted, roster in *. change (get_master n1) with (master n1) in G. by rewrite G in U1.
    + intros hs. eapply steps_more; [apply C1|].
      exact (step_complete (set_hosts hs n1) m i o k G Hi C).
  - set (n1' := put_master _ n1) in E.
    assert (unadmitted n1') as U1'.
    { unfold unadmitted, roster, n1' in *. change (get_master n1) with (master n1) in G.
      by rewrite G in U1. }
    assert (length (_hosts n2) = length (_hosts n1')) as L2 by (unfold n1'; simpl; lia).
    destruct (run_task_blind k n1' n2 U1' E L2) as [[x Ex] B].
    split_and!; [by eapply run_task_unadmitted|by rewrite Ex|].
    intros hs. eapply steps_more; [apply C1|]. rewrite <- (B hs).
    exact (step_run (set_hosts hs n1) m i k G Hs Hi).
Qed.

Lemma just_started_unadmitted n : just_started n → unadmitted n.
Proof.
  intros (e1 & e2 & e3 & e4 & G). unfold unadmitted, roster. rewrite G.
  destruct e1, e2, e3, e4; constructor.
Qed.
End Startup.
