(* ===== verification/Shutdown.v ===== *)
(** * The end of the program

    [~UserFS()] destroys its members in the reverse order of their declaration:
    first [_ssh_manager], then [_tcp_manager], whose destructor asks the messager
    to stop and joins the network thread, and only then [_hosts] and [_dir_tree].
    The thread that is joined runs handlers until it meets the one [stop] posted.
    [EventLoop] is what both event loops promise when they take ready handlers in
    the order in which they became ready; from it the bound on what runs before
    the thread ends is proved once, for master and slave. *)

From S2P Require Import Prelude BytesOrder StdSet Archive Path DirTree Host Packet Ssh.
From S2P Require Import TcpMessager Channel MasterLoop UserFs Group Handshake Totality SlaveLoop.
From S2P Require Import Consistency Streams Receivers.
Import Node.

(** ** An event loop that is asked to stop *)

(** [loop_step ran s s']: an operation completes ([ran = false]) or the handler at
    the front of the ready ones runs. *)
Class EventLoop (N K : Type) := {
  loop_ok : N → Prop;
  loop_ready : N → list K;
  loop_halted : N → bool;
  loop_stop : K;
  loop_step : bool → N → N → Prop;
  loop_step_ok ran s s' : loop_ok s → loop_step ran s s' → loop_ok s';
  loop_completes s s' :
    loop_ok s → loop_step false s s' →
    loop_halted s' = loop_halted s ∧ ∃ new, loop_ready s' = loop_ready s ++ new;
  loop_runs s s' :
    loop_ok s → loop_step true s s' →
    loop_halted s = false ∧
    ∃ k rest new, loop_ready s = k :: rest ∧ loop_ready s' = rest ++ new ∧
      (k = loop_stop → loop_halted s' = true)
}.

(** Runs, with the number of handlers that ran. *)
Inductive loop_run {N K} `{EventLoop N K} (s : N) : nat → N → Prop :=
  | loop_run_nil : loop_run s 0 s
  | loop_run_more c ran s1 s2 :
      loop_run s c s1 → loop_step ran s1 s2 → loop_run s (if ran then S c else c) s2.

Section Loop.
Context {N K : Type} `{EventLoop N K}.

Lemma loop_run_ok s c s' : loop_ok s → loop_run s c s' → loop_ok s'.
Proof. intros O. induction 1; [done|]. by eapply loop_step_ok. Qed.

(** The stop request is met after the handlers that were ready before it. *)
Lemma loop_run_stops s c s' pre post :
  loop_ok s → loop_ready s = pre ++ loop_stop :: post → loop_run s c s' →
  (c <= S (length pre))%nat ∧
  (loop_halted s' = false → ∃ pre' post',
    loop_ready s' = pre' ++ loop_stop :: post' ∧ (c + length pre' = length pre)%nat).
Proof.
  intros O E R. induction R as [|c ran s1 s2 R IH St].
  { split; [lia|]. intros _. by exists pre, post. }
  destruct IH as [L IH]. pose proof (loop_run_ok s c s1 O R) as O1. destruct ran.
  - destruct (loop_runs s1 s2 O1 St) as (Hh & k & rest & new & E1 & E2 & Hk).
    destruct (IH Hh) as (pre' & post' & E' & C). rewrite E' in E1.
    destruct pre' as [|k' pre']; simpl in *; simplify_eq.
    + split; [lia|]. intros Hf. by rewrite Hk in Hf.
    + split; [lia|]. intros _. exists pre', (post' ++ new). split; [|lia].
      rewrite E2, <- app_assoc. done.
  - destruct (loop_completes s1 s2 O1 St) as (Hh & new & E1). split; [done|].
    rewrite Hh. intros Hf. destruct (IH Hf) as (pre' & post' & E' & C).
    exists pre', (post' ++ new). split; [|done]. by rewrite E1, E', <- app_assoc.
Qed.
End Loop.

(** ** The two event loops *)

Section Loops.
Context `{TextArchive} `{Memory}.

Definition master_ok_now (n : Node.t) : Prop :=
  role n = true ∧ rooted n ∧ ∃ m, master n = Some m ∧ Inv m.

Definition master_loop_step (ran : bool) (n n' : Node.t) : Prop :=
  ∃ m, master n = Some m ∧
  if ran then
    Master.stopped m = false ∧ ∃ k rest, Master.ready m = k :: rest ∧
      run_task k (set_master (Master.set_ready rest m) n) = Ret n'
  else
    ∃ i o k, Master.pending m !! i = Some o ∧ completes m o k ∧
      n' = set_master (Master.mk (Master._connections m) (delete i (Master.pending m))
        (Master.ready m ++ [k]) (Master.stopped m)) n.

Lemma master_loop_step_step ran n n' : master_loop_step ran n n' → step n (Ret n').
Proof.
  intros (m & G & St). destruct ran.
  - destruct St as (Hs & k & rest & Er & E). rewrite <- E.
    assert (Master.ready m !! 0%nat = Some k) as Hk by (by rewrite Er).
    pose proof (step_run n m 0 k G Hs Hk) as S. by rewrite Er in S.
  - destruct St as (i & o & k & Ho & C & ->). exact (step_complete n m i o k G Ho C).
Qed.

#[export] Instance master_loop : EventLoop Node.t Master.task.
Proof.
  refine {| loop_ok := master_ok_now;
    loop_ready n := match master n with Some m => Master.ready m | None => [] end;
    loop_halted n := match master n with Some m => Master.stopped m | None => true end;
    loop_stop := Master.TStop; loop_step := master_loop_step |}.
  - intros ran n n' (R & T & m & G & I) St. apply master_loop_step_step in St.
    destruct (step_Inv (N := Node.t) (H := node_owner) n m n' G I St) as (m' & G' & I').
    destruct (steps_serving n n' R T) as [R' T'];
      [eapply steps_more; [constructor|done]|]. split; [done|]. split; [done|]. by exists m'.
  - intros n n' _ (m & G & i & o & k & _ & _ & ->). rewrite G. split; [done|]. by exists [k].
  - intros n n' (_ & _ & m0 & G0 & I) (m & G & Hs & k & rest & Er & E).
    rewrite G in G0. injection G0 as <-. rewrite G. split; [done|]. exists k, rest.
    destruct (run_ready n n' m 0 k I) as (m' & posts & G' & R').
    { by rewrite Er. }
    { by rewrite Er. }
    rewrite G'. exists posts. split; [done|]. split; [by rewrite R', Er|].
    intros ->. simpl in E. unfold on_master in E. inv_bind. subst. simpl in G'.
    by injection G' as <-.
Defined.
(** A slave's handlers post nothing. *)
Lemma on_slave_ready f (n n' : Node.t) m :
  slave n = Some m → (∀ m', f m = Ret m' → Slave.ready m' = Slave.ready m) →
  on_slave f n = Ret n' → ∃ m', slave n' = Some m' ∧ Slave.ready m' = Slave.ready m.
Proof.
  intros G F E. unfold on_slave in E. change (get_slave n) with (slave n) in E. rewrite G in E.
  cbn [deref] in E. rewrite bind_Ret in E. inv_bind. subst. exists a. split; [done|]. by apply F.
Qed.

Lemma slave_kept_ready (n n' : Node.t) m :
  slave n = Some m → _tcp_manager n' = _tcp_manager n → slave n' = Some m.
Proof. unfold slave. by intros G ->. Qed.

Lemma slave_drop_ready (n n' : Node.t) m :
  slave n = Some m → slave_drop n = Ret n' →
  ∃ m', slave n' = Some m' ∧ Slave.ready m' = Slave.ready m.
Proof.
  intros G E. unfold slave_drop in E. inv_bind.
  apply (on_slave_ready _ n a m G) in Ha as (m1 & G1 & R1); [|by intros m' [= <-]].
  exists m1. split; [|done]. eapply slave_kept_ready; [done|]. by apply slave_disconnect_keeps.
Qed.

Lemma slave_read_header_ready m m' :
  Slave.do_read_header m = Ret m' → Slave.ready m' = Slave.ready m.
Proof. unfold Slave.do_read_header. intros E. by inv_bind; subst. Qed.

Lemma slave_do_write_ready m m' : Slave.do_write m = Ret m' → Slave.ready m' = Slave.ready m.
Proof. unfold Slave.do_write. intros E. by inv_bind; subst. Qed.

Lemma slave_run_keeps_ready k (n n' : Node.t) m :
  slave n = Some m → slave_run_task k n = Ret n' →
  ∃ m', slave n' = Some m' ∧ Slave.ready m' = Slave.ready m.
Proof.
  intros G E. destruct k as [p| |ec|ec d|ec d|ec l]; cbn [slave_run_task] in E.
  - eapply on_slave_ready; [done| |exact E]. intros m' Em. unfold Slave.on_write in Em.
    case_match; [by apply slave_do_write_ready in Em|by injection Em as <-].
  - eapply on_slave_ready; [done| |exact E]. by intros m' [= <-].
  - unfold slave_on_connect in E. destruct (negb ec).
    + eapply on_slave_ready; [done| |exact E]. intros m'. apply slave_read_header_ready.
    + exists m. split; [|done]. eapply slave_kept_ready; [done|]. by apply slave_disconnect_keeps.
  - unfold slave_on_header in E. destruct (negb ec && _); [|by eapply slave_drop_ready].
    eapply on_slave_ready; [done| |exact E]. intros m' Em. cbv beta zeta in Em. inv_bind.
    unfold Slave.do_read_body in Em. by inv_bind; subst.
  - unfold slave_on_body in E. inv_bind. change (slave n = Some a) in Ha. rewrite G in Ha.
    injection Ha as <-. destruct (negb ec && _); [|by eapply slave_drop_ready]. inv_bind.
    apply read_slave_keeps in Ha0. eapply on_slave_ready in E as (m' & G' & R');
      [|eapply slave_kept_ready; [|exact Ha0]; done|intros m'; apply slave_read_header_ready].
    by exists m'.
  - unfold slave_on_written in E. inv_bind. change (slave n = Some a) in Ha. rewrite G in Ha.
    injection Ha as <-. destruct a0; [|by eapply slave_drop_ready]. inv_bind. subst.
    exists a. split; [done|].
    destruct (nonempty _); [by apply slave_do_write_ready in Ha|by injection Ha as <-].
Qed.

Definition slave_ok_now (n : Node.t) : Prop :=
  rooted n ∧ ∃ m, slave n = Some m ∧ SInv m.

Definition slave_loop_step (ran : bool) (n n' : Node.t) : Prop :=
  ∃ m, slave n = Some m ∧
  if ran then
    Slave.stopped m = false ∧ ∃ k rest, Slave.ready m = k :: rest ∧
      slave_run_task k (set_slave (remove_ready 0 m) n) = Ret n'
  else
    ∃ i o k, Slave.pending m !! i = Some o ∧ slave_completes m o k ∧
      n' = set_slave (complete i k m) n.

Lemma slave_loop_step_step ran n n' : slave_loop_step ran n n' → slave_step n (Ret n').
Proof.
  intros (m & G & St). destruct ran.
  - destruct St as (Hs & k & rest & Er & E). rewrite <- E.
    assert (Slave.ready m !! 0%nat = Some k) as Hk by (by rewrite Er).
    exact (slave_run_ready n m 0 k G Hs Hk).
  - destruct St as (i & o & k & Ho & C & ->). exact (slave_complete n m i o k G Ho C).
Qed.

#[export] Instance slave_loop : EventLoop Node.t Slave.task.
Proof.
  refine {| loop_ok := slave_ok_now;
    loop_ready n := match slave n with Some m => Slave.ready m | None => [] end;
    loop_halted n := match slave n with Some m => Slave.stopped m | None => true end;
    loop_stop := Slave.TStop; loop_step := slave_loop_step |}.
  - intros ran n n' (T & m & G & I) St. apply slave_loop_step_step in St.
    destruct (slave_step_SInv (N := Node.t) (H := node_slave) n m n' G I St) as (m' & G' & I').
    split; [|by exists m']. eapply slave_steps_rooted; [|done].
    eapply slave_steps_more; [constructor|done].
  - intros n n' _ (m & G & i & o & k & _ & _ & ->). rewrite G. split; [done|]. by exists [k].
  - intros n n' _ (m & G & Hs & k & rest & Er & E). rewrite G. split; [done|]. exists k, rest, [].
    destruct (slave_run_keeps_ready k (set_slave (remove_ready 0 m) n) n' (remove_ready 0 m)
      eq_refl E) as (m' & G' & R').
    rewrite G'. split; [done|]. split; [rewrite R', app_nil_r; simpl; by rewrite Er|].
    intros ->. simpl in E. unfold on_slave in E. inv_bind. subst. simpl in G'.
    by injection G' as <-.
Defined.
(** ** The request to stop *)

Lemma uncounted {A} (f : A → bool) l k : f k = false → count f (l ++ [k]) = count f l.
Proof. intros E. rewrite count_app. simpl. rewrite E. lia. Qed.

Lemma Inv_stop m : Inv m → Inv (Master.stop m).
Proof.
  intros I. destruct I as [P R Rd W Q S1 S2 A]. unfold reads, writes, accepts in *.
  split; simpl; try done; unfold reads, writes, accepts; simpl.
  - apply Forall_app. split; [done|by constructor].
  - intros h c Hc. rewrite (uncounted (is_read_task h)) by done. by apply Rd.
  - intros h c Hc O. rewrite (uncounted (is_write_task h)) by done. by apply W.
  - intros h c l p Hc O [Hin|Hin%list_elem_of_singleton]%elem_of_app; [by eapply S2|done].
  - by rewrite (uncounted is_accept_task).
Qed.

Lemma SInv_stop m : SInv m → SInv (Slave.stop m).
Proof.
  intros I. destruct I as [V Q R W S1 S2]. unfold slave_reads, slave_writes in *.
  split; simpl; try done; unfold slave_reads, slave_writes; simpl; rewrite ?count_app; simpl;
    try lia.
  - apply Forall_app. split; [done|by constructor].
  - intros l [Hin|Hin%list_elem_of_singleton]%elem_of_app; [by apply S2|by subst].
Qed.

(** The first half of [~TCPManager()], called on the node. *)
Definition stop_network (n : Node.t) : Node.t :=
  set_tcp_manager (TCPManager.stop (_tcp_manager n)) n.

Lemma master_stopping n m : master n = Some m → master (stop_network n) = Some (Master.stop m).
Proof. unfold master, stop_network. simpl. by intros ->. Qed.

Lemma slave_stopping n m : slave n = Some m → slave (stop_network n) = Some (Slave.stop m).
Proof. unfold slave, stop_network. simpl. by intros ->. Qed.

Context (Hmem : Packet.sizeLength <= vector_max).

Lemma master_shutdown s n m c n' :
  just_started s → role s = true → rooted s → steps s n → master n = Some m →
  loop_run (H := master_loop) (stop_network n) c n' →
  (c <= S (length (Master.ready m)))%nat ∧ rooted n' ∧
  ∃ m', master n' = Some m' ∧ (c = S (length (Master.ready m)) → Master.stopped m' = true) ∧
    (Master.stopped m' = false → ∃ k rest, Master.ready m' = k :: rest ∧
      (benign m' k → ∃ n2, run_task k (set_master (Master.set_ready rest m') n') = Ret n2)).
Proof.
  intros J R T St G Run. destruct (reachable_Inv s n J St) as (m0 & G0 & I).
  rewrite G in G0. injection G0 as <-. destruct (steps_serving s n R T St) as [R1 T1].
  assert (loop_ok (EventLoop := master_loop) (stop_network n)) as O.
  { split; [done|]. split; [done|]. exists (Master.stop m).
    split; [by apply master_stopping|by apply Inv_stop]. }
  destruct (loop_run_stops (H := master_loop) _ c n' (Master.ready m) [] O) as [L E]; [|done|].
  { simpl. by rewrite (master_stopping n m G). }
  destruct (loop_run_ok _ c n' O Run) as (R' & T' & m' & G' & I').
  split; [done|]. split; [done|]. exists m'. split; [done|]. simpl in E.
  rewrite G' in E. split.
  { intros ->. destruct (Master.stopped m'); [done|]. destruct (E eq_refl) as (? & _ & _ & ?). lia. }
  intros Hs. destruct (E Hs) as (pre & post & Er & _).
  destruct (Master.ready m') as [|k rest] eqn:Em; [by destruct pre|]. exists k, rest.
  split; [done|]. intros B. destruct T' as (r & Er' & _).
  destruct (run_task_total Hmem n' m' 0 k) as [n2 E2];
    [split; [done|by exists r|done]|done|by rewrite Em|done|].
  rewrite Em in E2. by exists n2.
Qed.

Lemma slave_shutdown s n m c n' :
  slave s = Some (Slave.start Slave.create) → rooted s → slave_steps s n →
  slave n = Some m → loop_run (H := slave_loop) (stop_network n) c n' →
  (c <= S (length (Slave.ready m)))%nat ∧ rooted n' ∧
  ∃ m', slave n' = Some m' ∧ (c = S (length (Slave.ready m)) → Slave.stopped m' = true) ∧
    (Slave.stopped m' = false → ∃ k rest, Slave.ready m' = k :: rest ∧
      (slave_benign k → ∃ n2, slave_run_task k (set_slave (remove_ready 0 m') n') = Ret n2)).
Proof.
  intros G0 T St G Run.
  destruct (slave_steps_SInv (N := Node.t) (H := node_slave) s _ n G0 SInv_start St)
    as (m0 & Gm & I). change (slave n = Some m0) in Gm. rewrite G in Gm. injection Gm as <-.
  pose proof (slave_steps_rooted s n St T) as T1.
  assert (loop_ok (EventLoop := slave_loop) (stop_network n)) as O.
  { split; [done|]. exists (Slave.stop m).
    split; [by apply slave_stopping|by apply SInv_stop]. }
  destruct (loop_run_stops (H := slave_loop) _ c n' (Slave.ready m) [] O) as [L E]; [|done|].
  { simpl. by rewrite (slave_stopping n m G). }
  destruct (loop_run_ok _ c n' O Run) as (T' & m' & G' & I').
  split; [done|]. split; [done|]. exists m'. split; [done|]. simpl in E.
  rewrite G' in E. split.
  { intros ->. destruct (Slave.stopped m'); [done|]. destruct (E eq_refl) as (? & _ & _ & ?). lia. }
  intros Hs. destruct (E Hs) as (pre & post & Er & _).
  destruct (Slave.ready m') as [|k rest] eqn:Em; [by destruct pre|]. exists k, rest.
  split; [done|]. intros B. apply slave_run_total; try done. by rewrite Em.
Qed.

(** C17: the program can end: [~TCPManager()] asks the network thread to stop and
    joins it, in any state the thread has reached.  When handlers run in the order in
    which they became ready, as Boost.Asio runs them on its one thread, no more of them
    run than were ready at that moment and the one that stops the loop, whatever
    operations complete meanwhile, and when that many have run the loop is stopped; until
    it is stopped the loop has a handler to run, which returns normally unless its input
    is one of those on which handlers fail; and the tree the handlers work on, which is destroyed after the manager, is there
    all the time.  For a master and for a slave. *)
Theorem shutdown_ends :
  (∀ s n m c n', just_started s → role s = true → rooted s → steps s n → master n = Some m →
    loop_run (H := master_loop) (stop_network n) c n' →
    (c <= S (length (Master.ready m)))%nat ∧ rooted n' ∧
    ∃ m', master n' = Some m' ∧ (c = S (length (Master.ready m)) → Master.stopped m' = true) ∧
      (Master.stopped m' = false → ∃ k rest, Master.ready m' = k :: rest ∧
        (benign m' k → ∃ n2, run_task k (set_master (Master.set_ready rest m') n') = Ret n2))) ∧
  (∀ s n m c n', slave s = Some (Slave.start Slave.create) → rooted s → slave_steps s n →
    slave n = Some m → loop_run (H := slave_loop) (stop_network n) c n' →
    (c <= S (length (Slave.ready m)))%nat ∧ rooted n' ∧
    ∃ m', slave n' = Some m' ∧ (c = S (length (Slave.ready m)) → Slave.stopped m' = true) ∧
      (Slave.stopped m' = false → ∃ k rest, Slave.ready m' = k :: rest ∧
        (slave_benign k → ∃ n2, slave_run_task k (set_slave (remove_ready 0 m') n') = Ret n2))).
Proof. split; [apply master_shutdown|apply slave_shutdown]. Qed.
End Loops.

(** ** A master that is shut down *)

Section ShutdownWitness.
Import ExampleArchive ExampleGroup.

(** The listening master: the stop request is the only handler that is ready. *)
Definition halted : Node.t :=
  set_master (Master.on_stop (Master.start false false false false Master.create)) listening.

Lemma shutdown_ends_witness :
  ∃ m', master halted = Some m' ∧ Master.stopped m' = true ∧
    (1 <= S (length (Master.ready (Master.start false false false false Master.create))))%nat.
Proof.
  assert (Packet.sizeLength <= vector_max) as Hmem by by_decide.
  destruct (shutdown_ends Hmem) as [M _].
  destruct (M listening listening (Master.start false false false false Master.create) 1%nat halted)
    as (L & _ & m' & G & S & _).
  - by exists false, false, false, false.
  - reflexivity.
  - exists ExampleTree.master. split; [reflexivity|apply ExampleTree.master_wf].
  - constructor.
  - reflexivity.
  - apply (loop_run_more (stop_network listening) 0 true (stop_network listening) halted);
      [constructor|].
    eexists. split; [reflexivity|]. split; [reflexivity|]. eexists _, _. split; reflexivity.
  - exists m'. split; [exact G|]. split; [by apply S|exact L].
Defined.
End ShutdownWitness.
