(* ===== verification/Threads.v ===== *)
(** * Threads that share a state

    A function that other threads may interrupt is a [thread]: a sequence of
    atomic actions on the state it shares with them.  [alone] runs it without
    interruption, [race] runs two of them under a schedule.  [zoom] makes a thread
    act on a part of a larger state; threads that follow threads on separate parts do
    not disturb each other ([race_separate]).  A container that threads use without a
    lock has its operations in two actions, and a change during another operation is
    a data race ([reading], [changing]). *)

From Stdlib Require Import FunctionalExtensionality.
From S2P Require Import Prelude.

Inductive thread (S A : Type) :=
  | Done (a : A)
  | Act (f : S → outcome (thread S A * S)).

Arguments Done {_ _} _.
Arguments Act {_ _} _.

Section ThreadInd.
Context {S A : Type} (P : thread S A → Prop).
Hypothesis P_Done : ∀ a, P (Done a).
Hypothesis P_Act : ∀ f, (∀ s t s', f s = Ret (t, s') → P t) → P (Act f).

Fixpoint thread_induction (t : thread S A) : P t.
Proof.
  destruct t as [a|f]; [apply P_Done|]. apply P_Act. intros s.
  destruct (f s) as [[t0 s0]| | |]; intros t s' E; try discriminate E.
  injection E as <- <-. apply thread_induction.
Defined.
End ThreadInd.

Section Threads.
Context {S : Type}.

Definition atomically {A} (f : S → outcome (A * S)) : thread S A :=
  Act (λ s, '(a, s) ← f s; Ret (Done a, s)).

(** Sequential composition. *)
Fixpoint tbind {A B} (t : thread S A) (k : A → thread S B) : thread S B :=
  match t with
  | Done a => k a
  | Act f => Act (λ s,
      match f s with
      | Ret (t, s) => Ret (tbind t k, s)
      | Exn what => Exn what
      | AssertFailed => AssertFailed
      | Undef e => Undef e
      end)
  end.

(** Uninterrupted: to the end, and for [n] actions. *)
Fixpoint alone {A} (t : thread S A) (s : S) : outcome (A * S) :=
  match t with
  | Done a => Ret (a, s)
  | Act f =>
      match f s with
      | Ret (t, s) => alone t s
      | Exn what => Exn what
      | AssertFailed => AssertFailed
      | Undef e => Undef e
      end
  end.

Definition act {A} (t : thread S A) (s : S) : outcome (thread S A * S) :=
  match t with Done a => Ret (Done a, s) | Act f => f s end.

Fixpoint acts {A} (n : nat) (t : thread S A) (s : S) : outcome (thread S A * S) :=
  match n with
  | O => Ret (t, s)
  | Datatypes.S n => '(t, s) ← act t s; acts n t s
  end.

(** Two threads under a schedule: [true] is a turn of the first. *)
Fixpoint race {A B} (schedule : list bool) (t1 : thread S A) (t2 : thread S B) (s : S)
    : outcome (thread S A * thread S B * S) :=
  match schedule with
  | [] => Ret (t1, t2, s)
  | true :: schedule => '(t1, s) ← act t1 s; race schedule t1 t2 s
  | false :: schedule => '(t2, s) ← act t2 s; race schedule t1 t2 s
  end.

Lemma alone_bind {A B} (t : thread S A) (k : A → thread S B) s :
  alone (tbind t k) s = ('(a, s) ← alone t s; alone (k a) s).
Proof.
  revert s. induction t as [a|f IH] using thread_induction; intros s; [done|]. simpl.
  destruct (f s) as [[t s']| | |] eqn:E; try done. by eapply IH.
Qed.

Lemma alone_atomically {A} (f : S → outcome (A * S)) s : alone (atomically f) s = f s.
Proof. unfold atomically. simpl. by destruct (f s) as [[a s']| | |]. Qed.

Lemma tbind_assoc {A B C} (t : thread S A) (k : A → thread S B) (h : B → thread S C) :
  tbind (tbind t k) h = tbind t (λ a, tbind (k a) h).
Proof.
  induction t as [a|f IH] using thread_induction; [done|]. simpl. f_equal.
  apply functional_extensionality. intros s.
  destruct (f s) as [[t s']| | |] eqn:E; try done. by rewrite (IH s t s' E).
Qed.

(** The first turn of a thread that starts with an action. *)
Lemma act_then {A B} (f : S → outcome (A * S)) (k : A → thread S B) s :
  act (tbind (atomically f) k) s = ('(a, s) ← f s; Ret (k a, s)).
Proof. unfold atomically. simpl. by destruct (f s) as [[a s']| | |]. Qed.

Lemma act_atomically {A} (f : S → outcome (A * S)) s :
  act (atomically f) s = ('(a, s) ← f s; Ret (Done a, s)).
Proof. done. Qed.

(** Several turns of one thread. *)
Lemma race_first {A B} k schedule (t1 : thread S A) (t2 : thread S B) s t1' s' :
  acts k t1 s = Ret (t1', s') →
  race (replicate k true ++ schedule) t1 t2 s = race schedule t1' t2 s'.
Proof.
  revert t1 s. induction k as [|k IH]; intros t1 s E; simpl in *; [by simplify_eq|].
  apply bind_Ret_inv in E as ([t y] & -> & E). run. by apply IH.
Qed.

Lemma race_second {A B} k schedule (t1 : thread S A) (t2 : thread S B) s t2' s' :
  acts k t2 s = Ret (t2', s') →
  race (replicate k false ++ schedule) t1 t2 s = race schedule t1 t2' s'.
Proof.
  revert t2 s. induction k as [|k IH]; intros t2 s E; simpl in *; [by simplify_eq|].
  apply bind_Ret_inv in E as ([t y] & -> & E). run. by apply IH.
Qed.

(** A thread that finishes does so after some number of turns, and from then on
    has its result. *)
Lemma alone_acts {A} (t : thread S A) s a s' :
  alone t s = Ret (a, s') →
  ∃ n, (∀ i, is_Some (match acts i t s with Ret x => Some x | _ => None end)) ∧
    ∀ i, (n <= i)%nat → acts i t s = Ret (Done a, s').
Proof.
  assert (∀ (b : A) (x : S) i, acts i (Done b) x = Ret (Done b, x)) as Stay.
  { intros b x i. by induction i. }
  revert s. induction t as [b|f IH] using thread_induction; intros s E.
  - simpl in E. injection E as -> ->. exists 0%nat. split; [|by intros].
    intros i. by rewrite Stay.
  - simpl in E. destruct (f s) as [[t1 s1]| | |] eqn:Ef; try done.
    destruct (IH s t1 s1 Ef s1 E) as (n & T & F). exists (Datatypes.S n). split.
    + intros [|i]; simpl; [done|]. rewrite Ef. run. apply T.
    + intros [|i] Hi; [lia|]. simpl. rewrite Ef. run. apply F. lia.
Qed.
End Threads.

Notation "x ⇐ t ; u" := (tbind t (λ x, u))
  (at level 100, t at next level, u at level 200, right associativity).

(** One turn. *)
Ltac turn := rewrite ?tbind_assoc, ?act_then, ?act_atomically; run.

(** ** A part of the state *)

(** Access to a part [X] of [S], and what makes it one. *)
Record part (S X : Type) := mkPart {
  look : S → outcome X;
  put : X → S → S
}.

Arguments mkPart {_ _} _ _.
Arguments look {_ _} _ _.
Arguments put {_ _} _ _ _.

Record part_ok {S X} (p : part S X) : Prop := {
  look_put x y s : look p s = Ret y → look p (put p x s) = Ret x;
  put_put x y s : put p x (put p y s) = put p x s;
  put_look x s : look p s = Ret x → put p x s = s
}.

(** Two parts that have nothing in common. *)
Definition separate {S X Y} (p : part S X) (q : part S Y) : Prop :=
  (∀ x s, look q (put p x s) = look q s) ∧ (∀ y s, look p (put q y s) = look p s).

Section Zoom.
Context {S X : Type} (p : part S X).

Fixpoint zoom {A} (t : thread X A) : thread S A :=
  match t with
  | Done a => Done a
  | Act f => Act (λ s,
      match look p s with
      | Ret x =>
          match f x with
          | Ret (t, x) => Ret (zoom t, put p x s)
          | Exn what => Exn what
          | AssertFailed => AssertFailed
          | Undef e => Undef e
          end
      | Exn what => Exn what
      | AssertFailed => AssertFailed
      | Undef e => Undef e
      end)
  end.

Context (Ok : part_ok p).

Lemma alone_zoom {A} (t : thread X A) s x :
  look p s = Ret x → alone (zoom t) s = ('(a, x) ← alone t x; Ret (a, put p x s)).
Proof.
  revert s x. induction t as [a|f IH] using thread_induction; intros s x L; simpl.
  - by rewrite (put_look _ Ok).
  - rewrite L. destruct (f x) as [[t x']| | |] eqn:E; try done.
    rewrite (IH x t x' E (put p x' s) x') by (by eapply look_put).
    destruct (alone t x') as [[a x2]| | |]; run; try done. by rewrite (put_put _ Ok).
Qed.

End Zoom.

(** ** Containers that several threads use without a lock *)

(** The threads, by number, that are in the middle of an operation that only reads
    the container, and whether one is in the middle of an operation that changes it. *)
Record accesses := mkAccesses { readers : gset nat; writing : bool }.

Definition no_access : accesses := mkAccesses ∅ false.

(** An operation takes two actions, its begin and its end, so that others may come
    in between; a change during any other operation is a data race. *)
Definition begin_read (me : nat) (a : accesses) : outcome accesses :=
  if writing a then Undef DataRace else Ret (mkAccesses ({[me]} ∪ readers a) false).

Definition end_read (me : nat) (a : accesses) : accesses :=
  mkAccesses (readers a ∖ {[me]}) (writing a).

Definition begin_write (a : accesses) : outcome accesses :=
  if writing a || negb (bool_decide (readers a = ∅)) then Undef DataRace
  else Ret (mkAccesses ∅ true).

Definition end_write (a : accesses) : accesses := mkAccesses (readers a) false.

Section Containers.
Context {S : Type}.

Definition reading {A} (me : nat) (f : S → outcome A) : thread (accesses * S) A :=
  _ ⇐ atomically (λ '(a, s), a ← begin_read me a; Ret (tt, (a, s)));
  atomically (λ '(a, s), r ← f s; Ret (r, (end_read me a, s))).

Definition changing {A} (f : S → outcome (A * S)) : thread (accesses * S) A :=
  _ ⇐ atomically (λ '(a, s), a ← begin_write a; Ret (tt, (a, s)));
  atomically (λ '(a, s), '(r, s) ← f s; Ret (r, (end_write a, s))).

(** Alone there is no race. *)
Lemma alone_reading {A} me (f : S → outcome A) s :
  alone (reading me f) (no_access, s) = (r ← f s; Ret (r, (no_access, s))).
Proof.
  unfold reading, begin_read. rewrite alone_bind, alone_atomically. cbn -[union].
  destruct (f s); cbn -[union difference]; try done. unfold end_read, no_access.
  do 3 f_equal. cbn -[union difference]. f_equal. set_solver.
Qed.

Lemma alone_changing {A} (f : S → outcome (A * S)) s :
  alone (changing f) (no_access, s) = ('(r, s) ← f s; Ret (r, (no_access, s))).
Proof.
  unfold changing, begin_write. rewrite alone_bind, alone_atomically.
  cbn. rewrite bool_decide_eq_true_2 by done. cbn.
  destruct (f s) as [[]| | |]; done.
Qed.

(** A whole operation, uninterrupted, and what follows it. *)
Lemma acts_reading {A B} me (f : S → outcome A) (k : A → thread (accesses * S) B) s r n :
  f s = Ret r →
  acts (2 + n) (tbind (reading me f) k) (no_access, s) = acts n (k r) (no_access, s).
Proof.
  intros E. unfold reading, begin_read. cbn -[union difference]. rewrite E.
  cbn -[union difference]. unfold end_read, no_access. cbn -[union difference].
  do 2 f_equal. f_equal. set_solver.
Qed.

Lemma acts_changing {A B} (f : S → outcome (A * S)) (k : A → thread (accesses * S) B) s r s' n :
  f s = Ret (r, s') →
  acts (2 + n) (tbind (changing f) k) (no_access, s) = acts n (k r) (no_access, s').
Proof. intros E. unfold changing, begin_write. cbn. rewrite bool_decide_eq_true_2 by done.
  cbn. by rewrite E. Qed.

(** A change that begins while another thread is in the middle of an operation, and
    an operation that begins in the middle of a change. *)
Lemma act_changing_race {A B} (f : S → outcome (A * S)) (k : A → thread (accesses * S) B) a s :
  writing a = true ∨ readers a ≠ ∅ →
  act (tbind (changing f) k) (a, s) = Undef DataRace.
Proof.
  intros H. unfold changing. turn. unfold begin_write.
  destruct (writing a); [done|]. destruct H as [H|H]; [done|].
  by rewrite bool_decide_eq_false_2.
Qed.

End Containers.

(** ** Threads on separate parts *)

(** How often a schedule gives a thread its turn. *)
Definition turns (b : bool) (schedule : list bool) : nat :=
  length (filter (λ x, x = b) schedule).

(** [t] does to the whole state what [u] does to the part. *)
Inductive follows {S X A} (p : part S X) : thread S A → thread X A → Prop :=
  | follows_Done a : follows p (Done a) (Done a)
  | follows_Act f g :
      (∀ s x u x', look p s = Ret x → g x = Ret (u, x') →
        ∃ t, f s = Ret (t, put p x' s) ∧ follows p t u) →
      follows p (Act f) (Act g).

Section Follows.
Context {S X : Type} (p : part S X).

Lemma follows_atomically {A} (f : S → outcome (A * S)) (g : X → outcome (A * X)) :
  (∀ s x a x', look p s = Ret x → g x = Ret (a, x') → f s = Ret (a, put p x' s)) →
  follows p (atomically f) (atomically g).
Proof.
  intros H. constructor. intros s x u x' L E. apply bind_Ret_inv in E as ([a y] & E & Eq).
  injection Eq as <- <-. exists (Done a). rewrite (H s x a y L E). split; [done|constructor].
Qed.

Lemma follows_bind {A B} (t : thread S A) u (k : A → thread S B) k' :
  follows p t u → (∀ a, follows p (k a) (k' a)) → follows p (tbind t k) (tbind u k').
Proof.
  intros F K. revert t F.
  induction u as [a|g IH] using thread_induction; intros t F; inversion F as [|f ? Hf]; subst.
  - apply K.
  - simpl. constructor. intros s x u x' L E.
    destruct (g x) as [[u0 x0]| | |] eqn:Eg; try done. injection E as <- <-.
    destruct (Hf s x u0 x0 L Eg) as (t0 & -> & F0). exists (tbind t0 k). split; [done|].
    by eapply IH.
Qed.

(** A part of the part. *)
Lemma follows_zoom {Y A} (q : part S Y) (r : part X Y) (t : thread Y A) :
  (∀ s x y, look p s = Ret x → look r x = Ret y → look q s = Ret y) →
  (∀ s x y, look p s = Ret x → put q y s = put p (put r y x) s) →
  follows p (zoom q t) (zoom r t).
Proof.
  intros L P. induction t as [a|f IH] using thread_induction; [constructor|]. simpl. constructor.
  intros s x u x' Lx E. destruct (look r x) as [y| | |] eqn:Ey; try done.
  destruct (f y) as [[t y']| | |] eqn:Ef; try done. injection E as <- <-.
  exists (zoom q t). rewrite (L s x y Lx Ey), Ef. split; [by rewrite (P s x)|by eapply IH].
Qed.

Context (Ok : part_ok p).

Lemma follows_act {A} (t : thread S A) u s x u' x' :
  follows p t u → look p s = Ret x → act u x = Ret (u', x') →
  ∃ t', act t s = Ret (t', put p x' s) ∧ follows p t' u'.
Proof.
  intros [a|f g H] L E; simpl in *; [|by eapply H].
  injection E as <- <-. exists (Done a). rewrite (put_look _ Ok) by done. split; [done|constructor].
Qed.
End Follows.

Section Separate.
Context {S X Y : Type} (p : part S X) (q : part S Y).
Context (Okp : part_ok p) (Okq : part_ok q) (Sep : separate p q).

(** Under any schedule each thread does what it does alone in its turns. *)
Lemma race_separate {A B} schedule (t1 : thread S A) u1 (t2 : thread S B) u2 s x y u1' x' u2' y' :
  follows p t1 u1 → follows q t2 u2 → look p s = Ret x → look q s = Ret y →
  acts (turns true schedule) u1 x = Ret (u1', x') →
  acts (turns false schedule) u2 y = Ret (u2', y') →
  ∃ t1' t2' s', race schedule t1 t2 s = Ret (t1', t2', s') ∧
    follows p t1' u1' ∧ follows q t2' u2' ∧ look p s' = Ret x' ∧ look q s' = Ret y'.
Proof.
  destruct Sep as [Sq Sp]. revert t1 u1 t2 u2 s x y.
  induction schedule as [|b schedule IH]; intros t1 u1 t2 u2 s x y F1 F2 Lp Lq E1 E2.
  { simpl in E1, E2. simplify_eq. by exists t1, t2, s. }
  unfold turns in *. rewrite filter_cons in E1, E2. destruct b; simpl in *.
  - apply bind_Ret_inv in E1 as ([u x1] & Ea & E1).
    destruct (follows_act p Okp t1 u1 s x u x1 F1 Lp Ea) as (t & -> & F). run.
    eapply (IH t u t2 u2 _ x1 y); [done|done|by eapply look_put|by rewrite Sq|done|done].
  - apply bind_Ret_inv in E2 as ([u y1] & Ea & E2).
    destruct (follows_act q Okq t2 u2 s y u y1 F2 Lq Ea) as (t & -> & F). run.
    eapply (IH t1 u1 t u _ x y1); [done|done|by rewrite Sp|by eapply look_put|done|done].
Qed.

(** When both finish alone, no schedule makes either fail, and every schedule that
    gives them enough turns finishes both with the results they have alone. *)
Lemma race_separate_alone {A B} (t1 : thread S A) u1 (t2 : thread S B) u2 s x y a x' b y' :
  follows p t1 u1 → follows q t2 u2 → look p s = Ret x → look q s = Ret y →
  alone u1 x = Ret (a, x') → alone u2 y = Ret (b, y') →
  (∀ schedule, ∃ r, race schedule t1 t2 s = Ret r) ∧
  ∃ n, ∀ schedule, (n <= turns true schedule)%nat → (n <= turns false schedule)%nat →
    ∃ s', race schedule t1 t2 s = Ret (Done a, Done b, s') ∧
      look p s' = Ret x' ∧ look q s' = Ret y'.
Proof.
  intros F1 F2 Lp Lq (n1 & T1 & D1)%alone_acts (n2 & T2 & D2)%alone_acts. split.
  - intros schedule. specialize (T1 (turns true schedule)). specialize (T2 (turns false schedule)).
    destruct (acts (turns true schedule) u1 x) as [[v1 x1]| | |] eqn:E1; try by destruct T1.
    destruct (acts (turns false schedule) u2 y) as [[v2 y1]| | |] eqn:E2; try by destruct T2.
    destruct (race_separate schedule t1 u1 t2 u2 s x y v1 x1 v2 y1) as (? & ? & ? & E & _); try done.
    by eexists.
  - exists (Nat.max n1 n2). intros schedule H1 H2.
    destruct (race_separate schedule t1 u1 t2 u2 s x y (Done a) x' (Done b) y')
      as (t1' & t2' & s' & E & G1 & G2 & L); try done; [apply D1; lia|apply D2; lia|].
    inversion G1. inversion G2. subst. by exists s'.
Qed.
End Separate.
