(* ===== verification/ConcurrentReads.v ===== *)
(** * Concurrent reads

    [fuse_main] is called without [-s], so FUSE runs callbacks in several threads,
    and neither [UserFS::read] nor [SSHSession] takes a lock.  Here both are
    threads (Threads).  An action is one call into libssh or one assignment to a
    member, with the test of its own result or of the pointer it is given; members
    are read again in every action, as in the source.  An operation on the session
    table, a [std::unordered_map] without a lock, is a [reading] or a [changing] of
    Threads, so that [emplace] during another operation is a data race.  Alone the
    threads are the functions of Ssh and Fuse; reads through existing sessions of
    different hosts do not disturb each other; first reads and reads through one
    session do. *)

From Stdlib Require Import FunctionalExtensionality.
From stdpp Require Import functions.
From S2P Require Import Prelude BytesOrder StdSet Archive Path DirTree Host Packet Ssh.
From S2P Require Import TcpMessager MasterLoop UserFs Group Fuse Threads.
Import Node.

(** ** SSHSession, action by action *)

Module Session.
Section Session.
Context {W : Type} `{LibSSH W}.

Notation state := (SSHSession.t * W)%type (only parsing).

(** A statement that changes members only. *)
Definition member (f : SSHSession.t → SSHSession.t) : thread state unit :=
  atomically (λ '(s, w), Ret (tt, (f s, w))).

(** A library call on the handle in a member. *)
Definition call {A} (p : SSHSession.t → pointer) (f : handle → W → A * W) : thread state A :=
  atomically (λ '(s, w), h ← target (p s); let '(a, w) := f h w in Ret (a, (s, w))).

(** [if (p) f(p)] *)
Definition call_if (p : SSHSession.t → pointer) (f : handle → W → W) : thread state unit :=
  atomically (λ '(s, w), w ← SSHSession.if_set (p s) f w; Ret (tt, (s, w))).

(** A library call that accepts a null session. *)
Definition call_null (f : option handle → W → W) : thread state unit :=
  atomically (λ '(s, w), v ← value (SSHSession._ssh_session s); Ret (tt, (s, f v w))).

(** [p = f(...)], with the result tested against null. *)
Definition assign (set : pointer → SSHSession.t → SSHSession.t) (f : W → option handle * W)
    : thread state bool :=
  atomically (λ '(s, w), let '(h, w) := f w in
    Ret (bool_decide (is_Some h), (set (of_option h) s, w))).

(** The same for a call on the handle in a member. *)
Definition assign_from (set : pointer → SSHSession.t → SSHSession.t)
    (p : SSHSession.t → pointer) (f : handle → W → option handle * W) : thread state bool :=
  atomically (λ '(s, w), h ← target (p s); let '(r, w) := f h w in
    Ret (bool_decide (is_Some r), (set (of_option r) s, w))).

Definition disconnect : thread state unit :=
  _ ⇐ member (SSHSession.set_file_open []);
  _ ⇐ call_if SSHSession._file_handle sftp_close;
  _ ⇐ member (SSHSession.set_file_handle Null);
  _ ⇐ call_if SSHSession._sftp_session sftp_free;
  _ ⇐ member (SSHSession.set_sftp_session Null);
  _ ⇐ call_null ssh_disconnect;
  _ ⇐ call_null ssh_free;
  member (SSHSession.set_ssh_session Null).

(** [_address] and [_port] are read with the call that passes them. *)
Definition set_options : thread state bool :=
  e1 ⇐ atomically (λ '(s, w), h ← target (SSHSession._ssh_session s);
    let '(e, w) := ssh_options_set_host h (SSHSession._address s) w in Ret (e, (s, w)));
  if negb (e1 =? 0) then Done true else
  e2 ⇐ atomically (λ '(s, w), h ← target (SSHSession._ssh_session s);
    let '(e, w) := ssh_options_set_port h (SSHSession._port s) w in Ret (e, (s, w)));
  Done (negb (e2 =? 0)).

Definition do_connect (path : bytes) : thread state bool :=
  made ⇐ assign SSHSession.set_ssh_session ssh_new;
  if negb made then Done true else
  failed ⇐ set_options;
  if (failed : bool) then Done true else
  e ⇐ call SSHSession._ssh_session ssh_connect;
  if negb (e =? 0) then Done true else
  e ⇐ call SSHSession._ssh_session ssh_userauth_publickey_auto;
  if negb (e =? 0) then Done true else
  made ⇐ assign_from SSHSession.set_sftp_session SSHSession._ssh_session sftp_new;
  if negb made then Done true else
  e ⇐ call SSHSession._sftp_session sftp_init;
  if negb (e =? 0) then Done true else
  made ⇐ assign_from SSHSession.set_file_handle SSHSession._sftp_session (λ h, sftp_open h path);
  if negb made then Done true else
  _ ⇐ member (SSHSession.set_file_open path);
  Done false.

Definition connect (path : bytes) : thread state bool :=
  failed ⇐ do_connect path;
  if (failed : bool) then _ ⇐ disconnect; Done true else Done false.

Definition do_read (offset size : Z) : thread state (Z * bytes) :=
  e ⇐ call SSHSession._file_handle (λ f, sftp_seek64 f offset);
  if negb (e =? 0) then Done (-1, []) else
  call SSHSession._file_handle (λ f, sftp_read f size).

Definition reconnect_read (path : bytes) (offset size : Z) : thread state (Z * bytes) :=
  failed ⇐ connect path;
  if (failed : bool) then Done (-1, []) else
  r ⇐ do_read offset size;
  if 0 <=? r.1 then Done r else _ ⇐ disconnect; Done r.

Definition read (path : bytes) (offset size : Z) : thread state (Z * bytes) :=
  connected ⇐ atomically (λ '(s, w),
    c ← (if decide (SSHSession._file_open s = path) then
           v ← value (SSHSession._sftp_session s); Ret (bool_decide (is_Some v))
         else Ret false);
    Ret (c, (s, w)));
  if (connected : bool) then
    r ⇐ do_read offset size;
    if 0 <=? r.1 then Done r else _ ⇐ disconnect; reconnect_read path offset size
  else reconnect_read path offset size.

(** ** Alone, the threads are the functions of Ssh *)

(** A call alone, and what follows it. *)
Lemma alone_then {A B} (f : state → outcome (A * state)) (k : A → thread state B) x :
  alone (tbind (atomically f) k) x = ('(a, x) ← f x; alone (k a) x).
Proof. by rewrite alone_bind, alone_atomically. Qed.

Lemma alone_disconnect s w :
  alone disconnect (s, w) = ('(s, w) ← SSHSession.disconnect s w; Ret (tt, (s, w))).
Proof.
  unfold disconnect, SSHSession.disconnect, member, call_if, call_null, SSHSession.if_set.
  destruct s as [a p ssh sftp fh fo].
  destruct fh; simpl; try done; destruct sftp; simpl; try done; by destruct ssh.
Qed.

Lemma alone_do_connect path s w :
  alone (do_connect path) (s, w) =
  ('(b, s, w) ← SSHSession.do_connect path s w; Ret (b, (s, w))).
Proof.
  unfold do_connect, SSHSession.do_connect, assign, assign_from, call, set_options, member.
  simpl. destruct (ssh_new w) as [[ssh|] w1]; simpl; [|done].
  destruct (ssh_options_set_host ssh _ w1) as [e1 w2]. simpl. destruct (e1 =? 0); [|done].
  simpl. destruct (ssh_options_set_port ssh _ w2) as [e2 w3]. simpl. destruct (e2 =? 0); [|done].
  simpl. destruct (ssh_connect ssh w3) as [e3 w4]. simpl. destruct (e3 =? 0); [|done].
  simpl. destruct (ssh_userauth_publickey_auto ssh w4) as [e4 w5]. simpl.
  destruct (e4 =? 0); [|done].
  simpl. destruct (sftp_new ssh w5) as [[sftp|] w6]; simpl; [|done].
  destruct (sftp_init sftp w6) as [e5 w7]. simpl. destruct (e5 =? 0); [|done].
  simpl. by destruct (sftp_open sftp path w7) as [[f|] w8].
Qed.

Lemma alone_connect path s w :
  alone (connect path) (s, w) =
  ('(b, s, w) ← SSHSession.connect path s w; Ret (b, (s, w))).
Proof.
  unfold connect, SSHSession.connect. rewrite alone_bind, alone_do_connect.
  destruct (SSHSession.do_connect path s w) as [[[[] s1] w1]| | |]; run; try done.
  rewrite alone_bind, alone_disconnect.
  by destruct (SSHSession.disconnect s1 w1) as [[]| | |].
Qed.

Lemma alone_do_read offset size s w :
  alone (do_read offset size) (s, w) =
  ('(n, b, w) ← SSHSession.do_read offset size s w; Ret ((n, b), (s, w))).
Proof.
  unfold do_read, SSHSession.do_read, call. simpl.
  destruct (target (SSHSession._file_handle s)) as [f| | |] eqn:Ef; simpl; try done.
  destruct (sftp_seek64 f offset w) as [e w1]. simpl. destruct (e =? 0); simpl; [|done].
  rewrite Ef. simpl. by destruct (sftp_read f size w1) as [[] ?].
Qed.

Lemma alone_reconnect_read path offset size s w :
  alone (reconnect_read path offset size) (s, w) =
  ('(n, b, s, w) ← SSHSession.reconnect_read path offset size s w; Ret ((n, b), (s, w))).
Proof.
  unfold reconnect_read, SSHSession.reconnect_read. rewrite alone_bind, alone_connect.
  destruct (SSHSession.connect path s w) as [[[[] s1] w1]| | |]; run; try done.
  rewrite alone_bind, alone_do_read.
  destruct (SSHSession.do_read offset size s1 w1) as [[[n b] w2]| | |]; run; try done.
  cbn [fst]. destruct (0 <=? n); [done|]. rewrite alone_bind, alone_disconnect.
  by destruct (SSHSession.disconnect s1 w2) as [[]| | |].
Qed.

Lemma alone_session_read path offset size s w :
  alone (read path offset size) (s, w) =
  ('(n, b, s, w) ← SSHSession.read path offset size s w; Ret ((n, b), (s, w))).
Proof.
  unfold read, SSHSession.read. rewrite alone_then.
  destruct (decide (SSHSession._file_open s = path)); run; [|apply alone_reconnect_read].
  destruct (value (SSHSession._sftp_session s)) as [o| | |]; run; try done.
  destruct (bool_decide (is_Some o)); [|apply alone_reconnect_read].
  rewrite alone_bind, alone_do_read.
  destruct (SSHSession.do_read offset size s w) as [[[n b] w1]| | |]; run; try done.
  cbn [fst]. destruct (0 <=? n); [done|]. rewrite alone_bind, alone_disconnect.
  destruct (SSHSession.disconnect s w1) as [[s2 w2]| | |]; run; try done.
  apply alone_reconnect_read.
Qed.
End Session.
End Session.

(** ** A function changed at one argument *)

Lemma fn_insert_insert {A} (f : Z → A) i x y : <[i := x]> (<[i := y]> f) = <[i := x]> f.
Proof.
  apply functional_extensionality. intros j. destruct (decide (i = j)) as [->|].
  - by rewrite !fn_lookup_insert.
  - by rewrite !fn_lookup_insert_ne.
Qed.

Lemma fn_insert_id {A} (f : Z → A) i : <[i := f i]> f = f.
Proof.
  apply functional_extensionality. intros j. destruct (decide (i = j)) as [->|].
  - by rewrite fn_lookup_insert.
  - by rewrite fn_lookup_insert_ne.
Qed.

(** ** UserFS::read, action by action

    The state is the session table, with the threads that are in the middle of an
    operation on it, and, for each host, what libssh and the network keep for the
    session with it: libssh documents that different sessions may be used in
    different threads.  The table holds pointers, so the use of a session is not an
    operation on the table.  [_hosts] and [_host_id] are only read; [me] is the number
    of the thread. *)

Module Reads.
Section Reads.
Context {W : Type} `{LibSSH W} `{BoostPath} `{LocalFiles}.
Context (_hosts : Hosts.t) (_host_id : Z) (me : nat).

Notation state := (accesses * (gmap Z SSHSession.t * (Z → W)))%type (only parsing).

(** An action that does not touch the state it shares. *)
Definition only {S A} (a : outcome A) : thread S A := atomically (λ x, r ← a; Ret (r, x)).

(** The session of a host, through the pointer the table holds. *)
Definition session (id : Z) : part state (SSHSession.t * W) := {|
  look '(_, (m, ws)) := match m !! id with Some s => Ret (s, ws id) | None => Undef Dangling end;
  put '(s, w) '(a, (m, ws)) := (a, (<[id := s]> m, <[id := w]> ws))
|}.

Definition find_host (id : Z) : thread state bool :=
  reading me (λ '(m, ws), Ret (SSHManager.findHost id m)).

(** [SSHManager::read] *)
Definition manager_read (id : Z) (path : bytes) (offset size : Z) : thread state (Z * bytes) :=
  found ⇐ find_host id;
  if (found : bool) then zoom (session id) (Session.read path offset size) else Done (-1, []).

(** [emplace] changes the table. *)
Definition insert_host (id : Z) : thread state bool :=
  h ⇐ only (Hosts.get _hosts id);
  changing (λ '(m, ws),
    let '(rtv, m) := SSHManager.insertHost id (Host.address h) (Host.ssh_port h) m in
    Ret (rtv, (m, ws))).

(** [read] once the session exists. *)
Definition read_tail (node_id : Z) (path : bytes) (offset size : Z)
    : thread state (Z * bytes) :=
  remote_path ⇐ only (
    h ← Hosts.get _hosts node_id;
    rel ← relative path;
    Ret (path_append (Host.working_dir h) rel));
  if node_id =? _host_id then
    only (
      let '(bad, buff) := ifstream_read (open_local remote_path) offset size in
      Ret (if (bad : bool) then -1 else len buff, buff))
  else manager_read node_id remote_path offset size.

Definition read (node_id : Z) (path : bytes) (offset size : Z) : thread state (Z * bytes) :=
  found ⇐ find_host node_id;
  rtv ⇐ (if negb found then insert_host node_id else Done false);
  if (rtv : bool) then Done (-1, []) else read_tail node_id path offset size.

Lemma session_ok id : part_ok (session id).
Proof.
  split.
  - intros [s w] y [a [m ws]]. simpl. by rewrite lookup_insert_eq, fn_lookup_insert.
  - intros [s w] [s' w'] [a [m ws]]. simpl. by rewrite insert_insert_eq, fn_insert_insert.
  - intros [s w] [a [m ws]]. simpl. destruct (m !! id) as [s'|] eqn:E; [|done]. intros [= -> <-].
    by rewrite insert_id, fn_insert_id.
Qed.

(** *** Alone, it is the function of Fuse *)

Lemma alone_find_host {B} id (k : bool → thread state B) m ws :
  alone (tbind (find_host id) k) (no_access, (m, ws)) =
  alone (k (SSHManager.findHost id m)) (no_access, (m, ws)).
Proof. unfold find_host. by rewrite alone_bind, alone_reading. Qed.

Lemma alone_manager_read id path offset size m ws :
  alone (manager_read id path offset size) (no_access, (m, ws)) =
  ('(n, b, m, w) ← SSHManager.read id path offset size m (ws id);
   Ret ((n, b), (no_access, (m, <[id := w]> ws)))).
Proof.
  unfold manager_read, SSHManager.read. rewrite alone_find_host. unfold SSHManager.findHost.
  destruct (m !! id) as [s|] eqn:E.
  2: { rewrite bool_decide_false by (by intros []). simpl. by rewrite fn_insert_id. }
  rewrite bool_decide_true by eauto.
  rewrite (alone_zoom (session id) (session_ok id) _ _ (s, ws id)) by (simpl; by rewrite E).
  rewrite Session.alone_session_read.
  by destruct (SSHSession.read path offset size s (ws id)) as [[[[n b] s'] w']| | |].
Qed.

Lemma alone_tail node_id path offset size n ws :
  Node._hosts n = _hosts → Node._host_id n = _host_id →
  alone (read_tail node_id path offset size) (no_access, (_ssh_manager n, ws)) =
  ('(r, b, n, w) ←
     (h ← Hosts.get (Node._hosts n) node_id;
      rel ← relative path;
      let remote_path := path_append (Host.working_dir h) rel in
      if node_id =? Node._host_id n then
        let '(bad, buff) := ifstream_read (open_local remote_path) offset size in
        if (bad : bool) then Ret (-1, buff, n, ws node_id) else Ret (len buff, buff, n, ws node_id)
      else
        '(r, buff, m, w) ← SSHManager.read node_id remote_path offset size (_ssh_manager n) (ws node_id);
        Ret (r, buff, set_ssh_manager m n, w));
   Ret ((r, b), (no_access, (_ssh_manager n, <[node_id := w]> ws)))).
Proof.
  intros Hh Hi. unfold read_tail, only. rewrite Hh, Hi, alone_bind, alone_atomically.
  destruct (Hosts.get _hosts node_id) as [h| | |]; run; try done.
  destruct (relative path) as [rel| | |]; run; try done. cbv zeta.
  destruct (node_id =? _host_id).
  - rewrite alone_atomically. destruct (ifstream_read _ _ _) as [[] b]; run; by rewrite fn_insert_id.
  - rewrite alone_manager_read.
    by destruct (SSHManager.read _ _ _ _ _ _) as [[[[r b] m] w]| | |].
Qed.

Lemma alone_userfs_read node_id path offset size n ws :
  Node._hosts n = _hosts → Node._host_id n = _host_id →
  alone (read node_id path offset size) (no_access, (_ssh_manager n, ws)) =
  ('(r, b, n, w) ← UserFS_read node_id path offset size n (ws node_id);
   Ret ((r, b), (no_access, (_ssh_manager n, <[node_id := w]> ws)))).
Proof.
  intros Hh Hi. unfold read, insert_host, UserFS_read, ensure_session.
  rewrite alone_find_host, alone_bind.
  destruct (SSHManager.findHost node_id (_ssh_manager n)); cbn [negb].
  { cbn [alone]. run. by apply alone_tail. }
  unfold only. rewrite alone_bind, alone_atomically, Hh.
  destruct (Hosts.get _hosts node_id) as [h| | |] eqn:Eh; run; try done.
  rewrite alone_changing.
  destruct (SSHManager.insertHost _ _ _ _) as [[] m]; run.
  { simpl. by rewrite fn_insert_id. }
  by apply (alone_tail node_id path offset size (set_ssh_manager m n)).
Qed.

(** *** When the session exists, it stays within what is its own *)

(** Whether this thread is in the middle of a lookup, the session of the host and the
    library's state for it; there is none of this during a change of the table. *)
Definition mine (id : Z) : part state (bool * (SSHSession.t * W)) := {|
  look '(a, (m, ws)) :=
    if writing a then Undef DataRace else
    match m !! id with
    | Some s => Ret (bool_decide (me ∈ readers a), (s, ws id))
    | None => Undef Dangling
    end;
  put '(b, (s, w)) '(a, (m, ws)) :=
    (mkAccesses (if (b : bool) then {[me]} ∪ readers a else readers a ∖ {[me]}) (writing a),
     (<[id := s]> m, <[id := w]> ws))
|}.

Definition its_session : part (bool * (SSHSession.t * W)) (SSHSession.t * W) := {|
  look '(_, x) := Ret x;
  put x '(b, _) := (b, x)
|}.

Definition known_find : thread (bool * (SSHSession.t * W)) bool :=
  _ ⇐ atomically (λ '(_, x), Ret (tt, (true, x)));
  atomically (λ '(_, x), Ret (true, (false, x))).

Definition known_read (node_id : Z) (path : bytes) (offset size : Z)
    : thread (bool * (SSHSession.t * W)) (Z * bytes) :=
  _ ⇐ known_find;
  remote_path ⇐ only (
    h ← Hosts.get _hosts node_id;
    rel ← relative path;
    Ret (path_append (Host.working_dir h) rel));
  if node_id =? _host_id then
    only (
      let '(bad, buff) := ifstream_read (open_local remote_path) offset size in
      Ret (if (bad : bool) then -1 else len buff, buff))
  else
    _ ⇐ known_find; zoom its_session (Session.read remote_path offset size).

(** The accesses with this thread's put back as they were. *)
Lemma accesses_same a :
  mkAccesses (if bool_decide (me ∈ readers a) then {[me]} ∪ readers a else readers a ∖ {[me]})
    (writing a) = a.
Proof.
  destruct a as [r b]. simpl. f_equal. apply set_eq. intros x.
  destruct (decide (x = me)) as [->|]; case_bool_decide; set_solver.
Qed.

Lemma look_mine id a m ws b s w :
  look (mine id) (a, (m, ws)) = Ret (b, (s, w)) →
  writing a = false ∧ m !! id = Some s ∧ ws id = w ∧ b = bool_decide (me ∈ readers a).
Proof.
  simpl. destruct (writing a); [done|]. destruct (m !! id) as [s'|]; [|done].
  intros E. by injection E as <- <- <-.
Qed.

Lemma mine_ok id : part_ok (mine id).
Proof.
  split.
  - intros [b [s w]] [b' [s' w']] [a [m ws]] (Ha & _)%look_mine. simpl. rewrite Ha.
    rewrite lookup_insert_eq, fn_lookup_insert. do 2 f_equal.
    destruct b; [apply bool_decide_eq_true_2|apply bool_decide_eq_false_2]; simpl; set_solver.
  - intros [b [s w]] [b' [s' w']] [a [m ws]]. simpl.
    rewrite insert_insert_eq, fn_insert_insert. do 2 f_equal. apply set_eq. intros x.
    destruct (decide (x = me)), b, b'; set_solver.
  - intros [b [s w]] [a [m ws]] (Ha & Hm & <- & ->)%look_mine. simpl.
    by rewrite accesses_same, insert_id, fn_insert_id.
Qed.

Lemma follows_only {A} id (a : outcome A) : follows (mine id) (only a) (only a).
Proof.
  apply follows_atomically. intros s x r x' L E. destruct a as [r'| | |]; try done.
  injection E as <- <-. by rewrite (put_look _ (mine_ok id)).
Qed.

Lemma follows_find {B} id (k : bool → thread state B) k' :
  follows (mine id) (k true) k' →
  follows (mine id) (tbind (find_host id) k) (tbind known_find (λ _, k')).
Proof.
  intros F. unfold find_host, known_find, reading. rewrite !tbind_assoc.
  apply follows_bind.
  { apply follows_atomically. intros [a [m ws]] [b [s w]] [] x' L E. injection E as <-.
    apply look_mine in L as (Ha & Hm & <- & ->). unfold begin_read. rewrite Ha. simpl.
    by rewrite Ha, insert_id, fn_insert_id. }
  intros _. constructor. intros [a [m ws]] [b [s w]] u x' L E. injection E as <- <-.
  apply look_mine in L as (Ha & Hm & <- & ->). exists (k true). split; [|done].
  simpl. unfold SSHManager.findHost. rewrite Hm, bool_decide_true by eauto.
  by rewrite insert_id, fn_insert_id.
Qed.

Lemma follows_read node_id path offset size :
  follows (mine node_id) (read node_id path offset size) (known_read node_id path offset size).
Proof.
  unfold read, known_read. apply follows_find. cbn [negb tbind]. unfold read_tail.
  apply follows_bind; [apply follows_only|]. intros file.
  destruct (node_id =? _host_id); [apply follows_only|].
  unfold manager_read. apply follows_find. apply follows_zoom.
  - intros [a [m ws]] [b [s w]] y L. simpl. intros [= <-].
    apply look_mine in L as (_ & -> & <- & _). done.
  - intros [a [m ws]] [b [s w]] [s' w'] (Ha & Hm & <- & ->)%look_mine. simpl.
    by rewrite accesses_same.
Qed.

(** Alone, it is [UserFS::read] as well. *)
Lemma alone_known_read node_id path offset size n s (w : W) r b n' w' :
  Node._hosts n = _hosts → Node._host_id n = _host_id → _ssh_manager n !! node_id = Some s →
  UserFS_read node_id path offset size n w = Ret (r, b, n', w') →
  ∃ s', alone (known_read node_id path offset size) (false, (s, w)) = Ret ((r, b), (false, (s', w'))) ∧
    _ssh_manager n' !! node_id = Some s'.
Proof.
  intros Hh Hi Hs E. unfold UserFS_read, ensure_session, SSHManager.findHost in E.
  rewrite bool_decide_true in E by eauto. cbn [negb] in E. rewrite bind_Ret, Hh, Hi in E.
  unfold known_read, known_find, only. rewrite !alone_bind, !alone_atomically. run.
  rewrite !alone_atomically. run. rewrite !alone_bind, !alone_atomically.
  destruct (Hosts.get _hosts node_id) as [h| | |]; try done.
  destruct (relative path) as [rel| | |]; try done. cbn [mbind outcome_bind] in E |- *.
  destruct (node_id =? _host_id).
  - exists s. rewrite alone_atomically.
    destruct (ifstream_read _ _ _) as [[] b0]; cbn [mbind outcome_bind]; by simplify_eq.
  - rewrite !alone_bind, !alone_atomically. cbn [mbind outcome_bind]. rewrite alone_atomically.
    cbn [mbind outcome_bind]. unfold SSHManager.read in E. rewrite Hs in E.
    assert (part_ok its_session) as Ok.
    { split; [by intros x y [c z]|by intros x y [c z]|]. intros x [c z]. by intros [= ->]. }
    rewrite (alone_zoom its_session Ok _ _ (s, w)), Session.alone_session_read by done.
    destruct (SSHSession.read _ offset size s w) as [[[[n0 b0] s0] w0]| | |]; try done.
    cbn [mbind outcome_bind] in E |- *. simplify_eq/=. exists s0. by rewrite lookup_insert_eq.
Qed.
End Reads.

Lemma mine_separate {W : Type} i j me me' :
  i ≠ j → me ≠ me' → separate (mine (W := W) me i) (mine (W := W) me' j).
Proof.
  intros Hij Hm. split; intros [b [s w]] [a [m ws]]; simpl; destruct (writing a); try done;
    rewrite lookup_insert_ne, fn_lookup_insert_ne by done;
    (destruct (m !! _); [|done]); do 2 f_equal; apply bool_decide_ext; destruct b; set_solver.
Qed.
End Reads.

(** ** Reads through two hosts *)

Section TwoHosts.
Context {W : Type} `{LibSSH W} `{BoostPath} `{LocalFiles}.

(** C18: two threads that read files of different hosts at the same time, both of which
    have a session already, do not disturb each other, although no lock is taken: under
    every schedule of their actions there is no data race and neither fails, and under
    every schedule that gives both enough turns each ends with the result, the session
    and the library state that [UserFS::read] gives it alone.  Without the sessions this
    does not hold, see [first_read_races]. *)
Theorem concurrent_reads_of_two_hosts i j path1 path2 off1 off2 size1 size2 n (ws : Z → W)
    r1 b1 n1 w1 r2 b2 n2 w2 :
  i ≠ j → is_Some (_ssh_manager n !! i) → is_Some (_ssh_manager n !! j) →
  UserFS_read i path1 off1 size1 n (ws i) = Ret (r1, b1, n1, w1) →
  UserFS_read j path2 off2 size2 n (ws j) = Ret (r2, b2, n2, w2) →
  let t1 := Reads.read (_hosts n) (_host_id n) 1 i path1 off1 size1 in
  let t2 := Reads.read (_hosts n) (_host_id n) 2 j path2 off2 size2 in
  let s := (no_access, (_ssh_manager n, ws)) in
  (∀ schedule, ∃ x, race schedule t1 t2 s = Ret x) ∧
  ∃ k, ∀ schedule, (k <= turns true schedule)%nat → (k <= turns false schedule)%nat →
    ∃ a m' ws', race schedule t1 t2 s = Ret (Done (r1, b1), Done (r2, b2), (a, (m', ws'))) ∧
      m' !! i = _ssh_manager n1 !! i ∧ ws' i = w1 ∧
      m' !! j = _ssh_manager n2 !! j ∧ ws' j = w2.
Proof.
  intros Hij [s1 H1'] [s2 H2'] E1 E2 t1 t2 s.
  destruct (Reads.alone_known_read (_hosts n) (_host_id n) i _ _ _ n s1 _ _ _ _ _ eq_refl eq_refl H1' E1)
    as (s1' & A1 & M1).
  destruct (Reads.alone_known_read (_hosts n) (_host_id n) j _ _ _ n s2 _ _ _ _ _ eq_refl eq_refl H2' E2)
    as (s2' & A2 & M2).
  destruct (race_separate_alone _ _ (Reads.mine_ok 1 i) (Reads.mine_ok 2 j)
    (Reads.mine_separate i j 1 2 Hij ltac:(done)) t1 _ t2 _ s (false, (s1, ws i)) (false, (s2, ws j))
    _ _ _ _ (Reads.follows_read _ _ 1 i _ _ _) (Reads.follows_read _ _ 2 j _ _ _)
    ltac:(simpl; by rewrite H1') ltac:(simpl; by rewrite H2') A1 A2) as [Safe [k Hk]].
  split; [exact Safe|]. exists k. intros schedule T1 T2.
  destruct (Hk schedule T1 T2) as ([a [m' ws']] & -> & L1 & L2).
  apply Reads.look_mine in L1 as (_ & L1 & <- & _), L2 as (_ & L2 & <- & _).
  exists a, m', ws'. by rewrite L1, L2, M1, M2.
Qed.
End TwoHosts.

(** ** Reads through one session *)

(** What libssh documents of an open file: it has one position, [sftp_seek64] sets
    it and [sftp_read] reads from it. *)
Class SftpFiles (W : Type) `{LibSSH W} := {
  contents : handle → W → bytes;
  position : handle → W → Z;
  seek_position f offset w w' :
    sftp_seek64 f offset w = (0, w') → position f w' = offset ∧ contents f w' = contents f w;
  read_at_position f size w n b w' :
    sftp_read f size w = ((n, b), w') → 0 <= n →
    b `prefix_of` drop (Z.to_nat (position f w)) (contents f w)
}.

Section OneHost.
Context {W : Type} `{LibSSH W}.

(** A call on a handle, and what follows. *)
Lemma act_call {A B} p (g : handle → W → A * W) (k : A → thread _ B) s w h a w' :
  p s = Handle h → g h w = (a, w') →
  act (tbind (Session.call p g) k) (s, w) = Ret (k a, (s, w')).
Proof. intros Ep Eg. unfold Session.call. rewrite act_then. rewrite Ep. simpl. by rewrite Eg. Qed.

(** [read] of the open file up to the result of [sftp_seek64]. *)
Lemma acts_read path offset size s f (w w' : W) e :
  connected path s → SSHSession._file_handle s = Handle f → sftp_seek64 f offset w = (e, w') →
  acts 2 (Session.read path offset size) (s, w) =
  Ret ((r ⇐ (if negb (e =? 0) then Done (-1, []) else
             Session.call SSHSession._file_handle (λ f, sftp_read f size));
        if 0 <=? r.1 then Done r else _ ⇐ Session.disconnect;
        Session.reconnect_read path offset size), (s, w')).
Proof.
  intros (_ & [h E] & _ & Ep) Ef Es. unfold Session.read. cbn [acts]. turn.
  rewrite decide_True by done. rewrite E. cbn [value]. run. rewrite bool_decide_true by eauto. run.
  unfold Session.do_read. rewrite tbind_assoc. by erewrite act_call by done.
Qed.

(** The first three statements of [disconnect]. *)
Lemma acts_disconnect {B} (k : unit → thread _ B) s (w : W) f :
  SSHSession._file_handle s = Handle f →
  ∃ t s', acts 3 (tbind Session.disconnect k) (s, w) = Ret (t, (s', sftp_close f w)) ∧
    SSHSession._file_handle s' = Null.
Proof.
  intros Ef. unfold Session.disconnect, Session.member, Session.call_if, SSHSession.if_set.
  cbn [acts]. turn. turn. cbn [SSHSession._file_handle SSHSession.set_file_open]. rewrite Ef.
  cbn [value]. run. turn. by do 2 eexists.
Qed.

(** C36: two threads that read the same open file of a peer share its position and
    its handle.  If the second seeks between the seek and the read of the first, the
    first returns the bytes at the second's offset as its own; if the second finds
    the connection broken there, the first passes a null handle to libssh. *)
Theorem concurrent_reads_of_one_file `{!SftpFiles W} path off1 size1 off2 size2 s f (w w1 w2 : W) e :
  connected path s → SSHSession._file_handle s = Handle f →
  sftp_seek64 f off1 w = (0, w1) → sftp_seek64 f off2 w1 = (e, w2) →
  let t1 := Session.read path off1 size1 in
  let t2 := Session.read path off2 size2 in
  (∀ n b w3, e = 0 → sftp_read f size1 w2 = ((n, b), w3) → 0 <= n →
    ∃ t2', race [true; true; false; false; true] t1 t2 (s, w) = Ret (Done (n, b), t2', (s, w3)) ∧
      b `prefix_of` drop (Z.to_nat off2) (contents f w)) ∧
  (e ≠ 0 →
    race [true; true; false; false; false; false; false; true] t1 t2 (s, w) = Undef NullDeref).
Proof.
  intros Hc Ef E1 E2 t1 t2. subst t1 t2.
  destruct (seek_position _ _ _ _ E1) as [_ C1]. split.
  - intros n b w3 -> E3 Hn. destruct (seek_position _ _ _ _ E2) as [P2 C2].
    rewrite (race_first 2 [false; false; true] _ _ _ _ _ (acts_read _ _ size1 _ _ _ _ _ Hc Ef E1)).
    rewrite (race_second 2 [true] _ _ _ _ _ (acts_read _ _ size2 _ _ _ _ _ Hc Ef E2)).
    cbn [race negb Z.eqb]. erewrite act_call by done. run. cbn [fst].
    rewrite (proj2 (Z.leb_le _ _) Hn).
    eexists. split; [done|]. rewrite <- C1, <- C2, <- P2. by eapply read_at_position.
  - intros He.
    rewrite (race_first 2 (replicate 5 false ++ [true]) _ _ _ _ _
      (acts_read _ _ size1 _ _ _ _ _ Hc Ef E1)).
    rewrite (race_second 2 (replicate 3 false ++ [true]) _ _ _ _ _
      (acts_read _ _ size2 _ _ _ _ _ Hc Ef E2)).
    rewrite (proj2 (Z.eqb_neq _ _) He). cbn [negb fst tbind].
    destruct (acts_disconnect (λ _, Session.reconnect_read path off2 size2) s w2 f Ef)
      as (t & s' & E & En).
    change (0 <=? -1) with false. cbv iota. rewrite (race_second 3 [true] _ _ _ _ _ E).
    cbn [race negb Z.eqb]. unfold Session.call. turn. by rewrite En.
Qed.

(** C40: the first read from a host inserts its session into the table without a lock.
    Whatever other read, of whatever host, looks into the table during the insertion, or
    is looking into it when the insertion begins, that is a data race. *)
Theorem first_read_races `{BoostPath} `{LocalFiles} hosts host_id i j h
    path1 path2 off1 off2 size1 size2 m (ws : Z → W) :
  m !! i = None → Hosts.get hosts i = Ret h →
  let t1 := Reads.read hosts host_id 1 i path1 off1 size1 in
  let t2 := Reads.read hosts host_id 2 j path2 off2 size2 in
  race [true; true; true; true; false] t1 t2 (no_access, (m, ws)) = Undef DataRace ∧
  race [true; true; true; false; true] t1 t2 (no_access, (m, ws)) = Undef DataRace.
Proof.
  intros Hm Hh t1 t2.
  assert (SSHManager.findHost i m = false) as Ef.
  { unfold SSHManager.findHost. rewrite Hm. apply bool_decide_false. by intros []. }
  assert (∃ k, acts 3 t1 (no_access, (m, ws)) =
    Ret (tbind (changing (λ '(m, ws),
      let '(rtv, m) := SSHManager.insertHost i (Host.address h) (Host.ssh_port h) m in
      Ret (rtv, (m, ws)))) k, (no_access, (m, ws)))) as [k A].
  { unfold t1, Reads.read, Reads.find_host.
    rewrite (acts_reading 1 _ _ (m, ws) false 1) by (by rewrite Ef). cbn [negb].
    unfold Reads.insert_host, Reads.only. rewrite tbind_assoc. cbn [acts]. rewrite act_then, Hh. run.
    by eexists. }
  split.
  - rewrite (race_first 3 [true; false] _ _ _ _ _ A). cbn [race]. unfold changing. turn.
    unfold begin_write. simpl. by rewrite bool_decide_eq_true_2.
  - rewrite (race_first 3 [false; true] _ _ _ _ _ A). cbn [race].
    assert (∃ u, act t2 (no_access, (m, ws)) = Ret (u, (mkAccesses ({[2%nat]} ∪ ∅) false, (m, ws))))
      as [u ->] by (by eexists). rewrite bind_Ret, act_changing_race; [done|]. right. simpl. set_solver.
Qed.

(** Even when their operations on the table do not overlap: if two threads look for the
    session of the same host before either has inserted it, the second insertion fails
    and the second read returns -1 without having tried the peer. *)
Theorem concurrent_first_reads `{BoostPath} `{LocalFiles} hosts host_id i h
    path1 path2 off1 off2 size1 size2 m (ws : Z → W) :
  m !! i = None → Hosts.get hosts i = Ret h →
  race [true; true; false; false; true; true; true; false; false; false]
    (Reads.read hosts host_id 1 i path1 off1 size1)
    (Reads.read hosts host_id 2 i path2 off2 size2) (no_access, (m, ws)) =
  Ret (Reads.read_tail hosts host_id 1 i path1 off1 size1, Done (-1, []),
       (no_access, (<[i := SSHSession.create (Host.address h) (Host.ssh_port h)]> m, ws))).
Proof.
  intros Hm Hh.
  assert (SSHManager.findHost i m = false) as Ef.
  { unfold SSHManager.findHost. rewrite Hm. apply bool_decide_false. by intros []. }
  unfold Reads.read, Reads.find_host.
  erewrite (race_first 2 [false; false; true; true; true; false; false; false])
    by (rewrite (acts_reading 1 _ _ (m, ws) false 0) by (by rewrite Ef); reflexivity).
  erewrite (race_second 2 [true; true; true; false; false; false])
    by (rewrite (acts_reading 2 _ _ (m, ws) false 0) by (by rewrite Ef); reflexivity).
  cbn [negb].
  assert (∀ {B} (k : bool → thread (accesses * (gmap Z SSHSession.t * (Z → W))) B) m1 rtv m2,
    SSHManager.insertHost i (Host.address h) (Host.ssh_port h) m1 = (rtv, m2) →
    acts 3 (tbind (Reads.insert_host hosts i) k) (no_access, (m1, ws)) =
    Ret (k rtv, (no_access, (m2, ws)))) as Ins.
  { intros B k m1 rtv m2 E. unfold Reads.insert_host, Reads.only. rewrite tbind_assoc.
    match goal with |- acts 3 ?t ?x = _ => change (acts 3 t x) with ('(u, y) ← act t x; acts 2 u y) end.
    rewrite act_then, Hh. run.
    apply (acts_changing _ _ (m1, ws) rtv (m2, ws) 0). by rewrite E. }
  rewrite (race_first 3 [false; false; false] _ _ _ _ _ (Ins _ _ m false
    (<[i := SSHSession.create (Host.address h) (Host.ssh_port h)]> m)
    ltac:(unfold SSHManager.insertHost; by rewrite Hm))).
  by rewrite (race_second 3 [] _ _ _ _ _ (Ins _ _ _ true
    (<[i := SSHSession.create (Host.address h) (Host.ssh_port h)]> m)
    ltac:(unfold SSHManager.insertHost; by rewrite lookup_insert_eq))).
Qed.
End OneHost.

(** ** A library whose files have a position, and the mounted master *)

Section ReadWitnesses.
Import ExampleGroup ExamplePath ExampleRun.

#[local] Existing Instance example_files.

#[export, program] Instance example_sftp : SftpFiles ExampleSSH.world := {|
  contents _ w := ExampleSSH.content w;
  position _ w := ExampleSSH.pos w
|}.
Next Obligation. intros f offset w w' E. simpl in E. by injection E as <-. Qed.
Next Obligation.
  intros f size w n b w' E _. simpl in E. injection E as <- <- <-.
  unfold ExampleSSH.chunk. apply prefix_take.
Qed.

(** Peers that can be reached, with files of their own. *)
Definition peers (i : Z) : ExampleSSH.world :=
  if i =? 2 then ExampleSSH.online else ExampleSSH.mk true (str "Another file.") 0 [] 0.

(** The master's sessions with hosts 2 and 3. *)
Definition two_peers : Node.t :=
  set_hosts [master_host; master_host; Host.set_id 2 slave_host; Host.set_id 3 slave_host]
    (set_ssh_manager {[2 := ExampleSSH.idle; 3 := ExampleSSH.idle]} listening).

Lemma concurrent_reads_of_two_hosts_witness :
  ∃ k, ∀ schedule, (k <= turns true schedule)%nat → (k <= turns false schedule)%nat →
    ∃ x, race schedule
        (Reads.read (_hosts two_peers) (_host_id two_peers) 1 2 (str "/f") 5 2)
        (Reads.read (_hosts two_peers) (_host_id two_peers) 2 3 (str "/g") 0 7)
        (no_access, (_ssh_manager two_peers, peers)) =
      Ret (Done (2, str "is"), Done (7, str "Another"), x).
Proof.
  assert (∃ n1 w1, UserFS_read 2 (str "/f") 5 2 two_peers (peers 2) = Ret (2, str "is", n1, w1))
    as (n1 & w1 & E1) by (do 2 eexists; vm_compute; reflexivity).
  assert (∃ n2 w2, UserFS_read 3 (str "/g") 0 7 two_peers (peers 3) =
      Ret (7, str "Another", n2, w2))
    as (n2 & w2 & E2) by (do 2 eexists; vm_compute; reflexivity).
  destruct (concurrent_reads_of_two_hosts 2 3 (str "/f") (str "/g") 5 0 2 7 two_peers peers
    _ _ _ _ _ _ _ _ ltac:(done) ltac:(by eexists) ltac:(by eexists) E1 E2) as [_ [k Hk]].
  exists k. intros schedule H1 H2. destruct (Hk schedule H1 H2) as (a & m' & ws' & E & _).
  by exists (a, (m', ws')).
Defined.

(** An open file. *)
Definition opened : SSHSession.t :=
  SSHSession.mk (str "10.0.0.2") 22 (Handle 0) (Handle 1) (Handle 2) (str "/w/f").

Lemma concurrent_reads_of_one_file_witness :
  ∃ t2 x, race [true; true; false; false; true]
      (Session.read (str "/w/f") 0 4) (Session.read (str "/w/f") 8 6)
      (opened, ExampleSSH.online) = Ret (Done (4, str "mast"), t2, x).
Proof.
  destruct (concurrent_reads_of_one_file (str "/w/f") 0 4 8 6 opened 2 ExampleSSH.online
    ExampleSSH.online (ExampleSSH.mk true (str "This is master file3.") 0 [] 8) 0) as [E _].
  - split_and!; try done; by eexists.
  - done.
  - done.
  - done.
  - destruct (E 4 (str "mast") (ExampleSSH.mk true (str "This is master file3.") 0 [] 8))
      as (t2 & R & _); [done|done|done|]. by exists t2, (opened, ExampleSSH.mk true (str "This is master file3.") 0 [] 8).
Defined.

Lemma first_read_races_witness :
  race [true; true; true; true; false]
      (Reads.read (_hosts two_peers) 1 1 2 (str "/f") 0 4)
      (Reads.read (_hosts two_peers) 1 2 3 (str "/g") 0 7) (no_access, (∅, peers)) = Undef DataRace.
Proof.
  apply (first_read_races (_hosts two_peers) 1 2 3 (Host.set_id 2 slave_host)); reflexivity.
Defined.

Lemma concurrent_first_reads_witness :
  ∃ t1 x, race [true; true; false; false; true; true; true; false; false; false]
      (Reads.read (_hosts two_peers) 1 1 2 (str "/f") 0 4)
      (Reads.read (_hosts two_peers) 1 2 2 (str "/f") 4 4) (no_access, (∅, peers)) =
    Ret (t1, Done (-1, []), x).
Proof.
  do 2 eexists.
  apply (concurrent_first_reads (_hosts two_peers) 1 2 (Host.set_id 2 slave_host)); reflexivity.
Defined.
End ReadWitnesses.
