(* ===== verification/Listing.v ===== *)
(** * Listing the root while the tree changes

    [FUSEInterface::readdir] iterates over a [std::set] that the network thread may
    change at any moment: the lock was released when [find] returned.  The root
    itself never ends, but its elements do.  Here the loop is a thread (Threads)
    whose actions are the uses of its iterator, over the objects of Objects; so is
    the network thread, which inserts and erases element by element.  An operation
    on the set is a [reading] or a [changing] of Threads.  Alone the loop is
    [readdir] of Fuse and the network thread does the edits of Objects; together
    they race. *)

From S2P Require Import Prelude StdSet Archive Path DirTree Objects Host Packet Ssh.
From S2P Require Import TcpMessager MasterLoop UserFs Group Fuse Lifetime Threads.

(** ** The loop *)

(** An iterator into the children of the root is the identity of an element, or
    [None] for [end()]. *)
Definition begin_ (st : store) : option nat := Object.id <$> head (Object.elements (tree st)).

(** [*i] and [++i] *)
Definition element (p : nat) (st : store) : outcome Object.t :=
  match list_find (λ o, Object.id o = p) (Object.elements (tree st)) with
  | Some (_, o) => Ret o
  | None => Undef Dangling
  end.

Definition following (p : nat) (st : store) : outcome (option nat) :=
  match list_find (λ o, Object.id o = p) (Object.elements (tree st)) with
  | Some (i, _) => Ret (Object.id <$> Object.elements (tree st) !! S i)
  | None => Undef Dangling
  end.

Section Threads.
Context (me : nat).

(** [for (const auto& i: node->children) filler(buf, i.name.c_str(), 0, 0)], with
    the names handed to [filler] so far; [None] when the fuel is used up.  [begin()]
    and [++i] are operations on the set, [*i] is an access to an element. *)
Fixpoint listing (fuel : nat) (names : list bytes) (i : option nat)
    : thread (accesses * store) (option (list bytes)) :=
  match i, fuel with
  | None, _ => Done (Some names)
  | Some _, O => Done None
  | Some p, S fuel =>
      name ⇐ atomically (λ '(a, st), o ← element p st; Ret (c_str (Object.name o), (a, st)));
      i ⇐ reading me (following p);
      listing fuel (names ++ [name]) i
  end.

Definition readdir_root (fuel : nat) : thread (accesses * store) (option (list bytes)) :=
  i ⇐ reading me (λ st, Ret (begin_ st)); listing fuel [] i.
End Threads.

(** ** The network thread *)

(** [_root->children.insert(treenode)] and [_root->children.erase(ite)] *)
Definition insert_object (o : Object.t) (st : store) : store :=
  set_root_elements (next st) (set_insert Object.name o (Object.elements (tree st))) st.

Definition erase_object (o : Object.t) (st : store) : store :=
  set_root_elements (next st)
    (filter (λ x, Object.id x ≠ Object.id o) (Object.elements (tree st))) st.

Fixpoint insert_each (es : list Object.t) : thread (accesses * store) unit :=
  match es with
  | [] => Done tt
  | o :: es => _ ⇐ changing (λ st, Ret (tt, insert_object o st)); insert_each es
  end.

(** The loop of [removeOf] and [removeNotOf] over the elements; only this thread
    changes them. *)
Fixpoint erase_each (f : Object.t → bool) (es : list Object.t) : thread (accesses * store) unit :=
  match es with
  | [] => Done tt
  | o :: es =>
      if f o then _ ⇐ changing (λ st, Ret (tt, erase_object o st)); erase_each f es
      else erase_each f es
  end.

(** The copies that [merge] inserts. *)
Definition construct_objects (s : TreeNode.t) : thread (accesses * store) (list Object.t) :=
  atomically (λ '(a, st),
    let '(es, k) := Object.construct_all (TreeNode.children s) (next st) in
    Ret (es, (a, mkStore k (tree st)))).

Definition erasing (f : Object.t → bool) : thread (accesses * store) unit :=
  es ⇐ atomically (λ '(a, st), Ret (Object.elements (tree st), (a, st))); erase_each f es.

Definition network (e : edit) : thread (accesses * store) unit :=
  match e with
  | Merge s => es ⇐ construct_objects s; insert_each es
  | RemoveOf i => erasing (λ o, Object.host_id o =? i)
  | RemoveNotOf i => erasing (λ o, negb (Object.host_id o =? i))
  | Assign s => changing (λ st, Ret (tt, assign_objects s st))
  end.

(** ** Elements *)

Lemma root_ids st : store_ok st → NoDup (map Object.id (Object.elements (tree st))).
Proof.
  intros [N _]. rewrite Object.ids_eq in N. apply NoDup_cons in N as [_ N].
  induction (Object.elements (tree st)) as [|o es IH]; [constructor|]. simpl in *.
  apply NoDup_app in N as (_ & D & N). constructor; [|by apply IH].
  intros C. apply list_elem_of_fmap in C as (e & E & He).
  apply (D (Object.id o)); [rewrite Object.ids_eq; by left|].
  apply list_elem_of_bind. exists e. split; [|done]. rewrite E, Object.ids_eq. by left.
Qed.

Lemma find_element st p i o :
  store_ok st → Object.elements (tree st) !! i = Some o → Object.id o = p →
  list_find (λ o, Object.id o = p) (Object.elements (tree st)) = Some (i, o).
Proof.
  intros N%root_ids Ho Hp. apply list_find_Some. split_and!; [done..|].
  intros j o' Hj Hlt Hid.
  assert (i = j); [|lia]. eapply (NoDup_lookup _ i j p N);
    change (map Object.id) with (fmap Object.id : list Object.t → list nat);
    rewrite list_lookup_fmap; [rewrite Ho|rewrite Hj]; simpl; congruence.
Qed.

(** ** Alone, the network thread does the edits of Objects *)

Lemma alone_insert_each es st :
  alone (insert_each es) (no_access, st) =
  Ret (tt, (no_access, set_root_elements (next st)
    (set_insert_all Object.name es (Object.elements (tree st))) st)).
Proof.
  revert st. induction es as [|o es IH]; intros st; [by destruct st as [k []]|].
  cbn [insert_each]. rewrite alone_bind, alone_changing. run. rewrite IH. done.
Qed.

Lemma filter_other (o : Object.t) l :
  Object.id o ∉ map Object.id l → filter (λ x, Object.id x ≠ Object.id o) l = l.
Proof.
  induction l as [|x l IH]; [done|]. intros [Hx Hl]%not_elem_of_cons.
  rewrite filter_cons_True by done. by rewrite IH.
Qed.

Lemma alone_erase_each f es kept st :
  Object.elements (tree st) = kept ++ es → NoDup (map Object.id (kept ++ es)) →
  alone (erase_each f es) (no_access, st) =
  Ret (tt, (no_access, set_root_elements (next st) (kept ++ erase_where f es) st)).
Proof.
  revert kept st. induction es as [|o es IH]; intros kept st E N.
  { simpl. rewrite app_nil_r in *. rewrite <- E. by destruct st as [k []]. }
  cbn [erase_each erase_where]. destruct (f o).
  - rewrite alone_bind, alone_changing. run. rewrite map_app in N. cbn [map] in N.
    assert (Object.elements (tree (erase_object o st)) = kept ++ es) as E'.
    { apply NoDup_app in N as (_ & D & [No _]%NoDup_cons). simpl. rewrite E.
      rewrite filter_app, filter_cons_False by (by intros C; apply C).
      rewrite !filter_other; [done|done|]. intros C. apply (D _ C). by left. }
    rewrite (IH kept _ E'); [done|].
    rewrite map_app. apply NoDup_app in N as (N1 & D & [_ N2]%NoDup_cons). apply NoDup_app.
    split_and!; [done| |done]. intros x Hx C. apply (D x Hx). by right.
  - change (o :: ?l) with ([o] ++ l) in *. rewrite (assoc_L (++)) in *. by apply IH.
Qed.

Lemma alone_network e st :
  store_ok st → alone (network e) (no_access, st) = Ret (tt, (no_access, edit_store e st)).
Proof.
  intros S.
  assert (∀ f, alone (erasing f) (no_access, st) = Ret (tt, (no_access,
    set_root_elements (next st) (erase_where f (Object.elements (tree st))) st))) as Er.
  { intros f. unfold erasing. rewrite alone_bind, alone_atomically. run.
    rewrite (alone_erase_each f _ []); [done|done|]. by apply root_ids. }
  destruct e as [s|i|i|s]; cbn [network edit_store].
  - unfold construct_objects, merge_objects. rewrite alone_bind, alone_atomically.
    destruct (Object.construct_all _ _) as [es k]. run. by rewrite alone_insert_each.
  - apply Er.
  - apply Er.
  - by rewrite alone_changing.
Qed.

(** ** Alone, the loop is [readdir] of Fuse *)

Lemma alone_listing me st k : store_ok st → ∀ fuel names,
  (length (Object.elements (tree st)) <= k + fuel)%nat →
  alone (listing me fuel names (Object.id <$> Object.elements (tree st) !! k)) (no_access, st) =
  Ret (Some (names ++ map c_str (map Object.name (drop k (Object.elements (tree st))))),
       (no_access, st)).
Proof.
  intros S fuel. revert k. induction fuel as [|fuel IH]; intros k names L.
  - rewrite (proj2 (lookup_ge_None _ k)), drop_ge by lia. simpl. by rewrite app_nil_r.
  - destruct (Object.elements (tree st) !! k) as [o|] eqn:Ho.
    + cbn [fmap option_fmap option_map listing].
      rewrite alone_bind, alone_atomically. unfold element.
      rewrite (find_element st _ k o S Ho eq_refl). run.
      rewrite alone_bind, alone_reading. unfold following.
      rewrite (find_element st _ k o S Ho eq_refl). run.
      rewrite IH by lia. rewrite (drop_S _ o k Ho). simpl. by rewrite <- app_assoc.
    + apply lookup_ge_None in Ho. rewrite drop_ge by done. simpl. by rewrite app_nil_r.
Qed.

Lemma alone_readdir_root me st fuel :
  store_ok st → TreeNode.type (Object.value (tree st)) = DIRECTORY →
  (length (Object.elements (tree st)) <= fuel)%nat →
  ∃ names, alone (readdir_root me fuel) (no_access, st) = Ret (Some names, (no_access, st)) ∧
    FUSEInterface.readdir_node (Object.value (tree st)) = Ret (0, names).
Proof.
  intros S T L. unfold readdir_root. rewrite alone_bind, alone_reading. run.
  pose proof (alone_listing me st 0 S fuel [] L) as E.
  assert (begin_ st = Object.id <$> Object.elements (tree st) !! 0%nat) as ->.
  { unfold begin_. by destruct (Object.elements (tree st)). }
  rewrite E. eexists. split; [reflexivity|]. unfold FUSEInterface.readdir_node.
  rewrite T, decide_False by (intros C; by apply C). rewrite Object.children_value.
  simpl. rewrite drop_0, !map_map. do 2 f_equal. apply map_ext. intros o.
  by rewrite Object.name_value.
Qed.

(** ** Properties *)

(** The network thread alone, in so many actions. *)
Lemma acts_network e st :
  store_ok st → ∃ k, acts k (network e) (no_access, st) = Ret (Done tt, (no_access, edit_store e st)).
Proof.
  intros S. destruct (alone_acts _ _ _ _ (alone_network e st S)) as (k & _ & F).
  exists k. by apply F.
Qed.

(** C39: a listing of the root uses the set of its children without the lock.  When a
    slave joins and its first file is inserted while the listing is in [begin()], that is
    a data race.  And even if no operations overlap: when the network thread has taken
    the element the iterator is at out of the set (the slave that owns it has left; on a
    slave, any update), the next use of the iterator is undefined, before the name is
    read as well as before the increment. *)
Theorem root_listing_races me st fuel :
  store_ok st →
  (∀ s, TreeNode.children s ≠ [] →
    race [true; false; false] (readdir_root me fuel) (network (Merge s)) (no_access, st) =
    Undef DataRace) ∧
  ∀ o e names, o ∈ Object.elements (tree st) → keeps (Object.host_id o) e = false →
    let loop := listing me (S fuel) names (Some (Object.id o)) in
    ∃ k,
      race (replicate k false ++ [true]) loop (network e) (no_access, st) = Undef Dangling ∧
      race (true :: replicate k false ++ [true; true]) loop (network e) (no_access, st) =
        Undef Dangling.
Proof.
  intros S. split.
  - intros s Hs. unfold readdir_root, network, construct_objects, reading, begin_read.
    cbn -[union difference Object.construct_all].
    destruct (Object.construct_all (TreeNode.children s) (next st)) as [es k] eqn:Ec.
    assert (es ≠ []) as Hes.
    { destruct (Object.construct_all_spec (TreeNode.children s) (next st)) as [V _].
      rewrite Ec in V. simpl in V. intros ->. by rewrite <- V in Hs. }
    destruct es as [|o es]; [done|]. cbn -[union difference].
    unfold begin_write. cbn -[union difference].
    rewrite bool_decide_eq_false_2 by set_solver. done.
  - intros o e names Ho K loop. destruct (acts_network e st S) as [k A]. exists k.
    assert (under o o st) as U by (split; [done|rewrite Object.objects_eq; by left]).
    pose proof (edit_store_ends e o o st K S U) as [_ D].
    assert (list_find (λ o', Object.id o' = Object.id o)
      (Object.elements (tree (edit_store e st))) = None) as Gone.
    { apply list_find_None, Forall_forall. intros o' Ho' E. apply D. rewrite <- E.
      eapply Object.id_ids, under_objects. split; [exact Ho'|rewrite Object.objects_eq; by left]. }
    pose proof Ho as Hl. apply list_elem_of_lookup in Hl as [i Hi]. split.
    + rewrite (race_second k [true] _ _ _ _ _ A). subst loop. cbn [race listing].
      rewrite act_then. unfold element. by rewrite Gone.
    + subst loop. cbn [race listing]. rewrite act_then. unfold element.
      rewrite (find_element st _ i o S Hi eq_refl). run.
      rewrite (race_second k [true; true] _ _ _ _ _ A). unfold reading, begin_read.
      cbn -[union difference following]. unfold following. by rewrite Gone.
Qed.

(** ** A concrete listing *)

Section ListingWitnesses.

Definition quiet_store : store := store_of ExampleTree.master.

Definition newcomers : TreeNode.t := TreeNode.setHostID 2 ExampleTree.standby1.

Lemma store_of_ok r : store_ok (store_of r).
Proof.
  unfold store_of, store_ok. destruct (Object.construct_copied r 0%nat) as [_ (_ & N & F)].
  destruct (Object.construct r 0%nat) as [o k]. simpl in *. split; [done|].
  eapply Forall_impl; [exact F|]. simpl. lia.
Qed.

(** A join at the start of the listing, and the leave of host 2 with the iterator at
    its file. *)
Lemma root_listing_races_witness :
  race [true; false; false] (readdir_root 1 4) (network (Merge newcomers))
    (no_access, quiet_store) = Undef DataRace ∧
  ∃ o k, race (replicate k false ++ [true]) (listing 1 5 [] (Some (Object.id o)))
    (network (RemoveOf 2)) (no_access, edit_store (Merge newcomers) quiet_store) = Undef Dangling.
Proof.
  split.
  - apply (proj1 (root_listing_races 1 quiet_store 4 (store_of_ok _))). done.
  - destruct (Object.elements (tree (edit_store (Merge newcomers) quiet_store)) !! 3%nat) as [o|] eqn:Eo;
      [|discriminate Eo].
    destruct (proj2 (root_listing_races 1 (edit_store (Merge newcomers) quiet_store) 4
      (edit_store_ok _ _ (store_of_ok _))) o (RemoveOf 2) []) as (k & E & _).
    + by eapply list_elem_of_lookup_2.
    + vm_compute in Eo. injection Eo as <-. vm_compute. reflexivity.
    + exists o, k. exact E.
Defined.
End ListingWitnesses.
