(* ===== verification/HostRace.v ===== *)
(** * Reads while the host table changes

    [UserFS::read] looks at [_hosts] without [_access], and the network thread
    adds hosts ([newConnection]) or replaces the table ([slaveRecognized],
    [updateInfo]) at the same time.  [operator[]] returns a reference into the
    storage of a [std::vector], and [read] keeps two of them for a while: the
    address that is passed on to [insertHost] and copied there, and the working
    directory a path is constructed from.  So the table is here a vector with
    its capacity and the storage it is in ([Vector]), and a reference names the
    storage it points into; operations on the vector are [reading] and [changing]
    of Threads, so that those that overlap with a change are data races.  Even
    without an overlap, a join that makes the vector grow, or an update, in between
    the two halves of a use leaves a dangling reference. *)

From S2P Require Import Prelude BytesOrder StdSet Archive Path DirTree Host Packet Ssh.
From S2P Require Import TcpMessager MasterLoop UserFs Group Fuse Threads ConcurrentReads.
Import Node.

(** ** std::vector<Host> *)

Module Vector.

Record t := mk {
  elems : list Host.t;
  capacity : nat;
  (** the storage, numbered in the order of allocation *)
  block : nat
}.

(** [const Host&], as [operator[]] returns it *)
Record reference := ref { in_block : nat; index : nat }.

Definition at_ (i : Z) (v : t) : outcome reference :=
  if (Z.to_nat i <? length (elems v))%nat then Ret (ref (block v) (Z.to_nat i))
  else Undef OutOfBounds.

(** What the reference refers to. *)
Definition use (r : reference) (v : t) : outcome Host.t :=
  if (in_block r =? block v)%nat then
    match elems v !! index r with Some h => Ret h | None => Undef Dangling end
  else Undef Dangling.

(** The capacity a full vector gets is up to the library. *)
Class Growth := grown : nat → nat.

(** [push_back]: references stay valid unless the vector was full. *)
Definition push_back `{Growth} (h : Host.t) (v : t) : t :=
  if (length (elems v) <? capacity v)%nat then mk (elems v ++ [h]) (capacity v) (block v)
  else mk (elems v ++ [h]) (grown (capacity v)) (S (block v)).

(** [operator=]: every reference becomes invalid. *)
Definition assign (hs : list Host.t) (v : t) : t :=
  mk hs (Nat.max (capacity v) (length hs)) (S (block v)).
End Vector.

(** What the network thread does to the table in one critical section. *)
Inductive change :=
  | Join (h : Host.t)               (** [_hosts.push(slave_host)] *)
  | Replace (hosts : list Host.t).  (** [_hosts = merged_hosts] *)

Definition change_hosts `{Vector.Growth} (c : change) (v : Vector.t) : Vector.t :=
  match c with Join h => Vector.push_back h v | Replace hs => Vector.assign hs v end.

(** ** The threads *)

Section HostRace.
Context {W : Type} `{LibSSH W} `{BoostPath} `{LocalFiles} `{Vector.Growth}.

Notation sessions := (accesses * (gmap Z SSHSession.t * (Z → W)))%type (only parsing).
Notation state := ((accesses * Vector.t) * sessions)%type (only parsing).

Context (me : nat).

Definition hosts_of : part state (accesses * Vector.t) := {|
  look '(v, _) := Ret v;
  put v '(_, x) := (v, x)
|}.

Definition rest : part state sessions := {|
  look '(_, x) := Ret x;
  put x '(v, _) := (v, x)
|}.

(** [_hosts[node_id].member], the reference: an operation that reads the vector. *)
Definition refer (node_id : Z) : thread state Vector.reference :=
  zoom hosts_of (reading me (Vector.at_ node_id)).

(** Something is copied from it: an access to the element only. *)
Definition copy {A} (r : Vector.reference) (f : Host.t → outcome A) : thread state A :=
  zoom hosts_of (atomically (λ '(a, v), h ← Vector.use r v; x ← f h; Ret (x, (a, v)))).

(** [insertHost]: the session is constructed with a copy of the address. *)
Definition insert_session (node_id : Z) (address : bytes) (port : Z) : thread state bool :=
  zoom rest (changing (λ '(m, ws),
    let '(rtv, m) := SSHManager.insertHost node_id address port m in Ret (rtv, (m, ws)))).

(** [_ssh_manager.insertHost(node_id, _hosts[node_id].address, _hosts[node_id].ssh_port)]:
    the port is copied where it is evaluated, the address only inside. *)
Definition insert_host (node_id : Z) : thread state bool :=
  addr ⇐ refer node_id;
  r ⇐ refer node_id;
  port ⇐ copy r (λ h, Ret (Host.ssh_port h));
  address ⇐ copy addr (λ h, Ret (Host.address h));
  insert_session node_id address port.

(** The rest of [read], from the path on. *)
Definition read_path (_host_id node_id : Z) (remote_path : bytes) (offset size : Z)
    : thread state (Z * bytes) :=
  zoom rest (
    if node_id =? _host_id then
      Reads.only (
        let '(bad, buff) := ifstream_read (open_local remote_path) offset size in
        Ret (if (bad : bool) then -1 else len buff, buff))
    else Reads.manager_read me node_id remote_path offset size).

(** From the second look at the table on. *)
Definition read_on (_host_id node_id : Z) (path : bytes) (offset size : Z) : thread state (Z * bytes) :=
  r ⇐ refer node_id;
  remote_path ⇐ copy r (λ h, rel ← relative path; Ret (path_append (Host.working_dir h) rel));
  read_path _host_id node_id remote_path offset size.

(** [UserFS::read] *)
Definition read (_host_id node_id : Z) (path : bytes) (offset size : Z) : thread state (Z * bytes) :=
  found ⇐ zoom rest (Reads.find_host me node_id);
  rtv ⇐ (if negb found then insert_host node_id else Done false);
  if (rtv : bool) then Done (-1, []) else read_on _host_id node_id path offset size.

(** The network thread, which holds [_access]; [read] does not. *)
Fixpoint network (cs : list change) : thread state unit :=
  match cs with
  | [] => Done tt
  | c :: cs => _ ⇐ zoom hosts_of (changing (λ v, Ret (tt, change_hosts c v))); network cs
  end.

(** [_hosts.push(_hosts[0])], with which the main thread of a master registers its own
    host while the network thread is running, without [_access] as well. *)
Definition register : thread state unit :=
  r ⇐ refer 0;
  zoom hosts_of (changing (λ v, h ← Vector.use r v; Ret (tt, Vector.push_back h v))).

(** *** Alone, it is the function of Fuse *)

Lemma hosts_of_ok : part_ok hosts_of.
Proof. split; [by intros x y [v z]|by intros x y [v z]|]. intros x [v z]. by intros [= ->]. Qed.

Lemma rest_ok : part_ok rest.
Proof. split; [by intros x y [v z]|by intros x y [v z]|]. intros x [v z]. by intros [= ->]. Qed.

Lemma alone_refer {B} node_id (k : Vector.reference → thread state B) v x :
  alone (tbind (refer node_id) k) ((no_access, v), x) =
  match Vector.elems v !! Z.to_nat node_id with
  | Some _ => alone (k (Vector.ref (Vector.block v) (Z.to_nat node_id))) ((no_access, v), x)
  | None => Undef OutOfBounds
  end.
Proof.
  unfold refer. rewrite alone_bind, (alone_zoom hosts_of hosts_of_ok _ _ (no_access, v)) by done.
  rewrite alone_reading. unfold Vector.at_.
  destruct (Vector.elems v !! Z.to_nat node_id) as [h|] eqn:E.
  - apply lookup_lt_Some in E. by rewrite (proj2 (Nat.ltb_lt _ _) E).
  - apply lookup_ge_None in E. by rewrite (proj2 (Nat.ltb_ge _ _) E).
Qed.

Lemma alone_copy {A B} i (f : Host.t → outcome A) (k : A → thread state B) a v x h :
  Vector.elems v !! i = Some h →
  alone (tbind (copy (Vector.ref (Vector.block v) i) f) k) ((a, v), x) =
  (r ← f h; alone (k r) ((a, v), x)).
Proof.
  intros E. unfold copy. rewrite alone_bind, (alone_zoom hosts_of hosts_of_ok _ _ (a, v)) by done.
  rewrite alone_atomically. unfold Vector.use. simpl. rewrite Nat.eqb_refl, E. run. by destruct (f h).
Qed.

Lemma alone_rest {A} (t : thread sessions A) v x :
  alone (zoom rest t) (v, x) = ('(a, x) ← alone t x; Ret (a, (v, x))).
Proof. by rewrite (alone_zoom rest rest_ok t (v, x) x). Qed.

Lemma alone_read_on _host_id node_id path offset size v x :
  alone (read_on _host_id node_id path offset size) ((no_access, v), x) =
  ('(r, x) ← alone (Reads.read_tail (Vector.elems v) _host_id me node_id path offset size) x;
   Ret (r, ((no_access, v), x))).
Proof.
  unfold read_on, Reads.read_tail, Reads.only, Hosts.get, at_.
  rewrite alone_refer. destruct (Vector.elems v !! Z.to_nat node_id) as [h|] eqn:E; [|done].
  rewrite (alone_copy _ _ _ _ _ _ h E), alone_bind, alone_atomically. run.
  destruct (relative path) as [rel| | |]; run; try done. by apply alone_rest.
Qed.

Lemma alone_insert_host node_id v x :
  alone (insert_host node_id) ((no_access, v), (no_access, x)) =
  ('(b, x) ← alone (Reads.insert_host (Vector.elems v) node_id) (no_access, x);
   Ret (b, ((no_access, v), x))).
Proof.
  unfold insert_host, insert_session, Reads.insert_host, Reads.only, Hosts.get, at_. destruct x as [m ws].
  rewrite alone_refer. destruct (Vector.elems v !! Z.to_nat node_id) as [h|] eqn:E.
  2: { by rewrite alone_bind, alone_atomically. }
  rewrite alone_refer, E, (alone_copy _ _ _ _ _ _ h E). run.
  rewrite (alone_copy _ _ _ _ _ _ h E). run.
  rewrite alone_bind, alone_atomically. run.
  rewrite alone_rest, !alone_changing. by destruct (SSHManager.insertHost _ _ _ _).
Qed.

(** What [read] alone does is what the thread of ConcurrentReads does alone, and so
    what [UserFS::read] does. *)
Lemma alone_read _host_id node_id path offset size v n (ws : Z → W) :
  Node._hosts n = Vector.elems v → Node._host_id n = _host_id →
  alone (read _host_id node_id path offset size) ((no_access, v), (no_access, (_ssh_manager n, ws))) =
  ('(r, b, n, w) ← UserFS_read node_id path offset size n (ws node_id);
   Ret ((r, b), ((no_access, v), (no_access, (_ssh_manager n, <[node_id := w]> ws))))).
Proof.
  intros Hh Hi.
  trans ('(r, x) ← alone (Reads.read (Vector.elems v) _host_id me node_id path offset size)
           (no_access, (_ssh_manager n, ws)); Ret (r, ((no_access, v), x))).
  2: { rewrite (Reads.alone_userfs_read (Vector.elems v) _host_id me) by done.
       by destruct (UserFS_read _ _ _ _ _ _) as [[[[? ?] ?] ?]| | |]. }
  unfold read, Reads.read. rewrite Reads.alone_find_host, alone_bind, alone_rest.
  unfold Reads.find_host. rewrite alone_reading. run. rewrite !alone_bind.
  destruct (SSHManager.findHost _ _); cbn [negb].
  - cbn [alone]. run. apply alone_read_on.
  - rewrite alone_insert_host.
    destruct (alone (Reads.insert_host _ _) _) as [[[] z]| | |]; run; try done. apply alone_read_on.
Qed.

(** ** Properties *)

(** [UserFS::read] of a host whose session exists, up to the reference it takes. *)
Lemma acts_read_found _host_id node_id path offset size v m (ws : Z → W) n :
  is_Some (m !! node_id) →
  acts (2 + n) (read _host_id node_id path offset size) ((no_access, v), (no_access, (m, ws))) =
  acts n (read_on _host_id node_id path offset size) ((no_access, v), (no_access, (m, ws))).
Proof.
  intros Hm.
  assert (SSHManager.findHost node_id m = true) as Ef.
  { unfold SSHManager.findHost. by rewrite bool_decide_true. }
  unfold read, Reads.find_host, reading, begin_read. cbn -[union difference read_on].
  rewrite Ef. cbn -[union difference read_on]. do 2 f_equal. unfold end_read, no_access.
  cbn -[union difference]. do 2 f_equal. set_solver.
Qed.

(** C38: [UserFS::read] looks at the host table without the lock that the network thread
    holds when it changes it.  Take a read of a host whose session exists already, and any
    change: a host that joins, or an update of the group.  If the change begins while the
    read is indexing the table, or the read indexes it during the change, that is a data
    race; and when neither happens, but the change comes after the read has evaluated
    [_hosts[node_id].working_dir] and before it has copied it, the reference dangles after
    every update, and after a join for which the vector had to grow. *)
Theorem read_races_join c v node_id path offset size _host_id m (ws : Z → W) h :
  Vector.elems v !! Z.to_nat node_id = Some h → is_Some (m !! node_id) →
  let reader := read _host_id node_id path offset size in
  let s := ((no_access, v), (no_access, (m, ws))) in
  race [true; true; true; false] reader (network [c]) s = Undef DataRace ∧
  race [true; true; false; true] reader (network [c]) s = Undef DataRace ∧
  ((∀ h, c = Join h → Vector.capacity v = length (Vector.elems v)) →
    race [true; true; true; true; false; false; true] reader (network [c]) s = Undef Dangling).
Proof.
  intros Hh Hm reader s. apply lookup_lt_Some in Hh as Hl.
  pose proof (acts_read_found _host_id node_id path offset size v m ws 0 Hm) as A. cbn [acts] in A.
  assert (∀ t, race ([true; true] ++ t) reader (network [c]) s =
    race t (read_on _host_id node_id path offset size) (network [c]) s) as Start.
  { intros t. by apply (race_first 2). }
  split; [|split].
  - etrans; [exact (Start [true; false])|]. unfold read_on, refer, reading, begin_read.
    cbn -[union difference]. unfold changing, begin_write. cbn -[union].
    rewrite bool_decide_eq_false_2 by set_solver. done.
  - etrans; [exact (Start [false; true])|]. unfold read_on, refer, reading, begin_read, changing, begin_write.
    done.
  - intros Hc. etrans; [exact (Start [true; true; false; false; true])|].
    assert (Vector.block (change_hosts c v) = S (Vector.block v)) as Eb.
    { destruct c as [h'|hs]; [|done]. simpl. unfold Vector.push_back. rewrite (Hc h' eq_refl).
      by rewrite (proj2 (Nat.ltb_ge _ _)). }
    assert (Vector.at_ node_id v = Ret (Vector.ref (Vector.block v) (Z.to_nat node_id))) as Ea.
    { unfold Vector.at_. by rewrite (proj2 (Nat.ltb_lt _ _) Hl). }
    unfold read_on, refer, reading, begin_read.
    cbn -[union difference Vector.at_ change_hosts Vector.use]. rewrite Ea.
    unfold changing, begin_write, end_read. cbn -[union difference change_hosts Vector.use].
    rewrite bool_decide_eq_true_2 by set_solver. cbn -[change_hosts Vector.use].
    unfold Vector.use. simpl Vector.in_block. rewrite Eb. by rewrite (proj2 (Nat.eqb_neq _ _)) by lia.
Qed.

(** The same for the main thread of a master: a client that is admitted during the
    registration of the own host, while [_hosts[0]] is evaluated or while the copy is
    pushed, is a data race; without one, the registration appends the host. *)
Theorem registration_races_join c v x h :
  Vector.elems v !! 0%nat = Some h →
  let s := ((no_access, v), x) in
  race [true; false] register (network [c]) s = Undef DataRace ∧
  race [true; true; true; false] register (network [c]) s = Undef DataRace ∧
  alone register s = Ret (tt, ((no_access, Vector.push_back h v), x)).
Proof.
  intros Hh s. apply lookup_lt_Some in Hh as Hl.
  assert (Vector.at_ 0 v = Ret (Vector.ref (Vector.block v) 0)) as Ea.
  { unfold Vector.at_. change (Z.to_nat 0) with 0%nat. by rewrite (proj2 (Nat.ltb_lt _ _) Hl). }
  assert (Vector.use (Vector.ref (Vector.block v) 0) v = Ret h) as Eu.
  { unfold Vector.use. simpl. by rewrite Nat.eqb_refl, Hh. }
  split; [|split].
  - unfold register, refer, reading, begin_read. cbn -[union difference].
    unfold changing, begin_write. cbn -[union]. by rewrite bool_decide_eq_false_2 by set_solver.
  - unfold register, refer, reading, begin_read. cbn -[union difference Vector.at_ Vector.use].
    rewrite Ea. cbn -[union difference Vector.use]. unfold end_read, changing, begin_write.
    cbn -[union difference Vector.use]. rewrite bool_decide_eq_true_2 by set_solver. done.
  - unfold s, register. rewrite alone_refer. change (Z.to_nat 0) with 0%nat. rewrite Hh.
    rewrite (alone_zoom hosts_of hosts_of_ok _ _ (no_access, v)) by done.
    rewrite alone_changing, Eu. done.
Qed.
End HostRace.

(** ** Concrete tables *)

Section HostRaceWitnesses.
Import ExampleGroup ExamplePath ExampleRun.

#[local] Existing Instance example_files.

(** Storage doubles when it is full. *)
#[local] Instance doubling : Vector.Growth := λ c, Nat.max 1 (2 * c).

(** The table as the master starts with it is full: it holds the entry that
    [initHost] made and the copy that [initTCPNetwork] pushed. *)
Definition first_table : Vector.t :=
  Vector.push_back master_host (Vector.push_back master_host (Vector.mk [] 0 0)).

Lemma read_races_join_witness :
  Vector.capacity first_table = 2%nat ∧
  race [true; true; true; true; false; false; true] (read 1 1 1 (str "/f") 0 4)
    (network [Join (Host.set_id 2 slave_host)])
    ((no_access, first_table), (no_access, ({[1 := ExampleSSH.idle]}, peers))) = Undef Dangling.
Proof.
  split; [reflexivity|].
  destruct (read_races_join 1 (Join (Host.set_id 2 slave_host)) first_table 1 (str "/f") 0 4 1
    {[1 := ExampleSSH.idle]} peers master_host) as (_ & _ & D); [reflexivity|by eexists|].
  apply D. intros h _. reflexivity.
Defined.
End HostRaceWitnesses.
