(* ===== verification/Ownership.v ===== *)
(** * Who owns the root of a tree

    [DirTree] has a destructor that deletes [_root] and the copy constructor the
    compiler gives it, which copies the pointer; [deserialize] returns a [DirTree]
    by value.  Elsewhere a [DirTree] is the tree it points to; here it is the
    pointer ([object]), and the roots are objects of a heap that are allocated and
    deleted.  The callbacks of [UserFS] that receive a tree construct one, use it
    and destroy it at the end of their scope.  When the compiler constructs the
    result of [deserialize] in place, as it may, they are the functions of UserFs.v
    and leave the heap with the root of the node's own tree only; when it copies,
    they use a deleted root. *)

From S2P Require Import Prelude BytesOrder StdSet Archive Path DirTree Host Packet Ssh.
From S2P Require Import TcpMessager MasterLoop UserFs Group.
Import Node.

(** ** DirTree objects *)

(** The roots that exist; [_root] is null or points to one. *)
Notation heap := (gmap nat TreeNode.t) (only parsing).

Definition object : Type := option nat.

(** [DirTree()] *)
Definition new_object : object := None.

Definition allocate (r : TreeNode.t) (h : heap) : object * heap :=
  let p := fresh (dom h) in (Some p, <[p := r]> h).

(** [initialize()]; the members of the new node are indeterminate *)
Definition initialize_object (garbage : TreeNode.t) (h : heap) : object * heap :=
  allocate (TreeNode.create garbage) h.

(** [~DirTree()] *)
Definition destroy (o : object) (h : heap) : outcome heap :=
  match o with
  | None => Ret h
  | Some p => match h !! p with Some _ => Ret (delete p h) | None => Undef Dangling end
  end.

#[global] Arguments destroy : simpl never.

(** [*root()] *)
Definition load_root (o : object) (h : heap) : outcome TreeNode.t :=
  match o with
  | None => Undef NullDeref
  | Some p => match h !! p with Some r => Ret r | None => Undef Dangling end
  end.

Definition store_root (o : object) (r : TreeNode.t) (h : heap) : outcome heap :=
  _ ← load_root o h; match o with Some p => Ret (<[p := r]> h) | None => Undef NullDeref end.

(** An object is constructed from a temporary, or in its place.  The copy has the
    same pointer, and the temporary is destroyed. *)
Definition construct (elided : bool) (source : object) (h : heap) : outcome (object * heap) :=
  if elided then Ret (source, h) else h ← destroy source h; Ret (source, h).

(** Which copies are elided: the one of the local variable that [deserialize]
    returns, and the one of its result into the variable of the caller. *)
Record elision := mkElision { of_return : bool; of_result : bool }.

Definition in_place : elision := mkElision true true.

Section Ownership.
Context `{TextArchive} (e : elision).

(** [DirTree x = DirTree::deserialize(byte_sequence)] *)
Definition deserialize_object (byte_sequence : bytes) (h : heap) : outcome (object * heap) :=
  tree ← DirTree_deserialize byte_sequence;
  let '(o, h) := match tree with Some r => allocate r h | None => (new_object, h) end in
  '(o, h) ← construct (of_return e) o h;
  construct (of_result e) o h.

(** ** The callbacks of UserFS

    [own] is the member [_dir_tree]; the node [n] stands for the other members. *)

(** A member function that works on [_dir_tree] through its root. *)
Definition on_own (own : object) (f : Node.t → outcome Node.t) (n : Node.t) (h : heap)
    : outcome (Node.t * heap) :=
  r ← load_root own h;
  n ← f (set_dir_tree (Some r) n);
  r ← deref (_dir_tree n);
  h ← store_root own r h;
  Ret (n, h).

(** [_dir_tree.root()->children = tree.root()->children] *)
Definition assign_roots (own tree : object) (n : Node.t) (h : heap) : outcome (Node.t * heap) :=
  r ← load_root tree h; on_own own (assign_children (Some r)) n h.

Definition slaveRecognized_objects (own : object) (slave_id : Z) (dir_tree_seq hosts_seq : bytes)
    (n : Node.t) (h : heap) : outcome (Node.t * heap) :=
  '(merged_tree, h) ← deserialize_object dir_tree_seq h;
  let n := set_host_id slave_id n in
  merged_hosts ← Hosts.deserialize hosts_seq;
  '(n, h) ← assign_roots own merged_tree n h;
  let n := sem_post (set_waiting false (set_hosts merged_hosts n)) in
  h ← destroy merged_tree h; Ret (n, h).

Definition updateInfo_objects (own : object) (dir_tree_seq hosts_seq : bytes)
    (n : Node.t) (h : heap) : outcome (Node.t * heap) :=
  '(new_tree, h) ← deserialize_object dir_tree_seq h;
  merged_hosts ← Hosts.deserialize hosts_seq;
  '(n, h) ← assign_roots own new_tree n h;
  let n := set_hosts merged_hosts n in
  h ← destroy new_tree h; Ret (n, h).

(** The slave's tree is renumbered in place before it is merged. *)
Definition newConnection_objects (own : object) (dir_tree_seq host_seq : bytes) (handle : nat)
    (n : Node.t) (h : heap) : outcome (Node.t * heap) :=
  '(slave_dir_tree, h) ← deserialize_object dir_tree_seq h;
  slave_host ← Host.deserialize host_seq;
  r ← load_root own h;
  s ← load_root slave_dir_tree h;
  conflicts ← hasConflict (Some r) (Some s);
  '(n, h) ← (
    if nonempty conflicts then on_own own (TCPManager_close handle) n h
    else
      h ← store_root slave_dir_tree (TreeNode.setHostID (_max_host_id n) s) h;
      on_own own (accept_slave (Some s) slave_host handle) n h);
  h ← destroy slave_dir_tree h; Ret (n, h).

(** The calls that touch the tree of a node, as its messager makes them. *)
Inductive callback :=
  | Recognized (i : Z) (d hs : bytes)
  | Updated (d hs : bytes)
  | Dropped
  | Joining (d hs : bytes) (handle : nat)
  | Leaving (handle : nat).

Definition call (c : callback) (n : Node.t) : outcome Node.t :=
  match c with
  | Recognized i d hs => slaveRecognized i d hs n
  | Updated d hs => updateInfo d hs n
  | Dropped => slave_disconnect n
  | Joining d hs handle => newConnection d hs handle n
  | Leaving handle => master_disconnect handle n
  end.

Definition call_objects (own : object) (c : callback) (n : Node.t) (h : heap)
    : outcome (Node.t * heap) :=
  match c with
  | Recognized i d hs => slaveRecognized_objects own i d hs n h
  | Updated d hs => updateInfo_objects own d hs n h
  | Dropped => on_own own slave_disconnect n h
  | Joining d hs handle => newConnection_objects own d hs handle n h
  | Leaving handle => on_own own (master_disconnect handle) n h
  end.

(** One call after the other, then [~UserFS()]. *)
Fixpoint calls (cs : list callback) (n : Node.t) : outcome Node.t :=
  match cs with [] => Ret n | c :: cs => n ← call c n; calls cs n end.

Fixpoint calls_objects (own : object) (cs : list callback) (n : Node.t) (h : heap)
    : outcome (Node.t * heap) :=
  match cs with
  | [] => Ret (n, h)
  | c :: cs => '(n, h) ← call_objects own c n h; calls_objects own cs n h
  end.
End Ownership.

(** ** Constructed in place *)

Section InPlace.
Context `{TextArchive}.

Lemma allocate_fresh (h : heap) : h !! fresh (dom h) = None.
Proof. apply not_elem_of_dom, is_fresh. Qed.

Lemma set_dir_tree_id n r : _dir_tree n = Some r → set_dir_tree (Some r) n = n.
Proof. destruct n. simpl. by intros ->. Qed.

(** What a call leaves: the node, and its root in the heap. *)
Definition leaves (p : nat) (h : heap) (n' : Node.t) : outcome (Node.t * heap) :=
  r' ← deref (_dir_tree n'); Ret (n', <[p := r']> h).

Lemma on_own_spec p h n r (f : Node.t → outcome Node.t) :
  h !! p = Some r → _dir_tree n = Some r →
  on_own (Some p) f n h = (n' ← f n; leaves p h n').
Proof.
  intros Hp Hn. unfold on_own, leaves, store_root, load_root. rewrite Hp. run.
  rewrite (set_dir_tree_id n r Hn). by destruct (f n).
Qed.

(** In place, a tree that is received is allocated and nothing else. *)
Lemma deserialize_spec d h :
  deserialize_object in_place d h =
  (tree ← DirTree_deserialize d;
   Ret (match tree with Some r => allocate r h | None => (new_object, h) end)).
Proof.
  unfold deserialize_object. destruct (DirTree_deserialize d) as [[t|]| | |]; run; done.
Qed.

(** The received root is where it was allocated, and its deletion leaves what the
    call has done to the root [p] of the node. *)
Lemma scope_end (p : nat) (h : heap) (r' y : TreeNode.t) :
  p ≠ fresh (dom h) →
  destroy (Some (fresh (dom h))) (<[p := r']> (<[fresh (dom h) := y]> h)) = Ret (<[p := r']> h).
Proof.
  intros Hne. unfold destroy. rewrite lookup_insert_ne, lookup_insert_eq by done. f_equal.
  rewrite delete_insert_ne, delete_insert_id by (done || apply allocate_fresh). done.
Qed.

Lemma used_ne (p : nat) (h : heap) r : h !! p = Some r → p ≠ fresh (dom h).
Proof. intros Hp ->. by rewrite allocate_fresh in Hp. Qed.

Lemma assign_spec p q h n r t :
  h !! p = Some r → _dir_tree n = Some r → h !! q = Some t →
  assign_roots (Some p) (Some q) n h = (n' ← assign_children (Some t) n; leaves p h n').
Proof.
  intros Hp Hn Hq. unfold assign_roots, load_root. rewrite Hq. run. by apply (on_own_spec p h n r).
Qed.

Section Call.
Context (p : nat) (h : heap) (n : Node.t) (r : TreeNode.t).
Context (Hp : h !! p = Some r) (Hn : _dir_tree n = Some r).

Lemma slaveRecognized_owned i d hs :
  slaveRecognized_objects in_place (Some p) i d hs n h =
  (n' ← slaveRecognized i d hs n; leaves p h n').
Proof.
  unfold slaveRecognized_objects, slaveRecognized, leaves. rewrite deserialize_spec.
  destruct (DirTree_deserialize d) as [tree| | |]; run; try done. cbv zeta.
  destruct tree as [t|]; unfold allocate; destruct (Hosts.deserialize hs) as [hosts| | |]; run; try done.
  - pose proof (used_ne p h r Hp) as Hne.
    rewrite (assign_spec p _ _ _ r t) by (done || by rewrite ?lookup_insert_eq, ?lookup_insert_ne).
    unfold assign_children, leaves. simpl. rewrite Hn. run. simpl. by rewrite (scope_end p h).
  - unfold assign_roots, load_root, assign_children. simpl. by rewrite Hn.
Qed.

Lemma updateInfo_owned d hs :
  updateInfo_objects in_place (Some p) d hs n h = (n' ← updateInfo d hs n; leaves p h n').
Proof.
  unfold updateInfo_objects, updateInfo, leaves. rewrite deserialize_spec.
  destruct (DirTree_deserialize d) as [tree| | |]; run; try done.
  destruct tree as [t|]; unfold allocate; destruct (Hosts.deserialize hs) as [hosts| | |]; run; try done.
  - pose proof (used_ne p h r Hp) as Hne.
    rewrite (assign_spec p _ _ _ r t) by (done || by rewrite ?lookup_insert_eq, ?lookup_insert_ne).
    unfold assign_children, leaves. simpl. rewrite Hn. run. simpl. by rewrite (scope_end p h).
  - unfold assign_roots, load_root, assign_children. simpl. by rewrite Hn.
Qed.

Lemma newConnection_owned d hs handle :
  newConnection_objects in_place (Some p) d hs handle n h =
  (n' ← newConnection d hs handle n; leaves p h n').
Proof.
  unfold newConnection_objects, newConnection. rewrite deserialize_spec.
  destruct (DirTree_deserialize d) as [tree| | |]; run; try done.
  pose proof (used_ne p h r Hp) as Hne.
  destruct tree as [s|]; unfold allocate; destruct (Host.deserialize hs) as [host| | |]; run; try done.
  - unfold load_root at 1 2. rewrite lookup_insert_eq, lookup_insert_ne, Hp, Hn by done. run.
    destruct (hasConflict (Some r) (Some s)) as [conflicts| | |]; run; try done.
    destruct (nonempty conflicts).
    + rewrite (on_own_spec p _ n r) by (done || by rewrite lookup_insert_ne).
      destruct (TCPManager_close handle n) as [n'| | |]; run; try done. unfold leaves.
      destruct (_dir_tree n') as [r'|]; run; [|done]. by rewrite (scope_end p h).
    + unfold store_root, load_root. rewrite lookup_insert_eq. run. rewrite insert_insert_eq.
      rewrite (on_own_spec p _ n r) by (done || by rewrite lookup_insert_ne).
      destruct (accept_slave (Some s) host handle n) as [n'| | |]; run; try done. unfold leaves.
      destruct (_dir_tree n') as [r'|]; run; [|done]. by rewrite (scope_end p h).
  - unfold load_root. rewrite Hp, Hn. run. done.
Qed.

Lemma call_owned c :
  call_objects in_place (Some p) c n h = (n' ← call c n; leaves p h n').
Proof.
  destruct c; simpl; [apply slaveRecognized_owned|apply updateInfo_owned|by apply (on_own_spec p h n r)
    |apply newConnection_owned|by apply (on_own_spec p h n r)].
Qed.
End Call.

(** The tree of a node is never reset. *)
Definition has_root (n : Node.t) : Prop := is_Some (_dir_tree n).

Lemma has_root_data n n' : data n' = data n → has_root n → has_root n'.
Proof. unfold data, has_root. intros E. by injection E as _ _ _ _ _ -> _ _. Qed.

Lemma assign_children_has_root t n n' : assign_children t n = Ret n' → has_root n'.
Proof. unfold assign_children. intros E. inv_bind. subst. by eexists. Qed.

Lemma master_disconnect_has_root handle n n' :
  master_disconnect handle n = Ret n' → has_root n → has_root n'.
Proof.
  unfold master_disconnect, sendUpdate. intros E R. inv_bind. case_match; inv_bind; [by subst|].
  eapply has_root_data; [by eapply on_tcp_data|]. eapply has_root_data; [by eapply set_slave_id_data|].
  apply removeOf_Ret in Ha1 as (r & _ & ->). by eexists.
Qed.

Lemma newConnection_has_root d hs handle n n' :
  newConnection d hs handle n = Ret n' → has_root n → has_root n'.
Proof.
  unfold newConnection. intros E R. inv_bind. case_match.
  - unfold TCPManager_close, close in E. inv_bind. case_match; [|inv_bind; by subst].
    by eapply master_disconnect_has_root; [exact E|].
  - unfold accept_slave, sendUpdate_seqs in E. inv_bind.
    eapply has_root_data; [by eapply on_tcp_data|]. eapply has_root_data; [by eapply on_tcp_data|].
    match goal with M : merge _ _ = Ret _ |- _ => apply merge_Ret in M as (? & ? & _ & _ & ->) end.
    by eexists.
Qed.

Lemma call_has_root c n n' : call c n = Ret n' → has_root n → has_root n'.
Proof.
  destruct c; simpl; intros E R.
  - unfold slaveRecognized in E. inv_bind. subst. by eapply assign_children_has_root in Ha1.
  - unfold updateInfo in E. inv_bind. subst. by eapply assign_children_has_root in Ha1.
  - unfold slave_disconnect, removeNotOf in E. inv_bind. subst.
    case_match; inv_bind; subst; by eexists.
  - by eapply newConnection_has_root.
  - by eapply master_disconnect_has_root.
Qed.

Lemma calls_has_root cs : ∀ n n', calls cs n = Ret n' → has_root n → has_root n'.
Proof.
  induction cs as [|c cs IH]; intros n n' E R; simpl in E; [by simplify_eq|]. inv_bind.
  eapply IH; [exact E|]. by eapply call_has_root.
Qed.

Lemma calls_owned p cs : ∀ n h r,
  h !! p = Some r → _dir_tree n = Some r →
  calls_objects in_place (Some p) cs n h = (n' ← calls cs n; leaves p h n').
Proof.
  induction cs as [|c cs IH]; intros n h r Hp Hn; simpl.
  - unfold leaves. rewrite Hn. run. by rewrite insert_id.
  - rewrite (call_owned p h n r Hp Hn). destruct (call c n) as [n1| | |] eqn:Ec; run; try done.
    destruct (call_has_root c n n1 Ec) as [r1 E1]; [by eexists|]. unfold leaves at 1. rewrite E1. run.
    rewrite (IH n1 (<[p := r1]> h) r1) by (done || by rewrite lookup_insert_eq).
    destruct (calls cs n1) as [n2| | |]; run; try done. unfold leaves.
    destruct (_dir_tree n2); run; [|done]. by rewrite insert_insert_eq.
Qed.
End InPlace.

(** ** Properties *)

Section OwnershipProperties.
Context `{TextArchive}.

(** C20: with every [DirTree] constructed in place, the roots of trees are managed
    correctly: take a node with its tree in a heap and any sequence of callbacks
    (recognitions, updates, losses of the connection; joins and departures on a
    master).  The callbacks on pointers do what the functions on trees do, failures
    included; after them the node's own root is there with the tree of the node, the
    roots of all received trees have been deleted, none of them twice, and no other
    object has been touched; and the destructor of the node deletes the last one. *)
Theorem roots_deleted_once cs n r (h : heap) :
  _dir_tree n = Some r →
  let '(own, h1) := allocate r h in
  match calls cs n with
  | Ret n' => ∃ h2, calls_objects in_place own cs n h1 = Ret (n', h2) ∧
      load_root own h2 = deref (_dir_tree n') ∧ dom h2 = dom h1 ∧ destroy own h2 = Ret h
  | Exn what => calls_objects in_place own cs n h1 = Exn what
  | AssertFailed => calls_objects in_place own cs n h1 = AssertFailed
  | Undef f => calls_objects in_place own cs n h1 = Undef f
  end.
Proof.
  intros Hn. unfold allocate. set (p := fresh (dom h)).
  assert (h !! p = None) as Hp by (by apply allocate_fresh).
  pose proof (calls_owned p cs n (<[p := r]> h) r (lookup_insert_eq _ _ _) Hn) as E.
  destruct (calls cs n) as [n'| | |] eqn:Ec; rewrite E; run; try done. unfold leaves.
  destruct (calls_has_root cs n n' Ec) as [r' Er']; [by eexists|].
  rewrite Er'. run. rewrite insert_insert_eq. eexists. split; [done|]. unfold load_root, destroy.
  rewrite !lookup_insert_eq. split; [done|]. split; [by rewrite !dom_insert_L|].
  by rewrite delete_insert_id.
Qed.

(** With either copy made, the first update is undefined behaviour: the variable
    of [updateInfo] has the pointer of an object that has been destroyed with its
    root, whatever tree and hosts the message carries. *)
Theorem copied_tree_dangles e p d hs n (h : heap) r t hosts :
  e ≠ in_place → h !! p = Some r →
  DirTree_deserialize d = Ret (Some t) → Hosts.deserialize hs = Ret hosts →
  updateInfo_objects e (Some p) d hs n h = Undef Dangling.
Proof.
  intros He Hp Ed Eh. unfold updateInfo_objects, deserialize_object, allocate. rewrite Ed, Eh. run.
  set (q := fresh (dom h)).
  assert (destroy (Some q) (<[q := t]> h) = Ret h) as D.
  { unfold destroy. rewrite lookup_insert_eq, delete_insert_id; [done|by apply allocate_fresh]. }
  assert (h !! q = None) as Hq by (by apply allocate_fresh).
  destruct e as [[] []]; [done|..]; unfold construct; simpl of_return; simpl of_result; cbv iota;
    run; rewrite D; run; unfold assign_roots, load_root, destroy; rewrite Hq; done.
Qed.
End OwnershipProperties.

(** ** A slave that is recognised, updated and dropped *)

Section OwnershipWitnesses.
Import ExampleArchive ExampleGroup.

Definition tree_seq : bytes := DirTree_serialize (Some ExampleTree.master).
Definition hosts_seq : bytes := Hosts.serialize [master_host; master_host].

Definition slave_life : list callback :=
  [Recognized 2 tree_seq hosts_seq; Updated tree_seq hosts_seq; Dropped].

Lemma roots_deleted_once_witness :
  ∃ n' h2, calls slave_life standby = Ret n' ∧
    calls_objects in_place (Some 0%nat) slave_life standby {[0%nat := ExampleTree.standby1]} =
      Ret (n', h2) ∧
    destroy (Some 0%nat) h2 = Ret ∅.
Proof.
  pose proof (roots_deleted_once slave_life standby ExampleTree.standby1 ∅ eq_refl) as T.
  assert (∃ n', calls slave_life standby = Ret n') as [n' E] by (eexists; vm_compute; reflexivity).
  change (allocate ExampleTree.standby1 ∅) with (Some 0%nat, {[0%nat := ExampleTree.standby1]} : heap) in T.
  cbv iota beta in T. rewrite E in T. destruct T as (h2 & R & _ & _ & D). by exists n', h2.
Defined.

Lemma copied_tree_dangles_witness :
  updateInfo_objects (mkElision false true) (Some 7%nat) tree_seq hosts_seq standby
    {[7%nat := ExampleTree.standby1]} = Undef Dangling.
Proof.
  apply (copied_tree_dangles _ _ _ _ _ _ ExampleTree.standby1 ExampleTree.master
    [master_host; master_host]); [done|reflexivity|vm_compute; reflexivity|vm_compute; reflexivity].
Defined.
End OwnershipWitnesses.
