(* ===== verification/InitDirTree.v ===== *)
(** * UserFS::initDirTree: the tree of the working directory

    The directory is walked with boost::filesystem, which is not part of the
    repository: its queries are the class [FileSystem], any of which may throw.
    The lambda [traverseDirectory] recurses once per level of directories; the
    fuel of [traverseDirectory] is the number of nested calls the stack holds,
    and running out of it is [StackOverflow]. *)

From S2P Require Import Prelude BytesOrder StdSet Archive Path DirTree Host Packet Ssh.
From S2P Require Import TcpMessager MasterLoop UserFs Group.
Import Node.

(** [boost::filesystem::file_type] *)
Inductive file_type :=
  | status_error | file_not_found | regular_file | directory_file | symlink_file
  | block_file | character_file | fifo_file | socket_file | reparse_file | type_unknown.

#[global] Instance file_type_eq_dec : EqDecision file_type.
Proof. solve_decision. Defined.

Class FileSystem := {
  absolute : bytes → bytes;
  (** the paths of the entries, and the exception the iteration ends with *)
  directory_iterator : bytes → list bytes * option bytes;
  symlink_status : bytes → outcome file_type;
  last_write_time : bytes → outcome Z;
  file_size : bytes → outcome Z;
  hard_link_count : bytes → outcome Z;
  (** [path(p).filename().string()] *)
  filename : bytes → bytes;
  (** [time(nullptr)] *)
  now : Z
}.

(** The [switch] on the file type. *)
Definition treenode_type (t : file_type) : FileType :=
  match t with
  | directory_file => DIRECTORY
  | regular_file => REGULAR
  | character_file => CHRDEVICE
  | block_file => BLKDEVICE
  | fifo_file => FIFO
  | symlink_file => SYMLINK
  | socket_file => SOCKET
  | _ => UNKNOWN
  end.

Section InitDirTree.
Context `{FileSystem}.

(** What the storage of the node made for a path held before. *)
Variable garbage : bytes → TreeNode.t.

(** A node made by the traversal: the members it does not assign keep what the
    storage held. *)
Definition make_node (host_id : Z) (ty : FileType) (p : bytes) (name : bytes)
    (size mtime links : Z) : TreeNode.t :=
  let g := TreeNode.create (garbage p) in
  TreeNode.mk ty size (TreeNode.uid g) (TreeNode.gid g) (TreeNode.atime g) (u64 mtime)
    (TreeNode.ctime g) host_id links name (TreeNode.children g).

(** One round of the [for] loop; [traverse] is the recursive call, which fills
    the children of the node it is given. *)
Definition visit (traverse : bytes → TreeNode.t → outcome TreeNode.t) (host_id : Z)
    (f : bytes) (parent : TreeNode.t) : outcome TreeNode.t :=
  t ← symlink_status f;
  let ty := treenode_type t in
  if decide (ty = UNKNOWN) then Ret parent
  else if decide (ty = DIRECTORY) then
    mtime ← last_write_time f;
    links ← hard_link_count f;
    let dirnode := make_node host_id ty f (filename f) 0 mtime links in
    let children := TreeNode.insert dirnode (TreeNode.children parent) in
    first ← deref (TreeNode.find_child (TreeNode.name dirnode) children);
    first ← traverse f first;
    Ret (TreeNode.set_children (set_update TreeNode.name first children) parent)
  else
    size ← file_size f;
    mtime ← last_write_time f;
    links ← hard_link_count f;
    let filenode := make_node host_id ty f (filename f) size mtime links in
    Ret (TreeNode.set_children (TreeNode.insert filenode (TreeNode.children parent)) parent).

Fixpoint visit_all (traverse : bytes → TreeNode.t → outcome TreeNode.t) (host_id : Z)
    (fs : list bytes) (parent : TreeNode.t) : outcome TreeNode.t :=
  match fs with
  | [] => Ret parent
  | f :: fs => parent ← visit traverse host_id f parent; visit_all traverse host_id fs parent
  end.

Fixpoint traverseDirectory (fuel : nat) (host_id : Z) (dir : bytes) (parent : TreeNode.t)
    : outcome TreeNode.t :=
  match fuel with
  | O => Undef StackOverflow
  | S fuel =>
      let '(entries, failure) := directory_iterator dir in
      parent ← visit_all (traverseDirectory fuel host_id) host_id entries parent;
      match failure with
      | Some what => Exn what
      | None => Ret parent
      end
  end.

(** [absolute(working_dir).string()], with a trailing slash *)
Definition working_dir_of (working_dir : bytes) : bytes :=
  let d := absolute working_dir in
  match last d with
  | None => d
  | Some c => if decide (c = slash) then d else d ++ [slash]
  end.

(** The members of the new root that are assigned. *)
Definition make_root (host_id links : Z) (r : TreeNode.t) : TreeNode.t :=
  TreeNode.mk DIRECTORY 0 (TreeNode.uid r) (TreeNode.gid r) (TreeNode.atime r) (u64 now)
    (TreeNode.ctime r) host_id links (TreeNode.name r) (TreeNode.children r).

Definition initDirTree (fuel : nat) (working_dir : bytes) (n : Node.t) : outcome Node.t :=
  let d := working_dir_of working_dir in
  let n := set_working_dir d n in
  r ← deref (root (initialize (garbage d) (_dir_tree n)));
  links ← hard_link_count d;
  r ← traverseDirectory fuel (_host_id n) d (make_root (_host_id n) links r);
  Ret (set_dir_tree (Some r) n).
End InitDirTree.

(** ** The traversal keeps the tree a tree of one host *)

Section Ownership.
Context `{FileSystem} (garbage : bytes → TreeNode.t) (host_id : Z).

(** A tree whose nodes below the root belong to the host. *)
Definition owned (p : TreeNode.t) : Prop :=
  TreeNode.wf p ∧ Forall (λ d, TreeNode.host_id d = host_id) (TreeNode.descendants p).

(** The same with the root. *)
Definition owned_child (c : TreeNode.t) : Prop := owned c ∧ TreeNode.host_id c = host_id.

Lemma owned_children p :
  owned p ↔ FileType_of_Z (FileType_to_Z (TreeNode.type p)) = TreeNode.type p ∧
    set_wf TreeNode.name (TreeNode.children p) ∧ Forall owned_child (TreeNode.children p).
Proof.
  unfold owned_child, owned. rewrite TreeNode.Forall_descendants.
  setoid_rewrite TreeNode.nodes_descendants. setoid_rewrite Forall_cons.
  rewrite !Forall_and. split.
  - intros [[Ht Hs Hw] [Hh Hd]]. done.
  - intros (Ht & Hs & (Hw & Hd) & Hh). split; [by constructor|done].
Qed.

Lemma owned_set_children p cs :
  owned p → set_wf TreeNode.name cs → Forall owned_child cs → owned (TreeNode.set_children cs p).
Proof. rewrite !owned_children. intros (Ht & _). done. Qed.

Lemma make_node_owned t p name size mtime links :
  owned_child (make_node garbage host_id (treenode_type t) p name size mtime links).
Proof. split; [|done]. apply owned_children. split; [by destruct t|]. split; constructor. Qed.

Lemma insert_owned x cs :
  set_wf TreeNode.name cs → owned_child x → Forall owned_child cs →
  Forall owned_child (TreeNode.insert x cs).
Proof.
  intros W Hx Hc. rewrite Forall_forall in *. intros a Ha.
  apply elem_of_set_insert in Ha as [Ha|[-> _]]; auto.
Qed.

(** What a call that fills the children of a node promises. *)
Definition fills (traverse : bytes → TreeNode.t → outcome TreeNode.t) : Prop :=
  ∀ f p p', traverse f p = Ret p' → owned p →
    owned p' ∧ ∃ cs, p' = TreeNode.set_children cs p.

Lemma visit_fills traverse : fills traverse → fills (visit garbage traverse host_id).
Proof.
  intros T f p p' E O. pose proof (proj1 (owned_children p) O) as (Ht & Hs & Hc).
  unfold visit in E. inv_bind. case_decide.
  { inv_bind. subst. split; [done|]. exists (TreeNode.children p'). by destruct p'. }
  case_decide; inv_bind; subst.
  - set (x := make_node _ _ _ _ _ _ _ _) in *.
    assert (Forall owned_child (TreeNode.insert x (TreeNode.children p))) as Hi
      by (apply insert_owned; [done|apply make_node_owned|done]).
    assert (set_wf TreeNode.name (TreeNode.insert x (TreeNode.children p))) as Wi
      by (by apply set_insert_wf).
    apply set_find_Some in Ha2 as [Hin _]; [|done].
    pose proof Hi as Hi'. rewrite Forall_forall in Hi'. destruct (Hi' _ Hin) as [Oa Hid].
    destruct (T _ _ _ Ha3 Oa) as [O3 [cs ->]].
    split; [|by eexists]. apply owned_set_children; [done|by apply set_update_wf|].
    by apply set_update_Forall.
  - split; [|by eexists]. apply owned_set_children; [done|by apply set_insert_wf|].
    apply insert_owned; [done|apply make_node_owned|done].
Qed.

Lemma visit_all_fills traverse fs p p' :
  fills traverse → visit_all garbage traverse host_id fs p = Ret p' → owned p →
  owned p' ∧ ∃ cs, p' = TreeNode.set_children cs p.
Proof.
  intros T. revert p. induction fs as [|f fs IH]; intros p E O; simpl in E; inv_bind.
  { subst. split; [done|]. exists (TreeNode.children p'). by destruct p'. }
  destruct (visit_fills traverse T _ _ _ Ha O) as [O1 [cs ->]].
  destruct (IH _ E O1) as [O2 [cs' ->]]. split; [done|]. by exists cs'.
Qed.

Lemma traverseDirectory_fills fuel : fills (traverseDirectory garbage fuel host_id).
Proof.
  induction fuel as [|fuel IH]; intros d p p' E O; [done|]. simpl in E.
  destruct (directory_iterator d) as [fs err]. inv_bind. destruct err; [done|]. inv_bind. subst.
  by eapply visit_all_fills.
Qed.
End Ownership.

Lemma initDirTree_owned `{FileSystem} garbage fuel wd n n' :
  initDirTree garbage fuel wd n = Ret n' →
  ∃ r, n' = set_dir_tree (Some r) (set_working_dir (working_dir_of wd) n) ∧
    owned (_host_id n) r ∧ TreeNode.type r = DIRECTORY ∧ TreeNode.name r = [].
Proof.
  unfold initDirTree. intros E. inv_bind. subst. simpl in *. exists a1. split; [done|].
  injection Ha as <-.
  destruct (traverseDirectory_fills garbage (_host_id n) fuel _ _ _ Ha1) as [O [cs ->]]; [|done].
  apply owned_children. split; [done|]. split; constructor.
Qed.

(** ** The directory on disk: the reference *)

Inductive entry := mkEntry {
  path_of : bytes;
  kind : file_type;
  bytes_of : Z;
  written : Z;
  links_of : Z;
  entries : list entry
}.

Section EntryInduction.
Variable P : entry → Prop.
Hypothesis H : ∀ e, Forall P (entries e) → P e.

Fixpoint entry_tree_ind (e : entry) : P e :=
  match e with
  | mkEntry p k b w l es =>
      H (mkEntry p k b w l es)
        ((fix go es : Forall P es :=
           match es with
           | [] => Forall_nil_2 P
           | e :: es => Forall_cons_2 P e es (entry_tree_ind e) (go es)
           end) es)
  end.
End EntryInduction.

Section Mirror.
Context `{FileSystem} (garbage : bytes → TreeNode.t) (host_id : Z).

(** The kinds of entries that are shared, and what they are shown as. *)
Definition shown_as : list (file_type * FileType) :=
  [(directory_file, DIRECTORY); (regular_file, REGULAR); (symlink_file, SYMLINK)].

Definition known (e : entry) : bool := bool_decide (kind e ∈ shown_as.*1).

(** Devices, pipes and sockets, which [file_size] refuses ([special_file_aborts]). *)
Definition special : list file_type := [character_file; block_file; fifo_file; socket_file].




(** The node for an entry: unknown kinds are left out. *)
Fixpoint image (e : entry) : TreeNode.t :=
  match e with
  | mkEntry p k b w l es =>
      TreeNode.set_children
        (foldl (λ s e, if known e then TreeNode.insert (image e) s else s) [] es)
        (make_node garbage host_id (treenode_type k) p (filename p)
           (if decide (k = directory_file) then 0 else b) w l)
  end.

Definition images (s : list TreeNode.t) (es : list entry) : list TreeNode.t :=
  foldl (λ s e, if known e then TreeNode.insert (image e) s else s) s es.





Lemma set_children_twice cs cs' p :
  TreeNode.set_children cs (TreeNode.set_children cs' p) = TreeNode.set_children cs p.
Proof. done. Qed.





End Mirror.

(** ** Looking up the disk *)

Section Lookup.
Context `{FileSystem} (garbage : bytes → TreeNode.t) (host_id : Z).



Lemma images_wf s es :
  set_wf TreeNode.name s → set_wf TreeNode.name (images garbage host_id s es).
Proof.
  revert s. induction es as [|e es IH]; intros s W; [done|]. apply IH.
  case_match; [by apply set_insert_wf|done].
Qed.


End Lookup.


Lemma working_dir_slash `{FileSystem} wd :
  absolute wd ≠ [] → last (working_dir_of wd) = Some slash.
Proof.
  intros Ha. unfold working_dir_of. destruct (last (absolute wd)) as [c|] eqn:E.
  - case_decide; [by subst|]. by rewrite last_snoc.
  - by apply last_None in E.
Qed.

(** ** Properties *)

Section InitProperties.
Context `{FileSystem} `{BoostPathOk} (garbage : bytes → TreeNode.t).


(** Whatever the file system answers, a tree [initDirTree] returns is a tree
    of sets under an unnamed directory whose nodes all belong to this host. *)
Theorem initDirTree_owns_tree fuel wd n n' :
  initDirTree garbage fuel wd n = Ret n' →
  ∃ r, _dir_tree n' = Some r ∧ TreeNode.wf r ∧ TreeNode.type r = DIRECTORY ∧
    TreeNode.name r = [] ∧
    Forall (λ d, TreeNode.host_id d = _host_id n') (TreeNode.descendants r) ∧
    (absolute wd ≠ [] → last (_working_dir n') = Some slash).
Proof.
  intros (r & -> & [W F] & T & N)%initDirTree_owned. exists r. split_and!; try done.
  apply working_dir_slash.
Qed.
End InitProperties.

(** [file_size] reports an error for everything that is not a regular file. *)
Class FileSystemOk `{FileSystem} : Prop :=
  file_size_special p t :
    symlink_status p = Ret t →
    t ∈ special → ∃ what, file_size p = Exn what.

Section Special.
Context `{FileSystemOk} (garbage : bytes → TreeNode.t).

Lemma visit_all_special traverse h fs f t p p' :
  f ∈ fs → symlink_status f = Ret t →
  t ∈ special →
  visit_all garbage traverse h fs p ≠ Ret p'.
Proof.
  intros Hf Es Ht. revert p. induction fs as [|g fs IH]; intros p E.
  { by apply not_elem_of_nil in Hf. }
  simpl in E. inv_bind. apply elem_of_cons in Hf as [<-|Hf]; [|by eapply IH].
  destruct (file_size_special f t Es Ht) as [what Ew].
  unfold visit in Ha. rewrite Es in Ha. simpl in Ha. rewrite Ew in Ha.
  unfold special in Ht. rewrite !elem_of_cons, elem_of_nil in Ht.
  by destruct Ht as [->|[->|[->|[->|[]]]]].
Qed.

(** The branches for devices, pipes and sockets are never completed: a
    working directory with such an entry makes [initDirTree] fail, because
    [file_size] is asked for its size; the program then ends. *)
Theorem special_file_aborts fuel wd n n' f t :
  f ∈ (directory_iterator (working_dir_of wd)).1 → symlink_status f = Ret t →
  t ∈ special →
  initDirTree garbage fuel wd n ≠ Ret n'.
Proof.
  intros Hf Es Ht E. unfold initDirTree in E. inv_bind. subst.
  destruct fuel as [|fuel]; [done|]. simpl in *.
  destruct (directory_iterator (working_dir_of wd)) as [fs err]. inv_bind.
  by eapply visit_all_special.
Qed.
End Special.

(** ** A concrete directory *)

Module ExampleDisk.
Definition file_at (p : string) (size : Z) : entry :=
  mkEntry (str p) regular_file size 100 1 [].

(** The master's working directory of the test script. *)
Definition top : entry :=
  mkEntry (str "/srv/master/") directory_file 0 100 3
    [ file_at "/srv/master/master_file2" 22;
      mkEntry (str "/srv/master/master_dir") directory_file 0 100 2
        [file_at "/srv/master/master_dir/master_file3" 22];
      file_at "/srv/master/master_file1" 22 ].

(** A directory that holds a named pipe. *)
Definition pipe : entry := mkEntry (str "/srv/pipe/fifo") fifo_file 0 100 1 [].
Definition pipe_dir : entry := mkEntry (str "/srv/pipe/") directory_file 0 100 2 [pipe].

Definition all_entries : list entry :=
  [top; pipe_dir; pipe] ++ entries top ++ concat (map entries (entries top)).

Definition lookup (es : list entry) (p : bytes) : option entry :=
  List.find (λ e, bool_decide (path_of e = p)) es.

Definition query {A} (es : list entry) (f : entry → outcome A) (p : bytes) : outcome A :=
  match lookup es p with Some e => f e | None => Exn (str "No such file or directory") end.

(** What follows the last separator. *)
Definition base_name (p : bytes) : bytes :=
  foldl (λ acc c, if decide (c = slash) then [] else acc ++ [c]) [] p.

(** The file system with these entries. *)
Definition disk (es : list entry) : FileSystem := {|
  absolute p := p;
  directory_iterator p :=
    match lookup es p with
    | Some e => (path_of <$> entries e, None)
    | None => ([], Some (str "No such file or directory"))
    end;
  symlink_status := query es (λ e, Ret (kind e));
  last_write_time := query es (λ e, Ret (written e));
  file_size := query es (λ e,
    if decide (kind e = regular_file) then Ret (bytes_of e)
    else Exn (str "Operation not permitted"));
  hard_link_count := query es (λ e, Ret (links_of e));
  filename := base_name;
  now := 100
|}.

#[export] Instance fs : FileSystem := disk all_entries.

#[export] Instance fs_ok : FileSystemOk.
Proof.
  intros p t Es Ht. simpl in *. unfold query in *. destruct (lookup all_entries p) as [e|]; [|done].
  injection Es as <-. rewrite decide_False; [by eexists|]. intros C. rewrite C in Ht.
  unfold special in Ht. rewrite !elem_of_cons, elem_of_nil in Ht. naive_solver.
Qed.

End ExampleDisk.

Section InitWitnesses.
Import ExampleDisk ExamplePath.

(** The storage was clear. *)
Definition cleared (p : bytes) : TreeNode.t := ExampleTree.dir 0 [] [].


Lemma initDirTree_owns_tree_witness :
  ∃ n' r, initDirTree cleared 2 (str "/srv/master") (setMaster Node.create) = Ret n' ∧
    _dir_tree n' = Some r ∧ TreeNode.wf r.
Proof.
  destruct (initDirTree cleared 2 (str "/srv/master") (setMaster Node.create)) as [n'| | |] eqn:E;
    try (vm_compute in E; discriminate E).
  destruct (initDirTree_owns_tree cleared 2 (str "/srv/master") (setMaster Node.create) n' E)
    as (r & Er & W & _).
  exists n', r. split; [reflexivity|]. by split.
Defined.

Lemma special_file_aborts_witness :
  initDirTree cleared 2 (str "/srv/pipe") Node.create ≠ Ret Node.create.
Proof.
  apply (special_file_aborts cleared 2 (str "/srv/pipe") Node.create Node.create
    (str "/srv/pipe/fifo") fifo_file); [by_decide|reflexivity|by_decide].
Defined.
End InitWitnesses.
