(* ===== verification/OptionParser.v ===== *)
(** * option_parser.h, option_parser.cc: the command line

    Splitting the command line and converting the values is done by
    boost::program_options, which is the class [ProgramOptions]: from [argv]
    and the described options it makes a map from long names to values, or
    throws.  What the file system and boost::asio are asked about the values is
    the class [Environment]. *)

From S2P Require Import Prelude.

(** A value of [variables_map], by the type it holds. *)
Inductive variable :=
  | VFlag
  | VString (s : bytes)
  | VUint16 (z : Z)
  | VPath (p : bytes).

Inductive value_type := TFlag | TString | TUint16 | TPath.

Definition has_type (ty : value_type) (v : variable) : Prop :=
  match ty, v with
  | TFlag, VFlag | TString, VString _ | TPath, VPath _ => True
  | TUint16, VUint16 z => 0 <= z < 2 ^ 16
  | _, _ => False
  end.

(** [vm[name].as<T>()] throws when the value has another type. *)
Definition bad_any_cast {A} : outcome A := Exn (str "boost::bad_any_cast").

Definition as_string (v : variable) : outcome bytes :=
  match v with VString s => Ret s | _ => bad_any_cast end.

Definition as_uint16 (v : variable) : outcome Z :=
  match v with VUint16 z => Ret z | _ => bad_any_cast end.

Definition as_path (v : variable) : outcome bytes :=
  match v with VPath p => Ret p | _ => bad_any_cast end.

Module OptionParser.

(** The options [initialize] describes: long name, short name, type. *)
Definition all_options : list (string * (ascii * value_type)) :=
  [ ("listen", ("l"%char, TString));
    ("connect", ("c"%char, TString));
    ("tcp-port", ("t"%char, TUint16));
    ("ssh-port", ("s"%char, TUint16));
    ("mount-point", ("m"%char, TPath));
    ("working-directory", ("w"%char, TPath));
    ("help", ("h"%char, TFlag));
    ("version", ("v"%char, TFlag)) ]%string.

Definition type_of (name : string) : option value_type :=
  snd ∘ snd <$> List.find (λ o, bool_decide (o.1 = name)) all_options.

Record t := mk {
  is_master : bool;
  is_standby : bool;
  address : bytes;
  tcp_port : Z;
  ssh_port : Z;
  mount_point : bytes;
  working_dir : bytes
}.
End OptionParser.

Class ProgramOptions :=
  (** [store(parse_command_line(argc, argv, all_options), vm); notify(vm)] *)
  parse_command_line : list bytes → list (string * (ascii * value_type)) →
    outcome (gmap string variable).

(** Only described options are stored, with values of their types. *)
Class ProgramOptionsOk `{ProgramOptions} : Prop :=
  parse_typed argv vm name v :
    parse_command_line argv OptionParser.all_options = Ret vm → vm !! name = Some v →
    ∃ ty, OptionParser.type_of name = Some ty ∧ has_type ty v.

Class Environment := {
  (** [address::from_string(s, ec)] leaves no error *)
  valid_address : bytes → bool;
  exists_ : bytes → outcome bool;
  is_directory : bytes → outcome bool
}.

Definition invalid_argument {A} (what : bytes) : outcome A := Exn what.

Module Parse.
Import OptionParser.

Definition count (name : string) (vm : gmap string variable) : bool :=
  bool_decide (is_Some (vm !! name)).

(** The messages of the exceptions, in the order of the checks. *)
Definition conflict : bytes := str "Conflict options --listen and --connect. ".
Definition invalid_help : bytes := str "Invalid option --help. ".
Definition invalid_version : bytes := str "Invalid option --version. ".
Definition no_role : bytes :=
  str "Invalid option(s). You must specify an IP address with either --listen or --connect. ".
Definition invalid_ip (a : bytes) : bytes := str "Invalid IP address (" ++ a ++ str "). ".
Definition no_port : bytes :=
  str "Invalid option(s). Yout must specify a port for TCP connection with --tcp-port. ".
Definition no_mount : bytes :=
  str "Invalid option(s). You must specify a mount point for this filesystem. ".
Definition no_working : bytes :=
  str "Invalid option(s). You must specify a temporary working directory for this filesystem. ".
Definition quote : bytes := [ascii_of_N 34].
Definition bad_dir (what which : string) (p : bytes) : bytes :=
  str "Invalid option(s). " ++ str which ++ quote ++ p ++ quote ++ str what.

Section Parse.
Context `{Environment}.

(** [if (!exists(p)) throw ...; if (!is_directory(p)) throw ...;] *)
Definition check_directory (which : string) (p : bytes) : outcome unit :=
  b ← exists_ p;
  if negb b then invalid_argument (bad_dir " not exists. " which p) else
  b ← is_directory p;
  if negb b then invalid_argument (bad_dir " is not directory. " which p) else Ret tt.

(** [parse] once the command line is stored in [vm]; the members not assigned
    keep their old values [o]. *)
Definition parse_map (vm : gmap string variable) (o : OptionParser.t)
    : outcome OptionParser.t :=
  let none := mk false false (address o) (tcp_port o) (ssh_port o) (mount_point o)
                 (working_dir o) in
  if (size vm =? 1)%nat && count "version" vm then Ret none else
  if ((size vm =? 1)%nat && count "help" vm) || (size vm =? 0)%nat then Ret none else
  if count "listen" vm && count "connect" vm then invalid_argument conflict else
  if count "help" vm then invalid_argument invalid_help else
  if count "version" vm then invalid_argument invalid_version else
  '(master, standby, addr) ←
    (match vm !! "listen"%string with
     | Some v => a ← as_string v; Ret (true, false, a)
     | None =>
         match vm !! "connect"%string with
         | Some v => a ← as_string v; Ret (false, true, a)
         | None => invalid_argument no_role
         end
     end);
  if negb (valid_address addr) then invalid_argument (invalid_ip addr) else
  tcp ← (match vm !! "tcp-port"%string with
         | Some v => as_uint16 v
         | None => invalid_argument no_port
         end);
  ssh ← (match vm !! "ssh-port"%string with Some v => as_uint16 v | None => Ret 22 end);
  mount ← (match vm !! "mount-point"%string with
           | Some v => as_path v
           | None => invalid_argument no_mount
           end);
  _ ← check_directory "Mount point " mount;
  work ← (match vm !! "working-directory"%string with
          | Some v => as_path v
          | None => invalid_argument no_working
          end);
  _ ← check_directory "Working directory " work;
  Ret (mk master standby addr tcp ssh mount work).

Definition parse `{ProgramOptions} (argv : list bytes) (o : OptionParser.t)
    : outcome OptionParser.t :=
  vm ← parse_command_line argv all_options; parse_map vm o.
End Parse.
End Parse.

(** ** What is accepted *)

Section Accepted.
Context `{Environment}.
Import OptionParser Parse.

Definition directory_ok (p : bytes) : Prop := exists_ p = Ret true ∧ is_directory p = Ret true.

(** The options [vm] start a node configured as [p]. *)
Record accepted (vm : gmap string variable) (p : OptionParser.t) : Prop := {
  acc_role :
    (is_master p = true ∧ is_standby p = false ∧
      vm !! "listen"%string = Some (VString (address p)) ∧ vm !! "connect"%string = None) ∨
    (is_master p = false ∧ is_standby p = true ∧
      vm !! "listen"%string = None ∧ vm !! "connect"%string = Some (VString (address p)));
  acc_alone : vm !! "help"%string = None ∧ vm !! "version"%string = None;
  acc_address : valid_address (address p) = true;
  acc_tcp : vm !! "tcp-port"%string = Some (VUint16 (tcp_port p));
  acc_ssh : vm !! "ssh-port"%string = Some (VUint16 (ssh_port p)) ∨
    (vm !! "ssh-port"%string = None ∧ ssh_port p = 22);
  acc_mount : vm !! "mount-point"%string = Some (VPath (mount_point p)) ∧
    directory_ok (mount_point p);
  acc_work : vm !! "working-directory"%string = Some (VPath (working_dir p)) ∧
    directory_ok (working_dir p)
}.

Lemma check_directory_Ret which p u : check_directory which p = Ret u ↔ directory_ok p.
Proof.
  unfold check_directory, directory_ok. destruct u.
  destruct (exists_ p) as [[]| | |], (is_directory p) as [[]| | |]; naive_solver.
Qed.

Lemma count_false name vm : count name vm = false ↔ vm !! name = None.
Proof. unfold count. rewrite bool_decide_eq_false. by rewrite eq_None_not_Some. Qed.

Lemma count_true name vm : count name vm = true ↔ is_Some (vm !! name).
Proof. unfold count. apply bool_decide_eq_true. Qed.

Lemma as_string_Ret v s : as_string v = Ret s ↔ v = VString s.
Proof. destruct v; naive_solver. Qed.

Lemma as_uint16_Ret v z : as_uint16 v = Ret z ↔ v = VUint16 z.
Proof. destruct v; naive_solver. Qed.

Lemma as_path_Ret v p : as_path v = Ret p ↔ v = VPath p.
Proof. destruct v; naive_solver. Qed.

Lemma parse_map_accepted vm o p :
  parse_map vm o = Ret p → is_master p || is_standby p = true → accepted vm p.
Proof.
  unfold parse_map. intros E R.
  case_match; [inv_bind; by subst|]. case_match; [inv_bind; by subst|].
  destruct (count "listen" vm && count "connect" vm) eqn:Ec; [done|].
  destruct (count "help" vm) eqn:Eh; [done|]. destruct (count "version" vm) eqn:Ev; [done|].
  apply count_false in Eh, Ev.
  apply bind_Ret_inv in E as ([[master standby] addr] & Hrole & E).
  destruct (valid_address addr) eqn:Ea; [|done]. simpl in E. inv_bind. subst. simpl in *.
  apply check_directory_Ret in Ha2, Ha4.
  split; simpl; try done.
  - destruct (vm !! "listen"%string) as [v|] eqn:El.
    + apply bind_Ret_inv in Hrole as (b & Hv & [= <- <- <-]). apply as_string_Ret in Hv as ->.
      left. split_and!; try done. apply count_false.
      apply andb_false_iff in Ec as [C|C]; [|done]. apply count_false in C. congruence.
    + right. destruct (vm !! "connect"%string) as [v|]; [|done].
      apply bind_Ret_inv in Hrole as (b & Hv & [= <- <- <-]). by apply as_string_Ret in Hv as ->.
  - destruct (vm !! "tcp-port"%string); [|done]. by apply as_uint16_Ret in Ha as ->.
  - destruct (vm !! "ssh-port"%string); [apply as_uint16_Ret in Ha0 as ->; by left|].
    injection Ha0 as <-. by right.
  - destruct (vm !! "mount-point"%string); [|done]. by apply as_path_Ret in Ha1 as ->.
  - destruct (vm !! "working-directory"%string); [|done]. by apply as_path_Ret in Ha3 as ->.
Qed.

Lemma accepted_parse_map vm o p : accepted vm p → parse_map vm o = Ret p.
Proof.
  intros [Hr [Hh Hv] Ha Ht Hs [Hm Dm] [Hw Dw]]. unfold parse_map.
  assert ((size vm =? 0)%nat = false) as ->.
  { apply Nat.eqb_neq. intros C%map_size_empty_iff. by rewrite C in Ht. }
  rewrite (proj2 (count_false "version" vm) Hv), (proj2 (count_false "help" vm) Hh).
  rewrite !andb_false_r. simpl orb. cbv iota. unfold count.
  apply (proj2 (check_directory_Ret "Mount point " _ tt)) in Dm.
  apply (proj2 (check_directory_Ret "Working directory " _ tt)) in Dw.
  destruct p as [master standby addr tcp ssh mount work]. simpl in *.
  destruct Hr as [(-> & -> & -> & ->)|(-> & -> & -> & ->)]; simpl; rewrite Ha, Ht; simpl;
    (destruct Hs as [->|[-> ->]]; simpl); rewrite Hm; simpl; rewrite Dm; simpl;
    rewrite Hw; simpl; by rewrite Dw.
Qed.

(** C31: the command line is accepted exactly when it names one role with a valid
    address, a TCP port, an existing mount point and an existing working
    directory, and neither --help nor --version; the SSH port is 22 unless
    given; and the parsed members are the values of the options. *)
Theorem parse_accepts_iff vm o p :
  is_master p || is_standby p = true → parse_map vm o = Ret p ↔ accepted vm p.
Proof.
  intros R. split; [intros E; by apply (parse_map_accepted vm o)|apply accepted_parse_map].
Qed.

(** parsing returns without a role exactly for an empty command line, for
    --help alone and for --version alone. *)
Theorem parse_without_role vm o :
  (∃ p, parse_map vm o = Ret p ∧ is_master p || is_standby p = false) ↔
  vm = ∅ ∨ (∃ v, vm = {[ "help"%string := v ]}) ∨ (∃ v, vm = {[ "version"%string := v ]}).
Proof.
  assert (∀ name, (size vm =? 1)%nat && count name vm = true ↔ ∃ v, vm = {[name := v]}) as One.
  { intros name. rewrite andb_true_iff, Nat.eqb_eq, count_true. split.
    - intros [Hs [v Hv]]. exists v.
      pose proof (map_size_delete_Some name vm) as Hd. rewrite Hv, Hs in Hd.
      specialize (Hd ltac:(by eexists)). apply map_size_empty_inv in Hd.
      rewrite <- (insert_id vm name v Hv), <- insert_delete_eq, Hd. done.
    - intros [v ->]. by rewrite map_size_singleton, lookup_singleton_eq. }
  pose proof (One "version"%string) as Ov. pose proof (One "help"%string) as Oh.
  assert ((size vm =? 0)%nat = true ↔ vm = ∅) as Oe by (by rewrite Nat.eqb_eq, map_size_empty_iff).
  split.
  - intros (p & E & R). unfold parse_map in E.
    destruct ((size vm =? 1)%nat && count "version" vm); [naive_solver|].
    destruct ((size vm =? 1)%nat && count "help" vm); [naive_solver|].
    destruct (size vm =? 0)%nat; [naive_solver|]. simpl in E. exfalso.
    assert (is_master p || is_standby p = true) as C; [|congruence]. clear -E.
    do 3 (case_match; [done|]).
    apply bind_Ret_inv in E as ([[master standby] addr] & Hrole & E).
    case_match; [done|]. inv_bind. subst. simpl.
    repeat case_match; try done; by apply bind_Ret_inv in Hrole as (b & _ & [= <- <- <-]).
  - intros Hn. unfold parse_map.
    exists (mk false false (address o) (tcp_port o) (ssh_port o) (mount_point o) (working_dir o)).
    split; [|reflexivity].
    destruct ((size vm =? 1)%nat && count "version" vm) eqn:Ev; [done|].
    destruct ((size vm =? 1)%nat && count "help" vm) eqn:Eh; [done|].
    destruct (size vm =? 0)%nat; [done|]. exfalso.
    destruct Hn as [Hn%Oe|[Hn%Oh|Hn%Ov]]; discriminate Hn.
Qed.

(** asking for both roles is refused, whatever else is given. *)
Theorem both_roles_refused vm o v w :
  vm !! "listen"%string = Some v → vm !! "connect"%string = Some w →
  parse_map vm o = Exn conflict.
Proof.
  intros Hl Hc. unfold parse_map.
  assert (1 < size vm)%nat as Hs.
  { rewrite <- (insert_id vm "listen"%string v Hl), <- insert_delete_eq.
    rewrite map_size_insert_None by apply lookup_delete_eq.
    assert (size (delete "listen"%string vm) ≠ 0%nat); [|lia].
    intros C%map_size_empty_iff. assert (delete "listen"%string vm !! "connect"%string = Some w) as D
      by (by rewrite lookup_delete_ne). by rewrite C in D. }
  assert ((size vm =? 1)%nat = false) as -> by (apply Nat.eqb_neq; lia).
  assert ((size vm =? 0)%nat = false) as -> by (apply Nat.eqb_neq; lia). simpl.
  unfold count. by rewrite Hl, Hc.
Qed.
End Accepted.

(** ** A concrete command line *)

Module ExampleOptions.
Import OptionParser.
(** The addresses and directories of the test script. *)
#[export] Instance env : Environment := {|
  valid_address a := bool_decide (a = str "10.0.0.1");
  exists_ p := Ret (bool_decide (p ∈ [str "/mnt/gsfs"; str "/srv/master"]));
  is_directory p := Ret (bool_decide (p ∈ [str "/mnt/gsfs"; str "/srv/master"]))
|}.

Definition listen_map : gmap string variable :=
  {[ "listen" := VString (str "10.0.0.1"); "tcp-port" := VUint16 10000;
     "mount-point" := VPath (str "/mnt/gsfs");
     "working-directory" := VPath (str "/srv/master") ]}%string.

Definition blank : OptionParser.t := mk false false [] 0 0 [] [].

Definition listen_options : OptionParser.t :=
  mk true false (str "10.0.0.1") 10000 22 (str "/mnt/gsfs") (str "/srv/master").

Lemma listen_accepted : accepted listen_map listen_options.
Proof. split; try (by vm_compute); [by left|by right|split; by vm_compute..]. Qed.
End ExampleOptions.

Section OptionWitnesses.
Import ExampleOptions.

Lemma parse_accepts_iff_witness : Parse.parse_map listen_map blank = Ret listen_options.
Proof. apply parse_accepts_iff; [reflexivity|apply listen_accepted]. Defined.

Lemma both_roles_refused_witness :
  Parse.parse_map (<["connect"%string := VString (str "10.0.0.2")]> listen_map) blank =
  Exn Parse.conflict.
Proof. eapply both_roles_refused; reflexivity. Defined.
End OptionWitnesses.
