(* ===== verification/Main.v ===== *)
(** * gsfs.cc: starting a node

    [main] up to the point where the network thread has been started
    (user_fs.cc:137), and [main_next], what the main thread does from there on: the
    rest of [initTCPNetwork], the wait for the semaphore, and the hand-over to
    FUSE.  Between these steps, and at the same time, the network thread runs
    handlers ([steps] of MasterLoop, [slave_steps] of SlaveLoop); the theorems say
    what that may change.  [fork] and the error codes of the acceptor are
    arguments. *)

From S2P Require Import Prelude BytesOrder StdSet Archive Path DirTree Host Packet Ssh.
From S2P Require Import TcpMessager Channel MasterLoop UserFs Group Handshake Startup.
From S2P Require Import InitDirTree OptionParser.
Import Node.

(** Where the main thread is. *)
Inductive progress :=
  | Exit (code : Z)
  (** in [initTCPNetwork], the network thread has just been started *)
  | Starting (is_master : bool) (argv : list bytes) (parser : OptionParser.t) (n : Node.t)
  (** on [_slave_wait_sem] *)
  | Waiting (argv : list bytes) (parser : OptionParser.t) (n : Node.t)
  (** in [fuse_main] *)
  | Serving (n : Node.t) (fuse_args : list bytes).

Section Main.
Context `{TextArchive} `{Resolver} `{FileSystem} `{Environment} `{ProgramOptions}.

(** A [std::vector<char>] with the characters of a string and a final 0. *)
Definition char_vector (s : bytes) : bytes := s ++ [nul].

(** The three arguments [main] passes to FUSE. *)
Definition fuse_args (argv : list bytes) (parser : OptionParser.t) : outcome (list bytes) :=
  arg0 ← at_ argv 0;
  Ret [char_vector arg0; char_vector (OptionParser.mount_point parser); char_vector (str "-f")].

(** [UserFS fs] up to [fs.initHost(...)]; [None] when [initDirTree] threw. *)
Definition init_node (garbage : bytes → TreeNode.t) (fuel : nat) (parser : OptionParser.t)
    : outcome (option Node.t) :=
  let fs := Node.create in
  let fs := if OptionParser.is_master parser then setMaster fs else fs in
  match initDirTree garbage fuel (OptionParser.working_dir parser) fs with
  | Ret fs =>
      Ret (Some (initHost (OptionParser.address parser) (OptionParser.tcp_port parser)
                   (OptionParser.ssh_port parser) fs))
  | Exn _ => Ret None
  | AssertFailed => AssertFailed
  | Undef f => Undef f
  end.

(** [main] until [_tcp_manager.start()] has started the network thread. *)
Definition main (garbage : bytes → TreeNode.t) (fuel : nat) (fork : Z)
    (e1 e2 e3 e4 : bool) (argv : list bytes) (o : OptionParser.t) : outcome progress :=
  match Parse.parse argv o with
  | Ret parser =>
      if negb (OptionParser.is_master parser) && negb (OptionParser.is_standby parser)
      then Ret (Exit 0)
      else if negb (fork =? 0) then Ret (Exit 0)
      else
        fs ← init_node garbage fuel parser;
        match fs with
        | None => Ret (Exit 1)
        | Some fs =>
            let is_master := _host_id fs =? 1 in
            '(failed, fs) ← initTCPNetwork_start (OptionParser.address parser)
                              (OptionParser.tcp_port parser) e1 e2 e3 e4 fs;
            Ret (if (failed : bool) then Exit 1 else Starting is_master argv parser fs)
        end
  | Exn _ => Ret (Exit 1)
  | AssertFailed => AssertFailed
  | Undef f => Undef f
  end.

(** The next step of the main thread, with the node as the network thread has left
    it; [None] while it is blocked and in [fuse_main]. *)
Definition main_next (p : progress) : outcome (option progress) :=
  match p with
  | Starting is_master argv parser n =>
      n ← initTCPNetwork_finish is_master n;
      if (is_master : bool) then args ← fuse_args argv parser; Ret (Some (Serving n args))
      else Ret (Some (Waiting argv parser n))
  | Waiting argv parser n =>
      match sem_wait n with
      | Some n => args ← fuse_args argv parser; Ret (Some (Serving n args))
      | None => Ret None
      end
  | Exit _ | Serving _ _ => Ret None
  end.
End Main.

Section Startup.
Context `{TextArchive} `{Resolver} `{FileSystem} `{Environment} `{ProgramOptions}.

(** The host entry a node makes for itself. *)
Definition own_host (parser : OptionParser.t) (id : Z) : Host.t :=
  Host.mk id (OptionParser.address parser) (working_dir_of (OptionParser.working_dir parser))
    (OptionParser.tcp_port parser) (OptionParser.ssh_port parser).

Lemma init_node_Some garbage fuel parser fs :
  init_node garbage fuel parser = Ret (Some fs) →
  let id := if OptionParser.is_master parser then 1 else 0 in
  ∃ r, _host_id fs = id ∧ _max_host_id fs = 2 ∧ _hosts fs = [own_host parser id] ∧
    _tcp_manager fs = TCPManager.create ∧ _main_thread_is_waiting fs = true ∧
    _slave_wait_sem fs = 0 ∧ _dir_tree fs = Some r ∧ owned id r ∧ TreeNode.type r = DIRECTORY.
Proof.
  unfold init_node. intros E. case_match eqn:Ei; simplify_eq.
  apply initDirTree_owned in Ei as (r & -> & O & T & _). exists r.
  destruct (OptionParser.is_master parser); by split_and!.
Qed.

(** What [main] has done when the network thread has been started. *)
Lemma main_started garbage fuel fork e1 e2 e3 e4 argv o is_master argv' parser n :
  main garbage fuel fork e1 e2 e3 e4 argv o = Ret (Starting is_master argv' parser n) →
  ∃ fs, argv' = argv ∧ Parse.parse argv o = Ret parser ∧ fork = 0 ∧
    OptionParser.is_master parser || OptionParser.is_standby parser = true ∧
    init_node garbage fuel parser = Ret (Some fs) ∧ is_master = (_host_id fs =? 1) ∧
    initTCPNetwork_start (OptionParser.address parser) (OptionParser.tcp_port parser)
      e1 e2 e3 e4 fs = Ret (false, n).
Proof.
  unfold main. intros E. destruct (Parse.parse argv o) as [q| | |]; try discriminate E.
  destruct (negb _ && negb _) eqn:Er; [discriminate E|].
  destruct (Z.eqb_spec fork 0); [|discriminate E]. cbn [negb] in E. inv_bind.
  destruct a as [fs|]; [|discriminate E].
  apply bind_Ret_inv in E as ([[] n'] & En & E); [discriminate E|]. injection E as <- <- <- <-.
  exists fs. split_and!; try done. rewrite <- negb_orb in Er. by apply negb_false_iff in Er.
Qed.

Lemma initTCPNetwork_start_Ret addr port e1 e2 e3 e4 n n' :
  initTCPNetwork_start addr port e1 e2 e3 e4 n = Ret (false, n') →
  _tcp_manager n = TCPManager.create →
  n' = set_tcp_manager (if _host_id n =? 1
    then TCPManager.mk true false (Some (Master.start e1 e2 e3 e4 Master.create)) None
    else TCPManager.mk false true None (Some (Slave.start Slave.create))) n.
Proof.
  unfold initTCPNetwork_start, TCPManager.initialize. intros E Et. rewrite Et in E.
  destruct (_host_id n =? 1); simpl in E;
    [destruct (Master.init addr port)|destruct (Slave.init addr port)]; by simplify_eq/=.
Qed.

(** A node whose network thread has just been started. *)
Lemma starting_node garbage fuel fork e1 e2 e3 e4 argv o is_master argv' parser n :
  main garbage fuel fork e1 e2 e3 e4 argv o = Ret (Starting is_master argv' parser n) →
  let id := if is_master then 1 else 0 in
  ∃ fs r, Parse.parse argv o = Ret parser ∧ is_master = OptionParser.is_master parser ∧
    OptionParser.is_master parser || OptionParser.is_standby parser = true ∧
    _host_id fs = id ∧ _max_host_id fs = 2 ∧ _hosts fs = [own_host parser id] ∧
    _slave_wait_sem fs = 0 ∧ _dir_tree fs = Some r ∧ owned id r ∧ TreeNode.type r = DIRECTORY ∧
    n = set_tcp_manager (if is_master
      then TCPManager.mk true false (Some (Master.start e1 e2 e3 e4 Master.create)) None
      else TCPManager.mk false true None (Some (Slave.start Slave.create))) fs.
Proof.
  intros (fs & -> & Hp & _ & Hr & Ei & Em & En)%main_started.
  apply init_node_Some in Ei as (r & Hid & Hmax & Hh & Ht & _ & Hs & Hd & O & T).
  apply initTCPNetwork_start_Ret in En; [|done].
  assert (is_master = OptionParser.is_master parser) as E.
  { rewrite Em, Hid. by destruct (OptionParser.is_master parser). }
  rewrite <- E in *. exists fs, r. rewrite Hid in En. split_and!; try done. by destruct is_master.
Qed.

(** The main thread of a master registers its host, whatever the network thread has
    done before. *)
Lemma finish_registers `{Memory} n n1 h :
  _hosts n = [h] → steps n n1 →
  ∃ more, _hosts n1 = h :: more ∧
    initTCPNetwork_finish true n1 = Ret (set_hosts ((h :: more) ++ [h]) n1).
Proof.
  intros Eh [more Em]%steps_extends. rewrite Eh in Em. exists more. split; [done|].
  unfold initTCPNetwork_finish, Hosts.get. by rewrite Em.
Qed.

(** A master that has registered itself before anybody was admitted. *)
Lemma registered_in_order garbage fuel fork e1 e2 e3 e4 argv o argv' parser n :
  main garbage fuel fork e1 e2 e3 e4 argv o = Ret (Starting true argv' parser n) →
  just_started n ∧ _hosts n = [own_host parser 1] ∧
  master_ok (_max_host_id n) (_dir_tree n) [own_host parser 1; own_host parser 1].
Proof.
  intros (fs & r & _ & _ & _ & Hid & Hmax & Hh & _ & Hd & [W F] & T & ->)%starting_node.
  split; [by exists e1, e2, e3, e4|]. split; [done|]. split; simpl.
  - done.
  - done.
  - intros [|[|i]] h Hi ?; simplify_eq/=; [lia|done].
  - exists r. split_and!; try done. eapply Forall_impl; [exact F|].
    simpl. unfold len. simpl. lia.
Qed.

(** C8: the start of a master, with the network thread running handlers ([n] to [n1])
    while the main thread has not registered the master's host yet.  Whatever has
    happened, the main thread then registers it; its host table, tree and ids are in
    order afterwards if and only if no client had been admitted before, and if so they
    stay in order in every state the event loop reaches from there.  (The registration
    is one step here; a client that is admitted during it is a data race,
    [HostRace.registration_races_join].) *)
Theorem master_started_in_order `{Memory} garbage fuel fork e1 e2 e3 e4 argv o argv' parser n n1 :
  main garbage fuel fork e1 e2 e3 e4 argv o = Ret (Starting true argv' parser n) → steps n n1 →
  ∃ n2, initTCPNetwork_finish true n1 = Ret n2 ∧
    (master_ok (_max_host_id n2) (_dir_tree n2) (_hosts n2) ↔ _hosts n1 = _hosts n) ∧
    (_hosts n1 = _hosts n → ∀ n3, steps n2 n3 → len (_hosts n3) < 2 ^ 64 →
      master_ok (_max_host_id n3) (_dir_tree n3) (_hosts n3)).
Proof.
  intros (J & Hh & Ok)%registered_in_order S.
  destruct (finish_registers n n1 _ Hh S) as (more & E1 & ->). eexists. split; [done|].
  assert (_hosts n1 = _hosts n →
    master_ok (_max_host_id n1) (_dir_tree n1) (own_host parser 1 :: more ++ [own_host parser 1])) as Ok2.
  { intros Eq. destruct (steps_unadmitted n n1 (just_started_unadmitted n J) S) as (_ & D & _);
      [by rewrite Eq|]. unfold data in D. injection D as _ _ _ _ -> -> _ _.
    rewrite E1, Hh in Eq. by injection Eq as ->. }
  split; [split; [|exact Ok2]|].
  - intros [_ _ Ids _]. destruct more as [|x more]; [by rewrite E1, Hh|]. exfalso.
    specialize (Ids (length (own_host parser 1 :: x :: more)) (own_host parser 1)).
    cbn [_hosts set_hosts] in Ids. rewrite list_lookup_middle in Ids by done.
    specialize (Ids eq_refl). simpl in Ids. lia.
  - intros Eq n3 S3 Hl. exact (steps_master_inv _ n3 S3 (λ _, Ok2 Eq) Hl).
Qed.

(** C37: what clients do to the table that are admitted while the main thread of a master
    is between starting the network thread and registering the master's own host: the
    [more] of them get the ids from 2 on, but the entries from 1 on, and the master the
    entry after them.  At every later time the entry that a read looks up for a file of one
    of them is that of the next of them, and for the last of them that of the master
    itself; the entries of clients that are admitted later are right.  (The registration is one step here; a client that
    is admitted during it is a data race, [HostRace.registration_races_join].) *)
Theorem early_clients_shift_table `{Memory} garbage fuel fork e1 e2 e3 e4 argv o argv' parser n n1 more :
  main garbage fuel fork e1 e2 e3 e4 argv o = Ret (Starting true argv' parser n) →
  steps n n1 → _hosts n1 = _hosts n ++ more →
  ∃ n2, initTCPNetwork_finish true n1 = Ret n2 ∧
    ∀ n3, steps n2 n3 → len (_hosts n3) < 2 ^ 64 →
      (∀ i h, more !! i = Some h → Host.id h = Z.of_nat i + 2) ∧
      ∀ j h, 1 <= j → Hosts.get (_hosts n3) j = Ret h →
        Host.id h = if j <=? len more then j + 1 else if j =? len more + 1 then 1 else j.
Proof.
  intros (J & Hh & [_ Next _ (r & Er & W & _)])%registered_in_order S E1.
  change (len [own_host parser 1; own_host parser 1]) with 2 in Next.
  destruct (finish_registers n n1 _ Hh S) as (more' & E1' & ->).
  assert (more' = more) as -> by (rewrite Hh in E1; simpl in E1; congruence).
  eexists. split; [done|]. intros n3 S3 Hl.
  destruct (steps_numbered n n1) as [R1 (m1 & Em1 & Mx1 & Ids1)];
    [by exists r|by rewrite Next|done|].
  rewrite E1 in Em1. apply app_inv_head in Em1 as <-. rewrite Next in *.
  destruct (steps_numbered (set_hosts ((own_host parser 1 :: more) ++ [own_host parser 1]) n1) n3)
    as [_ (m3 & Em3 & _ & Ids3)]; [done|simpl; rewrite Mx1; apply Zmod_mod|done|].
  cbn [_hosts set_hosts _max_host_id] in *. rewrite Em3 in Hl |- *. unfold len in *.
  rewrite !length_app in Hl. simpl in Hl.
  assert (∀ i h, more !! i = Some h → Host.id h = Z.of_nat i + 2) as Ids.
  { intros i h Hi. rewrite (Ids1 i h Hi). apply lookup_lt_Some in Hi. unfold u64. rewrite wrap_small; lia. }
  split; [exact Ids|]. intros j h Hj Hg. apply at_Ret in Hg.
  destruct (Z.to_nat j) as [|k] eqn:Ej; [lia|]. simpl in Hg. rewrite <- app_assoc in Hg.
  apply lookup_app_Some in Hg as [Hg|[Hk Hg]].
  - rewrite (Ids k h Hg). apply lookup_lt_Some in Hg. rewrite (proj2 (Z.leb_le _ _)) by lia. lia.
  - rewrite (proj2 (Z.leb_gt _ _)) by lia.
    destruct (k - length more)%nat as [|i] eqn:Ei; simpl in Hg.
    + injection Hg as <-. by rewrite (proj2 (Z.eqb_eq _ _)) by lia.
    + rewrite (proj2 (Z.eqb_neq _ _)) by lia. rewrite (Ids3 i h Hg), Mx1, u64_add_l.
      apply lookup_lt_Some in Hg. unfold u64. rewrite wrap_small; lia.
Qed.

(** A stand-by node whose network thread has just been started has id 0 and is
    connecting to the address it was given.  If its main thread goes on before any
    handler has run, it has then queued exactly one message, the join message with
    the tree of its working directory and its own host entry, and cannot pass its
    semaphore. *)
Theorem standby_started garbage fuel fork e1 e2 e3 e4 argv o argv' parser n :
  main garbage fuel fork e1 e2 e3 e4 argv o = Ret (Starting false argv' parser n) →
  ∃ r n2 m, Parse.parse argv o = Ret parser ∧ OptionParser.is_standby parser = true ∧
    _host_id n = 0 ∧ _hosts n = [own_host parser 0] ∧
    _dir_tree n = Some r ∧ TreeNode.wf r ∧
    main_next (Starting false argv' parser n) = Ret (Some (Waiting argv' parser n2)) ∧
    main_next (Waiting argv' parser n2) = Ret None ∧
    slave n2 = Some m ∧ Slave.socket_open m = true ∧ Slave.pending m = [Slave.OpConnect] ∧
    Slave.ready m = [Slave.TWrite (sent (Protocol.message_join
      (DirTree_serialize (_dir_tree n)) (Host.serialize (own_host parser 0))))].
Proof.
  intros (fs & r & Hp & Hb & Hr & Hid & _ & Hh & Hs & Hd & [W _] & _ & ->)%starting_node.
  rewrite <- Hb in Hr. exists r. do 2 eexists. split_and!; try done.
  - unfold main_next, initTCPNetwork_finish. simpl. rewrite Hh. done.
  - unfold main_next, sem_wait. simpl. by rewrite Hs.
  - done.
  - done.
  - done.
  - done.
Qed.

(** A master whose acceptor cannot be opened, bound or listen is mounted all
    the same: nothing is under way in its messager and no client will ever be
    accepted. *)
Theorem acceptor_failure_unnoticed `{Memory} garbage fuel fork e1 e2 e3 e4 argv o argv' parser n n' :
  main garbage fuel fork e1 e2 e3 e4 argv o = Ret (Starting true argv' parser n) →
  e1 || e2 || e3 || e4 = true → steps n n' → n' = n.
Proof.
  intros E He S.
  assert (master n = Some Master.create) as G.
  { apply starting_node in E as (fs & r & _ & _ & _ & _ & _ & _ & _ & _ & _ & _ & ->).
    by destruct e1, e2, e3, e4. }
  induction S as [|n n1 n2 _ IH S]; [done|]. rewrite IH in S by done.
  exfalso. inversion S as [m i op k G' Hi|m i k G' _ Hi];
    change (get_master n) with (master n) in G'; rewrite G in G'; by simplify_eq.
Qed.
End Startup.

(** ** A concrete start *)

Section MainWitnesses.
Import ExampleArchive ExampleGroup ExampleRun ExampleDisk ExampleOptions.

#[local] Instance one_endpoint : Resolver := {| resolve _ _ := (false, [tt]) |}.

Definition connect_map : gmap string variable :=
  <["connect" := VString (str "10.0.0.1")]> (delete "listen" listen_map)%string.

#[local] Instance two_lines : ProgramOptions := λ argv _,
  if decide (argv = [str "gsfs"; str "--connect"]) then Ret connect_map else Ret listen_map.

Definition started (e3 : bool) (argv : list bytes) : progress :=
  match main cleared 2 0 false false e3 false argv blank with Ret p => p | _ => Exit 1 end.

Definition node_of (p : progress) : Node.t :=
  match p with Starting _ _ _ n | Serving n _ | Waiting _ _ n => n | Exit _ => Node.create end.

Definition parser_of (p : progress) : OptionParser.t :=
  match p with Starting _ _ q _ | Waiting _ q _ => q | _ => blank end.

Lemma master_starting e3 :
  main cleared 2 0 false false e3 false [str "gsfs"] blank =
  Ret (Starting true [str "gsfs"] (parser_of (started e3 [str "gsfs"]))
    (node_of (started e3 [str "gsfs"]))).
Proof. destruct e3; vm_compute; reflexivity. Qed.

Lemma standby_starting :
  let argv := [str "gsfs"; str "--connect"] in
  main cleared 2 0 false false false false argv blank =
  Ret (Starting false argv (parser_of (started false argv)) (node_of (started false argv))).
Proof. vm_compute. reflexivity. Qed.

(** A client connects before the main thread goes on, and joins after that. *)
Definition connecting : list action :=
  [Complete 0 (Master.TAccepted false (λ _, str "10.0.0.2")); Run 0].

Definition connected_early : Node.t :=
  match run_from (node_of (started false [str "gsfs"])) connecting with
  | Some (Ret n) => n
  | _ => Node.create
  end.

Lemma master_started_in_order_witness :
  ∃ n2, initTCPNetwork_finish true connected_early = Ret n2 ∧
    master_ok (_max_host_id n2) (_dir_tree n2) (_hosts n2) ∧ len (_hosts n2) = 2.
Proof.
  destruct (master_started_in_order cleared 2 0 false false false false [str "gsfs"] blank _ _ _
    connected_early (master_starting false)) as (n2 & E & Ok & _).
  { apply (play_steps connecting). vm_compute. reflexivity. }
  exists n2. split; [exact E|]. split.
  - apply Ok. vm_compute. reflexivity.
  - vm_compute in E. injection E as <-. reflexivity.
Defined.

(** A client is admitted before the main thread goes on. *)
Definition admitted_first : Node.t :=
  match run_from (node_of (started false [str "gsfs"])) admission with
  | Some (Ret n) => n
  | _ => Node.create
  end.

Definition registered_late : Node.t :=
  match initTCPNetwork_finish true admitted_first with Ret n => n | _ => Node.create end.

Lemma early_clients_shift_table_witness :
  initTCPNetwork_finish true admitted_first = Ret registered_late ∧
  _max_host_id registered_late = 3 ∧
  ∃ h, Hosts.get (_hosts registered_late) 2 = Ret h ∧ Host.id h = 1.
Proof.
  destruct (early_clients_shift_table cleared 2 0 false false false false [str "gsfs"] blank _ _ _
    admitted_first (tail (_hosts admitted_first)) (master_starting false)) as (n2 & E & T).
  { apply (play_steps admission). vm_compute. reflexivity. }
  { vm_compute. reflexivity. }
  assert (initTCPNetwork_finish true admitted_first = Ret registered_late) as E2
    by (vm_compute; reflexivity).
  assert (∀ a b : Node.t, Ret a = Ret b → b = a) as Inj by (intros a b [=]; done).
  rewrite E2 in E. apply Inj in E. subst n2. split; [exact E2|]. split; [vm_compute; reflexivity|].
  destruct (Hosts.get (_hosts registered_late) 2) as [h| | |] eqn:Eh; [|vm_compute in Eh; discriminate Eh..].
  exists h. split; [reflexivity|].
  assert (len (_hosts registered_late) < 2 ^ 64) as Hl by (vm_compute; reflexivity).
  rewrite (proj2 (T registered_late (steps_refl _) Hl) 2 h ltac:(lia) Eh). vm_compute. reflexivity.
Defined.

Lemma standby_started_witness :
  ∃ n2, main_next (started false [str "gsfs"; str "--connect"]) =
      Ret (Some (Waiting [str "gsfs"; str "--connect"]
        (parser_of (started false [str "gsfs"; str "--connect"])) n2)) ∧
    sem_wait n2 = None.
Proof.
  destruct (standby_started cleared 2 0 false false false false [str "gsfs"; str "--connect"]
    blank _ _ _ standby_starting) as (r & n2 & m & _ & _ & _ & _ & _ & _ & E & S & _).
  exists n2. split; [exact E|]. unfold main_next in S. destruct (sem_wait n2); [|reflexivity].
  apply bind_Ret_inv in S as (args & _ & S). discriminate S.
Defined.

Lemma acceptor_failure_unnoticed_witness :
  ¬ ∃ n', steps (node_of (started true [str "gsfs"])) n' ∧ n' ≠ node_of (started true [str "gsfs"]).
Proof.
  intros (n' & S & C).
  exact (C (acceptor_failure_unnoticed cleared 2 0 false false true false [str "gsfs"] blank _ _ _ n'
    (master_starting true) eq_refl S)).
Defined.
End MainWitnesses.
