(* ===== verification/EndToEnd.v ===== *)
(** * From the command lines to the mounted file systems

    [launched] is a group whose nodes [main] (Main) has brought to the point where
    their network threads have just been started.  From there the main threads of
    the slaves take part in the steps of System, and [group_step] adds the step of
    the master's main thread, which registers the master's own host
    (user_fs.cc:141) without any synchronisation.  [orderly_run] shows that a run
    in which nobody is admitted before that ([nobody_early]) is a run of System
    from a registered master, so what Convergence and Delivery show holds for it;
    here this is carried on to what the FUSE callbacks answer (Fuse).  Without
    that condition it does not hold: see [Main.early_clients_shift_table]. *)

From S2P Require Import Prelude BytesOrder StdSet Archive Path DirTree Host Packet Ssh.
From S2P Require Import TcpMessager Channel MasterLoop UserFs Group Handshake Totality SlaveLoop.
From S2P Require Import Consistency Streams Receivers System SystemInv Convergence Delivery Fuse.
From S2P Require Import Lifetime Startup InitDirTree OptionParser Main.
Import Node.

(** ** The start *)

Section Launch.
Context `{TextArchive} `{Memory}.

(** [main] gets to [p] on some machine: each has its own name service, disk,
    environment and command line. *)
Definition starts (p : progress) : Prop :=
  ∃ (R : Resolver) (F : FileSystem) (E : Environment) (P : ProgramOptions)
    garbage fuel fork e1 e2 e3 e4 argv o,
    main garbage fuel fork e1 e2 e3 e4 argv o = Ret p.

(** The nodes of the group, each with its network thread just started and the rest of
    [initTCPNetwork] before it; nothing has been carried over the network yet. *)
Record launched_peer (p : peer) : Prop := {
  lp_main : ∃ argv parser, starts (Starting false argv parser (p_node p));
  lp_announced : p_announced p = false;
  lp_linked : p_linked p = false;
  lp_handle : p_handle p = None;
  lp_down : p_down p = [] ∧ p_down_given p = 0%nat;
  lp_up : p_up p = [] ∧ p_up_given p = 0%nat
}.

Record launched (s : system) : Prop := {
  l_master : ∃ argv parser, starts (Starting true argv parser (sys_master s));
  l_peers : Forall launched_peer (sys_peers s);
  l_fits : sys_fits s
}.

Lemma launched_peer_started p : launched_peer p → peer_started p.
Proof.
  intros [(argv' & parser & R & F & E & P & garbage & fuel & fork & e1 & e2 & e3 & e4 & argv & o & M)
    A L Hd [D Dg] [U Ug]].
  apply starting_node in M as (fs & r & _ & _ & _ & Hid & _ & Hh & _ & Hr & [W _] & _ & En).
  unfold peer_started. rewrite En. by split_and!; [| |exists r|..].
Qed.

(** ** The main thread of the master *)

(** A group, and whether the main thread of its master has registered the master's
    own host; the main threads of the slaves are part of [sys_step]. *)
Record group := mkGroup { g_system : system; g_registered : bool }.

Inductive group_step (g : group) : group → Prop :=
  | group_runs s' : sys_step (g_system g) s' → group_step g (mkGroup s' (g_registered g))
  | group_registers n' :
      g_registered g = false → initTCPNetwork_finish true (sys_master (g_system g)) = Ret n' →
      group_step g (mkGroup (put_master_node n' (g_system g)) true).

(** Runs all of whose states satisfy [P]. *)
Definition group_steps (P : group → Prop) : group → group → Prop :=
  rtc (λ g g', group_step g g' ∧ sys_fits (g_system g') ∧ P g').

(** No client has been admitted before the master has registered itself. *)
Definition nobody_early (g : group) : Prop :=
  g_registered g = false → length (_hosts (sys_master (g_system g))) = 1%nat.

(** The same for runs without a step of the master's main thread, all of whose peers
    satisfy [Q]. *)
Definition sys_runs (Q : list peer → Prop) : system → system → Prop :=
  rtc (λ s s', sys_step s s' ∧ sys_fits s' ∧ Q (sys_peers s')).

Lemma sys_runs_steps Q s s' : sys_runs Q s s' → sys_steps s s'.
Proof.
  intros S. eapply (rtc_ind_r (sys_steps s)); [constructor| |exact S].
  intros s2 s3 _ (St & F & _) IH. by eapply sys_more.
Qed.

(** A schedule of such a run; [ok] tests every state. *)
Inductive group_action := Acts (a : sys_action) | Registers.

Definition group_act (a : group_action) (g : group) : option group :=
  match a with
  | Acts a => s ← sys_act a (g_system g); Some (mkGroup s (g_registered g))
  | Registers =>
      if g_registered g then None else
      n ← returned (initTCPNetwork_finish true (sys_master (g_system g)));
      Some (mkGroup (put_master_node n (g_system g)) true)
  end.

Fixpoint group_play (ok : group → bool) (l : list group_action) (g : group) : option group :=
  match l with
  | [] => Some g
  | a :: l => g' ← group_act a g; guard (sys_fits (g_system g'));;
      if ok g' then group_play ok l g' else None
  end.

Lemma group_act_step a g g' : group_act a g = Some g' → group_step g g'.
Proof.
  unfold group_act. intros E. destruct a as [a|].
  - destruct (sys_act a (g_system g)) as [s|] eqn:Es; simplify_eq/=.
    by apply group_runs, (sys_act_step a).
  - destruct (g_registered g) eqn:Er; [done|].
    destruct (initTCPNetwork_finish true (sys_master (g_system g))) as [n| | |] eqn:En;
      simplify_eq/=. by apply group_registers.
Qed.

Lemma group_play_steps (P : group → Prop) ok l g g' :
  (∀ g, ok g = true → P g) → group_play ok l g = Some g' → group_steps P g g'.
Proof.
  intros Hok. revert g. induction l as [|a l IH]; intros g E; simpl in E; [simplify_eq; apply rtc_refl|].
  destruct (group_act a g) as [g1|] eqn:Ea; [|done]. simpl in E. case_guard; [|done]. simpl in E.
  destruct (ok g1) eqn:Ok; [|done]. eapply rtc_l; [|by apply IH].
  split; [by eapply group_act_step|]. auto.
Qed.

(** The group with another host table at the master. *)
Definition with_hosts (hs : list Host.t) (s : system) : system :=
  put_master_node (set_hosts hs (sys_master s)) s.

Lemma fits_data n n' : data n' = data n → fits n → fits n'.
Proof.
  unfold data. intros E. injection E as _ _ _ _ Em Et Eh _. intros []. split; congruence.
Qed.

(** ** The master alone *)

Lemma sys_step_master s s' : sys_step s s' → steps (sys_master s) (sys_master s').
Proof.
  intros S.
  assert (sys_master s' = sys_master s ∨ fifo_step (sys_master s) (sys_master s')) as [->|F].
  { destruct S; (by left) || right; [by eapply fifo_run|by eapply fifo_complete..]. }
  - constructor.
  - eapply steps_more; [constructor|by apply fifo_step_step].
Qed.

Lemma sys_steps_master s s' : sys_steps s s' → steps (sys_master s) (sys_master s').
Proof.
  induction 1 as [|s s1 s2 _ IH St _]; [constructor|].
  eapply steps_trans; [exact IH|by apply sys_step_master].
Qed.

(** ** Registering first makes no difference *)

(** A step by which nobody is admitted is also a step of a group whose master has
    another host table. *)
Lemma sys_step_unadmitted s s' :
  sys_step s s' → unadmitted (sys_master s) →
  length (_hosts (sys_master s')) = length (_hosts (sys_master s)) →
  unadmitted (sys_master s') ∧ data (sys_master s') = data (sys_master s) ∧
  ∀ hs, sys_step (with_hosts hs s) (with_hosts hs s').
Proof.
  intros S U L.
  destruct (steps_unadmitted _ _ U (sys_step_master _ _ S) L) as (U' & D & _).
  split; [done|]. split; [done|]. intros hs. destruct S.
  - match goal with E : run_task k ?n = Ret n' |- _ =>
      destruct (run_task_blind k n n') as [_ B]; [|exact E|exact L|] end.
    { unfold unadmitted, roster in *. simpl.
      match goal with G : master _ = Some _ |- _ => by rewrite G in U end. }
    by eapply (master_runs (with_hosts hs s)); [..|exact (B hs)].
  - by eapply (master_fails (with_hosts hs s)).
  - by eapply (master_accepts (with_hosts hs s)).
  - by eapply (master_receives (with_hosts hs s)).
  - by eapply (master_transmits (with_hosts hs s)).
  - by eapply (master_writes (with_hosts hs s)).
  - by eapply (peer_announces (with_hosts hs s)).
  - by eapply (peer_runs (with_hosts hs s)).
  - by eapply (peer_fails (with_hosts hs s)).
  - by eapply (peer_connects (with_hosts hs s)).
  - by eapply (peer_receives (with_hosts hs s)).
  - by eapply (peer_transmits (with_hosts hs s)).
  - by eapply (peer_writes (with_hosts hs s)).
Qed.

(** What a run in which nobody is early amounts to: before the master has registered
    itself, a run from the start with any host table; after that, a run of the group
    that starts with the master registered. *)
Lemma orderly_run (P : group → Prop) Q s0 h g :
  unadmitted (sys_master s0) → _hosts (sys_master s0) = [h] → sys_fits s0 →
  (∀ g, P g → nobody_early g ∧ Q (sys_peers (g_system g))) →
  group_steps P (mkGroup s0 false) g →
  if g_registered g then
    fits (sys_master (with_hosts [h; h] s0)) ∧ sys_runs Q (with_hosts [h; h] s0) (g_system g)
  else
    unadmitted (sys_master (g_system g)) ∧
    data (sys_master (g_system g)) = data (sys_master s0) ∧
    ∀ hs, fits (sys_master (with_hosts hs s0)) →
      sys_runs Q (with_hosts hs s0) (with_hosts hs (g_system g)).
Proof.
  intros U0 Eh F0 HP R. revert g R. apply rtc_ind_r; simpl.
  { split; [done|]. split; [done|]. intros hs _. apply rtc_refl. }
  intros g1 g2 _ (St & F & Pg) IH.
  destruct (HP _ Pg) as [Early HQ]. destruct St as [s' St|n' Er E]; simpl in *.
  - destruct (g_registered g1) eqn:Eg.
    { destruct IH as [Fh IH]. split; [done|]. by eapply rtc_r. }
    destruct IH as (U & D & IH). unfold data in D. injection D as D1 D2 D3 D4 D5 D6 D7 D8.
    destruct (sys_step_unadmitted _ _ St U) as (U' & D' & C).
    { rewrite D7, Eh. unfold nobody_early in Early. simpl in Early. rewrite Early by done. done. }
    assert (data (sys_master s') = data (sys_master s0)) as D0.
    { rewrite D'. unfold data. congruence. }
    split; [done|]. split; [done|]. intros hs Fh. eapply rtc_r; [by apply IH|].
    split; [apply C|]. split; [|done]. split; [|apply F].
    eapply fits_data; [|exact Fh]. simpl. unfold data in *. simpl.
    injection D0 as -> -> -> -> -> -> _ ->. done.
  - rewrite Er in IH. destruct IH as (U & D & IH).
    assert (n' = set_hosts [h; h] (sys_master (g_system g1))) as ->.
    { unfold initTCPNetwork_finish, Hosts.get in E. unfold data in D.
      injection D as _ _ _ _ _ _ D7 _. rewrite D7, Eh in E. by injection E as <-. }
    assert (fits (sys_master (with_hosts [h; h] s0))) as Fh.
    { eapply fits_data; [|apply F]. simpl. unfold data in *. simpl.
      injection D as -> -> -> -> -> -> _ ->. done. }
    split; [done|]. by apply IH.
Qed.

(** A group that [main] started, after any run in which nobody was early: it has come
    from one whose master had registered itself before anything else. *)
Lemma launched_run (P : group → Prop) Q s0 s :
  launched s0 → (∀ g, P g → nobody_early g ∧ Q (sys_peers (g_system g))) →
  group_steps P (mkGroup s0 false) (mkGroup s true) →
  ∃ h, let s1 := with_hosts [h; h] s0 in
    _hosts (sys_master s0) = [h] ∧ sys_started s1 ∧ sys_runs Q s1 s ∧
    master_ok (_max_host_id (sys_master s1)) (_dir_tree (sys_master s1)) (_hosts (sys_master s1)).
Proof.
  intros [(argv' & parser & R & F & E & P0 & garbage & fuel & fork & e1 & e2 & e3 & e4 & argv & o & M)
    Lp Fs] HP S.
  pose proof (registered_in_order _ _ _ _ _ _ _ _ _ _ _ _ M) as (J & Eh & Ok).
  apply starting_node in M as (fs & r & _ & _ & _ & _ & _ & _ & _ & Er & [W _] & _ & En).
  destruct (orderly_run P Q s0 _ _ (just_started_unadmitted _ J) Eh Fs HP S) as [Fh S1].
  exists (own_host parser 1). split; [done|]. split; [|done].
  split; cbn [with_hosts put_master_node sys_master sys_peers].
  - exact J.
  - by rewrite En.
  - exists r. split; [|done]. by rewrite En.
  - eapply Forall_impl; [exact Lp|apply launched_peer_started].
  - split; [done|apply Fs].
Qed.

(** ** The root of a slave stays a directory *)

Definition root_type (n : Node.t) : option FileType := TreeNode.type <$> _dir_tree n.

Lemma assign_children_root t n n' : assign_children t n = Ret n' → root_type n' = root_type n.
Proof.
  unfold assign_children, root_type. intros E. inv_bind. subst. simpl.
  by destruct (_dir_tree n); simplify_eq/=.
Qed.

Lemma slave_disconnect_root n n' : slave_disconnect n = Ret n' → root_type n' = root_type n.
Proof.
  unfold slave_disconnect, removeNotOf, root_type. intros E. inv_bind.
  destruct (_dir_tree n) as [r|]; simplify_eq/=. inv_bind. subst.
  case_match; inv_bind; by subst.
Qed.

Lemma read_slave_root p n n' : TCPManager_read_slave p n = Ret n' → root_type n' = root_type n.
Proof.
  unfold TCPManager_read_slave, slaveRecognized, updateInfo. intros E. inv_bind.
  destruct a; inv_bind; subst; try done;
    match goal with A : assign_children _ _ = Ret _ |- _ => exact (assign_children_root _ _ _ A) end.
Qed.

Lemma on_slave_root f (n n' : Node.t) : on_slave f n = Ret n' → root_type n' = root_type n.
Proof. unfold on_slave. intros E. inv_bind. by subst. Qed.

Lemma slave_drop_root (n n' : Node.t) : slave_drop n = Ret n' → root_type n' = root_type n.
Proof.
  unfold slave_drop. intros E. inv_bind.
  etrans; [by eapply slave_disconnect_root|by eapply on_slave_root].
Qed.

Lemma slave_run_root k (n n' : Node.t) : slave_run_task k n = Ret n' → root_type n' = root_type n.
Proof.
  intros E. destruct k; simpl in E; try (by eapply on_slave_root).
  - unfold slave_on_connect in E. case_match; [by eapply on_slave_root|].
    by eapply slave_disconnect_root.
  - unfold slave_on_header in E. case_match; [by eapply on_slave_root|by eapply slave_drop_root].
  - unfold slave_on_body in E. inv_bind. case_match; [|by eapply slave_drop_root]. inv_bind.
    apply on_slave_root in E. rewrite E. apply (read_slave_root _ _ _ Ha1).
  - unfold slave_on_written in E. inv_bind. destruct a0; [|by eapply slave_drop_root].
    inv_bind. by subst.
Qed.

(** A slave of the group with the root it had. *)
Definition same_root (s s' : system) : Prop :=
  ∀ j p', sys_peers s' !! j = Some p' →
    ∃ p, sys_peers s !! j = Some p ∧ root_type (p_node p') = root_type (p_node p).

Lemma put_peer_root s0 s j p p' :
  sys_peers s !! j = Some p → sys_peers s0 = sys_peers s →
  root_type (p_node p') = root_type (p_node p) → same_root s (put_peer j p' s0).
Proof.
  intros Hp Es E k q Hq. simpl in Hq. rewrite Es in Hq.
  apply list_lookup_insert_Some in Hq as [(-> & -> & _)|[_ Hq]]; [by exists p|by exists q].
Qed.

Lemma sys_step_root s s' : sys_step s s' → same_root s s'.
Proof.
  intros S. destruct S; try (intros ? ? Hq; by eexists); eapply put_peer_root; try done.
  - unfold initTCPNetwork_finish, on_tcp, root_type in *. inv_bind. by subst.
  - simpl. match goal with E : slave_run_task _ _ = Ret _ |- _ => by apply (slave_run_root _ _ _ E) end.
Qed.

Lemma sys_steps_root s s' : sys_steps s s' → same_root s s'.
Proof.
  induction 1 as [s|s s1 s2 _ IH St _]; intros j p Hp; [by exists p|].
  destruct (sys_step_root _ _ St j p Hp) as (p1 & Hp1 & E1).
  destruct (IH j p1 Hp1) as (p0 & Hp0 & E0). exists p0. split; [done|congruence].
Qed.
End Launch.

(** ** What is mounted *)

Lemma resolve_same_children r r' names :
  TreeNode.children r = TreeNode.children r' → names ≠ [] →
  DirTree.resolve r names = DirTree.resolve r' names.
Proof. destruct names; [done|]. simpl. by intros ->. Qed.

(** Callbacks that only look the path up. *)
Section SameFiles.
Context `{BoostPathOk}.

Lemma agree_find n n' r r' names :
  agree n n' → _dir_tree n = Some r → _dir_tree n' = Some r' → plain_names names → names ≠ [] →
  FUSEInterface.find (abs_path names) (Some n) = FUSEInterface.find (abs_path names) (Some n').
Proof.
  intros [C _] Er Er' Hp Hn. rewrite !FUSE_find_plain by done. rewrite Er, Er' in *. simpl in *.
  injection C as C. by rewrite (resolve_same_children r r').
Qed.

Lemma agree_readdir n n' r r' names :
  agree n n' → _dir_tree n = Some r → _dir_tree n' = Some r' →
  TreeNode.type r = DIRECTORY → TreeNode.type r' = DIRECTORY → plain_names names →
  FUSEInterface.readdir (abs_path names) (Some n) = FUSEInterface.readdir (abs_path names) (Some n').
Proof.
  intros A Er Er' T T' Hp. unfold FUSEInterface.readdir.
  destruct (decide (names = [])) as [->|Hn]; [|by rewrite (agree_find n n' r r')].
  rewrite !FUSE_find_plain by done. rewrite Er, Er'. simpl. destruct A as [C _].
  rewrite Er, Er' in C. simpl in C. injection C as C. unfold FUSEInterface.readdir_node.
  by rewrite T, T', C.
Qed.
End SameFiles.

Section EndToEnd.
Context `{TextArchiveOk} `{Memory} `{BoostPathOk} {W : Type} `{LibSSH W} `{LocalFiles}.

(** A slave that the master has recognised, with the connection up: both event
    loops run, both sockets are open, no write to it has failed. *)
Definition recognised (s : system) (p : peer) : Prop :=
  ∃ m j sm r h c,
    master (sys_master s) = Some m ∧ Master.stopped m = false ∧
    sys_peers s !! j = Some p ∧ slave (p_node p) = Some sm ∧ Slave.stopped sm = false ∧
    slave_at sm r ∧ Slave.socket_open sm = true ∧ p_handle p = Some h ∧
    Master._connections m !! h = Some c ∧ Master.socket_open c = true ∧ Master.slave_id c ≠ 0 ∧
    ∀ l, Master.TWritten h true l ∉ Master.ready m.

(** The trees of a recognised slave and of the master of a group at rest. *)
Lemma rest_trees s0 s p :
  Packet.sizeLength <= vector_max → launched s0 →
  group_steps nobody_early (mkGroup s0 false) (mkGroup s true) → at_rest s → recognised s p →
  len (_hosts (sys_master s)) < 2 ^ 64 →
  agree (p_node p) (sys_master s) ∧
  ∃ r r', _dir_tree (p_node p) = Some r ∧ TreeNode.type r = DIRECTORY ∧
    _dir_tree (sys_master s) = Some r' ∧ TreeNode.type r' = DIRECTORY ∧
    master_ok (_max_host_id (sys_master s)) (Some r') (_hosts (sys_master s)).
Proof.
  intros Hmem L S R (m & j & sm & q & h & c & G & Hs & Hp & Gs & Hss & A & O & Hh & Hc & Oc & Hi & Hok) Hl.
  destruct (launched_run nobody_early (λ _, True) s0 s L) as (h0 & _ & St & S1%sys_runs_steps & Ok);
    [done..|].
  destruct (sys_steps_inv _ s St S1) as [m1 I].
  rewrite (srv_messager _ _ (si_serving _ _ I)) in G. injection G as ->.
  destruct (rest_agree s m j p sm q h c) as [Ag _]; try done. split; [done|].
  pose proof (steps_master_inv _ _ (sys_steps_master _ _ S1) (λ _, Ok) Hl) as Ok'.
  destruct (ok_root _ _ _ Ok') as (r' & Er' & _ & T' & _).
  destruct (sys_steps_root _ _ S1 j p Hp) as (p0 & Hp0 & E). pose proof (l_peers _ L) as Lp.
  rewrite Forall_forall in Lp.
  apply list_elem_of_lookup_2, Lp in Hp0 as [(argv & parser & ? & ? & ? & ? & M) _ _ _ _ _].
  destruct M as (? & ? & ? & ? & ? & ? & ? & ? & ? & M).
  apply starting_node in M as (fs & r & _ & _ & _ & _ & _ & _ & _ & Er & _ & T & En).
  rewrite En in E. unfold root_type in E. simpl in E. rewrite Er in E. simpl in E. rewrite T in E.
  destruct (_dir_tree (p_node p)) as [r0|] eqn:Er0; [|done]. injection E as T0.
  exists r0, r'. rewrite Er' in Ok'. done.
Qed.

(** A file of another host, read on a node whose host table has it. *)
Lemma read_file_of n r names f h size offset (w : W) :
  plain_names names → _dir_tree n = Some r → DirTree.resolve r names = Some f →
  TreeNode.type f ≠ DIRECTORY → 0 <= offset < 2 ^ 63 → offset < TreeNode.size f →
  Hosts.get (_hosts n) (TreeNode.host_id f) = Ret h → TreeNode.host_id f ≠ _host_id n →
  FUSEInterface.read (abs_path names) size offset (Some n) w =
  ('(k, buff, m, w) ← SSHManager.read (TreeNode.host_id f)
     (path_append (Host.working_dir h) (below names)) offset size
     (_ssh_manager (with_session (TreeNode.host_id f) h n)) w;
   Ret (if k <? 0 then - EIO else s32 k, buff,
        Some (set_ssh_manager m (with_session (TreeNode.host_id f) h n)), w)).
Proof.
  intros Hp Er Ef T Ho Hs Hh Hi. rewrite (FUSE_read_file names size offset n w r f) by done.
  rewrite (UserFS_read_known _ names offset size n w h Hh). cbv zeta.
  rewrite host_id_with_session, (proj2 (Z.eqb_neq _ _) Hi).
  destruct (SSHManager.read _ _ _ _ _ _) as [[[[k b] m] w']| | |]; run; try done.
  by destruct (k <? 0).
Qed.

(** C1: the group as a whole, from the command lines to the mounts.  Take nodes that
    [main] has brought to the start of their network threads, and any run of their main
    threads, their event loops and the network from there in which no client is admitted
    before the master's main thread has registered the master's own host ([nobody_early];
    the program does not enforce this, [Main.early_clients_shift_table]) and trees and host
    tables fit a message ([sys_fits]).  Once the master has registered itself and nothing
    is left to deliver: a recognised slave lists the same directories as the master,
    reports the same attributes and accepts the same opens for every path below the root;
    and a file of another host is read, on either of them, through the SSH session of the
    host whose id the file carries, at the same path below the working directory that the
    host table has for it. *)
Theorem group_serves_same_files s0 s p names :
  Packet.sizeLength <= vector_max → launched s0 →
  group_steps nobody_early (mkGroup s0 false) (mkGroup s true) → at_rest s → recognised s p →
  len (_hosts (sys_master s)) < 2 ^ 64 → plain_names names →
  let path := abs_path names in
  let slave := p_node p in
  let master := sys_master s in
  FUSEInterface.readdir path (Some slave) = FUSEInterface.readdir path (Some master) ∧
  (names ≠ [] →
    FUSEInterface.getattr path (Some slave) = FUSEInterface.getattr path (Some master) ∧
    (∀ flags, FUSEInterface.open path flags (Some slave) = FUSEInterface.open path flags (Some master)) ∧
    ∀ f, FUSEInterface.find path (Some slave) = Ret (Some f) → TreeNode.type f ≠ DIRECTORY →
      ∃ h, Hosts.get (_hosts master) (TreeNode.host_id f) = Ret h ∧
        Host.id h = TreeNode.host_id f ∧
        ∀ n size offset (w : W), n = slave ∨ n = master → TreeNode.host_id f ≠ _host_id n →
          0 <= offset < 2 ^ 63 → offset < TreeNode.size f →
          FUSEInterface.read path size offset (Some n) w =
          ('(k, buff, m, w) ← SSHManager.read (Host.id h)
             (path_append (Host.working_dir h) (below names)) offset size
             (_ssh_manager (with_session (Host.id h) h n)) w;
           Ret (if k <? 0 then - EIO else s32 k, buff,
                Some (set_ssh_manager m (with_session (Host.id h) h n)), w))).
Proof.
  intros Hmem L S R Rec Hl Hp. cbv zeta.
  destruct (rest_trees s0 s p Hmem L S R Rec Hl) as (A & r & r' & Er & T & Er' & T' & Ok).
  split; [by eapply agree_readdir|]. intros Hn.
  pose proof (agree_find (p_node p) (sys_master s) r r' names A Er Er' Hp Hn) as Ef.
  split; [|split].
  - unfold FUSEInterface.getattr. by rewrite Ef.
  - intros flags. unfold FUSEInterface.open. by rewrite Ef.
  - intros f Hf Tf. rewrite Hf, FUSE_find_plain in Ef by done. rewrite FUSE_find_plain in Hf by done.
    rewrite Er in Hf. rewrite Er' in Ef. injection Hf as Hf. injection Ef as Ef.
    destruct (resolved_host _ r' _ names f Ok Hn (eq_sym Ef)) as (h & Hh & Hid).
    exists h. split; [done|]. split; [done|]. rewrite Hid. intros n size offset w [->| ->] Hi Ho Hs.
    + apply (read_file_of _ r); try done. destruct A as [_ Ah]. by rewrite Ah.
    + by apply (read_file_of _ r').
Qed.
End EndToEnd.

(** ** A concrete group, from its command lines *)

Module ExampleLaunch.
Import ExampleArchive ExampleGroup ExampleRun ExampleSystem ExampleDisk ExampleOptions ExamplePath.

#[local] Instance endpoint : Resolver := {| resolve _ _ := (false, [tt]) |}.

(** The working directory of the stand-by node, and its command line. *)
Definition standby_file : entry := file_at "/srv/standby1/standby1_file1" 34.
Definition standby_top : entry :=
  mkEntry (str "/srv/standby1/") directory_file 0 100 2 [standby_file].

Definition standby_env : Environment := {|
  valid_address a := bool_decide (a = str "10.0.0.1");
  exists_ p := Ret (bool_decide (p ∈ [str "/mnt/gsfs"; str "/srv/standby1"]));
  is_directory p := Ret (bool_decide (p ∈ [str "/mnt/gsfs"; str "/srv/standby1"]))
|}.

Definition standby_map : gmap string variable :=
  {[ "connect" := VString (str "10.0.0.1"); "tcp-port" := VUint16 10000;
     "mount-point" := VPath (str "/mnt/gsfs");
     "working-directory" := VPath (str "/srv/standby1") ]}%string.

Definition serving : outcome progress :=
  main (H2 := env) (H3 := λ _ _, Ret listen_map) cleared 2 0 false false false false
    [str "gsfs"] blank.

Definition waiting : outcome progress :=
  main (H1 := disk [standby_top; standby_file]) (H2 := standby_env)
    (H3 := λ _ _, Ret standby_map) cleared 2 0 false false false false [str "gsfs"] blank.

Definition node_at (o : outcome progress) : Node.t :=
  match o with Ret (Starting _ _ _ n) => n | _ => Node.create end.

(** Both network threads have been started. *)
Definition together : system :=
  mkSystem (node_at serving) [mkPeer (node_at waiting) false false None [] 0 [] 0].

(** The main thread of the slave announces it, the slave connects and is accepted; then
    the main thread of the master registers its host; then the slave joins and everything
    is delivered. *)
Definition life : list sys_action :=
  [PeerRuns 0 1; PeerRuns 0 0; PeerTransmits 0 1 5; PeerTransmits 0 1 10000; PeerWrites 0 1;
   PeerRuns 0 0; MasterReceives 0 0; MasterRuns 0; MasterReceives 1 0; MasterRuns 0; MasterRuns 0;
   MasterTransmits 2 0 100; PeerReceives 0 0; PeerRuns 0 0] ++ delivering.

Definition whole_life : list group_action :=
  (Acts <$> [PeerAnnounces 0; PeerConnects 0 0; MasterAccepts 0 (λ _, str "10.0.0.2") 0; MasterRuns 0])
  ++ [Registers] ++ (Acts <$> life).

Definition after_life (n : nat) : system :=
  default together
    (g_system <$> group_play (λ _, true) (take n whole_life) (mkGroup together false)).

Definition joined : system := after_life (length whole_life).

(** The test that nobody is early. *)
Definition orderly_check (g : group) : bool :=
  (g_registered g || (length (_hosts (sys_master (g_system g))) =? 1)%nat).

Lemma orderly_check_ok g : orderly_check g = true → nobody_early g.
Proof. unfold orderly_check, nobody_early. intros E Er. rewrite Er in E. by apply Nat.eqb_eq. Qed.

Lemma life_steps : group_steps nobody_early (mkGroup together false) (mkGroup joined true).
Proof.
  apply (group_play_steps nobody_early orderly_check whole_life); [apply orderly_check_ok|].
  vm_compute. reflexivity.
Qed.

Lemma together_launched : launched together.
Proof.
  split.
  - assert (∃ argv parser, serving = Ret (Starting true argv parser (node_at serving)))
      as (argv & parser & E) by (do 2 eexists; vm_compute; reflexivity).
    exists argv, parser. repeat eexists. exact E.
  - constructor; [|constructor].
    split; [|reflexivity|reflexivity|reflexivity|split; reflexivity|split; reflexivity].
    assert (∃ argv parser, waiting = Ret (Starting false argv parser (node_at waiting)))
      as (argv & parser & E) by (do 2 eexists; vm_compute; reflexivity).
    exists argv, parser, endpoint, (disk [standby_top; standby_file]), standby_env, (λ _ _, Ret standby_map).
    repeat eexists. exact E.
  - by_decide.
Qed.

(** The file of the stand-by node is listed on both, and either reads the other's
    files from its host. *)
Lemma group_serves_same_files_witness :
  FUSEInterface.readdir (abs_path []) (Some (p_node (peer_of joined))) =
    FUSEInterface.readdir (abs_path []) (Some (sys_master joined)) ∧
  FUSEInterface.readdir (abs_path []) (Some (sys_master joined)) =
    Ret (0, [str "master_dir"; str "master_file1"; str "master_file2"; str "standby1_file1"]).
Proof.
  split; [|vm_compute; reflexivity].
  assert (Packet.sizeLength <= vector_max) as Hm by (by compute).
  assert (at_rest joined) as R by (apply idle_at_rest; vm_compute; reflexivity).
  refine (proj1 (group_serves_same_files (H4 := ExampleSSH.lib) (H5 := example_files) together joined (peer_of joined) []
    Hm together_launched life_steps R _ _ _)).
  - exists (master_of joined), 0%nat, (slave_of joined), RHeader, 0%nat, (conn_of joined).
    split_and!; [vm_compute; reflexivity..| |vm_compute; reflexivity|vm_compute; reflexivity
      |vm_compute; reflexivity|vm_compute; reflexivity|by_decide|].
    + left. exists Slave.OpReadHeader. split; [|reflexivity].
      apply (list_elem_of_lookup_2 _ 0). vm_compute. reflexivity.
    + intros l C. assert (Master.ready (master_of joined) = []) as E by (vm_compute; reflexivity).
      rewrite E in C. by apply elem_of_nil in C.
  - by_decide.
  - split_and!; [constructor|apply not_elem_of_nil..].
Defined.
End ExampleLaunch.
