(* ===== verification/HostIds.v ===== *)
(** * Ids and files mean the same on every node at all times

    The master's host table only grows, so an id, once given, stands for the
    same host for ever.  A slave works with whatever tree and host table it was
    sent last, and these may be several messages behind the master's; but every
    message that is on its way carries a tree and a host table that belong
    together, a table that the master's extends, and files that some node of the
    group announced.  [vouch_for] and [speak] say so, as the instances of the
    [Vouching] of Streams.v and the [Speaking] of SystemInv.v, and so it holds
    for whatever a slave has loaded as well.  A read is therefore never sent to
    a host other than the one the id of the file stands for, and that host is
    one that announced the file at this path, also in the middle of joins and
    departures and not only in a group at rest (EndToEnd.v).  All of this holds in
    runs in which no client is admitted before the master has registered its own
    host ([nobody_early]) and, where it is said, in which slaves announce their own
    files ([own_words]); Main.v and Races.v show what happens otherwise. *)

From S2P Require Import Prelude BytesOrder StdSet Archive Path DirTree Host Packet Ssh.
From S2P Require Import TcpMessager Channel MasterLoop UserFs Group Handshake Totality SlaveLoop.
From S2P Require Import Consistency Streams Receivers System SystemInv Convergence Delivery Fuse.
From S2P Require Import Lifetime Startup InitDirTree OptionParser Main EndToEnd.
Import Node.

(** ** Files under another id *)

(** A child of the root that [setHostID] was called on. *)
Definition as_host (i : Z) (f : TreeNode.t) : TreeNode.t :=
  TreeNode.set_host_id i (TreeNode.setHostID i f).

Lemma children_as_host i f : TreeNode.children (as_host i f) = map (as_host i) (TreeNode.children f).
Proof. by destruct f. Qed.

Lemma as_host_owned i f :
  Forall (λ d, TreeNode.host_id d = i) (TreeNode.nodes f) → as_host i f = f.
Proof.
  induction f as [f IH] using TreeNode.tree_ind. rewrite TreeNode.nodes_descendants.
  intros [Hf Hd]%Forall_cons. rewrite TreeNode.Forall_descendants in Hd.
  destruct f as [ty sz u g a m c hid nl nm cs]. simpl in *. subst hid. unfold as_host, TreeNode.set_host_id. simpl. f_equal.
  rewrite <- (map_id cs) at 2. apply map_ext_in. intros x Hx%list_elem_of_In.
  rewrite Forall_forall in IH, Hd. exact (IH x Hx (Hd x Hx)).
Qed.

Lemma resolve_as_host i f names :
  TreeNode.wf f → DirTree.resolve (as_host i f) names = as_host i <$> DirTree.resolve f names.
Proof.
  revert f. induction names as [|x xs IH]; intros f W; [done|].
  cbn [DirTree.resolve]. rewrite children_as_host.
  assert (TreeNode.find_child x (map (as_host i) (TreeNode.children f)) =
    as_host i <$> TreeNode.find_child x (TreeNode.children f)) as ->.
  { unfold TreeNode.find_child. generalize (TreeNode.children f). intros cs.
    induction cs as [|c cs IHc]; [done|]. cbn [map set_find].
    assert (TreeNode.name (as_host i c) = TreeNode.name c) as -> by (by destruct c).
    by repeat case_match. }
  destruct (TreeNode.find_child x _) as [c|] eqn:Ec; [|done]. simpl. apply IH.
  apply set_find_Some in Ec as [Hc _]; [by eapply TreeNode.wf_child|by apply TreeNode.wf_children].
Qed.

(** ** What the master vouches for *)

(** A node of the group: the master or a slave, in whatever state it is. *)
Definition member (s : system) (n : Node.t) : Prop :=
  n = sys_master s ∨ ∃ j p, sys_peers s !! j = Some p ∧ n = p_node p.

(** The tree of a node of the group and the entry it made for itself. *)
Definition machine (s : system) (r : TreeNode.t) (h : Host.t) : Prop :=
  ∃ n, member s n ∧ _dir_tree n = Some r ∧ Hosts.get (_hosts n) 0 = Ret h.

(** The same host, under the id and the address the master gave it. *)
Definition same_host (h h' : Host.t) : Prop :=
  Host.working_dir h' = Host.working_dir h ∧ Host.ssh_port h' = Host.ssh_port h ∧
  Host.tcp_port h' = Host.tcp_port h.

Section Vouch.
Context `{TextArchive} `{Memory}.

(** [announced] are the trees and host entries with which nodes join; [table] is what
    the host table has grown into. *)
Context (announced : TreeNode.t → Host.t → Prop) (table : list Host.t).

(** [c] is a child of the root of an announced tree, under the id under which
    [table] has the host that was announced with it. *)
Definition origin (c : TreeNode.t) : Prop :=
  ∃ r h h', announced r h ∧ TreeNode.wf r ∧
    c ∈ map (as_host (TreeNode.host_id c)) (TreeNode.children r) ∧
    Hosts.get table (TreeNode.host_id c) = Ret h' ∧ same_host h h'.

(** A tree below its root and a host table that belong together. *)
Definition belongs (hosts : list Host.t) (d : TreeNode.t) : Prop :=
  1 <= TreeNode.host_id d < len hosts.

Definition snapshot (v : knowledge) : Prop :=
  ∃ cs hosts id, v = (Some cs, hosts, id) ∧ hosts `prefix_of` table ∧
    Forall (λ c, Forall (belongs hosts) (TreeNode.nodes c)) cs ∧ Forall origin cs.

(** A message of the master leaves a slave as it is, or teaches it a snapshot. *)
Definition vouch_for : Vouching := λ msg, ∀ v, learn v msg = v ∨ snapshot (learn v msg).

(** A message of a slave announces such a tree and host. *)
Definition speak : Speaking := λ msg, ∃ r h, announced r h ∧ TreeNode.wf r ∧
  Protocol.parse_master (msg ++ [nul]) =
    Ret (Protocol.NewConnection (DirTree_serialize (Some r)) (Host.serialize h)).

Definition known_origin (n : Node.t) : Prop :=
  ∃ r, _dir_tree n = Some r ∧ Forall origin (TreeNode.children r).

Lemma knows_snapshot n i :
  master_ok (_max_host_id n) (_dir_tree n) (_hosts n) → _hosts n `prefix_of` table →
  known_origin n → snapshot (knows n i).
Proof.
  intros [_ _ _ (r & Er & _ & _ & F)] P (r' & Er' & K). unfold knows. rewrite Er in *.
  injection Er' as <-. eexists _, _, _. split; [done|]. split; [done|]. split; [|done].
  by apply TreeNode.Forall_descendants.
Qed.

Lemma certified_snapshot `{!TextArchiveOk} n :
  rooted n → fits n → master_ok (_max_host_id n) (_dir_tree n) (_hosts n) →
  _hosts n `prefix_of` table → known_origin n → certified (H1 := vouch_for) n.
Proof.
  intros R F Ok P K. split.
  - intros v. right. rewrite (proj2 (update_learnt n v R F)). by apply knows_snapshot.
  - intros i Hi v. right. rewrite (proj2 (recognition_learnt i n v R F Hi)). by apply knows_snapshot.
Qed.

(** ** The files of the master *)

Lemma known_origin_data n n' : data n' = data n → known_origin n → known_origin n'.
Proof. unfold data, known_origin. intros E. by injection E as _ _ _ _ _ -> _ _. Qed.

Lemma master_disconnect_origin h n n' :
  master_disconnect h n = Ret n' → known_origin n → known_origin n'.
Proof.
  unfold master_disconnect, sendUpdate. intros E (r & Er & K). inv_bind. case_match; inv_bind;
    [subst; by exists r|].
  eapply known_origin_data; [by eapply on_tcp_data|].
  eapply known_origin_data; [by eapply set_slave_id_data|].
  apply removeOf_Ret in Ha1 as (r' & Er' & ->). rewrite Er in Er'. injection Er' as <-.
  eexists. split; [done|]. simpl. rewrite removeOf_loop_filter. by apply Forall_filter.
Qed.

Lemma close_origin h n n' : close h n = Ret n' → known_origin n → known_origin n'.
Proof.
  unfold close. intros E K. inv_bind. case_match; [|inv_bind; by subst].
  by eapply master_disconnect_origin; [exact E|].
Qed.

Lemma accept_slave_origin s sh h n n' :
  announced s sh → TreeNode.wf s → accept_slave (Some s) sh h n = Ret n' →
  master_ok (_max_host_id n) (_dir_tree n) (_hosts n) →
  _hosts n' `prefix_of` table → known_origin n → known_origin n'.
Proof.
  intros M Ws E Ok P (r & Er & K). unfold accept_slave, sendUpdate_seqs in E. simpl in E. inv_bind. subst.
  apply set_slave_id_data in Ha1 as D. unfold data in D. injection D as _ _ _ _ _ Et Eh _.
  match type of Ha3 with on_tcp _ ?x = _ => set (n2 := x) in * end.
  apply on_tcp_data in Ha3 as D3, E as D4.
  assert (_hosts n2 `prefix_of` table) as P2.
  { assert (_hosts n' = _hosts n2) as <-; [|done]. trans (_hosts a3); [by injection D4|by injection D3]. }
  eapply known_origin_data; [exact D4|]. eapply known_origin_data; [exact D3|]. clear D3 D4.
  simpl in Et, Eh. rewrite Et, Er in Ha2.
  apply merge_Ret in Ha2 as (r1 & s1 & [= <-] & [= <-] & ->). eexists. split; [done|]. simpl.
  destruct Ok as [Sz Next _ (r1 & Er1 & W & _)]. rewrite Er in Er1. injection Er1 as <-.
  apply TreeNode.insert_all_Forall; [by apply TreeNode.wf_children| |done].
  rewrite TreeNode.children_setHostID. apply Forall_forall.
  intros c Hc. pose proof Hc as (x & -> & Hx)%list_elem_of_fmap.
  set (sh' := Host.set_id (_max_host_id n) (Host.set_address (Master.remote a0 (_max_host_id n)) sh)) in *.
  exists s, sh, sh'. split; [done|]. split; [done|]. split; [exact Hc|]. simpl. split; [|done].
  unfold Hosts.get. simpl in P2. rewrite Eh in P2.
  apply (prefix_lookup_Some _ _ (length (_hosts n)) sh') in P2;
    [|unfold Hosts.push; by rewrite lookup_app_r, Nat.sub_diag].
  assert (Z.to_nat (_max_host_id n) = length (_hosts n)) as -> by (rewrite Next; unfold len; lia).
  unfold at_. by rewrite P2.
Qed.

Lemma read_master_origin `{!TextArchiveOk} d h n n' :
  spoken (Speaking := speak) d → TCPManager_read_master (received d) h n = Ret n' →
  master_ok (_max_host_id n) (_dir_tree n) (_hosts n) →
  _hosts n' `prefix_of` table → known_origin n → known_origin n'.
Proof.
  intros (s & sh & M & W & Ep) E Ok P K. unfold TCPManager_read_master in E.
  rewrite data_received, Ep, bind_Ret in E. unfold newConnection in E.
  assert (DirTree_deserialize (DirTree_serialize (Some s)) = Ret (Some s)) as Es.
  { apply ia_load_saved. simpl. by rewrite TreeNode.load_serialize. }
  rewrite Es, bind_Ret, Host.deserialize_serialize, bind_Ret in E. inv_bind.
  case_match; [by eapply close_origin|by eapply accept_slave_origin].
Qed.

Lemma on_master_origin f (n n' : Node.t) : on_master f n = Ret n' → known_origin n → known_origin n'.
Proof. unfold on_master. intros E K. inv_bind. by subst. Qed.

Lemma run_task_origin `{!TextArchiveOk} k (n n' : Node.t) :
  run_task k n = Ret n' → (∀ h d, k = Master.TBody h false d → spoken (Speaking := speak) d) →
  master_ok (_max_host_id n) (_dir_tree n) (_hosts n) →
  _hosts n' `prefix_of` table → known_origin n → known_origin n'.
Proof.
  intros E Sp Ok P K. destruct k; simpl in E; try (by eapply on_master_origin).
  - unfold on_header in E. case_match; [by eapply on_master_origin|by eapply close_origin].
  - unfold on_body in E. inv_bind. case_match eqn:Eb; [|by eapply close_origin].
    apply andb_prop in Eb as [Eec El%Z.eqb_eq]. destruct ec; [done|].
    rewrite setData_fill, bind_Ret in E by done. inv_bind.
    eapply on_master_origin; [exact E|].
    eapply (read_master_origin _ _ _ _ (Sp _ _ eq_refl) Ha1); [done| |done].
    etrans; [|exact P]. by eapply on_master_extends.
  - unfold on_written in E. inv_bind. destruct a1; [|by eapply close_origin]. inv_bind. by subst.
Qed.

(** ** What a slave holds *)

(** Its own files, before it has heard of the group; or files and hosts that
    belong together. *)
Definition held (n : Node.t) : Prop :=
  ∃ r, _dir_tree n = Some r ∧
    (_host_id n = 0 ∧ Forall (λ d, TreeNode.host_id d = 0) (TreeNode.descendants r) ∨
     _hosts n `prefix_of` table ∧ Forall (belongs (_hosts n)) (TreeNode.descendants r) ∧
       Forall origin (TreeNode.children r)).

Lemma held_data n n' : data n' = data n → held n → held n'.
Proof. unfold data, held. intros E. by injection E as _ _ -> _ _ -> -> _. Qed.

Lemma slave_disconnect_held n n' : slave_disconnect n = Ret n' → held n → held n'.
Proof.
  unfold slave_disconnect, removeNotOf. intros E (r & Er & K). rewrite Er in E. cbn [deref] in E.
  rewrite !bind_Ret in E. cbv zeta in E.
  assert (held (set_dir_tree (Some (TreeNode.set_children
    (removeNotOf_loop (_host_id n) (TreeNode.children r)) r)) n)) as K'.
  { eexists. split; [done|]. simpl. rewrite !TreeNode.Forall_descendants in *. simpl.
    rewrite removeNotOf_loop_filter.
    destruct K as [[? K]|(? & K & O)]; [left|right]; split_and!; try done; by apply Forall_filter. }
  case_match; inv_bind; by subst.
Qed.

Lemma read_slave_held d n n' :
  slave_readable d → vouched (Vouching := vouch_for) d →
  TCPManager_read_slave (received d) n = Ret n' → held n → held n'.
Proof.
  intros Rd V E (r & Er & K). pose proof (read_slave_learns d n n' Rd E) as L.
  destruct (V (knows n (_host_id n))) as [Same|(cs & hosts & id & Es & P & F & O)].
  - rewrite Same in L. unfold knows in L. injection L as Lt Lh Li. rewrite Er in Lt.
    destruct (_dir_tree n') as [r'|] eqn:Er'; [|done]. injection Lt as Lt.
    exists r'. rewrite Lh, Li. split; [done|].
    unfold TreeNode.descendants in *. by rewrite Lt.
  - rewrite Es in L. unfold knows in L. injection L as Lt Lh Li.
    destruct (_dir_tree n') as [r'|] eqn:Er'; [|done]. injection Lt as Lt.
    exists r'. split; [done|]. right. rewrite Lh, Lt. split; [done|]. split; [|done].
    apply TreeNode.Forall_descendants. by rewrite Lt.
Qed.

Lemma on_slave_data f (n n' : Node.t) : on_slave f n = Ret n' → data n' = data n.
Proof. unfold on_slave. intros E. inv_bind. by subst. Qed.

Lemma on_slave_held f (n n' : Node.t) : on_slave f n = Ret n' → held n → held n'.
Proof. intros E. by eapply held_data, on_slave_data. Qed.

Lemma slave_drop_held (n n' : Node.t) : slave_drop n = Ret n' → held n → held n'.
Proof.
  unfold slave_drop. intros E K. inv_bind.
  eapply slave_disconnect_held; [exact E|by eapply on_slave_held].
Qed.

(** A handler of a slave, when the message it is given is vouched for. *)
Lemma slave_run_held k (n n' : Node.t) :
  slave_run_task k n = Ret n' →
  (∀ d, k = Slave.TBody false d → slave_readable d ∧ vouched (Vouching := vouch_for) d) →
  held n → held n'.
Proof.
  intros E V K. destruct k; simpl in E; try (by eapply on_slave_held).
  - unfold slave_on_connect in E. case_match; [by eapply on_slave_held|].
    by eapply slave_disconnect_held.
  - unfold slave_on_header in E. case_match; [by eapply on_slave_held|by eapply slave_drop_held].
  - unfold slave_on_body in E. inv_bind. case_match eqn:Eb; [|by eapply slave_drop_held].
    apply andb_prop in Eb as [Eec El%Z.eqb_eq]. destruct ec; [done|].
    rewrite setData_fill, bind_Ret in E by done. inv_bind.
    destruct (V _ eq_refl) as [Rd Vd]. eapply on_slave_held; [exact E|].
    by eapply (read_slave_held _ _ _ Rd Vd Ha0).
  - unfold slave_on_written in E. inv_bind. destruct a0; [|by eapply slave_drop_held].
    inv_bind. by subst.
Qed.
End Vouch.


(** ** The group *)

Section GroupIds.
Context `{TextArchiveOk} `{Memory} (announced : TreeNode.t → Host.t → Prop) (table : list Host.t).

#[local] Instance vouching : Vouching := vouch_for announced table.
#[local] Instance speaking : Speaking := speak announced.

Record group_inv (s : system) : Prop := {
  gi_inv : ∃ m, sys_inv s m;
  gi_master : known_origin announced table (sys_master s);
  gi_held j p : sys_peers s !! j = Some p → held announced table (p_node p)
}.

(** The messages that are about to be handled are those that were sent. *)
Lemma slave_handles s m j p sm d :
  sys_inv s m → sys_peers s !! j = Some p → slave (p_node p) = Some sm →
  Slave.TBody false d ∈ Slave.ready sm → slave_readable d ∧ vouched d.
Proof.
  intros I Hp G Hin. destruct (si_peers _ _ I j p Hp) as [sm1 P].
  rewrite (pi_slave _ _ _ _ P) in G. injection G as <-.
  destruct (pi_down _ _ _ _ P (RGotBody (Packet.size (Slave._packet sm1)) d)) as (msgs & Ch & _);
    [right; by eexists|].
  by apply (channel_body down_msg down_msg_wire) in Ch as (rest & _ & (_ & _ & ? & ?) & _).
Qed.

Lemma master_handles s m h d :
  sys_inv s m → Master.TBody h false d ∈ Master.ready m → spoken d.
Proof.
  intros I Hin.
  destruct (received_at m _ h d (si_inv _ _ I) Hin eq_refl) as (r & A & [[_ ?]|(size & -> & _)]); [done|].
  destruct (si_received _ _ I _ h d Hin eq_refl) as (j & p & Hp & Hh).
  destruct (si_peers _ _ I j p Hp) as [sm P].
  destruct (pi_up _ _ _ _ P (RGotBody size d)) as [msgs Ch]; [by rewrite Hh|].
  by apply (channel_body up_msg up_msg_wire) in Ch as (rest & _ & (_ & _ & _ & ?) & _).
Qed.

(** What a step leaves of the peers. *)
Lemma put_peer_lookup (Q : peer → Prop) s s1 j p :
  sys_peers s1 = sys_peers s → Q p → (∀ k q, sys_peers s !! k = Some q → Q q) →
  ∀ k q, sys_peers (put_peer j p s1) !! k = Some q → Q q.
Proof.
  intros Es K A k q Hq. simpl in Hq. rewrite Es in Hq.
  apply list_lookup_insert_Some in Hq as [(_ & <- & _)|[_ Hq]]; [done|by eapply A].
Qed.

Lemma step_held s m s' :
  sys_inv s m → sys_step s s' → (∀ j p, sys_peers s !! j = Some p → held announced table (p_node p)) →
  ∀ j p, sys_peers s' !! j = Some p → held announced table (p_node p).
Proof.
  intros I S A. destruct S; try done;
    eapply (put_peer_lookup (λ p, held announced table (p_node p))); try done;
    try (by eapply (held_data announced table (p_node p)); [reflexivity|eapply A; eassumption]); simpl.
  - match goal with E : initTCPNetwork_finish _ _ = Ret _ |- _ =>
      unfold initTCPNetwork_finish in E; inv_bind end.
    eapply held_data; [by eapply on_tcp_data|by eapply A].
  - match goal with E : slave_run_task _ _ = Ret _ |- _ =>
      eapply (slave_run_held announced table _ _ _ E); [|by eapply A] end.
    intros d ->. eapply slave_handles; [done..|by eapply list_elem_of_lookup_2].
Qed.

Lemma step_origin s m s' :
  sys_inv s m → sys_step s s' →
  master_ok (_max_host_id (sys_master s)) (_dir_tree (sys_master s)) (_hosts (sys_master s)) →
  _hosts (sys_master s') `prefix_of` table →
  known_origin announced table (sys_master s) → known_origin announced table (sys_master s').
Proof.
  intros I S Ok P K. destruct S; try done.
  match goal with E : run_task _ _ = Ret _ |- _ => eapply (run_task_origin announced table _ _ _ E) end; try done.
  intros h d ->. match goal with G : master (sys_master s) = Some _ |- _ =>
    rewrite (srv_messager _ _ (si_serving _ _ I)) in G; injection G as <- end.
  eapply master_handles; [done|by eapply list_elem_of_lookup_2].
Qed.

Lemma step_group_inv s s' :
  sys_step s s' → sys_fits s' → _hosts (sys_master s') `prefix_of` table →
  master_ok (_max_host_id (sys_master s)) (_dir_tree (sys_master s)) (_hosts (sys_master s)) →
  master_ok (_max_host_id (sys_master s')) (_dir_tree (sys_master s')) (_hosts (sys_master s')) →
  Forall to_announce (sys_peers s) → group_inv s → group_inv s'.
Proof.
  intros S F P Ok Ok' A [[m I] K Hd]. pose proof (step_origin s m s' I S Ok P K) as K'.
  split; [|done|by eapply step_held].
  apply (sys_step_inv s m s' I S F); [|done]. apply (certified_snapshot announced table); [|apply F|done..].
    destruct (ok_root _ _ _ Ok') as (r & Er & W & _). by exists r.
Qed.
End GroupIds.

(** ** A group that [main] started *)

Section LaunchIds.
Context `{TextArchiveOk} `{Memory} (announced : TreeNode.t → Host.t → Prop) (table : list Host.t).
Context (Q : list peer → Prop) (s0 : system) (h0 : Host.t).

#[local] Instance vouching_from : Vouching := vouch_for announced table.
#[local] Instance speaking_from : Speaking := speak announced.

(** The group with its master registered, its master's own files announced, and peers
    that announce what is to be announced as long as [Q] holds of them. *)
Notation s1 := (with_hosts [h0; h0] s0).

Record announcing : Prop := {
  an_launched : launched s0;
  an_host : _hosts (sys_master s0) = [h0];
  an_started : sys_started s1;
  an_ok : master_ok (_max_host_id (sys_master s1)) (_dir_tree (sys_master s1)) (_hosts (sys_master s1));
  an_master r : _dir_tree (sys_master s0) = Some r → announced r h0;
  an_start : Q (sys_peers s0);
  an_peers ps j p r h : Q ps → ps !! j = Some p → p_announced p = false →
    _dir_tree (p_node p) = Some r → Hosts.get (_hosts (p_node p)) 0 = Ret h → announced r h
}.

Context (An : announcing).

Lemma runs_to_announce s m : sys_inv s m → Q (sys_peers s) → Forall to_announce (sys_peers s).
Proof.
  intros I HQ. apply Forall_forall. intros p [j Hp]%list_elem_of_lookup host A Hg.
  destruct (si_peers _ _ I j p Hp) as [sm P]. destruct (pi_rooted _ _ _ _ P) as (r & Er & W).
  destruct (si_fits _ _ I) as [_ F]. rewrite Forall_lookup in F.
  destruct (F j p Hp host A Hg) as [F1 _].
  exists r, host. split; [by eapply (an_peers An)|]. split; [done|]. rewrite Er in *.
  pose proof (len_nonneg (DirTree_serialize (Some r))). pose proof (len_nonneg (Host.serialize host)).
  apply Protocol.parse_join; unfold Protocol.wire_u64; lia.
Qed.

Lemma runs_master_ok s :
  sys_steps s1 s → len (_hosts (sys_master s)) < 2 ^ 64 →
  master_ok (_max_host_id (sys_master s)) (_dir_tree (sys_master s)) (_hosts (sys_master s)).
Proof.
  intros S Hl. exact (steps_master_inv _ _ (sys_steps_master _ _ S) (λ _, an_ok An) Hl).
Qed.

Lemma launched_known : [h0; h0] `prefix_of` table → known_origin announced table (sys_master s1).
Proof.
  intros P. destruct (l_master _ (an_launched An)) as (argv & parser & ? & ? & ? & ? & M).
  destruct M as (? & ? & ? & ? & ? & ? & ? & ? & ? & M).
  apply starting_node in M as (fs & r & _ & _ & _ & _ & _ & Eh & _ & Er & [W O] & _ & En).
  assert (h0 = own_host parser 1) as Eh0.
  { pose proof (an_host An) as E. rewrite En in E. simpl in E. rewrite Eh in E. by injection E as <-. }
  assert (_dir_tree (sys_master s0) = Some r) as Et by (by rewrite En).
  exists r. split; [done|]. rewrite TreeNode.Forall_descendants in O. rewrite Forall_forall in *.
  intros c Hc. pose proof (O c Hc) as Oc.
  assert (TreeNode.host_id c = 1) as Hi.
  { rewrite TreeNode.nodes_descendants in Oc. by apply Forall_cons in Oc as [? _]. }
  exists r, h0, h0. split_and!; try done.
  - by apply (an_master An).
  - rewrite Hi. apply list_elem_of_fmap. exists c. by rewrite as_host_owned.
  - rewrite Hi. unfold Hosts.get, at_. change (Z.to_nat 1) with 1%nat.
    by rewrite (prefix_lookup_Some [h0; h0] table 1 _ eq_refl P).
Qed.

(** What a slave has when its network thread is started. *)
Lemma launched_slave p :
  launched_peer p → ∃ r h, _dir_tree (p_node p) = Some r ∧ Hosts.get (_hosts (p_node p)) 0 = Ret h ∧
    _host_id (p_node p) = 0 ∧ Forall (λ d, TreeNode.host_id d = 0) (TreeNode.descendants r).
Proof.
  intros [(argv & parser & ? & ? & ? & ? & M) _ _ _ _ _].
  destruct M as (? & ? & ? & ? & ? & ? & ? & ? & ? & M).
  apply starting_node in M as (fs & r & _ & _ & _ & Hid & _ & Hh & _ & Er & [W O] & _ & En).
  exists r, (own_host parser 0). rewrite En. simpl. by rewrite Hh.
Qed.

Lemma started_group_inv : [h0; h0] `prefix_of` table → group_inv announced table s1.
Proof.
  intros P. split; [by apply started_inv, (an_started An)|by apply launched_known|].
  intros j p Hp. pose proof (l_peers _ (an_launched An)) as Lp. rewrite Forall_lookup in Lp.
  destruct (launched_slave p (Lp j p Hp)) as (r & h & Er & _ & Hid & O).
  exists r. split; [done|]. by left.
Qed.

Lemma runs_group_inv s :
  sys_runs Q s1 s → _hosts (sys_master s) `prefix_of` table → len table < 2 ^ 64 →
  group_inv announced table s.
Proof.
  intros S. enough (Q (sys_peers s) ∧ (_hosts (sys_master s) `prefix_of` table →
    len table < 2 ^ 64 → group_inv announced table s)) by tauto.
  revert s S. apply rtc_ind_r.
  { split; [apply (an_start An)|]. intros P _. by apply started_group_inv. }
  intros s2 s3 S2%sys_runs_steps (St & F & HQ3) [HQ IH]. split; [done|]. intros P Hl.
  assert (sys_steps s1 s3) as S3 by (by eapply sys_more).
  assert (_hosts (sys_master s2) `prefix_of` _hosts (sys_master s3)) as P23
    by (by apply steps_extends, sys_step_master).
  assert (len (_hosts (sys_master s3)) < 2 ^ 64) as H3 by (apply prefix_length in P; unfold len in *; lia).
  assert (len (_hosts (sys_master s2)) < 2 ^ 64) as H2 by (apply prefix_length in P23; unfold len in *; lia).
  assert (group_inv announced table s2) as G by (apply IH; [by etrans|done]).
  eapply (step_group_inv announced table s2 s3); try done.
  - by apply runs_master_ok.
  - by apply runs_master_ok.
  - destruct (gi_inv _ _ _ G) as [m I]. by eapply runs_to_announce.
Qed.
End LaunchIds.

(** ** Properties *)

Section Reads.
Context `{TextArchiveOk} `{Memory} `{BoostPathOk} {W : Type} `{LibSSH W} `{LocalFiles}.

(** The entry of a table that another one extends. *)
Lemma get_extended (hosts table : list Host.t) d :
  hosts `prefix_of` table → belongs hosts d →
  ∃ h, Hosts.get hosts (TreeNode.host_id d) = Ret h ∧ Hosts.get table (TreeNode.host_id d) = Ret h.
Proof.
  unfold belongs, len, Hosts.get, at_. intros P B.
  destruct (lookup_lt_is_Some_2 hosts (Z.to_nat (TreeNode.host_id d))) as [h Hh]; [lia|].
  exists h. by rewrite Hh, (prefix_lookup_Some _ _ _ _ Hh P).
Qed.

Lemma member_rooted announced table s n : group_inv announced table s → member s n → rooted n.
Proof.
  intros [[m I] _ _] [->|(j & p & Hp & ->)]; [apply I|].
  destruct (si_peers _ _ I j p Hp) as [sm P]. apply P.
Qed.

(** What any node has: its own files before it has heard of the group, or files
    and hosts that belong together, all of them announced. *)
Lemma member_held announced table Q s0 h0 s n :
  announcing announced Q s0 h0 → sys_runs Q (with_hosts [h0; h0] s0) s →
  _hosts (sys_master s) `prefix_of` table → len table < 2 ^ 64 →
  member s n → rooted n ∧ held announced table n.
Proof.
  intros An S P Hl M. pose proof (runs_group_inv announced table Q s0 h0 An s S P Hl) as G.
  split; [by eapply member_rooted|]. destruct M as [->|(j & p & Hp & ->)]; [|by eapply gi_held].
  assert (len (_hosts (sys_master s)) < 2 ^ 64) as Hl'.
  { apply prefix_length in P. unfold len in *. lia. }
  destruct (ok_root _ _ _ (runs_master_ok announced Q s0 h0 An s (sys_runs_steps _ _ _ S) Hl'))
    as (r & Er & _ & _ & F).
  destruct (gi_master _ _ _ G) as (r' & Er' & K). rewrite Er in Er'. injection Er' as <-.
  exists r. split; [done|]. by right.
Qed.

(** A file that does not carry the id of a node that is on its own. *)
Lemma found_belongs announced table n r names f :
  rooted n → held announced table n → _dir_tree n = Some r → DirTree.resolve r names = Some f →
  names ≠ [] → TreeNode.host_id f ≠ 0 ∨ _host_id n ≠ 0 →
  _hosts n `prefix_of` table ∧ belongs (_hosts n) f ∧
  Forall (origin announced table) (TreeNode.children r).
Proof.
  intros (r1 & Er1 & Wr) (r2 & Er2 & K) Er Ef Hn Hi. rewrite Er in Er1, Er2.
  injection Er1 as <-. injection Er2 as <-. destruct (resolve_nodes r names f Wr Ef) as [[-> _]|Hin]; [done|].
  destruct K as [[Hz K]|(P & K & O)]; rewrite Forall_forall in K.
  - rewrite (K f Hin) in Hi. naive_solver.
  - split; [done|]. split; [by apply K|done].
Qed.

(** The main thread of every slave sends the join message before its network thread
    has replaced the tree and the host table it was started with. *)
Definition own_words (s0 : system) (ps : list peer) : Prop :=
  ∀ j p, ps !! j = Some p → p_announced p = false →
    ∃ p0, sys_peers s0 !! j = Some p0 ∧ _dir_tree (p_node p) = _dir_tree (p_node p0) ∧
      _hosts (p_node p) = _hosts (p_node p0).

(** Any run of a group that [main] started in which nobody is early; and one in which,
    besides, every slave announces its own files. *)
Lemma launched_announcing s0 s :
  launched s0 → group_steps nobody_early (mkGroup s0 false) (mkGroup s true) →
  ∃ h0, announcing (λ _ _, True) (λ _, True) s0 h0 ∧ sys_runs (λ _, True) (with_hosts [h0; h0] s0) s.
Proof.
  intros L S. destruct (launched_run nobody_early (λ _, True) s0 s L) as (h0 & Eh & St & S1 & Ok);
    [done..|]. by exists h0.
Qed.

Lemma launched_own_words s0 s :
  launched s0 →
  group_steps (λ g, nobody_early g ∧ own_words s0 (sys_peers (g_system g)))
    (mkGroup s0 false) (mkGroup s true) →
  ∃ h0, announcing (machine s0) (own_words s0) s0 h0 ∧
    sys_runs (own_words s0) (with_hosts [h0; h0] s0) s.
Proof.
  intros L S.
  destruct (launched_run (λ g, nobody_early g ∧ own_words s0 (sys_peers (g_system g)))
    (own_words s0) s0 s L) as (h0 & Eh & St & S1 & Ok); [done|exact S|]. exists h0. split; [|done]. split; try done.
  - intros r Er. exists (sys_master s0). split; [by left|]. by rewrite Eh.
  - intros j p Hp _. by exists p.
  - intros ps j p r h HQ Hp A Er Hg. destruct (HQ j p Hp A) as (p0 & Hp0 & Et & Eh').
    exists (p_node p0). split; [right; by eauto|]. by rewrite <- Et, <- Eh'.
Qed.

(** C2: no read is ever misdirected.  Take a group whose nodes [main] started, after any
    run in which no client is admitted before the master's main thread has registered the
    master's own host ([nobody_early]; the program does not enforce this) and trees and
    host tables fit a message ([sys_fits]), and any time
    after the master has done so (handlers half done, updates under way, slaves that have
    just connected or lost their connection), and any of its nodes with whatever tree and
    host table it has then.  A file that is looked up there and that is not the node's own
    carries an id that the node's table has an entry for; the entry is the one the master's
    table has for the id now and at every later time, and the read goes to the SSH session
    of that host, for the same path below that host's working directory. *)
Theorem no_read_misdirected s0 s s' n names f :
  launched s0 → group_steps nobody_early (mkGroup s0 false) (mkGroup s true) → sys_steps s s' →
  len (_hosts (sys_master s')) < 2 ^ 64 →
  member s n → plain_names names → names ≠ [] →
  FUSEInterface.find (abs_path names) (Some n) = Ret (Some f) →
  TreeNode.type f ≠ DIRECTORY → TreeNode.host_id f ≠ _host_id n →
  ∃ h, Hosts.get (_hosts (sys_master s)) (TreeNode.host_id f) = Ret h ∧
    Hosts.get (_hosts (sys_master s')) (TreeNode.host_id f) = Ret h ∧
    Host.id h = TreeNode.host_id f ∧
    ∀ size offset (w : W), 0 <= offset < 2 ^ 63 → offset < TreeNode.size f →
      FUSEInterface.read (abs_path names) size offset (Some n) w =
      ('(k, buff, m, w) ← SSHManager.read (Host.id h)
         (path_append (Host.working_dir h) (below names)) offset size
         (_ssh_manager (with_session (Host.id h) h n)) w;
       Ret (if k <? 0 then - EIO else s32 k, buff,
            Some (set_ssh_manager m (with_session (Host.id h) h n)), w)).
Proof.
  intros L S S' Hl M Hp Hn Ef T Hi.
  pose proof (steps_extends _ _ (sys_steps_master _ _ S')) as Ex. unfold extends in Ex.
  assert (len (_hosts (sys_master s)) < 2 ^ 64) as Hl'.
  { apply prefix_length in Ex. unfold len in *. lia. }
  rewrite FUSE_find_plain in Ef by done. destruct (_dir_tree n) as [r|] eqn:Er; [|done].
  injection Ef as Ef.
  destruct (launched_announcing s0 s L S) as (h0 & An & Sr).
  destruct (member_held _ _ _ s0 h0 s n An Sr (reflexivity _) Hl' M) as [R Hd].
  destruct (found_belongs _ _ n r names f R Hd Er Ef Hn) as (P & B & _); [lia|].
  destruct (get_extended _ _ f P B) as (h & Hh & Hh').
  assert (belongs (_hosts (sys_master s)) f) as B'.
  { apply prefix_length in P. unfold belongs, len in *. lia. }
  destruct (get_extended _ _ f Ex B') as (h2 & Hh2 & Hh3). rewrite Hh' in Hh2. injection Hh2 as <-.
  exists h. split; [done|]. split; [done|].
  assert (Host.id h = TreeNode.host_id f) as Eid.
  { pose proof (ok_ids _ _ _ (runs_master_ok _ _ s0 h0 An s (sys_runs_steps _ _ _ Sr) Hl')) as Ids.
    apply at_Ret in Hh'. unfold belongs in B. rewrite (Ids _ _ Hh') by lia. lia. }
  split; [done|]. intros size offset w Ho Hs. rewrite Eid. by apply (read_file_of n r).
Qed.

(** C3: every file that is seen is a file of the machine it is read from.  Take a group
    whose nodes [main] started, after any run in which no client is admitted before the
    master has registered its own host ([nobody_early]) and every slave sends its join
    message before it has taken over an update ([own_words]); the program enforces neither;
    and trees and host tables fit a message ([sys_fits]).
    At any time after the master has registered itself and on any node, whatever is found at
    a path below the root, unless it is a file of the node itself before it has heard of the
    group, is what one of the nodes had at that very path when it was started, with
    nothing changed but the host id it and all that is below it carry; and the entry
    of the host table for this id has the working directory and the ports of that
    node. *)
Theorem every_file_has_its_machine s0 s n names f :
  launched s0 →
  group_steps (λ g, nobody_early g ∧ own_words s0 (sys_peers (g_system g)))
    (mkGroup s0 false) (mkGroup s true) →
  len (_hosts (sys_master s)) < 2 ^ 64 →
  member s n → plain_names names → names ≠ [] →
  FUSEInterface.find (abs_path names) (Some n) = Ret (Some f) →
  TreeNode.host_id f ≠ 0 ∨ _host_id n ≠ 0 →
  ∃ n0 f0 h0 h, member s0 n0 ∧ FUSEInterface.find (abs_path names) (Some n0) = Ret (Some f0) ∧
    f = as_host (TreeNode.host_id f) f0 ∧
    Hosts.get (_hosts n0) 0 = Ret h0 ∧ Hosts.get (_hosts n) (TreeNode.host_id f) = Ret h ∧
    Host.working_dir h = Host.working_dir h0 ∧ Host.ssh_port h = Host.ssh_port h0 ∧
    Host.tcp_port h = Host.tcp_port h0.
Proof.
  intros L S Hl M Hp Hn Ef Hi. rewrite FUSE_find_plain in Ef by done.
  destruct (_dir_tree n) as [r|] eqn:Er; [|done]. injection Ef as Ef.
  destruct (launched_own_words s0 s L S) as (hm & An & Sr).
  destruct (member_held _ _ _ s0 hm s n An Sr (reflexivity _) Hl M) as [R Hd].
  destruct (found_belongs _ _ n r names f R Hd Er Ef Hn Hi) as (P & B & O).
  destruct R as (r' & Er' & Wr). rewrite Er in Er'. injection Er' as <-.
  destruct names as [|x xs]; [done|]. cbn [DirTree.resolve] in Ef.
  destruct (TreeNode.find_child x (TreeNode.children r)) as [c|] eqn:Ec; [|done]. simpl in Ef.
  apply set_find_Some in Ec as [Hc Hx]; [|by apply TreeNode.wf_children].
  rewrite Forall_forall in O. destruct (O c Hc) as (r0 & h0 & h & (n0 & M0 & Er0 & Hh0) & W0 & Hin & Hh & Sm).
  apply list_elem_of_fmap in Hin as (c0 & Ec0 & Hc0). set (i := TreeNode.host_id c) in *.
  assert (TreeNode.wf c0) as Wc0 by (by eapply TreeNode.wf_child).
  rewrite Ec0, resolve_as_host in Ef by done.
  destruct (DirTree.resolve c0 xs) as [f0|] eqn:Ef0; [|done]. injection Ef as Ef.
  assert (TreeNode.host_id f = i) as Ei by (by rewrite <- Ef).
  exists n0, f0, h0, h. split; [done|]. split; [|rewrite Ei; split; [done|]; split; [done|]].
  - rewrite FUSE_find_plain, Er0 by done. cbn [mbind option_bind DirTree.resolve].
    assert (TreeNode.find_child x (TreeNode.children r0) = Some c0) as ->; [|by rewrite <- Ef0].
    apply set_find_Some; [by apply TreeNode.wf_children|]. split; [done|].
    rewrite <- Hx, Ec0. by destruct c0.
  - split; [|done]. destruct (get_extended _ _ f P B) as (h' & Hh1 & Hh2). rewrite Ei in *. congruence.
Qed.
End Reads.

(** ** The group of EndToEnd.v, with an update under way *)

Module ExampleIds.
Import ExampleArchive ExampleGroup ExampleRun ExampleSystem ExampleDisk ExampleOptions ExamplePath.
Import ExampleLaunch.

(** The slave has been recognised; the update that follows is on the wire. *)
Definition arriving : system := after_life 30.

(** The test of both conditions, after the slave has announced itself. *)
Definition own_check (g : group) : bool :=
  orderly_check g && forallb p_announced (sys_peers (g_system g)).

Lemma own_check_ok s0 g :
  own_check g = true → nobody_early g ∧ own_words s0 (sys_peers (g_system g)).
Proof.
  unfold own_check. intros [E1 E2]%andb_prop. split; [by apply orderly_check_ok|].
  intros j p Hp A. rewrite forallb_forall in E2.
  rewrite (E2 p) in A by (by eapply list_elem_of_In, list_elem_of_lookup_2). done.
Qed.

Lemma arriving_steps :
  group_steps nobody_early (mkGroup together false) (mkGroup arriving true) ∧
  group_steps (λ g, nobody_early g ∧ own_words together (sys_peers (g_system g)))
    (mkGroup together false) (mkGroup arriving true).
Proof.
  split.
  - apply (group_play_steps nobody_early orderly_check (take 30 whole_life)); [apply orderly_check_ok|].
    vm_compute. reflexivity.
  - apply (group_play_steps _ own_check (take 30 whole_life)); [apply own_check_ok|].
    vm_compute. reflexivity.
Qed.

Lemma arriving_joined : sys_steps arriving joined.
Proof. apply (sys_play_steps (drop 25 life)). vm_compute. reflexivity. Qed.

Definition seen : TreeNode.t :=
  match FUSEInterface.find (abs_path [str "master_file1"]) (Some (p_node (peer_of arriving))) with
  | Ret (Some f) => f
  | _ => ExampleTree.master
  end.

Lemma no_read_misdirected_witness :
  p_down (peer_of arriving) ≠ [] ∧ TreeNode.host_id seen = 1 ∧
  ∃ h, Hosts.get (_hosts (sys_master joined)) (TreeNode.host_id seen) = Ret h ∧
    Host.id h = TreeNode.host_id seen.
Proof.
  split; [by_decide|]. split; [vm_compute; reflexivity|].
  destruct (no_read_misdirected (H4 := ExampleSSH.lib) (H5 := example_files) together arriving joined
    (p_node (peer_of arriving)) [str "master_file1"] seen together_launched
    (proj1 arriving_steps) arriving_joined) as (h & _ & Hh & Hid & _).
  - by_decide.
  - right. exists 0%nat, (peer_of arriving). split; [vm_compute; reflexivity|reflexivity].
  - split_and!; by_decide.
  - done.
  - vm_compute. reflexivity.
  - by_decide.
  - by_decide.
  - exists h. split; [exact Hh|exact Hid].
Defined.

(** The file of the slave as the master has it: a file of host 2. *)
Definition own_seen : TreeNode.t :=
  match FUSEInterface.find (abs_path [str "standby1_file1"]) (Some (sys_master arriving)) with
  | Ret (Some f) => f
  | _ => ExampleTree.master
  end.

Lemma every_file_has_its_machine_witness :
  TreeNode.host_id own_seen = 2 ∧
  ∃ n0 f0 h0 h, member together n0 ∧
    FUSEInterface.find (abs_path [str "standby1_file1"]) (Some n0) = Ret (Some f0) ∧
    own_seen = as_host 2 f0 ∧ Hosts.get (_hosts n0) 0 = Ret h0 ∧
    Hosts.get (_hosts (sys_master arriving)) 2 = Ret h ∧
    Host.working_dir h = Host.working_dir h0.
Proof.
  assert (TreeNode.host_id own_seen = 2) as E2 by (vm_compute; reflexivity).
  split; [exact E2|].
  destruct (every_file_has_its_machine together arriving (sys_master arriving)
    [str "standby1_file1"] own_seen together_launched (proj2 arriving_steps))
    as (n0 & f0 & h0 & h & M & F & E & Hh0 & Hh & Hw & _).
  - by_decide.
  - by left.
  - split_and!; by_decide.
  - done.
  - vm_compute. reflexivity.
  - left. rewrite E2. done.
  - rewrite E2 in E, Hh. exists n0, f0, h0, h. by split_and!.
Defined.
End ExampleIds.
